(** * The Raft engine (package raftengine): a shallow embedding

    The engine binds the protocol core ([raft.Node]), the durable store
    ([storage.Storage]), the membership pool ([membership.Pool]) and the
    application state machine.  Every method of [*engine] that publishes
    committed state is translated here into a function of a small
    state-and-writer monad: the state holds the engine's own fields and the
    collaborators' state, the writer collects, in program order, every call
    the engine makes on a collaborator and every store to one of its atomics.

    Logging ([eng.logger]), tracing ([runtime/trace]) and wait-group
    bookkeeping carry no data that the engine reads back; they are left
    out.  A goroutine started with [go] is recorded as an event that names
    the closure and the values it captured; its body is a function of its
    own, so that it can be run at any later point. *)

From Stdlib Require Import ZArith List Bool Lia String Sorted FinFun.
From Stdlib Require Import Strings.Byte.
From Stdlib Require Import Floats.SpecFloat.
From Stdlib Require Import Permutation Ascii.
From Equations Require Import Equations.
Import ListNotations.

Set Implicit Arguments.
Open Scope Z_scope.

(** ** Machine integers and byte slices *)

Definition uint64 := Z.

Definition uint64_modulus : Z := 2 ^ 64.

Definition uint64_max : Z := uint64_modulus - 1.

(** Go's [uint64] arithmetic wraps around. *)
Definition wrap64 (z : Z) : uint64 := z mod uint64_modulus.

Definition bytes := list byte.

Definition Z_of_byte (b : byte) : Z := Z.of_N (Byte.to_N b).

(** The conversion [byte(z)]: the low eight bits. *)
Definition byte_of_Z (z : Z) : byte :=
  match Byte.of_N (Z.to_N (z mod 256)) with
  | Some b => b
  | None => x00
  end.

(** [len(b)] of a slice. *)
Definition len {A : Type} (l : list A) : Z := Z.of_nat (List.length l).

(** ** Errors *)

(** Go's [error] interface: the four exported sentinels of the package, the
    two errors the engine builds itself, and the errors that come back from
    a collaborator, which the engine only passes on. *)
Inductive error : Type :=
| ErrStopped
| ErrNoLeader
| ErrAlreadySnapshotting
| ErrFailedPrecondition
| ErrSnapshotIndex (index applied : uint64)
| ErrBufferFull
| ErrExternal (tag : string).

(** ** Records of go.etcd.io/raft/v3/raftpb and internal/raftpb *)

Inductive EntryType : Type :=
| EntryNormal
| EntryConfChange
| EntryConfChangeV2.

Record Entry : Type := mkEntry {
  ent_Term : uint64;
  ent_Index : uint64;
  ent_Type : EntryType;
  ent_Data : bytes
}.

Record ConfState : Type := mkConfState {
  cs_Voters : list uint64;
  cs_Learners : list uint64;
  cs_VotersOutgoing : list uint64;
  cs_LearnersNext : list uint64;
  cs_AutoLeave : bool
}.

Record SnapshotMetadata : Type := mkSnapshotMetadata {
  md_ConfState : ConfState;
  md_Index : uint64;
  md_Term : uint64
}.

Record Snapshot : Type := mkSnapshot {
  snap_Data : bytes;
  snap_Metadata : SnapshotMetadata
}.

Record HardState : Type := mkHardState {
  hs_Term : uint64;
  hs_Vote : uint64;
  hs_Commit : uint64
}.

Inductive ConfChangeType : Type :=
| ConfChangeAddNode
| ConfChangeRemoveNode
| ConfChangeUpdateNode
| ConfChangeAddLearnerNode.

Record ConfChange : Type := mkConfChange {
  cc_Type : ConfChangeType;
  cc_NodeID : uint64;
  cc_Context : bytes;
  cc_ID : uint64
}.

(** The message types the engine tells apart; every other one is [MsgOther]. *)
Inductive MessageType : Type :=
| MsgProp
| MsgSnap
| MsgStorageAppend
| MsgStorageApply
| MsgOther (code : Z).

(** A [MsgSnap] built by the protocol core always carries its snapshot, so
    the field is held by value. *)
Record Message : Type := mkMessage {
  msg_Type : MessageType;
  msg_To : uint64;
  msg_From : uint64;
  msg_Snapshot : Snapshot
}.

Inductive MemberType : Type :=
| VoterMember
| RemovedMember
| LearnerMember
| StagingMember
| LocalMember.

(** [raftpb.Member] *)
Record Member : Type := mkMember {
  mem_ID : uint64;
  mem_Address : string;
  mem_Type : MemberType
}.

(** [raftpb.Replicate] *)
Record Replicate : Type := mkReplicate {
  rep_CID : uint64;
  rep_Data : bytes
}.

(** What [new(T)] allocates: every field at its zero value. *)
Definition Replicate_zero : Replicate := mkReplicate 0 [].

Definition ConfChange_zero : ConfChange := mkConfChange ConfChangeAddNode 0 [] 0.

Definition Member_zero : Member := mkMember 0 EmptyString VoterMember.

(** [storage.Snapshot]: the raw snapshot, the pool members saved with it and
    the application data (an [io.ReadCloser], held as the bytes it yields). *)
Record SnapshotFile : Type := mkSnapshotFile {
  sf_Raw : Snapshot;
  sf_Members : list Member;
  sf_Data : bytes
}.

(** A pool member as [promotions] looks at it: [Raw()] and [IsActive()]. *)
Record PoolMember : Type := mkPoolMember {
  pm_Raw : Member;
  pm_IsActive : bool
}.

(** [tracker.Progress], of which the engine reads [Match] only. *)
Record Progress : Type := mkProgress {
  pr_Match : uint64
}.

(** [raft.Status]: [Progress] is a Go map, nil unless this node leads. *)
Record Status : Type := mkStatus {
  st_ID : uint64;
  st_Lead : uint64;
  st_Progress : option (list (uint64 * Progress))
}.

Inductive SnapshotStatus : Type :=
| SnapshotFinish
| SnapshotFailure.

Inductive StateType : Type :=
| StateFollower
| StateCandidate
| StateLeader
| StatePreCandidate.

Record SoftState : Type := mkSoftState {
  ss_Lead : uint64;
  ss_RaftState : StateType
}.

Record ReadState : Type := mkReadState {
  rs_Index : uint64;
  rs_RequestCtx : bytes
}.

(** [raft.Ready]; [SoftState] is a pointer, nil when it did not change. *)
Record Ready : Type := mkReady {
  rd_SoftState : option SoftState;
  rd_HardState : HardState;
  rd_ReadStates : list ReadState;
  rd_Entries : list Entry;
  rd_Snapshot : Snapshot;
  rd_CommittedEntries : list Entry;
  rd_Messages : list Message
}.

(** Reading a Go map: the zero value when the key is absent. *)
Fixpoint Progress_lookup (m : list (uint64 * Progress)) (id : uint64) : Progress :=
  match m with
  | [] => mkProgress 0
  | (k, p) :: rest => if k =? id then p else Progress_lookup rest id
  end.

(** ** The message bus and the events of a run *)

(** The values the engine hands to [msgbus.Broadcast] (an [interface{}]):
    nil, an error, or a log index. *)
Inductive busval : Type :=
| BusNil
| BusErr (e : error)
| BusIndex (i : uint64).

(** A nil [error] passed as [interface{}] is the nil interface. *)
Definition busval_of_error (err : option error) : busval :=
  match err with
  | None => BusNil
  | Some e => BusErr e
  end.

(** The engine's atomics ([internal/atomic]). *)
Inductive atomic_u64 : Type :=
| AppliedIndex
| SnapIndex.

Inductive atomic_bool : Type :=
| Started
| Snapshoting.

(** The closures the engine starts as goroutines, with what they capture. *)
Inductive task : Type :=
| TaskRemoveMember (mem : Member)
| TaskSnapshot (appliedIndex snapIndex : uint64) (ss : SnapshotFile) (snap : Snapshot)
| TaskStateChange (st : StateType)
| TaskSend (msgs : list Message).

Inductive event : Type :=
| EvStoreU64 (a : atomic_u64) (v : uint64)
| EvStoreBool (a : atomic_bool) (b : bool)
| EvGo (t : task)
| EvBroadcast (id : uint64) (v : busval)
| EvBroadcastToAll (v : busval)
| EvSubscribeOnce (id : uint64)
| EvUnsubscribe (id : uint64)
| EvBusClose
| EvFsmApply (data : bytes)
| EvFsmSnapshot
| EvFsmRestore (data : bytes)
| EvStorageSaveEntries (hs : HardState) (es : list Entry)
| EvStorageSaveSnapshot (snap : Snapshot)
| EvStorageApplySnapshot (snap : Snapshot)
| EvStorageCreateSnapshot (i : uint64) (cs : option ConfState)
| EvStorageCompact (i : uint64)
| EvStorageSnapshot
| EvSnapshotterRead (term index : uint64)
| EvSnapshotterWrite (ss : SnapshotFile)
| EvPoolMembers
| EvPoolGet (id : uint64)
| EvPoolAdd (m : Member)
| EvPoolUpdate (m : Member)
| EvPoolRemove (m : Member)
| EvPoolSnapshot
| EvPoolRestore (ms : list Member)
| EvPoolTearDown
| EvMemberSend (m : Message)
| EvNodeStep (m : Message)
| EvNodePropose (data : bytes)
| EvNodeProposeConfChange (cc : ConfChange)
| EvNodeApplyConfChange (cc : ConfChange)
| EvNodeReadIndex (rctx : bytes)
| EvNodeStatus
| EvNodeTransferLeadership (lead transferee : uint64)
| EvNodeForgetLeader
| EvNodeReportSnapshot (id : uint64) (status : SnapshotStatus)
| EvNodeStop
| EvNodeAdvance
| EvIdgenNext
| EvStateChange (st : StateType)
| EvWait (t : task)
| EvSnapshotRequest.

(** ** The collaborators

    The engine depends on its collaborators through Go interfaces only.
    Each interface is a record of methods over the collaborators' own state
    [W], which the engine never inspects: a method takes its arguments and
    the current [W] and gives its results and the next [W].  A Go result
    [(v, err)] is a pair with [option error]. *)

(** [StateMachine]: [Apply], [Snapshot], [Restore]. *)
Record StateMachine (W : Type) : Type := mkStateMachine {
  sm_Apply : bytes -> W -> option error * W;
  sm_Snapshot : W -> (bytes * option error) * W;
  sm_Restore : bytes -> W -> option error * W
}.

(** [storage.Storage] with its [Snapshotter]. *)
Record Storage (W : Type) : Type := mkStorage {
  sto_SaveEntries : HardState -> list Entry -> W -> option error * W;
  sto_SaveSnapshot : Snapshot -> W -> option error * W;
  sto_ApplySnapshot : Snapshot -> W -> option error * W;
  sto_CreateSnapshot : uint64 -> option ConfState -> W -> (Snapshot * option error) * W;
  sto_Compact : uint64 -> W -> option error * W;
  sto_Snapshot : W -> (Snapshot * option error) * W;
  sto_SnapshotterRead : uint64 -> uint64 -> W -> (SnapshotFile * option error) * W;
  sto_SnapshotterWrite : SnapshotFile -> W -> option error * W
}.

(** [membership.Pool], and [Member.Send] of the member it hands out. *)
Record Pool (W : Type) : Type := mkPool {
  pl_Members : W -> list PoolMember * W;
  pl_Get : uint64 -> W -> bool * W;
  pl_Add : Member -> W -> option error * W;
  pl_Update : Member -> W -> option error * W;
  pl_Remove : Member -> W -> option error * W;
  pl_Snapshot : W -> list Member * W;
  pl_Restore : list Member -> W -> unit * W;
  pl_TearDown : W -> option error * W;
  pl_Send : Message -> W -> option error * W
}.

(** [raft.Node], the protocol core. *)
Record Node (W : Type) : Type := mkNode {
  nd_Step : Message -> W -> option error * W;
  nd_Propose : bytes -> W -> option error * W;
  nd_ProposeConfChange : ConfChange -> W -> option error * W;
  nd_ApplyConfChange : ConfChange -> W -> ConfState * W;
  nd_ReadIndex : bytes -> W -> option error * W;
  nd_Status : W -> Status * W;
  nd_TransferLeadership : uint64 -> uint64 -> W -> unit * W;
  nd_ForgetLeader : W -> option error * W;
  nd_ReportSnapshot : uint64 -> SnapshotStatus -> W -> unit * W;
  nd_Stop : W -> unit * W;
  nd_Advance : W -> unit * W
}.

(** The generated codecs of the protobuf records and [raft.IsEmptySnap].
    [Unmarshal] is a method on a pointer: it is given the receiver and
    returns it as the call leaves it, next to the error. *)
Record Codec : Type := mkCodec {
  Replicate_Marshal : Replicate -> bytes * option error;
  Replicate_Unmarshal : bytes -> Replicate -> Replicate * option error;
  ConfChange_Unmarshal : bytes -> ConfChange -> ConfChange * option error;
  Member_Marshal : Member -> bytes * option error;
  Member_Unmarshal : bytes -> Member -> Member * option error;
  IsEmptySnap : Snapshot -> bool
}.

(** Which case of a blocking [select] fires is decided outside the engine.
    A subscription made by [wait] is handed nil or an error, the one made
    by [LinearizableRead] an error or a log index: these are the values the
    two receivers convert without a failing type assertion. *)
Inductive wait_outcome : Type :=
| WaitRecv (v : option error)
| WaitCtxDone (e : error)
| WaitEngineDone.

Inductive read_outcome : Type :=
| ReadTick
| ReadRecvError (e : error)
| ReadRecvIndex (i : uint64)
| ReadCtxDone (e : error)
| ReadEngineDone.

Inductive transfer_outcome : Type :=
| TransferEngineDone
| TransferCtxDone (e : error)
| TransferTick.

(** A call that waits in a loop either returns or is still waiting when
    the observation ends. *)
Inductive outcome (A : Type) : Type :=
| Returned (a : A)
| Blocked.

Arguments Blocked {A}.

(** The rest of the process: the id generator, the bus subscriptions and
    the other goroutines, seen through the [select] statements they wake. *)
Record Runtime (W : Type) : Type := mkRuntime {
  rt_IdgenNext : W -> uint64 * W;
  rt_BusClose : W -> option error * W;
  rt_SelectWait : uint64 -> W -> wait_outcome * W;
  rt_SelectRead : uint64 -> W -> read_outcome * W;
  rt_SelectTransfer : W -> transfer_outcome * W
}.

Record Collaborators (W : Type) : Type := mkCollaborators {
  co_fsm : StateMachine W;
  co_storage : Storage W;
  co_pool : Pool W;
  co_node : Node W;
  co_runtime : Runtime W;
  co_codec : Codec;
  (** [cfg.SnapInterval()] *)
  co_SnapInterval : uint64
}.

(** ** The engine's own fields *)

Record engine : Type := mkEngine {
  started : bool;
  appliedIndex : uint64;
  snapIndex : uint64;
  snapshoting : bool;
  confState : option ConfState;
  leader : bool;
  local_ID : uint64;
  (** [eng.ctx.Err()] *)
  ctx_err : option error;
  (** the buffered channels, oldest message first *)
  proposec : list Message;
  msgc : list Message
}.

(** [New]: the atomics start at zero and false, [confState] is nil. *)
Definition engine_New : engine :=
  mkEngine false 0 0 false None false 0 None [] [].

Definition set_started (b : bool) (e : engine) : engine :=
  mkEngine b (appliedIndex e) (snapIndex e) (snapshoting e) (confState e)
           (leader e) (local_ID e) (ctx_err e) (proposec e) (msgc e).

Definition set_appliedIndex (v : uint64) (e : engine) : engine :=
  mkEngine (started e) v (snapIndex e) (snapshoting e) (confState e)
           (leader e) (local_ID e) (ctx_err e) (proposec e) (msgc e).

Definition set_snapIndex (v : uint64) (e : engine) : engine :=
  mkEngine (started e) (appliedIndex e) v (snapshoting e) (confState e)
           (leader e) (local_ID e) (ctx_err e) (proposec e) (msgc e).

Definition set_snapshoting (b : bool) (e : engine) : engine :=
  mkEngine (started e) (appliedIndex e) (snapIndex e) b (confState e)
           (leader e) (local_ID e) (ctx_err e) (proposec e) (msgc e).

Definition set_confState (cs : option ConfState) (e : engine) : engine :=
  mkEngine (started e) (appliedIndex e) (snapIndex e) (snapshoting e) cs
           (leader e) (local_ID e) (ctx_err e) (proposec e) (msgc e).

Definition set_leader (b : bool) (e : engine) : engine :=
  mkEngine (started e) (appliedIndex e) (snapIndex e) (snapshoting e) (confState e)
           b (local_ID e) (ctx_err e) (proposec e) (msgc e).

Definition set_ctx_err (c : option error) (e : engine) : engine :=
  mkEngine (started e) (appliedIndex e) (snapIndex e) (snapshoting e) (confState e)
           (leader e) (local_ID e) c (proposec e) (msgc e).

Definition set_proposec (c : list Message) (e : engine) : engine :=
  mkEngine (started e) (appliedIndex e) (snapIndex e) (snapshoting e) (confState e)
           (leader e) (local_ID e) (ctx_err e) c (msgc e).

Definition set_msgc (c : list Message) (e : engine) : engine :=
  mkEngine (started e) (appliedIndex e) (snapIndex e) (snapshoting e) (confState e)
           (leader e) (local_ID e) (ctx_err e) (proposec e) c.

(** ** The monad *)

(** A run starts from the engine's fields and the collaborators' state and
    gives a result, the two states as the run leaves them, and the events
    of the run in program order. *)
Record state (W : Type) : Type := mkState {
  eng : engine;
  env : W
}.

Definition M (W A : Type) : Type := state W -> A * state W * list event.

Definition ret {W A : Type} (a : A) : M W A :=
  fun s => (a, s, []).

Definition bind {W A B : Type} (m : M W A) (f : A -> M W B) : M W B :=
  fun s =>
    let '(a, s1, t1) := m s in
    let '(b, s2, t2) := f a s1 in
    (b, s2, t1 ++ t2).

Declare Scope engine_scope.
Delimit Scope engine_scope with engine.

Notation "x <- c1 ;; c2" := (bind c1 (fun x => c2))
  (at level 61, c1 at next level, right associativity) : engine_scope.
Notation "' pat <- c1 ;; c2" := (bind c1 (fun x => match x with pat => c2 end))
  (at level 61, pat pattern, c1 at next level, right associativity) : engine_scope.
Notation "c1 ;; c2" := (bind c1 (fun _ => c2))
  (at level 61, right associativity) : engine_scope.

Open Scope engine_scope.

(** The three components of a run. *)
Definition result {W A : Type} (m : M W A) (s : state W) : A := fst (fst (m s)).

Definition final {W A : Type} (m : M W A) (s : state W) : state W := snd (fst (m s)).

Definition events {W A : Type} (m : M W A) (s : state W) : list event := snd (m s).

(** Reading and writing the engine's fields. *)
Definition gets {W A : Type} (f : engine -> A) : M W A :=
  fun s => (f (eng s), s, []).

Definition modify {W : Type} (f : engine -> engine) : M W unit :=
  fun s => (tt, mkState (f (eng s)) (env s), []).

Definition emit {W : Type} (e : event) : M W unit :=
  fun s => (tt, s, [e]).

(** A call on a collaborator: it moves the collaborators' state and is
    recorded. *)
Definition call {W A : Type} (f : W -> A * W) (e : event) : M W A :=
  fun s => let '(a, w) := f (env s) in (a, mkState (eng s) w, [e]).

(** [for _, x := range xs { body }] *)
Fixpoint for_range {W A : Type} (xs : list A) (body : A -> M W unit) : M W unit :=
  match xs with
  | [] => ret tt
  | x :: rest => body x ;; for_range rest body
  end.

(** ** float64

    [promotions] compares two log indices after converting them to
    [float64].  The conversion, the product and the comparison are those of
    IEEE 754 binary64 with rounding to nearest, ties to even. *)

Definition float64 : Type := spec_float.

Definition float64_prec : Z := 53.

Definition float64_emax : Z := 1024.

(** [float64(n)] for an unsigned integer [n]. *)
Definition float64_of_uint64 (n : uint64) : float64 :=
  binary_normalize float64_prec float64_emax n 0 false.

Definition float64_mul (x y : float64) : float64 :=
  SFmul float64_prec float64_emax x y.

Definition float64_lt (x y : float64) : bool := SFltb x y.

(** The constant [0.9] as a [float64]: 8106479329266893 * 2^-53. *)
Definition float64_0_9 : float64 := S754_finite false 8106479329266893 (-53).

(** The record that [shr] builds when it shifts [m] right by [k >= 1] bits:
    the quotient, the bit shifted out last, and whether a lower bit was set. *)
Definition shifted (m : Z) (k : Z) : shr_record :=
  Build_shr_record (m / 2 ^ k) (2 ^ (k - 1) <=? m mod 2 ^ k)
                   (negb (m mod 2 ^ (k - 1) =? 0)).

(** ** The methods of [*engine] *)

Section Engine.

Context {W : Type} (C : Collaborators W).

Local Abbreviation M := (M W).

(** *** The atomics *)

Definition started_False : M bool := gets (fun e => negb (started e)).

Definition started_UnSet : M unit :=
  modify (set_started false) ;; emit (EvStoreBool Started false).

Definition snapshoting_True : M bool := gets snapshoting.

Definition snapshoting_Set : M unit :=
  modify (set_snapshoting true) ;; emit (EvStoreBool Snapshoting true).

Definition snapshoting_UnSet : M unit :=
  modify (set_snapshoting false) ;; emit (EvStoreBool Snapshoting false).

Definition appliedIndex_Get : M uint64 := gets appliedIndex.

Definition appliedIndex_Set (v : uint64) : M unit :=
  modify (set_appliedIndex v) ;; emit (EvStoreU64 AppliedIndex v).

Definition snapIndex_Get : M uint64 := gets snapIndex.

Definition snapIndex_Set (v : uint64) : M unit :=
  modify (set_snapIndex v) ;; emit (EvStoreU64 SnapIndex v).

(** *** The collaborators' methods, as the engine calls them *)

Definition fsm_Apply (data : bytes) : M (option error) :=
  call (sm_Apply (co_fsm C) data) (EvFsmApply data).

Definition fsm_Snapshot : M (bytes * option error) :=
  call (sm_Snapshot (co_fsm C)) EvFsmSnapshot.

Definition fsm_Restore (data : bytes) : M (option error) :=
  call (sm_Restore (co_fsm C) data) (EvFsmRestore data).

Definition storage_SaveEntries (hs : HardState) (es : list Entry) : M (option error) :=
  call (sto_SaveEntries (co_storage C) hs es) (EvStorageSaveEntries hs es).

Definition storage_SaveSnapshot (snap : Snapshot) : M (option error) :=
  call (sto_SaveSnapshot (co_storage C) snap) (EvStorageSaveSnapshot snap).

Definition storage_ApplySnapshot (snap : Snapshot) : M (option error) :=
  call (sto_ApplySnapshot (co_storage C) snap) (EvStorageApplySnapshot snap).

Definition storage_CreateSnapshot (i : uint64) (cs : option ConfState)
  : M (Snapshot * option error) :=
  call (sto_CreateSnapshot (co_storage C) i cs) (EvStorageCreateSnapshot i cs).

Definition storage_Compact (i : uint64) : M (option error) :=
  call (sto_Compact (co_storage C) i) (EvStorageCompact i).

Definition storage_Snapshot : M (Snapshot * option error) :=
  call (sto_Snapshot (co_storage C)) EvStorageSnapshot.

Definition snapshotter_Read (term index : uint64) : M (SnapshotFile * option error) :=
  call (sto_SnapshotterRead (co_storage C) term index) (EvSnapshotterRead term index).

Definition snapshotter_Write (ss : SnapshotFile) : M (option error) :=
  call (sto_SnapshotterWrite (co_storage C) ss) (EvSnapshotterWrite ss).

Definition pool_Members : M (list PoolMember) :=
  call (pl_Members (co_pool C)) EvPoolMembers.

Definition pool_Get (id : uint64) : M bool :=
  call (pl_Get (co_pool C) id) (EvPoolGet id).

Definition pool_Add (m : Member) : M (option error) :=
  call (pl_Add (co_pool C) m) (EvPoolAdd m).

Definition pool_Update (m : Member) : M (option error) :=
  call (pl_Update (co_pool C) m) (EvPoolUpdate m).

Definition pool_Remove (m : Member) : M (option error) :=
  call (pl_Remove (co_pool C) m) (EvPoolRemove m).

Definition pool_Snapshot : M (list Member) :=
  call (pl_Snapshot (co_pool C)) EvPoolSnapshot.

Definition pool_Restore (ms : list Member) : M unit :=
  call (pl_Restore (co_pool C) ms) (EvPoolRestore ms).

Definition pool_TearDown : M (option error) :=
  call (pl_TearDown (co_pool C)) EvPoolTearDown.

Definition member_Send (m : Message) : M (option error) :=
  call (pl_Send (co_pool C) m) (EvMemberSend m).

Definition node_Step (m : Message) : M (option error) :=
  call (nd_Step (co_node C) m) (EvNodeStep m).

Definition node_Propose (data : bytes) : M (option error) :=
  call (nd_Propose (co_node C) data) (EvNodePropose data).

Definition node_ProposeConfChange (cc : ConfChange) : M (option error) :=
  call (nd_ProposeConfChange (co_node C) cc) (EvNodeProposeConfChange cc).

Definition node_ApplyConfChange (cc : ConfChange) : M ConfState :=
  call (nd_ApplyConfChange (co_node C) cc) (EvNodeApplyConfChange cc).

Definition node_ReadIndex (rctx : bytes) : M (option error) :=
  call (nd_ReadIndex (co_node C) rctx) (EvNodeReadIndex rctx).

Definition node_Status : M Status :=
  call (nd_Status (co_node C)) EvNodeStatus.

Definition node_TransferLeadership (lead transferee : uint64) : M unit :=
  call (nd_TransferLeadership (co_node C) lead transferee)
       (EvNodeTransferLeadership lead transferee).

Definition node_ForgetLeader : M (option error) :=
  call (nd_ForgetLeader (co_node C)) EvNodeForgetLeader.

Definition node_ReportSnapshot (id : uint64) (status : SnapshotStatus) : M unit :=
  call (nd_ReportSnapshot (co_node C) id status) (EvNodeReportSnapshot id status).

Definition node_Stop : M unit :=
  call (nd_Stop (co_node C)) EvNodeStop.

Definition node_Advance : M unit :=
  call (nd_Advance (co_node C)) EvNodeAdvance.

Definition idgen_Next : M uint64 :=
  call (rt_IdgenNext (co_runtime C)) EvIdgenNext.

(** The bus keeps no state that the engine reads: a broadcast is an event. *)
Definition msgbus_Broadcast (id : uint64) (v : busval) : M unit :=
  emit (EvBroadcast id v).

Definition msgbus_BroadcastToAll (v : busval) : M unit :=
  emit (EvBroadcastToAll v).

Definition msgbus_SubscribeOnce (id : uint64) : M unit :=
  emit (EvSubscribeOnce id).

Definition msgbus_Unsubscribe (id : uint64) : M unit :=
  emit (EvUnsubscribe id).

Definition msgbus_Close : M (option error) :=
  call (rt_BusClose (co_runtime C)) EvBusClose.

(** [go f()] *)
Definition go (t : task) : M unit := emit (EvGo t).

(** *** Snapshots: install *)

(** [publishSnapshotFile], lines 684-703.  [eng.confState] becomes a
    pointer to the configuration of the snapshot just applied. *)
Definition publishSnapshotFile (sf : SnapshotFile) : M (option error) :=
  let snap := sf_Raw sf in
  err <- storage_ApplySnapshot snap ;;
  match err with
  | Some e => ret (Some e)
  | None =>
      pool_Restore (sf_Members sf) ;;
      err <- fsm_Restore (sf_Data sf) ;;
      match err with
      | Some e => ret (Some e)
      | None =>
          modify (set_confState (Some (md_ConfState (snap_Metadata snap)))) ;;
          snapIndex_Set (md_Index (snap_Metadata snap)) ;;
          appliedIndex_Set (md_Index (snap_Metadata snap)) ;;
          ret None
      end
  end.

(** [publishSnapshot], lines 656-682. *)
Definition publishSnapshot (snap : Snapshot) : M (option error) :=
  if IsEmptySnap (co_codec C) snap then ret None
  else
    applied <- appliedIndex_Get ;;
    if md_Index (snap_Metadata snap) <=? applied
    then ret (Some (ErrSnapshotIndex (md_Index (snap_Metadata snap)) applied))
    else
      err <- storage_SaveSnapshot snap ;;
      match err with
      | Some e => ret (Some e)
      | None =>
          let meta := snap_Metadata snap in
          '(sf, err) <- snapshotter_Read (md_Term meta) (md_Index meta) ;;
          match err with
          | Some e => ret (Some e)
          | None => publishSnapshotFile sf
          end
      end.

(** *** Committed entries *)

(** [publishReplicate], lines 719-742.  The deferred closure reads [r] and
    [err] as the body leaves them, so the body is run first and the
    broadcast after it. *)
Definition publishReplicate (ent : Entry) : M unit :=
  '(r, err) <-
    (let '(r, err) := Replicate_Unmarshal (co_codec C) (ent_Data ent) Replicate_zero in
     match err with
     | Some e => ret (r, Some e)
     | None =>
         err <- fsm_Apply (rep_Data r) ;;
         ret (r, err)
     end) ;;
  msgbus_Broadcast (rep_CID r) (busval_of_error err).

(** The [switch] of [publishConfChange], lines 772-792: the pool is changed
    at once, except that removing a member is left to a goroutine that
    waits two ticks. *)
Definition publishConfChange_switch (cc : ConfChange) (mem : Member) : M (option error) :=
  match cc_Type cc with
  | ConfChangeAddNode | ConfChangeAddLearnerNode => pool_Add mem
  | ConfChangeUpdateNode => pool_Update mem
  | ConfChangeRemoveNode => go (TaskRemoveMember mem) ;; ret None
  end.

(** [publishConfChange], lines 744-795, with the same deferred broadcast. *)
Definition publishConfChange (ent : Entry) : M unit :=
  '(cc, err) <-
    (let '(cc, err) := ConfChange_Unmarshal (co_codec C) (ent_Data ent) ConfChange_zero in
     match err with
     | Some e => ret (cc, Some e)
     | None =>
         if len (cc_Context cc) =? 0 then ret (cc, None)
         else
           let '(mem, err) := Member_Unmarshal (co_codec C) (cc_Context cc) Member_zero in
           match err with
           | Some e => ret (cc, Some e)
           | None =>
               err <- publishConfChange_switch cc mem ;;
               cs <- node_ApplyConfChange cc ;;
               modify (set_confState (Some cs)) ;;
               ret (cc, err)
           end
     end) ;;
  msgbus_Broadcast (cc_ID cc) (busval_of_error err).

(** The goroutine of [publishConfChange], when its two ticks have passed
    before the engine is shut down: the error is logged only. *)
Definition removeMemberTask (mem : Member) : M unit :=
  _ <- pool_Remove mem ;;
  ret tt.

Definition EntryType_eqb (a b : EntryType) : bool :=
  match a, b with
  | EntryNormal, EntryNormal => true
  | EntryConfChange, EntryConfChange => true
  | EntryConfChangeV2, EntryConfChangeV2 => true
  | _, _ => false
  end.

(** The body of the loop of [publishCommitted], lines 709-715. *)
Definition publishCommitted_entry (ent : Entry) : M unit :=
  (if EntryType_eqb (ent_Type ent) EntryNormal && (0 <? len (ent_Data ent))
   then publishReplicate ent
   else ret tt) ;;
  (if EntryType_eqb (ent_Type ent) EntryConfChange
   then publishConfChange ent
   else ret tt) ;;
  appliedIndex_Set (ent_Index ent).

(** [publishCommitted], lines 705-717. *)
Definition publishCommitted (ents : list Entry) : M unit :=
  for_range ents publishCommitted_entry.

(** *** Applied indices *)

(** The loop of [publishAppliedIndices], lines 651-653:
    [for i := prev + 1; i < curr+1; i++].  The bound [curr+1] and the
    increment are [uint64] operations.  The loop ends because [i] stays
    below the bound, which is itself below 2^64, so [i+1] does not wrap
    while the loop runs. *)
Equations? publishAppliedIndices_loop (curr i : uint64) (s : state W)
  : unit * state W * list event
  by wf (Z.to_nat (wrap64 (curr + 1) - i)) lt :=
  publishAppliedIndices_loop curr i s with Z_lt_dec i (wrap64 (curr + 1)) := {
    | left _ =>
        bind (msgbus_Broadcast i BusNil)
             (fun _ s1 => publishAppliedIndices_loop curr (wrap64 (i + 1)) s1) s
    | right _ => ret tt s
  }.
Proof.
  unfold wrap64, uint64_modulus in *.
  pose proof (Z.mod_pos_bound (curr + 1) (2 ^ 64) ltac:(lia)) as Hb.
  destruct (Z_lt_dec i 0) as [Hneg | Hpos].
  - pose proof (Z.mod_pos_bound (i + 1) (2 ^ 64) ltac:(lia)). lia.
  - rewrite (Z.mod_small (i + 1)) by lia. lia.
Qed.

(** [publishAppliedIndices], lines 647-654. *)
Definition publishAppliedIndices (prev curr : uint64) : M unit :=
  publishAppliedIndices_loop curr (wrap64 (prev + 1)).

(** *** Snapshots: create *)

(** The closure [fn] of [createSnapshot], lines 1022-1046, with its
    deferred [snapshoting.UnSet()]. *)
Definition snapshotTask_fn (appliedIndex : uint64) (ss : SnapshotFile) (snap : Snapshot)
  : M (option error) :=
  err <-
    (err <- snapshotter_Write ss ;;
     match err with
     | Some e => ret (Some e)
     | None =>
         err <- storage_SaveSnapshot snap ;;
         match err with
         | Some e => ret (Some e)
         | None =>
             snapIndex_Set appliedIndex ;;
             if appliedIndex <=? co_SnapInterval C then ret None
             else
               let compactIndex := wrap64 (appliedIndex - co_SnapInterval C) in
               storage_Compact compactIndex
         end
     end) ;;
  snapshoting_UnSet ;;
  ret err.

(** The goroutine of [createSnapshot], lines 1049-1059: on an error of
    [fn] the snapshot index goes back to the value read at the start. *)
Definition snapshotTask (appliedIndex snapIndex : uint64) (ss : SnapshotFile)
  (snap : Snapshot) : M unit :=
  err <- snapshotTask_fn appliedIndex ss snap ;;
  match err with
  | Some _ => snapIndex_Set snapIndex
  | None => ret tt
  end.

(** [createSnapshot], lines 979-1061. *)
Definition createSnapshot : M (option error) :=
  appliedIndex <- appliedIndex_Get ;;
  snapIndex <- snapIndex_Get ;;
  if appliedIndex =? snapIndex then ret None
  else
    busy <- snapshoting_True ;;
    if busy then ret (Some ErrAlreadySnapshotting)
    else
      snapshoting_Set ;;
      '(r, err) <- fsm_Snapshot ;;
      match err with
      | Some e => snapshoting_UnSet ;; ret (Some e)
      | None =>
          cs <- gets confState ;;
          '(snap, err) <- storage_CreateSnapshot appliedIndex cs ;;
          match err with
          | Some e => snapshoting_UnSet ;; ret (Some e)
          | None =>
              members <- pool_Snapshot ;;
              let ss := mkSnapshotFile snap members r in
              go (TaskSnapshot appliedIndex snapIndex ss snap) ;;
              ret None
          end
      end.

(** [maybeCreateSnapshot], lines 959-977: the difference is a [uint64]
    subtraction; an error of [createSnapshot] is logged only. *)
Definition maybeCreateSnapshot : M unit :=
  applied <- appliedIndex_Get ;;
  snap <- snapIndex_Get ;;
  if wrap64 (applied - snap) <=? co_SnapInterval C then ret tt
  else
    busy <- snapshoting_True ;;
    if busy then ret tt
    else
      _ <- createSnapshot ;;
      ret tt.

(** *** Outbound messages *)

(** [ReportSnapshot], lines 174-180. *)
Definition ReportSnapshot (id : uint64) (status : SnapshotStatus) : M unit :=
  stopped <- started_False ;;
  if stopped then ret tt
  else node_ReportSnapshot id status.

Definition MessageType_eqb (a b : MessageType) : bool :=
  match a, b with
  | MsgProp, MsgProp => true
  | MsgSnap, MsgSnap => true
  | MsgStorageAppend, MsgStorageAppend => true
  | MsgStorageApply, MsgStorageApply => true
  | MsgOther x, MsgOther y => x =? y
  | _, _ => false
  end.

(** The inner loop of [forceSnapshot], lines 931-936: [found] is set at
    the first id equal to [msg.To], and the loop is left. *)
Fixpoint forceSnapshot_set (to : uint64) (set : list uint64) (found : bool) : bool :=
  match set with
  | [] => found
  | id :: rest => if id =? to then true else forceSnapshot_set to rest found
  end.

(** The outer loop, lines 923-941: left as soon as [found] is set. *)
Fixpoint forceSnapshot_sets (to : uint64) (sets : list (list uint64)) (found : bool) : bool :=
  match sets with
  | [] => found
  | set :: rest =>
      let found := forceSnapshot_set to set found in
      if found then found else forceSnapshot_sets to rest found
  end.

(** [forceSnapshot], lines 913-957.  The report is deferred: it runs after
    [createSnapshot], whose error is logged only. *)
Definition forceSnapshot (msg : Message) : M bool :=
  if negb (MessageType_eqb (msg_Type msg) MsgSnap) then ret false
  else
    let cs := md_ConfState (snap_Metadata (msg_Snapshot msg)) in
    let found :=
      forceSnapshot_sets (msg_To msg)
        [cs_Voters cs; cs_Learners cs; cs_VotersOutgoing cs] false in
    if found then ret false
    else
      _ <- createSnapshot ;;
      ReportSnapshot (msg_To msg) SnapshotFailure ;;
      ret true.

(** The body of the loop of [send], lines 833-851: errors are logged only. *)
Definition send_message (m : Message) : M unit :=
  local <- gets local_ID ;;
  if msg_To m =? local then
    _ <- node_Step m ;;
    ret tt
  else
    ok <- pool_Get (msg_To m) ;;
    if negb ok then ret tt
    else
      dropped <- forceSnapshot m ;;
      if dropped then ret tt
      else
        _ <- member_Send m ;;
        ret tt.

(** [send], lines 819-853. *)
Definition send (msgs : list Message) : M unit :=
  for_range msgs send_message.

(** *** Membership *)

(** [proposeConfChange], lines 616-636. *)
Definition proposeConfChange (m : Member) (t : ConfChangeType) : M (uint64 * option error) :=
  let '(buf, err) := Member_Marshal (co_codec C) m in
  match err with
  | Some e => ret (0, Some e)
  | None =>
      id <- idgen_Next ;;
      let cc := mkConfChange t (mem_ID m) buf id in
      err <- node_ProposeConfChange cc ;;
      ret (cc_ID cc, err)
  end.

Definition MemberType_eqb (a b : MemberType) : bool :=
  match a, b with
  | VoterMember, VoterMember => true
  | RemovedMember, RemovedMember => true
  | LearnerMember, LearnerMember => true
  | StagingMember, StagingMember => true
  | LocalMember, LocalMember => true
  | _, _ => false
  end.

(** The variables the first loop of [promotions] updates. *)
Record promotions_vars : Type := mkPromotionsVars {
  pv_promotions : list Member;
  pv_reachables : Z;
  pv_voters : Z
}.

(** The test of line 889: [float64(staging) < float64(leader)*0.9]. *)
Definition promotions_behind (leader staging : uint64) : bool :=
  float64_lt (float64_of_uint64 staging)
             (float64_mul (float64_of_uint64 leader) float64_0_9).

(** The body of the first loop of [promotions], lines 871-895. *)
Definition promotions_visit (rs : Status) (progress : list (uint64 * Progress))
  (v : promotions_vars) (mem : PoolMember) : promotions_vars :=
  let raw := pm_Raw mem in
  let voters :=
    if MemberType_eqb (mem_Type raw) VoterMember
    then pv_voters v + 1 else pv_voters v in
  let reachables :=
    if pm_IsActive mem && MemberType_eqb (mem_Type raw) VoterMember
    then pv_reachables v + 1 else pv_reachables v in
  if negb (MemberType_eqb (mem_Type raw) StagingMember)
  then mkPromotionsVars (pv_promotions v) reachables voters
  else
    let leader := pr_Match (Progress_lookup progress (st_ID rs)) in
    let staging := pr_Match (Progress_lookup progress (mem_ID raw)) in
    if promotions_behind leader staging
    then mkPromotionsVars (pv_promotions v) reachables voters
    else
      let raw := mkMember (mem_ID raw) (mem_Address raw) VoterMember in
      mkPromotionsVars (pv_promotions v ++ [raw]) reachables voters.

(** [promotions], lines 855-911.  [voters/2] is Go's integer division. *)
Definition promotions : M unit :=
  rs <- node_Status ;;
  match st_Progress rs with
  | None => ret tt
  | Some progress =>
      membs <- pool_Members ;;
      let v := fold_left (promotions_visit rs progress) membs
                         (mkPromotionsVars [] 0 0) in
      if pv_reachables v <? Z.quot (pv_voters v) 2 + 1 then ret tt
      else
        for_range (pv_promotions v)
          (fun m => _ <- proposeConfChange m ConfChangeAddNode ;; ret tt)
  end.

(** [raft.None] *)
Definition raft_None : uint64 := 0.

(** *** The Ready cycle *)

(** [saveEntries], lines 506-513. *)
Definition saveEntries (hs : HardState) (es : list Entry) : M (option error) :=
  err <- storage_SaveEntries hs es ;;
  match err with
  | Some e => ret (Some e)
  | None => ret None
  end.

(** [binary.BigEndian.Uint64] on a slice of eight bytes or more: the
    number that its first eight bytes spell, the most significant first.
    On a shorter slice the Go function panics, and the monad below has no
    panic: there this function still gives a number.  The model of
    [publishReadState] therefore speaks for read states whose request
    context has eight bytes, as those have that [LinearizableRead]
    built. *)
Definition Uint64 (b : bytes) : uint64 :=
  fold_left (fun acc x => acc * 256 + Z_of_byte x) (firstn 8 b) 0.

(** [publishReadState], lines 638-645. *)
Definition publishReadState (rss : list ReadState) : M unit :=
  for_range rss
    (fun rs =>
       let id := Uint64 (rs_RequestCtx rs) in
       msgbus_Broadcast id (BusIndex (rs_Index rs))).

(** The goroutine that tells the state-change channel, when there is one. *)
Definition stateChangeTask (st : StateType) : M unit :=
  emit (EvStateChange st).

(** What a started goroutine runs. *)
Definition run_task (t : task) : M unit :=
  match t with
  | TaskRemoveMember mem => removeMemberTask mem
  | TaskSnapshot appliedIndex snapIndex ss snap =>
      snapshotTask appliedIndex snapIndex ss snap
  | TaskStateChange st => stateChangeTask st
  | TaskSend msgs => send msgs
  end.

Definition StateType_eqb (a b : StateType) : bool :=
  match a, b with
  | StateFollower, StateFollower => true
  | StateCandidate, StateCandidate => true
  | StateLeader, StateLeader => true
  | StatePreCandidate, StatePreCandidate => true
  | _, _ => false
  end.

(** [do], lines 449-504, as the event loop runs it.  On the leader the
    messages are sent by a goroutine of their own, started before the
    entries are saved and waited for before [Advance]; here the start and
    the wait are events, and the sending is [run_task] of that task. *)
Definition do (rd : Ready) : M (option error) :=
  prevIndex <- appliedIndex_Get ;;
  match rd_SoftState rd with
  | Some soft =>
      modify (set_leader (StateType_eqb (ss_RaftState soft) StateLeader)) ;;
      (if ss_Lead soft =? raft_None
       then msgbus_BroadcastToAll (BusErr ErrNoLeader)
       else ret tt) ;;
      go (TaskStateChange (ss_RaftState soft))
  | None => ret tt
  end ;;
  leads <- gets leader ;;
  (if leads then go (TaskSend (rd_Messages rd)) else ret tt) ;;
  err <- saveEntries (rd_HardState rd) (rd_Entries rd) ;;
  match err with
  | Some e => ret (Some e)
  | None =>
      err <- publishSnapshot (rd_Snapshot rd) ;;
      match err with
      | Some e => ret (Some e)
      | None =>
          publishCommitted (rd_CommittedEntries rd) ;;
          publishReadState (rd_ReadStates rd) ;;
          applied <- appliedIndex_Get ;;
          publishAppliedIndices prevIndex applied ;;
          promotions ;;
          maybeCreateSnapshot ;;
          leads <- gets leader ;;
          (if negb leads then send (rd_Messages rd)
           else emit (EvWait (TaskSend (rd_Messages rd)))) ;;
          node_Advance ;;
          ret None
      end
  end.

(** *** The public operations *)

(** [binary.BigEndian.PutUint64] into a fresh 8-byte buffer. *)
Definition PutUint64 (v : uint64) : bytes :=
  map (fun k => byte_of_Z (Z.shiftr v (8 * k))) [7; 6; 5; 4; 3; 2; 1; 0].

(** A blocking [select]: the runtime says which case fires. *)
Definition select {A : Type} (f : W -> A * W) : M A :=
  fun s => let '(a, w) := f (env s) in (a, mkState (eng s) w, []).

(** [wait], lines 1063-1081. *)
Definition wait (id : uint64) : M (option error) :=
  msgbus_SubscribeOnce id ;;
  o <- select (rt_SelectWait (co_runtime C) id) ;;
  msgbus_Unsubscribe id ;;
  match o with
  | WaitRecv v => ret v
  | WaitCtxDone e => ret (Some e)
  | WaitEngineDone => ret (Some ErrStopped)
  end.

(** The loop of [LinearizableRead], lines 131-149; [rounds] bounds the
    number of ticks observed. *)
Fixpoint LinearizableRead_loop (rounds : nat) (id : uint64) (buf : bytes)
  : M (outcome (uint64 * option error)) :=
  match rounds with
  | O => ret Blocked
  | S rounds' =>
      err <- node_ReadIndex buf ;;
      match err with
      | Some e => ret (Returned (0, Some e))
      | None =>
          o <- select (rt_SelectRead (co_runtime C) id) ;;
          match o with
          | ReadTick => LinearizableRead_loop rounds' id buf
          | ReadRecvError e => ret (Returned (0, Some e))
          | ReadRecvIndex i => ret (Returned (i, None))
          | ReadCtxDone e => ret (Returned (0, Some e))
          | ReadEngineDone => ret (Returned (0, Some ErrStopped))
          end
      end
  end.

(** [LinearizableRead], lines 111-163. *)
Definition LinearizableRead (rounds : nat) : M (outcome (option error)) :=
  stopped <- started_False ;;
  if stopped then ret (Returned (Some ErrStopped))
  else
    id <- idgen_Next ;;
    let buf := PutUint64 id in
    msgbus_SubscribeOnce id ;;
    r <- LinearizableRead_loop rounds id buf ;;
    msgbus_Unsubscribe id ;;
    match r with
    | Blocked => ret Blocked
    | Returned (_, Some e) => ret (Returned (Some e))
    | Returned (index, None) =>
        applied <- appliedIndex_Get ;;
        if index <=? applied then ret (Returned None)
        else
          err <- wait index ;;
          ret (Returned err)
    end.

(** [Push], lines 198-225.  The channels hold 4096 messages; the engine's
    context is not cancelled between the test of line 206 and the [select],
    so the [select] sends when there is room and takes [default] when not. *)
Definition Push (msg : Message) : M (option error) :=
  stopped <- started_False ;;
  if stopped then ret (Some ErrStopped)
  else
    cerr <- gets ctx_err ;;
    match cerr with
    | Some e => ret (Some e)
    | None =>
        if MessageType_eqb (msg_Type msg) MsgProp then
          c <- gets proposec ;;
          if len c <? 4096
          then modify (set_proposec (c ++ [msg])) ;; ret None
          else ret (Some ErrBufferFull)
        else
          c <- gets msgc ;;
          if len c <? 4096
          then modify (set_msgc (c ++ [msg])) ;; ret None
          else ret (Some ErrBufferFull)
    end.

(** [raft.Status{}] *)
Definition Status_zero : Status := mkStatus 0 0 None.

(** [Status], lines 228-234. *)
Definition EngineStatus : M (Status * option error) :=
  stopped <- started_False ;;
  if stopped then ret (Status_zero, Some ErrStopped)
  else
    st <- node_Status ;;
    ret (st, None).

(** [context.Canceled] *)
Definition context_Canceled : error := ErrExternal "context canceled".

(** [Shutdown], lines 237-278.  The waits on the wait groups return once
    the other goroutines are done; closing the channels and cancelling the
    context cannot fail.  What is left of the list [fns] is the cancel, the
    stop of the protocol core, and the two steps that can fail. *)
Definition Shutdown : M (option error) :=
  stopped <- started_False ;;
  if stopped then ret (Some ErrStopped)
  else
    started_UnSet ;;
    modify (set_ctx_err (Some context_Canceled)) ;;
    node_Stop ;;
    err <- msgbus_Close ;;
    match err with
    | Some e => ret (Some e)
    | None => pool_TearDown
    end.

(** The loop of [TransferLeadership], lines 294-306. *)
Fixpoint TransferLeadership_loop (rounds : nat) (transferee : uint64)
  : M (outcome (option error)) :=
  match rounds with
  | O => ret Blocked
  | S rounds' =>
      st <- node_Status ;;
      let leader := st_Lead st in
      if negb (leader =? raft_None) && (leader =? transferee)
      then ret (Returned None)
      else
        o <- select (rt_SelectTransfer (co_runtime C)) ;;
        match o with
        | TransferEngineDone => ret (Returned (Some ErrStopped))
        | TransferCtxDone e => ret (Returned (Some e))
        | TransferTick => TransferLeadership_loop rounds' transferee
        end
  end.

(** [TransferLeadership], lines 281-309.  The first [Status] call is the
    argument of the log line. *)
Definition TransferLeadership (rounds : nat) (transferee : uint64)
  : M (outcome (option error)) :=
  stopped <- started_False ;;
  if stopped then ret (Returned (Some ErrStopped))
  else
    _ <- node_Status ;;
    st <- node_Status ;;
    node_TransferLeadership (st_Lead st) transferee ;;
    TransferLeadership_loop rounds transferee.

(** [ProposeReplicate], lines 312-341. *)
Definition ProposeReplicate (data : bytes) : M (option error) :=
  stopped <- started_False ;;
  if stopped then ret (Some ErrStopped)
  else
    cid <- idgen_Next ;;
    let r := mkReplicate cid data in
    let '(buf, err) := Replicate_Marshal (co_codec C) r in
    match err with
    | Some e => ret (Some e)
    | None =>
        err <- node_Propose buf ;;
        match err with
        | Some e => ret (Some e)
        | None => wait (rep_CID r)
        end
    end.

(** [ProposeConfChange], lines 344-359. *)
Definition ProposeConfChange (m : Member) (cct : ConfChangeType) : M (option error) :=
  stopped <- started_False ;;
  if stopped then ret (Some ErrStopped)
  else
    '(id, err) <- proposeConfChange m cct ;;
    match err with
    | Some e => ret (Some e)
    | None => wait id
    end.

(** [ForgetLeader], lines 361-363. *)
Definition ForgetLeader : M (option error) :=
  node_ForgetLeader.

(** [raftpb.Snapshot{}] *)
Definition Snapshot_zero : Snapshot :=
  mkSnapshot [] (mkSnapshotMetadata (mkConfState [] [] [] [] false) 0 0).

(** [CreateSnapshot], lines 366-388.  The request goes to the event loop
    over [snapshotc]; the loop answers nil (line 442), so the error branch
    of line 382 is not taken. *)
Definition CreateSnapshot : M (Snapshot * option error) :=
  stopped <- started_False ;;
  if stopped then ret (Snapshot_zero, Some ErrStopped)
  else
    appliedIndex <- appliedIndex_Get ;;
    snapIndex <- snapIndex_Get ;;
    if appliedIndex =? snapIndex then storage_Snapshot
    else
      emit EvSnapshotRequest ;;
      storage_Snapshot.

End Engine.

(** ** Observing the two indices along a run

    Every store to an atomic is an event, so the values that
    [appliedIndex] and [snapIndex] take during a run can be read off its
    events: [index_walk] gives the pair after each store, in order. *)

Definition index_store (p : uint64 * uint64) (e : event) : uint64 * uint64 :=
  match e with
  | EvStoreU64 AppliedIndex v => (v, snd p)
  | EvStoreU64 SnapIndex v => (fst p, v)
  | _ => p
  end.

Definition is_index_store (e : event) : bool :=
  match e with
  | EvStoreU64 _ _ => true
  | _ => false
  end.

(** The pairs (applied index, snapshot index) after each store of [evs],
    starting from the pair [p]. *)
Fixpoint index_walk (p : uint64 * uint64) (evs : list event) : list (uint64 * uint64) :=
  match evs with
  | [] => []
  | e :: rest =>
      if is_index_store e
      then index_store p e :: index_walk (index_store p e) rest
      else index_walk p rest
  end.

(** The pair after all of [evs]. *)
Definition index_after (p : uint64 * uint64) (evs : list event) : uint64 * uint64 :=
  fold_left index_store evs p.

(** The pair held by an engine. *)
Definition indices (e : engine) : uint64 * uint64 := (appliedIndex e, snapIndex e).

(** A computation that neither stores to the two indices nor changes the
    fields that hold them. *)
Definition keeps_indices {W A : Type} (m : M W A) : Prop :=
  forall s : state W,
    indices (eng (final m s)) = indices (eng s) /\
    Forall (fun e => is_index_store e = false) (events m s).

(** [applied_index >= snapshot_index] *)
Definition index_inv (p : uint64 * uint64) : Prop := snd p <= fst p.

(** ** The indices between two applied indices *)

(** The indices [i] with [prev < i <= curr], in ascending order. *)
Definition applied_range (prev curr : Z) : list Z :=
  map (fun k => prev + 1 + Z.of_nat k) (seq 0 (Z.to_nat (curr - prev))).

(** ** Promotions, in the words of the specification *)

Definition is_voter (mem : PoolMember) : bool :=
  MemberType_eqb (mem_Type (pm_Raw mem)) VoterMember.

Definition is_staging (mem : PoolMember) : bool :=
  MemberType_eqb (mem_Type (pm_Raw mem)) StagingMember.

(** The number of voters of the pool, and of those that are active. *)
Definition voters (membs : list PoolMember) : Z :=
  Z.of_nat (List.length (filter is_voter membs)).

Definition active_voters (membs : list PoolMember) : Z :=
  Z.of_nat (List.length (filter (fun mem => pm_IsActive mem && is_voter mem) membs)).

(** The [Match] of the leader and of a member, as the leader's [Status]
    has them. *)
Definition leader_Match (rs : Status) (progress : list (uint64 * Progress)) : uint64 :=
  pr_Match (Progress_lookup progress (st_ID rs)).

Definition member_Match (progress : list (uint64 * Progress)) (mem : PoolMember) : uint64 :=
  pr_Match (Progress_lookup progress (mem_ID (pm_Raw mem))).

(** [float64(Match) >= float64(leader Match) * 0.9], in binary64. *)
Definition caught_up (rs : Status) (progress : list (uint64 * Progress))
  (mem : PoolMember) : bool :=
  negb (float64_lt (float64_of_uint64 (member_Match progress mem))
                   (float64_mul (float64_of_uint64 (leader_Match rs progress))
                                float64_0_9)).

(** A member is selected when it is staging and has caught up. *)
Definition selected_for_promotion (rs : Status) (progress : list (uint64 * Progress))
  (mem : PoolMember) : bool :=
  is_staging mem && caught_up rs progress mem.

(** The record proposed for a selected member: the same member, as a voter. *)
Definition promoted (mem : PoolMember) : Member :=
  mkMember (mem_ID (pm_Raw mem)) (mem_Address (pm_Raw mem)) VoterMember.

(** ** Collaborators for the examples

    A small, fully concrete set of collaborators, used to run the engine on
    explicit inputs.  Its state is the next id of the generator.  The state
    machine rejects the one-byte command [xff] and accepts every other; the
    store and the pool accept everything; the protocol core reports the
    status it is given.

    The codec stands in for the generated protobuf code.  It reads the
    protobuf wire format: a record is a sequence of fields, each a tag
    (field number and wire type, as a base-128 varint) followed by a varint
    or by a length and that many bytes.  [ConfChange] has the field numbers
    of go.etcd.io/raft/v3/raftpb (ID 1, Type 2, NodeID 3, Context 4); the
    fields of [Replicate] (CID, Data) and [Member] (ID, Address, Type) are
    numbered in that order.  A field is stored in the receiver as soon as
    it is read; a truncated buffer, a wrong wire type or a field number
    that the record does not have ends the decoding with an error. *)
Module Demo.

Definition W : Type := uint64.

Definition malformed : error := ErrExternal "malformed".

Definition apply_rejected : error := ErrExternal "rejected".

Definition fsm : StateMachine W :=
  mkStateMachine
    (fun data w =>
       match data with
       | [xff] => (Some apply_rejected, w)
       | _ => (None, w)
       end)
    (fun w => (([x01], None), w))
    (fun _ w => (None, w)).

Definition ConfState_zero : ConfState := mkConfState [] [] [] [] false.

Definition storage : Storage W :=
  mkStorage
    (fun _ _ w => (None, w))
    (fun _ w => (None, w))
    (fun _ w => (None, w))
    (fun i cs w =>
       ((mkSnapshot []
           (mkSnapshotMetadata
              (match cs with Some c => c | None => ConfState_zero end) i 0),
         None), w))
    (fun _ w => (None, w))
    (fun w => ((mkSnapshot [] (mkSnapshotMetadata ConfState_zero 0 0), None), w))
    (fun term index w =>
       ((mkSnapshotFile
           (mkSnapshot [] (mkSnapshotMetadata ConfState_zero index term)) [] [],
         None), w))
    (fun _ w => (None, w)).

Definition pool (members : list PoolMember) : Pool W :=
  mkPool
    (fun w => (members, w))
    (fun id w => (existsb (fun m => mem_ID (pm_Raw m) =? id) members, w))
    (fun _ w => (None, w))
    (fun _ w => (None, w))
    (fun _ w => (None, w))
    (fun w => (map pm_Raw members, w))
    (fun _ w => (tt, w))
    (fun w => (None, w))
    (fun _ w => (None, w)).

Definition node (status : Status) : Node W :=
  mkNode
    (fun _ w => (None, w))
    (fun _ w => (None, w))
    (fun _ w => (None, w))
    (fun cc w => (mkConfState [cc_NodeID cc] [] [] [] false, w))
    (fun _ w => (None, w))
    (fun w => (status, w))
    (fun _ _ w => (tt, w))
    (fun w => (None, w))
    (fun _ _ w => (tt, w))
    (fun w => (tt, w))
    (fun w => (tt, w)).

Definition runtime : Runtime W :=
  mkRuntime
    (fun w => (w, w + 1))
    (fun w => (None, w))
    (fun _ w => (WaitRecv None, w))
    (fun _ w => (ReadRecvIndex 0, w))
    (fun w => (TransferTick, w)).

Definition ConfChangeType_of (z : Z) : ConfChangeType :=
  if z =? 1 then ConfChangeRemoveNode
  else if z =? 2 then ConfChangeUpdateNode
  else if z =? 3 then ConfChangeAddLearnerNode
  else ConfChangeAddNode.

Definition MemberType_of (z : Z) : MemberType :=
  if z =? 1 then RemovedMember
  else if z =? 2 then LearnerMember
  else if z =? 3 then StagingMember
  else if z =? 4 then LocalMember
  else VoterMember.

Definition Z_of_MemberType (t : MemberType) : Z :=
  match t with
  | VoterMember => 0
  | RemovedMember => 1
  | LearnerMember => 2
  | StagingMember => 3
  | LocalMember => 4
  end.

(** A base-128 varint, least significant group first, of at most [fuel]
    bytes: the value and the rest of the buffer. *)
Fixpoint read_varint (fuel : nat) (shift acc : Z) (data : bytes) : option (Z * bytes) :=
  match fuel with
  | O => None
  | S fuel' =>
      match data with
      | [] => None
      | b :: rest =>
          let acc' := Z.lor acc (Z.shiftl (Z.land (Z_of_byte b) 127) shift) in
          if Z_of_byte b <? 128 then Some (wrap64 acc', rest)
          else read_varint fuel' (shift + 7) acc' rest
      end
  end.

Fixpoint write_varint (fuel : nat) (v : Z) : bytes :=
  match fuel with
  | O => []
  | S fuel' =>
      if v <? 128 then [byte_of_Z v]
      else byte_of_Z (Z.lor (Z.land v 127) 128) :: write_varint fuel' (Z.shiftr v 7)
  end.

Inductive wire_value : Type :=
| WireVarint (v : Z)
| WireBytes (b : bytes).

(** One field: its number, its value and the rest of the buffer. *)
Definition read_field (data : bytes) : option (Z * wire_value * bytes) :=
  match read_varint 10 0 0 data with
  | None => None
  | Some (tag, rest) =>
      match Z.land tag 7 with
      | 0 =>
          match read_varint 10 0 0 rest with
          | Some (v, rest') => Some (Z.shiftr tag 3, WireVarint v, rest')
          | None => None
          end
      | 2 =>
          match read_varint 10 0 0 rest with
          | Some (n, rest') =>
              if n <=? len rest'
              then Some (Z.shiftr tag 3, WireBytes (firstn (Z.to_nat n) rest'),
                         skipn (Z.to_nat n) rest')
              else None
          | None => None
          end
      | _ => None
      end
  end.

Fixpoint Replicate_fields (fuel : nat) (data : bytes) (r : Replicate)
  : Replicate * option error :=
  match fuel, data with
  | _, [] => (r, None)
  | O, _ => (r, Some malformed)
  | S fuel', _ =>
      match read_field data with
      | Some (1, WireVarint v, rest) =>
          Replicate_fields fuel' rest (mkReplicate v (rep_Data r))
      | Some (2, WireBytes b, rest) =>
          Replicate_fields fuel' rest (mkReplicate (rep_CID r) b)
      | _ => (r, Some malformed)
      end
  end.

Fixpoint ConfChange_fields (fuel : nat) (data : bytes) (cc : ConfChange)
  : ConfChange * option error :=
  match fuel, data with
  | _, [] => (cc, None)
  | O, _ => (cc, Some malformed)
  | S fuel', _ =>
      match read_field data with
      | Some (1, WireVarint v, rest) =>
          ConfChange_fields fuel' rest
            (mkConfChange (cc_Type cc) (cc_NodeID cc) (cc_Context cc) v)
      | Some (2, WireVarint v, rest) =>
          ConfChange_fields fuel' rest
            (mkConfChange (ConfChangeType_of v) (cc_NodeID cc) (cc_Context cc) (cc_ID cc))
      | Some (3, WireVarint v, rest) =>
          ConfChange_fields fuel' rest
            (mkConfChange (cc_Type cc) v (cc_Context cc) (cc_ID cc))
      | Some (4, WireBytes b, rest) =>
          ConfChange_fields fuel' rest
            (mkConfChange (cc_Type cc) (cc_NodeID cc) b (cc_ID cc))
      | _ => (cc, Some malformed)
      end
  end.

Definition string_of_bytes (b : bytes) : string :=
  string_of_list_byte b.

Fixpoint Member_fields (fuel : nat) (data : bytes) (m : Member)
  : Member * option error :=
  match fuel, data with
  | _, [] => (m, None)
  | O, _ => (m, Some malformed)
  | S fuel', _ =>
      match read_field data with
      | Some (1, WireVarint v, rest) =>
          Member_fields fuel' rest (mkMember v (mem_Address m) (mem_Type m))
      | Some (2, WireBytes b, rest) =>
          Member_fields fuel' rest (mkMember (mem_ID m) (string_of_bytes b) (mem_Type m))
      | Some (3, WireVarint v, rest) =>
          Member_fields fuel' rest (mkMember (mem_ID m) (mem_Address m) (MemberType_of v))
      | _ => (m, Some malformed)
      end
  end.

(** A varint field and a bytes field; a field at its zero value is left
    out, as protobuf does. *)
Definition write_varint_field (number v : Z) : bytes :=
  if v =? 0 then [] else byte_of_Z (8 * number) :: write_varint 10 v.

Definition write_bytes_field (number : Z) (b : bytes) : bytes :=
  match b with
  | [] => []
  | _ => byte_of_Z (8 * number + 2) :: write_varint 10 (len b) ++ b
  end.

Definition codec : Codec :=
  mkCodec
    (fun r =>
       (write_varint_field 1 (rep_CID r) ++ write_bytes_field 2 (rep_Data r), None))
    (fun data r => Replicate_fields (S (List.length data)) data r)
    (fun data cc => ConfChange_fields (S (List.length data)) data cc)
    (fun m =>
       (write_varint_field 1 (mem_ID m) ++
        write_bytes_field 2 (list_byte_of_string (mem_Address m)) ++
        write_varint_field 3 (Z_of_MemberType (mem_Type m)), None))
    (fun data m => Member_fields (S (List.length data)) data m)
    (fun snap => md_Index (snap_Metadata snap) =? 0).

Definition collaborators (members : list PoolMember) (status : Status)
  (snapInterval : uint64) : Collaborators W :=
  mkCollaborators fsm storage (pool members) (node status) runtime codec snapInterval.

(** A follower with an empty pool and a snapshot interval of 10. *)
Definition follower : Collaborators W :=
  collaborators [] (mkStatus 1 2 None) 10.

(** An engine after [Start]: the flags and indices of [New], started. *)
Definition started_engine : engine := set_started true engine_New.

Definition initial : state W := mkState started_engine 100.

(** A pool of five: the voters 1 and 2, active, the staging members 3 and
    4, and the voter 5, active or not. *)
Definition pool_of_five (active5 : bool) : list PoolMember :=
  [mkPoolMember (mkMember 1 EmptyString VoterMember) true;
   mkPoolMember (mkMember 2 EmptyString VoterMember) active5;
   mkPoolMember (mkMember 3 EmptyString StagingMember) true;
   mkPoolMember (mkMember 4 EmptyString StagingMember) true;
   mkPoolMember (mkMember 5 EmptyString VoterMember) active5].

(** The [Progress] of node 1 as leader: its own [Match] and that of the
    voters is [leader], that of the staging members [m3] and [m4]. *)
Definition progress_of (leader m3 m4 : uint64) : list (uint64 * Progress) :=
  [(1, mkProgress leader); (2, mkProgress leader); (3, mkProgress m3);
   (4, mkProgress m4); (5, mkProgress leader)].

(** Node 1 leading the pool of five. *)
Definition leading (active5 : bool) (leader m3 m4 : uint64) : Collaborators W :=
  collaborators (pool_of_five active5)
                (mkStatus 1 1 (Some (progress_of leader m3 m4))) 10.

(** The same follower with a state machine that cannot take a snapshot. *)
Definition fsm_without_snapshot : StateMachine W :=
  mkStateMachine
    (sm_Apply fsm)
    (fun w => (([], Some ErrFailedPrecondition), w))
    (sm_Restore fsm).

Definition follower_without_snapshot : Collaborators W :=
  mkCollaborators fsm_without_snapshot storage (pool []) (node (mkStatus 1 2 None))
                  runtime codec 10.

(** A started engine whose applied index is [applied] and whose snapshot
    index is [snap]. *)
Definition at_indices (applied snap : uint64) : state W :=
  mkState (set_snapIndex snap (set_appliedIndex applied started_engine)) 100.

(** A snapshot taken at [index] in term 1, for the voters 1 and 2. *)
Definition snapshot_at (index : uint64) : Snapshot :=
  mkSnapshot [] (mkSnapshotMetadata (mkConfState [1; 2] [] [] [] false) index 1).

Definition snapshot_file_at (index : uint64) : SnapshotFile :=
  mkSnapshotFile (snapshot_at index) [] [].

(** A [MsgSnap] with the snapshot at index 5, to node [to]. *)
Definition snap_message (to : uint64) : Message :=
  mkMessage MsgSnap to 1 (snapshot_at 5).

(** A committed conf change that adds node 2 under id 7, without a member
    payload in its context. *)
Definition bare_conf_change : ConfChange := mkConfChange ConfChangeAddNode 2 [] 7.

Definition bare_conf_change_entry : Entry :=
  mkEntry 1 5 EntryConfChange [x08; x07; x10; x00; x18; x02].

(** The same change carrying the member record of node 2, a voter. *)
Definition member_conf_change : ConfChange :=
  mkConfChange ConfChangeAddNode 2 [x08; x02] 7.

Definition member_conf_change_entry : Entry :=
  mkEntry 1 5 EntryConfChange [x08; x07; x10; x00; x18; x02; x22; x02; x08; x02].

(** A Ready of a follower that commits [ents] and has nothing else. *)
Definition ready_with (ents : list Entry) : Ready :=
  mkReady None (mkHardState 1 2 7) [] [] (snapshot_at 0) ents [].

(** A committed command with CID 9 and data [x2a], and one whose buffer
    ends inside its first tag. *)
Definition command_entry : Entry :=
  mkEntry 1 6 EntryNormal [x08; x09; x12; x01; x2a].

Definition malformed_entry : Entry := mkEntry 1 7 EntryNormal [xff].

End Demo.

(** * The engine beyond the publisher

    What the further properties of the engine speak of. *)

(** A computation whose events all satisfy [P] and which leaves the part
    [f] of the engine's fields as it found it, whatever the state it starts
    from. *)
Definition obeys {W A F : Type} (P : event -> Prop) (f : engine -> F)
  (m : M W A) : Prop :=
  forall s : state W, Forall P (events m s) /\ f (eng (final m s)) = f (eng s).

(** The members that the configuration of a snapshot message knows: the
    three sets that [forceSnapshot] searches. *)
Definition snapshot_members (msg : Message) : list uint64 :=
  let cs := md_ConfState (snap_Metadata (msg_Snapshot msg)) in
  cs_Voters cs ++ cs_Learners cs ++ cs_VotersOutgoing cs.

(** Whether the engine leads once [do] has looked at the soft state of a
    Ready: line 456 when there is one, the field as it was when not. *)
Definition leads_after (rd : Ready) (e : engine) : bool :=
  match rd_SoftState rd with
  | Some soft => StateType_eqb (ss_RaftState soft) StateLeader
  | None => leader e
  end.

(** The events of lines 455-469 of [do]. *)
Definition soft_events (rd : Ready) : list event :=
  match rd_SoftState rd with
  | Some soft =>
      (if ss_Lead soft =? raft_None then [EvBroadcastToAll (BusErr ErrNoLeader)] else []) ++
      [EvGo (TaskStateChange (ss_RaftState soft))]
  | None => []
  end.

(** What [do] runs once the entries are saved and the snapshot published,
    lines 492-503. *)
Definition do_publish {W : Type} (C : Collaborators W) (rd : Ready) (prevIndex : uint64)
  : M W (option error) :=
  publishCommitted C (rd_CommittedEntries rd) ;;
  publishReadState (rd_ReadStates rd) ;;
  applied <- appliedIndex_Get ;;
  publishAppliedIndices prevIndex applied ;;
  promotions C ;;
  maybeCreateSnapshot C ;;
  leads <- gets leader ;;
  (if negb leads then send C (rd_Messages rd)
   else emit (EvWait (TaskSend (rd_Messages rd)))) ;;
  node_Advance C ;;
  ret None.

(** The state in which [do] saves the entries. *)
Definition do_saving {W : Type} (rd : Ready) (s : state W) : state W :=
  mkState (set_leader (leads_after rd (eng s)) (eng s)) (env s).

(** The events by which a message leaves the Ready cycle: handed to a
    member, stepped into the local protocol core, or given to the sending
    goroutine. *)
Definition is_transmission (e : event) : bool :=
  match e with
  | EvMemberSend _ | EvNodeStep _ | EvGo (TaskSend _) => true
  | _ => false
  end.

(** The committed entries that [publishCommitted] only counts: an
    [EntryNormal] without data and an [EntryConfChangeV2]. *)
Definition is_counted_only (ent : Entry) : bool :=
  match ent_Type ent with
  | EntryNormal => len (ent_Data ent) =? 0
  | EntryConfChange => false
  | EntryConfChangeV2 => true
  end.

(** The events by which a snapshot is started, and the stores to the
    snapshotting flag. *)
Definition starts_snapshot (e : event) : bool :=
  match e with
  | EvFsmSnapshot | EvStorageCreateSnapshot _ _ | EvGo (TaskSnapshot _ _ _ _)
  | EvStoreBool Snapshoting _ => true
  | _ => false
  end.

(** A computation that, started with the engine's fields satisfying [I],
    emits only events satisfying [P] and leaves fields satisfying [I]. *)
Definition maintains {W A : Type} (I : engine -> Prop) (P : event -> Prop)
  (m : M W A) : Prop :=
  forall s : state W, I (eng s) -> Forall P (events m s) /\ I (eng (final m s)).

(** What [wait] returns for each case of its [select]. *)
Definition wait_result (o : wait_outcome) : option error :=
  match o with
  | WaitRecv v => v
  | WaitCtxDone e => Some e
  | WaitEngineDone => Some ErrStopped
  end.

(** [raftpb.Snapshot], under a name that the method [Snapshot] of the
    store does not hide. *)
Abbreviation raftpb_Snapshot := Snapshot.

(** * The write-ahead log store

    [internal/storage/raftwal/storage.go]: [DiskStorage] keeps the log in
    a [wal] and the hard state and the snapshot in a [metaFile], behind one
    mutex.  The two files are the collaborators of this model; the methods
    of [DiskStorage] are modelled with the mutex they take. *)
Module raftwal.

(** The errors of [go.etcd.io/raft/v3] that [DiskStorage] returns, the
    errors of the two files, and [errors.Wrapf] of pkg/errors around one. *)
Inductive error : Type :=
| ErrCompacted
| ErrUnavailable
| ErrSnapOutOfDate
| ErrFile (tag : string)
| Wrapf (cause : error) (msg : string).

(** The slots of the meta file, after its layout: the raft id, the group
    id, the checkpoint index, the snapshot index and the snapshot term. *)
Inductive MetaInfo : Type :=
| RaftId
| GroupId
| CheckpointIndex
| SnapshotIndex
| SnapshotTerm.

Inductive event : Type :=
| EvWalFirstIndex
| EvWalLastIndex
| EvWalAllEntries (lo hi maxSize : uint64)
| EvWalTerm (idx : uint64)
| EvWalAddEntries (es : list Entry)
| EvWalSeekEntry (i : uint64)
| EvWalDeleteBefore (i : uint64)
| EvWalTruncateEntriesUntil (i : uint64)
| EvWalReset
| EvWalSync
| EvMetaUint (info : MetaInfo)
| EvMetaHardState
| EvMetaStoreHardState (hs : HardState)
| EvMetaSnapshot
| EvMetaStoreSnapshot (snap : Snapshot)
| EvMetaSync.

(** The methods of [*wal] that [DiskStorage] calls.  [seekEntry] gives the
    entry at an index, of which [DiskStorage] reads the term only;
    [current_Sync] is [w.wal.current.Sync()]. *)
Record wal (W : Type) : Type := mkWal {
  wal_firstIndex : W -> uint64 * W;
  wal_LastIndex : W -> uint64 * W;
  wal_allEntries : uint64 -> uint64 -> uint64 -> W -> list Entry * W;
  wal_Term : uint64 -> W -> (uint64 * option error) * W;
  wal_AddEntries : list Entry -> W -> option error * W;
  wal_seekEntry : uint64 -> W -> (uint64 * option error) * W;
  wal_deleteBefore : uint64 -> W -> unit * W;
  wal_truncateEntriesUntil : uint64 -> W -> unit * W;
  wal_reset : W -> option error * W;
  wal_current_Sync : W -> option error * W
}.

(** The methods of [*metaFile] that [DiskStorage] calls. *)
Record metaFile (W : Type) : Type := mkMetaFile {
  meta_Uint : MetaInfo -> W -> uint64 * W;
  meta_HardState : W -> (HardState * option error) * W;
  meta_StoreHardState : HardState -> W -> option error * W;
  meta_snapshot : W -> (Snapshot * option error) * W;
  meta_StoreSnapshot : Snapshot -> W -> option error * W;
  meta_Sync : W -> option error * W
}.

(** The two files and [raft.MustSync] of the protocol library. *)
Record Files (W : Type) : Type := mkFiles {
  fs_wal : wal W;
  fs_meta : metaFile W;
  raft_MustSync : HardState -> HardState -> Z -> bool
}.

(** [DiskStorage]: whether [w.lock] is held, and the files. *)
Record store (W : Type) : Type := mkStore {
  locked : bool;
  files : W
}.

(** How a call ends: it returns, it waits for ever on the mutex, the
    process exits in [log.Fatalf], or it panics. *)
Inductive ending (A : Type) : Type :=
| Returns (a : A)
| Blocks
| Exits
| Panics.

Arguments Blocks {A}.
Arguments Exits {A}.
Arguments Panics {A}.

Definition D (W A : Type) : Type := store W -> ending A * store W * list event.

Definition ret {W A : Type} (a : A) : D W A :=
  fun s => (Returns a, s, []).

(** What follows a call runs only if the call returns. *)
Definition bind {W A B : Type} (m : D W A) (f : A -> D W B) : D W B :=
  fun s =>
    let '(r, s1, t1) := m s in
    match r with
    | Returns a => let '(r2, s2, t2) := f a s1 in (r2, s2, t1 ++ t2)
    | Blocks => (Blocks, s1, t1)
    | Exits => (Exits, s1, t1)
    | Panics => (Panics, s1, t1)
    end.

Declare Scope wal_scope.
Delimit Scope wal_scope with wal.

Notation "x <- c1 ;; c2" := (bind c1 (fun x => c2))
  (at level 61, c1 at next level, right associativity) : wal_scope.
Notation "' pat <- c1 ;; c2" := (bind c1 (fun x => match x with pat => c2 end))
  (at level 61, pat pattern, c1 at next level, right associativity) : wal_scope.
Notation "c1 ;; c2" := (bind c1 (fun _ => c2))
  (at level 61, right associativity) : wal_scope.

Local Open Scope wal_scope.

Definition ending_of {W A : Type} (m : D W A) (s : store W) : ending A := fst (fst (m s)).

Definition store_after {W A : Type} (m : D W A) (s : store W) : store W := snd (fst (m s)).

Definition trace {W A : Type} (m : D W A) (s : store W) : list event := snd (m s).

(** A call on one of the files. *)
Definition call {W A : Type} (f : W -> A * W) (e : event) : D W A :=
  fun s => let '(a, w) := f (files s) in (Returns a, mkStore (locked s) w, [e]).

(** [sync.Mutex]: [Lock] waits while the mutex is held, by whoever holds
    it; [Unlock] of a mutex that is not held is a fatal error. *)
Definition Lock {W : Type} : D W unit :=
  fun s => if locked s then (Blocks, s, []) else (Returns tt, mkStore true (files s), []).

Definition Unlock {W : Type} : D W unit :=
  fun s => if locked s then (Returns tt, mkStore false (files s), []) else (Exits, s, []).

(** [w.lock.Lock(); defer w.lock.Unlock()] around a body: the deferred
    [Unlock] runs when the body returns and when it panics. *)
Definition with_lock {W A : Type} (body : D W A) : D W A :=
  fun s =>
    let '(r0, s0, t0) := Lock s in
    match r0 with
    | Returns _ =>
        let '(r, s1, t1) := body s0 in
        match r with
        | Returns _ | Panics =>
            let '(u, s2, t2) := Unlock s1 in
            match u with
            | Returns _ => (r, s2, t0 ++ t1 ++ t2)
            | Blocks => (Blocks, s2, t0 ++ t1 ++ t2)
            | Exits => (Exits, s2, t0 ++ t1 ++ t2)
            | Panics => (Panics, s2, t0 ++ t1 ++ t2)
            end
        | Blocks => (Blocks, s1, t0 ++ t1)
        | Exits => (Exits, s1, t0 ++ t1)
        end
    | Blocks => (Blocks, s0, t0)
    | Exits => (Exits, s0, t0)
    | Panics => (Panics, s0, t0)
    end.

(** [AssertTrue], part_001 lines 25-29: [log.Fatalf] when the condition
    is false. *)
Definition AssertTrue {W : Type} (b : bool) : D W unit :=
  fun s => if b then (Returns tt, s, []) else (Exits, s, []).

(** [math.MaxUint64] *)
Definition MaxUint64 : uint64 := uint64_max.

(** [raftpb.Snapshot{}] *)
Definition Snapshot_empty : Snapshot :=
  mkSnapshot [] (mkSnapshotMetadata (mkConfState [] [] [] [] false) 0 0).

(** [raftpb.HardState{}] *)
Definition HardState_zero : HardState := mkHardState 0 0 0.

(** [raftpb.ConfState{}] *)
Definition ConfState_zero : ConfState := mkConfState [] [] [] [] false.

Section DiskStorage.

Context {W : Type} (F : Files W).

Local Abbreviation D := (D W).

(** *** The files, as [DiskStorage] calls them *)

Definition w_wal_firstIndex : D uint64 :=
  call (wal_firstIndex (fs_wal F)) EvWalFirstIndex.

Definition w_wal_LastIndex : D uint64 :=
  call (wal_LastIndex (fs_wal F)) EvWalLastIndex.

Definition w_wal_allEntries (lo hi maxSize : uint64) : D (list Entry) :=
  call (wal_allEntries (fs_wal F) lo hi maxSize) (EvWalAllEntries lo hi maxSize).

Definition w_wal_Term (idx : uint64) : D (uint64 * option error) :=
  call (wal_Term (fs_wal F) idx) (EvWalTerm idx).

Definition w_wal_AddEntries (es : list Entry) : D (option error) :=
  call (wal_AddEntries (fs_wal F) es) (EvWalAddEntries es).

Definition w_wal_seekEntry (i : uint64) : D (uint64 * option error) :=
  call (wal_seekEntry (fs_wal F) i) (EvWalSeekEntry i).

Definition w_wal_deleteBefore (i : uint64) : D unit :=
  call (wal_deleteBefore (fs_wal F) i) (EvWalDeleteBefore i).

Definition w_wal_truncateEntriesUntil (i : uint64) : D unit :=
  call (wal_truncateEntriesUntil (fs_wal F) i) (EvWalTruncateEntriesUntil i).

Definition w_wal_reset : D (option error) :=
  call (wal_reset (fs_wal F)) EvWalReset.

Definition w_wal_current_Sync : D (option error) :=
  call (wal_current_Sync (fs_wal F)) EvWalSync.

Definition w_meta_Uint (info : MetaInfo) : D uint64 :=
  call (meta_Uint (fs_meta F) info) (EvMetaUint info).

Definition w_meta_HardState : D (HardState * option error) :=
  call (meta_HardState (fs_meta F)) EvMetaHardState.

Definition w_meta_StoreHardState (hs : HardState) : D (option error) :=
  call (meta_StoreHardState (fs_meta F) hs) (EvMetaStoreHardState hs).

Definition w_meta_snapshot : D (Snapshot * option error) :=
  call (meta_snapshot (fs_meta F)) EvMetaSnapshot.

Definition w_meta_StoreSnapshot (snap : Snapshot) : D (option error) :=
  call (meta_StoreSnapshot (fs_meta F) snap) (EvMetaStoreSnapshot snap).

Definition w_meta_Sync : D (option error) :=
  call (meta_Sync (fs_meta F)) EvMetaSync.

(** *** The methods of [*DiskStorage] *)

(** [Uint], line 150. *)
Definition Uint (info : MetaInfo) : D uint64 := w_meta_Uint info.

(** [SetHardState], lines 169-171. *)
Definition SetHardState (st : HardState) : D (option error) :=
  w_meta_StoreHardState st.

(** [InitialState], lines 184-198: the named results keep the hard state
    that was read when the snapshot cannot be. *)
Definition InitialState : D (HardState * ConfState * option error) :=
  with_lock
    ('(hs, err) <- w_meta_HardState ;;
     match err with
     | Some e => ret (hs, ConfState_zero, Some e)
     | None =>
         '(snap, err) <- w_meta_snapshot ;;
         match err with
         | Some e => ret (hs, ConfState_zero, Some e)
         | None => ret (hs, md_ConfState (snap_Metadata snap), None)
         end
     end).

(** [Entries], lines 220-242; a nil slice is the empty list. *)
Definition Entries (lo hi maxSize : uint64) : D (list Entry * option error) :=
  with_lock
    (first <- w_wal_firstIndex ;;
     if lo <? first then ret ([], Some ErrCompacted)
     else
       last <- w_wal_LastIndex ;;
       if wrap64 (last + 1) <? hi then ret ([], Some ErrUnavailable)
       else
         ents <- w_wal_allEntries lo hi maxSize ;;
         ret (ents, None)).

(** [Term], lines 244-263. *)
Definition Term (idx : uint64) : D (uint64 * option error) :=
  with_lock
    (si <- w_meta_Uint SnapshotIndex ;;
     if idx <? si then ret (0, Some ErrCompacted)
     else if idx =? si then
       t <- w_meta_Uint SnapshotTerm ;;
       ret (t, None)
     else
       '(term, err) <- w_wal_Term idx ;;
       ret (term, err)).

(** [lastIndex], lines 265-272. *)
Definition lastIndex : D uint64 :=
  li <- w_wal_LastIndex ;;
  si <- w_meta_Uint SnapshotIndex ;;
  if li <? si then ret si else ret li.

(** [LastIndex], lines 274-284. *)
Definition LastIndex : D (uint64 * option error) :=
  with_lock
    (li <- w_wal_LastIndex ;;
     si <- w_meta_Uint SnapshotIndex ;;
     if li <? si then ret (si, None) else ret (li, None)).

(** [firstIndex], lines 286-291. *)
Definition firstIndex : D uint64 :=
  si <- Uint SnapshotIndex ;;
  if 0 <? si then ret (wrap64 (si + 1))
  else w_wal_firstIndex.

(** [FirstIndex], lines 294-299. *)
Definition FirstIndex : D (uint64 * option error) :=
  with_lock
    (first <- firstIndex ;;
     ret (first, None)).

(** [Snapshot], lines 305-310. *)
Definition Snapshot : D (Snapshot * option error) :=
  with_lock w_meta_snapshot.

(** [CreateSnapshot], lines 315-348.  [cs] is a pointer, nil as [None]. *)
Definition CreateSnapshot (i : uint64) (cs : option ConfState) (data : bytes)
  : D (raftpb_Snapshot * option error) :=
  with_lock
    (first <- firstIndex ;;
     if i <? first then ret (Snapshot_empty, Some ErrSnapOutOfDate)
     else
       '(term, err) <- w_wal_seekEntry i ;;
       match err with
       | Some e => ret (Snapshot_empty, Some e)
       | None =>
           AssertTrue (match cs with Some _ => true | None => false end) ;;
           let conf := match cs with Some c => c | None => ConfState_zero end in
           let snap := mkSnapshot data (mkSnapshotMetadata conf i term) in
           err <- w_meta_StoreSnapshot snap ;;
           match err with
           | Some e => ret (Snapshot_empty, Some e)
           | None =>
               w_wal_deleteBefore (md_Index (snap_Metadata snap)) ;;
               ret (snap, None)
           end
       end).

(** [sync], lines 448-459. *)
Definition sync : D (option error) :=
  err <- w_meta_Sync ;;
  match err with
  | Some e => ret (Some (Wrapf e "while syncing meta"))
  | None =>
      err <- w_wal_current_Sync ;;
      match err with
      | Some e => ret (Some (Wrapf e "while syncing current file"))
      | None => ret None
      end
  end.

(** [Sync], lines 462-467, and [Close], lines 470-472. *)
Definition Sync : D (option error) := with_lock sync.

Definition Close : D (option error) := Sync.

(** [SaveEntries], lines 354-374.  [h] is a pointer that is not nil: the
    engine passes the address of a field of the Ready. *)
Definition SaveEntries (h : HardState) (es : list Entry) : D (option error) :=
  with_lock
    ('(old, err) <- w_meta_HardState ;;
     match err with
     | Some e => ret (Some e)
     | None =>
         err <- w_wal_AddEntries es ;;
         match err with
         | Some e => ret (Some e)
         | None =>
             err <- w_meta_StoreHardState h ;;
             match err with
             | Some e => ret (Some e)
             | None =>
                 if raft_MustSync F old h (len es) then sync else ret None
             end
         end
     end).

(** [SaveSnapshot], lines 376-386. *)
Definition SaveSnapshot (snap : raftpb_Snapshot) : D (option error) :=
  with_lock
    (err <- w_meta_StoreSnapshot snap ;;
     match err with
     | Some e => ret (Some e)
     | None => sync
     end).

(** [TruncateEntriesUntil], lines 440-442, and [Compact], lines 433-436. *)
Definition TruncateEntriesUntil (lastIdx : uint64) : D unit :=
  w_wal_truncateEntriesUntil lastIdx.

Definition Compact (compactIndex : uint64) : D (option error) :=
  w_wal_truncateEntriesUntil compactIndex ;;
  ret None.

(** [entries[n:]]: a panic when [n] is beyond the length. *)
Definition slice_from {A : Type} (entries : list A) (n : Z) : D (list A) :=
  fun s =>
    if n <=? len entries then (Returns (skipn (Z.to_nat n) entries), s, [])
    else (Panics, s, []).

(** [addEntries], lines 407-431.  The index of the last entry and the
    number of entries to drop are computed in [uint64]. *)
Definition addEntries (entries : list Entry) : D (option error) :=
  match entries with
  | [] => ret None
  | e0 :: _ =>
      '(first, err) <- FirstIndex ;;
      match err with
      | Some e => ret (Some e)
      | None =>
          let firste := ent_Index e0 in
          if wrap64 (wrap64 (firste + len entries) - 1) <? first then ret None
          else
            entries <- (if firste <? first
                        then slice_from entries (wrap64 (first - firste))
                        else ret entries) ;;
            err <- w_wal_AddEntries entries ;;
            match err with
            | Some e => ret (Some (Wrapf e "while adding entries"))
            | None => ret None
            end
      end
  end.

(** [Append], lines 402-404. *)
Definition Append (entries : list Entry) : D (option error) :=
  addEntries entries.

(** [reset], lines 161-167. *)
Definition reset (es : list Entry) : D (option error) :=
  err <- w_wal_reset ;;
  match err with
  | Some e => ret (Some e)
  | None => addEntries es
  end.

(** [ApplySnapshot], lines 388-400. *)
Definition ApplySnapshot (snap : raftpb_Snapshot) : D (option error) :=
  with_lock
    (TruncateEntriesUntil (md_Index (snap_Metadata snap)) ;;
     err <- addEntries [mkEntry (md_Term (snap_Metadata snap))
                                (md_Index (snap_Metadata snap)) EntryNormal []] ;;
     match err with
     | Some e => ret (Some e)
     | None =>
         err <- w_meta_StoreSnapshot snap ;;
         match err with
         | Some e => ret (Some e)
         | None => sync
         end
     end).

(** [Boot], lines 127-147: the named results as the function leaves
    them; [snap] is never assigned. *)
Definition Boot (m : bytes)
  : D (bytes * option HardState * list Entry * option SnapshotFile * option error) :=
  Lock ;;
  lo <- firstIndex ;;
  hi <- lastIndex ;;
  Unlock ;;
  '(ents, err) <- Entries lo hi MaxUint64 ;;
  match err with
  | Some e => ret (m, None, ents, None, Some e)
  | None =>
      '(st, err) <- w_meta_HardState ;;
      match err with
      | Some e => ret (m, None, ents, None, Some e)
      | None => ret (m, Some st, ents, None, None)
      end
  end.

End DiskStorage.

End raftwal.

(** ** What the properties of the store speak of *)

(** Entries with consecutive indices, the first at [first]. *)
Fixpoint consecutive (first : uint64) (entries : list Entry) : Prop :=
  match entries with
  | [] => True
  | e :: rest => ent_Index e = first /\ consecutive (first + 1) rest
  end.

(** A computation that returns and leaves the mutex as it found it. *)
Definition steady {W A : Type} (m : raftwal.D W A) : Prop :=
  forall s : raftwal.store W,
    (exists a, raftwal.ending_of m s = raftwal.Returns a) /\
    raftwal.locked (raftwal.store_after m s) = raftwal.locked s.

(** A computation that, started with the mutex in state [b], returns and
    leaves it in state [b']. *)
Definition moves {W A : Type} (b b' : bool) (m : raftwal.D W A) : Prop :=
  forall s : raftwal.store W,
    raftwal.locked s = b ->
    (exists a, raftwal.ending_of m s = raftwal.Returns a) /\
    raftwal.locked (raftwal.store_after m s) = b'.

(** A method that takes the mutex and gives it back: called with the
    mutex free it returns with the mutex free; called with the mutex held
    it waits, having done nothing. *)
Definition releases {W A : Type} (m : raftwal.D W A) : Prop :=
  moves false false m /\
  forall s : raftwal.store W, raftwal.locked s = true -> m s = (raftwal.Blocks, s, []).

(** * The snapshot and log files on disk

    [internal/storage/disk]: [list] of ls.go and [purge] of the disk
    store, part_003.  The operating system, [fileutil.TryLockFile],
    [filepath.Join] and [fmt.Sscanf] are the collaborators; the logger is
    left out. *)
Module disk.

(** An error of the operating system or of [fmt.Sscanf]. *)
Inductive error : Type :=
| ErrOS (tag : string).

Inductive event : Type :=
| EvReadDir (path : string)
| EvRemove (path : string)
| EvTryLockFile (path : string)
| EvLockClose (path : string).

(** The calls that leave the package; [ReadDir] gives the names of the
    entries it read.  [Join] and [Sscanf] do not touch the disk: [Sscanf]
    is given the input and the format and gives the two numbers it scanned
    and its error. *)
Record OS (W : Type) : Type := mkOS {
  os_ReadDir : string -> W -> (list string * option error) * W;
  os_Remove : string -> W -> option error * W;
  fileutil_TryLockFile : string -> W -> option error * W;
  lock_Close : string -> W -> unit * W;
  filepath_Join : string -> string -> string;
  fmt_Sscanf : string -> string -> (uint64 * uint64) * option error
}.

(** The fields of [disk] that [purge] reads. *)
Record config : Type := mkConfig {
  snapdir : string;
  waldir : string;
  maxsnaps : Z
}.

(** ls.go, lines 9-13. *)
Definition snapExt : string := ".snap".

Definition walExt : string := ".wal".

Definition format : string := "%016x-%016x".

(** How a call ends: it returns, or it panics on an index out of range. *)
Inductive ending (A : Type) : Type :=
| Returns (a : A)
| Panics.

Arguments Panics {A}.

Definition P (W A : Type) : Type := W -> ending A * W * list event.

Definition ret {W A : Type} (a : A) : P W A :=
  fun w => (Returns a, w, []).

Definition bind {W A B : Type} (m : P W A) (f : A -> P W B) : P W B :=
  fun w =>
    let '(r, w1, t1) := m w in
    match r with
    | Returns a => let '(r2, w2, t2) := f a w1 in (r2, w2, t1 ++ t2)
    | Panics => (Panics, w1, t1)
    end.

Declare Scope disk_scope.
Delimit Scope disk_scope with disk.

Notation "x <- c1 ;; c2" := (bind c1 (fun x => c2))
  (at level 61, c1 at next level, right associativity) : disk_scope.
Notation "' pat <- c1 ;; c2" := (bind c1 (fun x => match x with pat => c2 end))
  (at level 61, pat pattern, c1 at next level, right associativity) : disk_scope.
Notation "c1 ;; c2" := (bind c1 (fun _ => c2))
  (at level 61, right associativity) : disk_scope.

Local Open Scope disk_scope.

Definition ending_of {W A : Type} (m : P W A) (w : W) : ending A := fst (fst (m w)).

Definition disk_after {W A : Type} (m : P W A) (w : W) : W := snd (fst (m w)).

Definition trace {W A : Type} (m : P W A) (w : W) : list event := snd (m w).

Definition call {W A : Type} (f : W -> A * W) (e : event) : P W A :=
  fun w => let '(a, w1) := f w in (Returns a, w1, [e]).

(** [files[i]] *)
Definition index {W : Type} (files : list string) (i : Z) : P W string :=
  fun w =>
    if (0 <=? i) && (i <? len files)
    then (Returns (nth (Z.to_nat i) files EmptyString), w, [])
    else (Panics, w, []).

(** [strings.HasSuffix] *)
Definition HasSuffix (s suffix : string) : bool :=
  (String.length suffix <=? String.length s)%nat &&
  String.eqb (substring (String.length s - String.length suffix)
                        (String.length suffix) s) suffix.

(** [sort.Sort(sort.Reverse(sort.StringSlice(files)))]: the names in
    descending order.  Strings that compare equal are the same string, so
    the order decides the result. *)
Fixpoint insert_descending (x : string) (sorted : list string) : list string :=
  match sorted with
  | [] => [x]
  | y :: rest =>
      if String.leb y x then x :: sorted else y :: insert_descending x rest
  end.

Definition sort_descending (files : list string) : list string :=
  fold_right insert_descending [] files.

(** [b] comes before [a] or is [a]: the order of a descending list. *)
Definition descends (a b : string) : Prop := String.leb b a = true.

Section Disk.

Context {W : Type} (os : OS W) (d : config).

Local Abbreviation P := (P W).

Definition os'ReadDir (path : string) : P (list string * option error) :=
  call (os_ReadDir os path) (EvReadDir path).

Definition os'Remove (path : string) : P (option error) :=
  call (os_Remove os path) (EvRemove path).

Definition TryLockFile (path : string) : P (option error) :=
  call (fileutil_TryLockFile os path) (EvTryLockFile path).

Definition lock'Close (path : string) : P unit :=
  call (lock_Close os path) (EvLockClose path).

(** [list], ls.go lines 15-30; the name is that of a type here. *)
Definition list_files (path ext : string) : P (list string * option error) :=
  '(ls, err) <- os'ReadDir path ;;
  match err with
  | Some e => ret ([], Some e)
  | None =>
      let files := filter (fun name => HasSuffix name ext) ls in
      ret (sort_descending files, None)
  end.

(** The first loop of [purge], lines 68-77, from the file at
    position [i]: it returns [oldest] as the loop leaves it and the error
    of a failed [Remove]. *)
Fixpoint purge_snapshots (current : string) (i : Z) (files : list string)
  (oldest : string) : P (string * option error) :=
  match files with
  | [] => ret (oldest, None)
  | f :: rest =>
      if negb (String.eqb f current) && (maxsnaps d <=? i) then
        err <- os'Remove (filepath_Join os (snapdir d) f) ;;
        match err with
        | Some e => ret (oldest, Some e)
        | None => purge_snapshots current (i + 1) rest oldest
        end
      else purge_snapshots current (i + 1) rest f
  end.

(** The second loop, lines 93-104, from the file at position [i]. *)
Fixpoint wal_mark (si : uint64) (i : Z) (files : list string) (mark : Z)
  : Z * option error :=
  match files with
  | [] => (mark, None)
  | f :: rest =>
      let '((ws, wi), err) := fmt_Sscanf os f (format ++ walExt) in
      match err with
      | Some e => (mark, Some e)
      | None => wal_mark si (i + 1) rest (if si <=? wi then i else mark)
      end
  end.

(** The third loop, lines 110-123: [n] rounds are left, the next is for
    [i]. *)
Fixpoint remove_wals (files : list string) (n : nat) (i : Z) : P (option error) :=
  match n with
  | O => ret None
  | S n' =>
      f <- index files (len files - i - 1) ;;
      let path := filepath_Join os (waldir d) f in
      err <- TryLockFile path ;;
      match err with
      | Some e => ret (Some e)
      | None =>
          err <- os'Remove path ;;
          lock'Close path ;;
          match err with
          | Some e => ret (Some e)
          | None => remove_wals files n' (i + 1)
          end
      end
  end.

(** Whether the log file [f] starts at or after the index [si]: the test
    [wi >= si] of the second loop. *)
Definition reaches (si : uint64) (f : string) : bool :=
  si <=? snd (fst (fmt_Sscanf os f (format ++ walExt))).

(** Removing the files of a list from the directory [dir], one after the
    other and up to the first removal that fails: the error of that
    removal if there is one, the disk, and the calls that were made.  The
    first loop of [purge] is compared with it. *)
Fixpoint remove_in_turn (dir : string) (names : list string) (w : W)
  : option error * W * list event :=
  match names with
  | [] => (None, w, [])
  | f :: rest =>
      let path := filepath_Join os dir f in
      let '(err, w1) := os_Remove os path w in
      match err with
      | Some e => (Some e, w1, [EvRemove path])
      | None =>
          let '(r, w2, t) := remove_in_turn dir rest w1 in
          (r, w2, EvRemove path :: t)
      end
  end.

(** The same with each file locked before it is removed and the lock
    closed after: a lock that cannot be taken ends it before the removal,
    a removal that fails ends it after the lock is closed.  The third loop
    of [purge] is compared with it. *)
Fixpoint prune_in_turn (dir : string) (names : list string) (w : W)
  : option error * W * list event :=
  match names with
  | [] => (None, w, [])
  | f :: rest =>
      let path := filepath_Join os dir f in
      let '(lerr, w1) := fileutil_TryLockFile os path w in
      match lerr with
      | Some e => (Some e, w1, [EvTryLockFile path])
      | None =>
          let '(rerr, w2) := os_Remove os path w1 in
          let '(_, w3) := lock_Close os path w2 in
          match rerr with
          | Some e => (Some e, w3, [EvTryLockFile path; EvRemove path; EvLockClose path])
          | None =>
              let '(r, w4, t) := prune_in_turn dir rest w3 in
              (r, w4, EvTryLockFile path :: EvRemove path :: EvLockClose path :: t)
          end
      end
  end.

(** The closure [fn] of [purge], lines 56-126. *)
Definition purge_fn : P (option error) :=
  '(files, err) <- list_files (snapdir d) snapExt ;;
  match err with
  | Some e => ret (Some e)
  | None =>
      if (len files <? maxsnaps d) || (len files =? 0) then ret None
      else
        current <- index files 0 ;;
        '(oldest, err) <- purge_snapshots current 0 files EmptyString ;;
        match err with
        | Some e => ret (Some e)
        | None =>
            let '((st, si), err) := fmt_Sscanf os oldest (format ++ snapExt) in
            match err with
            | Some e => ret (Some e)
            | None =>
                '(files, err) <- list_files (waldir d) walExt ;;
                match err with
                | Some e => ret (Some e)
                | None =>
                    let '(mark, err) := wal_mark si 0 files (-1) in
                    match err with
                    | Some e => ret (Some e)
                    | None =>
                        let mark :=
                          if (mark =? 0) && (0 <? len files)
                          then len files - 1 else mark in
                        remove_wals files (Z.to_nat mark) 0
                    end
                end
            end
        end
  end.

(** [purge], lines 55-131: the error of [fn] is logged only. *)
Definition purge : P unit :=
  _ <- purge_fn ;;
  ret tt.

End Disk.

End disk.

(** ** A store that cannot compact *)
Module DemoFaults.

Definition no_space : error := ErrExternal "no space left on device".

(** The store of the examples, with a [Compact] that fails. *)
Definition storage : Storage Demo.W :=
  mkStorage
    (sto_SaveEntries Demo.storage)
    (sto_SaveSnapshot Demo.storage)
    (sto_ApplySnapshot Demo.storage)
    (sto_CreateSnapshot Demo.storage)
    (fun _ w => (Some no_space, w))
    (sto_Snapshot Demo.storage)
    (sto_SnapshotterRead Demo.storage)
    (sto_SnapshotterWrite Demo.storage).

(** The follower of the examples on that store. *)
Definition follower : Collaborators Demo.W :=
  mkCollaborators Demo.fsm storage (Demo.pool []) (Demo.node (mkStatus 1 2 None))
                  Demo.runtime Demo.codec 10.

End DemoFaults.

(** ** A store on two files that never fail *)
Module DemoWal.

Import raftwal.

(** The entries the log was given, oldest first. *)
Definition W : Type := list Entry.

(** A log from [first] to [last] in term 1. *)
Definition log (first last : uint64) : wal W :=
  mkWal
    (fun w => (first, w))
    (fun w => (last, w))
    (fun _ _ _ w => ([], w))
    (fun _ w => ((1, None), w))
    (fun es w => (None, w ++ es))
    (fun _ w => ((1, None), w))
    (fun _ w => (tt, w))
    (fun _ w => (tt, w))
    (fun _ => (None, []))
    (fun w => (None, w)).

(** A meta file whose snapshot is at index [si] in term 1. *)
Definition meta (si : uint64) : metaFile W :=
  mkMetaFile
    (fun info w =>
       (match info with SnapshotIndex => si | SnapshotTerm => 1 | _ => 0 end, w))
    (fun w => ((mkHardState 1 0 0, None), w))
    (fun _ w => (None, w))
    (fun w => ((Snapshot_empty, None), w))
    (fun _ w => (None, w))
    (fun w => (None, w)).

(** [raft.MustSync] of go.etcd.io/raft/v3. *)
Definition MustSync (st prevst : HardState) (entsnum : Z) : bool :=
  negb (entsnum =? 0) || negb (hs_Vote st =? hs_Vote prevst) ||
  negb (hs_Term st =? hs_Term prevst).

Definition files_at (si first last : uint64) : Files W :=
  mkFiles (log first last) (meta si) MustSync.

(** The same files with a log that takes no more entries. *)
Definition log_full (first last : uint64) : wal W :=
  mkWal
    (wal_firstIndex (log first last))
    (wal_LastIndex (log first last))
    (wal_allEntries (log first last))
    (wal_Term (log first last))
    (fun _ w => (Some (ErrFile "log is full"), w))
    (wal_seekEntry (log first last))
    (wal_deleteBefore (log first last))
    (wal_truncateEntriesUntil (log first last))
    (wal_reset (log first last))
    (wal_current_Sync (log first last)).

Definition files_full (si first last : uint64) : Files W :=
  mkFiles (log_full first last) (meta si) MustSync.

(** A store whose mutex is free and whose log has been given nothing. *)
Definition free : store W := mkStore false [].

Definition entry_at (index : uint64) : Entry := mkEntry 1 index EntryNormal [].

End DemoWal.

(** ** A state directory in memory *)
Module DemoDisk.

Import disk.

(** The names in the snapshot directory and in the log directory. *)
Definition W : Type := (list string * list string)%type.

Definition Join (dir name : string) : string := dir ++ "/" ++ name.

Definition hex_digit (c : ascii) : option Z :=
  let n := Z.of_N (N_of_ascii c) in
  if (48 <=? n) && (n <=? 57) then Some (n - 48)
  else if (97 <=? n) && (n <=? 102) then Some (n - 87)
  else None.

Fixpoint hex (digits : nat) (s : string) (acc : Z) : option (Z * string) :=
  match digits with
  | O => Some (acc, s)
  | S digits' =>
      match s with
      | String c rest =>
          match hex_digit c with
          | Some v => hex digits' rest (16 * acc + v)
          | None => None
          end
      | EmptyString => None
      end
  end.

(** [fmt.Sscanf] for the two numbers of a file name, sixteen hexadecimal
    digits each; the format is not read. *)
Definition Sscanf (s _ : string) : (uint64 * uint64) * option error :=
  match hex 16 s 0 with
  | Some (a, String "-" rest) =>
      match hex 16 rest 0 with
      | Some (b, _) => ((a, b), None)
      | None => ((a, 0), Some (ErrOS "input does not match format"))
      end
  | Some (a, _) => ((a, 0), Some (ErrOS "input does not match format"))
  | None => ((0, 0), Some (ErrOS "expected integer"))
  end.

Definition os : OS W :=
  mkOS
    (fun path w =>
       if String.eqb path "snap" then ((fst w, None), w)
       else if String.eqb path "wal" then ((snd w, None), w)
       else (([], Some (ErrOS "no such file or directory")), w))
    (fun path w =>
       (None,
        (filter (fun name => negb (String.eqb (Join "snap" name) path)) (fst w),
         filter (fun name => negb (String.eqb (Join "wal" name) path)) (snd w))))
    (fun _ w => (None, w))
    (fun _ w => (tt, w))
    Join
    Sscanf.

(** The same directories when nothing can be removed. *)
Definition os_read_only : OS W :=
  mkOS
    (os_ReadDir os)
    (fun _ w => (Some (ErrOS "read-only file system"), w))
    (fileutil_TryLockFile os)
    (lock_Close os)
    Join
    Sscanf.

(** At most [maxsnaps] snapshot files are kept. *)
Definition keeping (maxsnaps : Z) : config := mkConfig "snap" "wal" maxsnaps.

(** Three snapshots, at the indices 16, 32 and 48, and four log files
    that start at the indices 1, 16, 32 and 48. *)
Definition state_dir : W :=
  (["0000000000000001-0000000000000010.snap"%string;
    "0000000000000001-0000000000000020.snap"%string;
    "0000000000000002-0000000000000030.snap"%string;
    "notes.txt"%string],
   ["0000000000000000-0000000000000001.wal"%string;
    "0000000000000001-0000000000000010.wal"%string;
    "0000000000000002-0000000000000020.wal"%string;
    "0000000000000003-0000000000000030.wal"%string]).

End DemoDisk.

(** * Properties *)

(** ** Runs of the monad *)

Lemma bind_run {W A B : Type} (m : M W A) (f : A -> M W B) (s : state W) :
  bind m f s =
  (result (f (result m s)) (final m s),
   final (f (result m s)) (final m s),
   events m s ++ events (f (result m s)) (final m s)).
Proof.
  unfold bind, result, final, events.
  destruct (m s) as [[a s1] t1]. simpl.
  destruct (f a s1) as [[b s2] t2]. reflexivity.
Qed.

Lemma result_bind {W A B : Type} (m : M W A) (f : A -> M W B) (s : state W) :
  result (bind m f) s = result (f (result m s)) (final m s).
Proof. unfold result at 1. rewrite bind_run. reflexivity. Qed.

Lemma final_bind {W A B : Type} (m : M W A) (f : A -> M W B) (s : state W) :
  final (bind m f) s = final (f (result m s)) (final m s).
Proof. unfold final at 1. rewrite bind_run. reflexivity. Qed.

Lemma events_bind {W A B : Type} (m : M W A) (f : A -> M W B) (s : state W) :
  events (bind m f) s = events m s ++ events (f (result m s)) (final m s).
Proof. unfold events at 1. rewrite bind_run. reflexivity. Qed.

Lemma run_eta {W A : Type} (m : M W A) (s : state W) :
  m s = (result m s, final m s, events m s).
Proof.
  unfold result, final, events. destruct (m s) as [[a s1] t1]. reflexivity.
Qed.

Lemma for_range_app {W A : Type} (body : A -> M W unit) (xs ys : list A) (s : state W) :
  for_range (xs ++ ys) body s = (for_range xs body ;; for_range ys body) s.
Proof.
  revert s. induction xs as [| x xs IH]; intros s.
  - simpl. unfold bind, ret. destruct (for_range ys body s) as [[u s1] t1].
    reflexivity.
  - simpl. unfold bind in *.
    destruct (body x s) as [[u s1] t1].
    rewrite IH.
    destruct (for_range xs body s1) as [[u2 s2] t2].
    destruct (for_range ys body s2) as [[u3 s3] t3].
    rewrite app_assoc. reflexivity.
Qed.

(** ** The committed-entry publisher *)

Section Publisher.

Context {W : Type} (C : Collaborators W).

(** Unfolding the primitives of the monad and the wrappers that
    [publishReplicate] and [publishConfChange] use. *)
Ltac unfold_publisher :=
  unfold publishCommitted_entry, publishReplicate, publishConfChange,
    appliedIndex_Set, fsm_Apply, pool_Add, pool_Update, node_ApplyConfChange,
    msgbus_Broadcast, go, bind, ret, gets, modify, emit, call.

(** A decodable command is applied once and its result is broadcast under
    its CID. *)
Lemma publishReplicate_decoded (ent : Entry) (r : Replicate) (s : state W) :
  Replicate_Unmarshal (co_codec C) (ent_Data ent) Replicate_zero = (r, None) ->
  publishReplicate C ent s =
  (tt,
   mkState (eng s) (snd (sm_Apply (co_fsm C) (rep_Data r) (env s))),
   [EvFsmApply (rep_Data r);
    EvBroadcast (rep_CID r)
      (busval_of_error (fst (sm_Apply (co_fsm C) (rep_Data r) (env s))))]).
Proof.
  intros Hdec. unfold_publisher. rewrite Hdec.
  destruct (sm_Apply (co_fsm C) (rep_Data r) (env s)) as [err w]. reflexivity.
Qed.

(** A command that does not decode is not applied; the error is broadcast
    under the CID that the decoder left in the record. *)
Lemma publishReplicate_undecoded (ent : Entry) (r : Replicate) (e : error) (s : state W) :
  Replicate_Unmarshal (co_codec C) (ent_Data ent) Replicate_zero = (r, Some e) ->
  publishReplicate C ent s = (tt, s, [EvBroadcast (rep_CID r) (BusErr e)]).
Proof.
  intros Hdec. unfold_publisher. rewrite Hdec. reflexivity.
Qed.

(** Whatever the entry, the store to the applied index is the last event
    of its handling. *)
Lemma publishCommitted_entry_store (ent : Entry) (s : state W) :
  exists evs,
    events (publishCommitted_entry C ent) s =
      evs ++ [EvStoreU64 AppliedIndex (ent_Index ent)] /\
    appliedIndex (eng (final (publishCommitted_entry C ent) s)) = ent_Index ent.
Proof.
  unfold publishCommitted_entry, events, final, bind.
  destruct ((if EntryType_eqb (ent_Type ent) EntryNormal && (0 <? len (ent_Data ent))
             then publishReplicate C ent else ret tt) s) as [[u1 s1] t1].
  destruct ((if EntryType_eqb (ent_Type ent) EntryConfChange
             then publishConfChange C ent else ret tt) s1) as [[u2 s2] t2].
  unfold appliedIndex_Set, bind, modify, emit. simpl.
  exists (t1 ++ t2). split; [| reflexivity].
  rewrite app_assoc. reflexivity.
Qed.

Lemma len_pos_iff {A : Type} (l : list A) : (0 <? len l) = true <-> l <> [].
Proof.
  unfold len. destruct l as [| a l]; simpl.
  - split; [discriminate | congruence].
  - split; [discriminate | intros _; apply Z.ltb_lt; lia].
Qed.

(** C2.  [publishCommitted] handles the committed entries in the order of
    the list: for every entry [ent] of the batch, standing after the
    entries [es1] and before the entries [es2], the run is the run on
    [es1], then the handling of [ent], then the run on [es2].  When [ent]
    is an [EntryNormal] with non-empty data that decodes as the record
    [r], its handling applies [r.Data] to the state machine, broadcasts
    [(r.CID, err)] with the error of that [Apply], and then stores the
    entry's index in the applied index.  For an entry of any type the store
    of its index is the last event of its handling.  After a batch the
    applied index is the index of the last entry. *)
Theorem publishCommitted_in_order (es1 es2 : list Entry) (ent : Entry) (s : state W) :
  let s1 := final (publishCommitted C es1) s in
  let s2 := final (publishCommitted_entry C ent) s1 in
  publishCommitted C (es1 ++ ent :: es2) s =
    (tt,
     final (publishCommitted C es2) s2,
     events (publishCommitted C es1) s ++
     events (publishCommitted_entry C ent) s1 ++
     events (publishCommitted C es2) s2)
  /\
  (forall r : Replicate,
     ent_Type ent = EntryNormal ->
     ent_Data ent <> [] ->
     Replicate_Unmarshal (co_codec C) (ent_Data ent) Replicate_zero = (r, None) ->
     publishCommitted_entry C ent s1 =
       (tt,
        mkState (set_appliedIndex (ent_Index ent) (eng s1))
                (snd (sm_Apply (co_fsm C) (rep_Data r) (env s1))),
        [EvFsmApply (rep_Data r);
         EvBroadcast (rep_CID r)
           (busval_of_error (fst (sm_Apply (co_fsm C) (rep_Data r) (env s1))));
         EvStoreU64 AppliedIndex (ent_Index ent)]))
  /\
  (exists evs,
     events (publishCommitted_entry C ent) s1 =
       evs ++ [EvStoreU64 AppliedIndex (ent_Index ent)] /\
     appliedIndex (eng s2) = ent_Index ent)
  /\
  appliedIndex (eng (final (publishCommitted C (es1 ++ [ent])) s)) = ent_Index ent.
Proof.
  intros s1 s2. split; [| split; [| split]].
  - unfold publishCommitted. rewrite for_range_app. rewrite bind_run.
    simpl for_range. rewrite result_bind, final_bind, events_bind.
    fold (publishCommitted C es1). fold (publishCommitted C es2). fold s1. fold s2.
    destruct (result (publishCommitted C es2) s2). reflexivity.
  - intros r Htype Hdata Hdec.
    unfold publishCommitted_entry. rewrite Htype.
    apply len_pos_iff in Hdata. simpl EntryType_eqb. rewrite Hdata. simpl andb.
    cbv iota.
    unfold bind at 1. rewrite (publishReplicate_decoded _ _ Hdec).
    unfold appliedIndex_Set, bind, ret, modify, emit. simpl. reflexivity.
  - apply publishCommitted_entry_store.
  - unfold publishCommitted.
    replace (final (for_range (es1 ++ [ent]) (publishCommitted_entry C)) s)
      with (final (for_range es1 (publishCommitted_entry C) ;;
                   for_range [ent] (publishCommitted_entry C)) s)
      by (unfold final; rewrite for_range_app; reflexivity).
    rewrite final_bind. simpl for_range. rewrite final_bind.
    fold (publishCommitted C es1). fold s1. unfold final at 1, ret. simpl.
    destruct (publishCommitted_entry_store ent s1) as [evs [_ Hidx]].
    exact Hidx.
Qed.

(** C10, as the code has it.  A committed [EntryNormal] with non-empty
    data that does not decode as a [Replicate] is not applied to the state
    machine.  The decode error is still broadcast, under the CID of the
    record as the failed decoder leaves it and under no other id: under
    id 0 when the decoder has not written the CID, under the CID it has
    read when it fails after that. *)
Theorem publishReplicate_decode_error (ent : Entry) (r : Replicate) (e : error)
  (s : state W) :
  ent_Type ent = EntryNormal ->
  ent_Data ent <> [] ->
  Replicate_Unmarshal (co_codec C) (ent_Data ent) Replicate_zero = (r, Some e) ->
  publishReplicate C ent s = (tt, s, [EvBroadcast (rep_CID r) (BusErr e)]) /\
  publishCommitted_entry C ent s =
    (tt,
     mkState (set_appliedIndex (ent_Index ent) (eng s)) (env s),
     [EvBroadcast (rep_CID r) (BusErr e); EvStoreU64 AppliedIndex (ent_Index ent)]) /\
  (forall data, ~ In (EvFsmApply data) (events (publishCommitted_entry C ent) s)) /\
  (forall cid v, cid <> rep_CID r ->
     ~ In (EvBroadcast cid v) (events (publishCommitted_entry C ent) s)) /\
  (rep_CID r = rep_CID Replicate_zero ->
     publishReplicate C ent s = (tt, s, [EvBroadcast 0 (BusErr e)]) /\
     forall cid v, cid <> 0 ->
       ~ In (EvBroadcast cid v) (events (publishCommitted_entry C ent) s)).
Proof.
  intros Htype Hdata Hdec.
  assert (Hrep : publishReplicate C ent s =
                 (tt, s, [EvBroadcast (rep_CID r) (BusErr e)]))
    by exact (publishReplicate_undecoded _ _ Hdec).
  assert (Hent : publishCommitted_entry C ent s =
    (tt, mkState (set_appliedIndex (ent_Index ent) (eng s)) (env s),
     [EvBroadcast (rep_CID r) (BusErr e); EvStoreU64 AppliedIndex (ent_Index ent)])).
  { unfold publishCommitted_entry. rewrite Htype.
    apply len_pos_iff in Hdata. simpl EntryType_eqb. rewrite Hdata. simpl andb.
    cbv iota. unfold bind at 1. rewrite Hrep.
    unfold appliedIndex_Set, bind, ret, modify, emit. simpl. reflexivity. }
  assert (Hother : forall cid v, cid <> rep_CID r ->
            ~ In (EvBroadcast cid v) (events (publishCommitted_entry C ent) s)).
  { unfold events. rewrite Hent. simpl.
    intros cid v Hne [H | [H | []]]; [| discriminate].
    injection H as H _. congruence. }
  split; [exact Hrep |]. split; [exact Hent |]. split; [| split; [exact Hother |]].
  - unfold events. rewrite Hent. simpl.
    intros data [H | [H | []]]; discriminate.
  - intros Hcid. split.
    + rewrite Hrep, Hcid. reflexivity.
    + intros cid v Hne. apply Hother. rewrite Hcid. exact Hne.
Qed.


End Publisher.

(** ** The publisher on explicit entries *)

Lemma publishCommitted_in_order_witness :
  ent_Type Demo.command_entry = EntryNormal /\
  ent_Data Demo.command_entry <> [] /\
  Replicate_Unmarshal Demo.codec (ent_Data Demo.command_entry) Replicate_zero =
    (mkReplicate 9 [x2a], None) /\
  publishCommitted_entry Demo.follower Demo.command_entry
    (final (publishCommitted Demo.follower [Demo.member_conf_change_entry]) Demo.initial) =
    (tt,
     mkState (set_appliedIndex 6
                (set_confState (Some (mkConfState [2] [] [] [] false))
                   (set_appliedIndex 5 Demo.started_engine))) 100,
     [EvFsmApply [x2a]; EvBroadcast 9 BusNil; EvStoreU64 AppliedIndex 6]).
Proof.
  destruct (publishCommitted_in_order Demo.follower
              [Demo.member_conf_change_entry] [] Demo.command_entry Demo.initial)
    as (_ & Hcommand & _).
  split; [reflexivity |]. split; [discriminate |]. split; [reflexivity |].
  apply (Hcommand (mkReplicate 9 [x2a])); [reflexivity | discriminate | reflexivity].
Defined.

Lemma publishReplicate_decode_error_witness :
  ent_Type Demo.malformed_entry = EntryNormal /\
  ent_Data Demo.malformed_entry <> [] /\
  Replicate_Unmarshal Demo.codec (ent_Data Demo.malformed_entry) Replicate_zero =
    (Replicate_zero, Some Demo.malformed) /\
  publishCommitted_entry Demo.follower Demo.malformed_entry Demo.initial =
    (tt,
     mkState (set_appliedIndex 7 Demo.started_engine) 100,
     [EvBroadcast 0 (BusErr Demo.malformed); EvStoreU64 AppliedIndex 7]).
Proof.
  assert (Hdata : ent_Data Demo.malformed_entry <> []) by discriminate.
  split; [reflexivity |]. split; [exact Hdata |]. split; [reflexivity |].
  exact (proj1 (proj2 (publishReplicate_decode_error Demo.follower Demo.malformed_entry
                         (r := Replicate_zero) (e := Demo.malformed) Demo.initial
                         eq_refl Hdata eq_refl))).
Defined.

(** C10 as stated fails when the decoder has read the CID before it
    fails.  The entry below starts as the encoding of the command with CID
    9 does and breaks off inside its second tag: the decoder leaves 9 in
    the record, and the decode error is broadcast under id 9, the id on
    which the proposer of that command waits, not under id 0. *)
Lemma publishReplicate_decode_error_under_cid :
  firstn 2 (ent_Data Demo.command_entry) = [x08; x09] /\
  Replicate_Unmarshal Demo.codec [x08; x09; xff] Replicate_zero =
    (mkReplicate 9 [], Some Demo.malformed) /\
  publishCommitted_entry Demo.follower (mkEntry 1 7 EntryNormal [x08; x09; xff])
                         Demo.initial =
    (tt,
     mkState (set_appliedIndex 7 Demo.started_engine) 100,
     [EvBroadcast 9 (BusErr Demo.malformed); EvStoreU64 AppliedIndex 7]) /\
  ~ In (EvBroadcast 0 (BusErr Demo.malformed))
       (events (publishCommitted_entry Demo.follower
                  (mkEntry 1 7 EntryNormal [x08; x09; xff])) Demo.initial).
Proof.
  split; [reflexivity |]. split; [reflexivity |]. split; [reflexivity |].
  intros [H | [H | []]]; discriminate.
Qed.



(** ** Applied-index broadcasts *)

Section AppliedIndices.

Context {W : Type}.

Lemma applied_range_In (prev curr i : Z) :
  In i (applied_range prev curr) <-> prev < i <= curr.
Proof.
  unfold applied_range. rewrite in_map_iff. split.
  - intros [k [Hk Hin]]. apply in_seq in Hin. lia.
  - intros Hi. exists (Z.to_nat (i - prev - 1)). split; [lia |].
    apply in_seq. lia.
Qed.

Lemma applied_range_sorted (prev curr : Z) :
  StronglySorted Z.lt (applied_range prev curr).
Proof.
  unfold applied_range.
  generalize (Z.to_nat (curr - prev)) as n. generalize 0%nat as start.
  intros start n. revert start.
  induction n as [| n IH]; intros start; simpl.
  - constructor.
  - constructor; [apply IH |].
    apply Forall_forall. intros x Hx.
    apply in_map_iff in Hx. destruct Hx as [k [Hk Hin]].
    apply in_seq in Hin. lia.
Qed.

Lemma applied_range_NoDup (prev curr : Z) : NoDup (applied_range prev curr).
Proof.
  unfold applied_range. apply Injective_map_NoDup.
  - intros a b Hab. lia.
  - apply seq_NoDup.
Qed.

(** The loop started at [i] below the bound [curr+1] broadcasts nil for
    [i], [i+1], ..., [curr]. *)
Lemma publishAppliedIndices_loop_events (curr : uint64) (n : nat) :
  0 <= curr < uint64_max ->
  forall (i : uint64) (s : state W),
    0 <= i <= curr + 1 ->
    Z.to_nat (curr + 1 - i) = n ->
    publishAppliedIndices_loop curr i s =
    (tt, s, map (fun j => EvBroadcast j BusNil)
                (map (fun k => i + Z.of_nat k) (seq 0 n))).
Proof.
  intros Hcurr.
  assert (Hbound : wrap64 (curr + 1) = curr + 1).
  { unfold wrap64, uint64_max, uint64_modulus in *. apply Z.mod_small. lia. }
  induction n as [| n IH]; intros i s Hi Hn.
  - rewrite publishAppliedIndices_loop_equation_1.
    destruct (Z_lt_dec i (wrap64 (curr + 1))) as [Hlt | Hge]; [lia |].
    reflexivity.
  - rewrite publishAppliedIndices_loop_equation_1.
    destruct (Z_lt_dec i (wrap64 (curr + 1))) as [Hlt | Hge]; [| lia].
    simpl publishAppliedIndices_loop_unfold_clause_1.
    assert (Hnext : wrap64 (i + 1) = i + 1).
    { unfold wrap64, uint64_max, uint64_modulus in *. apply Z.mod_small. lia. }
    unfold bind, msgbus_Broadcast, emit. rewrite Hnext.
    rewrite (IH (i + 1) s) by lia.
    simpl. rewrite Z.add_0_r. do 3 f_equal.
    rewrite <- seq_shift, map_map. apply map_ext. intros k. lia.
Qed.

(** C9, within the range of [uint64].  For applied indices [prev] and
    [curr] below 2^64 - 1, [publishAppliedIndices] changes nothing and
    broadcasts nil under the indices of [applied_range prev curr], in that
    order and nothing else: these are exactly the [i] with
    [prev < i <= curr], each once, ascending.  With [prev = curr] nothing
    is broadcast. *)
Theorem publishAppliedIndices_range (prev curr : uint64) (s : state W) :
  0 <= prev < uint64_max ->
  0 <= curr < uint64_max ->
  publishAppliedIndices prev curr s =
    (tt, s, map (fun i => EvBroadcast i BusNil) (applied_range prev curr)) /\
  (forall i, In i (applied_range prev curr) <-> prev < i <= curr) /\
  NoDup (applied_range prev curr) /\
  StronglySorted Z.lt (applied_range prev curr) /\
  (prev = curr -> events (publishAppliedIndices prev curr) s = []).
Proof.
  intros Hprev Hcurr.
  assert (Hstart : wrap64 (prev + 1) = prev + 1).
  { unfold wrap64, uint64_max, uint64_modulus in *. apply Z.mod_small. lia. }
  assert (Hrun : publishAppliedIndices prev curr s =
    (tt, s, map (fun i => EvBroadcast i BusNil) (applied_range prev curr))).
  { unfold publishAppliedIndices. rewrite Hstart.
    destruct (Z_le_gt_dec (prev + 1) (curr + 1)) as [Hle | Hgt].
    - rewrite (publishAppliedIndices_loop_events (n := Z.to_nat (curr - prev)) Hcurr)
        by lia.
      reflexivity.
    - rewrite publishAppliedIndices_loop_equation_1.
      assert (Hbound : wrap64 (curr + 1) = curr + 1).
      { unfold wrap64, uint64_max, uint64_modulus in *. apply Z.mod_small. lia. }
      destruct (Z_lt_dec (prev + 1) (wrap64 (curr + 1))) as [Hlt | Hge]; [lia |].
      unfold applied_range. replace (Z.to_nat (curr - prev)) with 0%nat by lia.
      reflexivity. }
  split; [exact Hrun |].
  split; [intros i; apply applied_range_In |].
  split; [apply applied_range_NoDup |].
  split; [apply applied_range_sorted |].
  intros Heq. unfold events. rewrite Hrun. simpl.
  unfold applied_range. replace (Z.to_nat (curr - prev)) with 0%nat by lia.
  reflexivity.
Qed.

End AppliedIndices.

Lemma publishAppliedIndices_range_witness :
  0 <= 3 < uint64_max /\
  0 <= 6 < uint64_max /\
  publishAppliedIndices 3 6 Demo.initial =
    (tt, Demo.initial, [EvBroadcast 4 BusNil; EvBroadcast 5 BusNil; EvBroadcast 6 BusNil]).
Proof.
  assert (H3 : 0 <= 3 < uint64_max) by (unfold uint64_max, uint64_modulus; lia).
  assert (H6 : 0 <= 6 < uint64_max) by (unfold uint64_max, uint64_modulus; lia).
  split; [exact H3 |]. split; [exact H6 |].
  exact (proj1 (publishAppliedIndices_range (prev := 3) (curr := 6)
                  Demo.initial H3 H6)).
Defined.

(** A Ready cycle of a follower at applied index 5 that commits the
    entries 6 and 7: after the entries are published, nil is broadcast
    under 6 and 7, the indices above the applied index read at the start
    of the cycle. *)
Example do_broadcasts_committed_indices :
  do Demo.follower (Demo.ready_with [Demo.command_entry; Demo.malformed_entry])
     (Demo.at_indices 5 2) =
    (None,
     Demo.at_indices 7 2,
     [EvStorageSaveEntries (mkHardState 1 2 7) [];
      EvFsmApply [x2a]; EvBroadcast 9 BusNil; EvStoreU64 AppliedIndex 6;
      EvBroadcast 0 (BusErr Demo.malformed); EvStoreU64 AppliedIndex 7;
      EvBroadcast 6 BusNil; EvBroadcast 7 BusNil;
      EvNodeStatus; EvNodeAdvance]).
Proof. vm_compute. reflexivity. Qed.

(** C9 as stated fails at the end of the range of [uint64]: with
    [curr = 2^64 - 1] the bound [curr+1] wraps to 0 and nothing is
    broadcast, although [prev < 4 <= curr]; with [prev = 2^64 - 1] the loop
    starts from 0 and broadcasts under index 1, although [prev < 1] is
    false. *)
Lemma publishAppliedIndices_wraps_at_uint64_max :
  (3 < 4 <= uint64_max /\
   events (publishAppliedIndices 3 uint64_max) Demo.initial = []) /\
  (~ uint64_max < 1 /\
   events (publishAppliedIndices uint64_max 2) Demo.initial =
     [EvBroadcast 0 BusNil; EvBroadcast 1 BusNil; EvBroadcast 2 BusNil]).
Proof.
  split; split.
  - unfold uint64_max, uint64_modulus. lia.
  - vm_compute. reflexivity.
  - unfold uint64_max, uint64_modulus. lia.
  - vm_compute. reflexivity.
Qed.

(** ** Snapshots *)

Section Snapshots.

Context {W : Type} (C : Collaborators W).

(** When [publishSnapshotFile] returns nil, the two indices are the index
    of the file's snapshot and [conf_state] is its configuration. *)
Lemma publishSnapshotFile_success (sf : SnapshotFile) (s s' : state W)
  (evs : list event) :
  publishSnapshotFile C sf s = (None, s', evs) ->
  appliedIndex (eng s') = md_Index (snap_Metadata (sf_Raw sf)) /\
  snapIndex (eng s') = md_Index (snap_Metadata (sf_Raw sf)) /\
  confState (eng s') = Some (md_ConfState (snap_Metadata (sf_Raw sf))).
Proof.
  unfold publishSnapshotFile, storage_ApplySnapshot, pool_Restore, fsm_Restore,
    snapIndex_Set, appliedIndex_Set, bind, ret, modify, emit, call.
  destruct (sto_ApplySnapshot (co_storage C) (sf_Raw sf) (env s)) as [[e1 |] w1];
    simpl; [discriminate |].
  destruct (pl_Restore (co_pool C) (sf_Members sf) w1) as [u w2]; simpl.
  destruct (sm_Restore (co_fsm C) (sf_Data sf) w2) as [[e3 |] w3];
    simpl; [discriminate |].
  intros H. injection H as Hs _. subst s'. simpl. auto.
Qed.

(** C3.  [publishSnapshot] returns nil and changes nothing on an empty
    snapshot.  On a snapshot that is not empty and whose index is at most
    the applied index it returns an error, calls no collaborator and
    leaves every field as it was.  When [publishSnapshotFile] returns nil
    for a snapshot file, the applied index and the snapshot index are both
    the index of the file's snapshot and [conf_state] is its [ConfState];
    and a [publishSnapshot] that returns nil for a snapshot that is not
    empty has installed such a file. *)
Theorem publishSnapshot_contract (snap : Snapshot) (sf : SnapshotFile) (s : state W) :
  (IsEmptySnap (co_codec C) snap = true ->
     publishSnapshot C snap s = (None, s, []))
  /\
  (IsEmptySnap (co_codec C) snap = false ->
   md_Index (snap_Metadata snap) <= appliedIndex (eng s) ->
     publishSnapshot C snap s =
       (Some (ErrSnapshotIndex (md_Index (snap_Metadata snap)) (appliedIndex (eng s))),
        s, []))
  /\
  (forall (s' : state W) (evs : list event),
     publishSnapshotFile C sf s = (None, s', evs) ->
     appliedIndex (eng s') = md_Index (snap_Metadata (sf_Raw sf)) /\
     snapIndex (eng s') = md_Index (snap_Metadata (sf_Raw sf)) /\
     confState (eng s') = Some (md_ConfState (snap_Metadata (sf_Raw sf))))
  /\
  (forall (s' : state W) (evs : list event),
     IsEmptySnap (co_codec C) snap = false ->
     publishSnapshot C snap s = (None, s', evs) ->
     exists file : SnapshotFile,
       In (EvStorageApplySnapshot (sf_Raw file)) evs /\
       appliedIndex (eng s') = md_Index (snap_Metadata (sf_Raw file)) /\
       snapIndex (eng s') = md_Index (snap_Metadata (sf_Raw file)) /\
       confState (eng s') = Some (md_ConfState (snap_Metadata (sf_Raw file)))).
Proof.
  split; [| split; [| split]].
  - intros Hempty. unfold publishSnapshot. rewrite Hempty. reflexivity.
  - intros Hempty Hold. unfold publishSnapshot. rewrite Hempty.
    unfold appliedIndex_Get, bind, gets, ret. simpl.
    apply Z.leb_le in Hold. rewrite Hold. reflexivity.
  - intros s' evs. apply publishSnapshotFile_success.
  - intros s' evs Hempty. unfold publishSnapshot. rewrite Hempty.
    unfold appliedIndex_Get, storage_SaveSnapshot, snapshotter_Read.
    unfold bind at 1. unfold gets at 1.
    destruct (md_Index (snap_Metadata snap) <=? appliedIndex (eng s));
      [unfold ret; simpl; discriminate |].
    unfold bind at 1. unfold call at 1.
    destruct (sto_SaveSnapshot (co_storage C) snap (env s)) as [[e1 |] w1];
      [unfold ret; simpl; discriminate |].
    unfold bind at 1. unfold call at 1. simpl.
    destruct (sto_SnapshotterRead (co_storage C) (md_Term (snap_Metadata snap))
                (md_Index (snap_Metadata snap)) w1) as [[file [e2 |]] w2];
      [unfold ret; simpl; discriminate |].
    destruct (publishSnapshotFile C file (mkState (eng s) w2))
      as [[r s2] t2] eqn:Hfile.
    simpl. intros H. injection H as Hr Hs Hevs. subst r s2.
    exists file. split.
    + subst evs. right. right.
      revert Hfile.
      unfold publishSnapshotFile, storage_ApplySnapshot, pool_Restore, fsm_Restore,
        snapIndex_Set, appliedIndex_Set, bind, ret, modify, emit, call. simpl.
      destruct (sto_ApplySnapshot (co_storage C) (sf_Raw file) w2) as [[e3 |] w3];
        simpl; [discriminate |].
      destruct (pl_Restore (co_pool C) (sf_Members file) w3) as [u w4]; simpl.
      destruct (sm_Restore (co_fsm C) (sf_Data file) w4) as [[e5 |] w5];
        simpl; [discriminate |].
      intros H. injection H as _ Ht. subst t2. left. reflexivity.
    + apply (publishSnapshotFile_success _ _ Hfile).
Qed.

(** C4.  [createSnapshot] returns nil, stores nothing and calls no
    collaborator when the applied index equals the snapshot index.  When
    they differ and the snapshotting flag is set, it returns
    [ErrAlreadySnapshotting] and, again, nothing changes.  When they
    differ and the flag is clear, it sets the flag and calls the state
    machine's [Snapshot]; if that call returns an error, it clears the flag
    and returns the error, having touched neither the store nor the
    pool. *)
Theorem createSnapshot_guards (s : state W) :
  (appliedIndex (eng s) = snapIndex (eng s) ->
     createSnapshot C s = (None, s, []))
  /\
  (appliedIndex (eng s) <> snapIndex (eng s) ->
   snapshoting (eng s) = true ->
     createSnapshot C s = (Some ErrAlreadySnapshotting, s, []))
  /\
  (forall e : error,
     appliedIndex (eng s) <> snapIndex (eng s) ->
     snapshoting (eng s) = false ->
     snd (fst (sm_Snapshot (co_fsm C) (env s))) = Some e ->
     createSnapshot C s =
       (Some e,
        mkState (set_snapshoting false (eng s)) (snd (sm_Snapshot (co_fsm C) (env s))),
        [EvStoreBool Snapshoting true; EvFsmSnapshot; EvStoreBool Snapshoting false])).
Proof.
  unfold createSnapshot, appliedIndex_Get, snapIndex_Get, snapshoting_True,
    snapshoting_Set, snapshoting_UnSet, fsm_Snapshot.
  split; [| split].
  - intros Heq. unfold bind, gets, ret. simpl.
    apply Z.eqb_eq in Heq. rewrite Heq. reflexivity.
  - intros Hne Hbusy. unfold bind, gets, ret. simpl.
    apply Z.eqb_neq in Hne. rewrite Hne, Hbusy. reflexivity.
  - intros e Hne Hfree Herr. unfold bind, gets, ret, modify, emit, call. simpl.
    apply Z.eqb_neq in Hne. rewrite Hne, Hfree. simpl.
    destruct (sm_Snapshot (co_fsm C) (env s)) as [[r err] w]. simpl in *.
    subst err. simpl. reflexivity.
Qed.

End Snapshots.

Lemma publishSnapshot_contract_witness :
  IsEmptySnap Demo.codec (Demo.snapshot_at 0) = true /\
  publishSnapshot Demo.follower (Demo.snapshot_at 0) (Demo.at_indices 5 2) =
    (None, Demo.at_indices 5 2, []) /\
  IsEmptySnap Demo.codec (Demo.snapshot_at 3) = false /\
  md_Index (snap_Metadata (Demo.snapshot_at 3)) <= appliedIndex (eng (Demo.at_indices 5 2)) /\
  publishSnapshot Demo.follower (Demo.snapshot_at 3) (Demo.at_indices 5 2) =
    (Some (ErrSnapshotIndex 3 5), Demo.at_indices 5 2, []) /\
  appliedIndex (eng (final (publishSnapshotFile Demo.follower (Demo.snapshot_file_at 7))
                           (Demo.at_indices 5 2))) = 7 /\
  snapIndex (eng (final (publishSnapshotFile Demo.follower (Demo.snapshot_file_at 7))
                        (Demo.at_indices 5 2))) = 7 /\
  confState (eng (final (publishSnapshotFile Demo.follower (Demo.snapshot_file_at 7))
                        (Demo.at_indices 5 2))) = Some (mkConfState [1; 2] [] [] [] false).
Proof.
  destruct (publishSnapshot_contract Demo.follower (Demo.snapshot_at 0)
              (Demo.snapshot_file_at 7) (Demo.at_indices 5 2)) as (Hempty & _ & Hfile & _).
  destruct (publishSnapshot_contract Demo.follower (Demo.snapshot_at 3)
              (Demo.snapshot_file_at 7) (Demo.at_indices 5 2)) as (_ & Hold & _ & _).
  split; [reflexivity |]. split; [apply Hempty; reflexivity |].
  split; [reflexivity |]. split; [simpl; lia |].
  split; [apply Hold; [reflexivity | simpl; lia] |].
  apply (Hfile _ _ (run_eta _ _)).
Defined.

Lemma createSnapshot_guards_witness :
  createSnapshot Demo.follower (Demo.at_indices 5 5) = (None, Demo.at_indices 5 5, []) /\
  createSnapshot Demo.follower
    (mkState (set_snapshoting true (eng (Demo.at_indices 5 2))) 100) =
    (Some ErrAlreadySnapshotting,
     mkState (set_snapshoting true (eng (Demo.at_indices 5 2))) 100, []) /\
  createSnapshot Demo.follower_without_snapshot (Demo.at_indices 5 2) =
    (Some ErrFailedPrecondition,
     Demo.at_indices 5 2,
     [EvStoreBool Snapshoting true; EvFsmSnapshot; EvStoreBool Snapshoting false]).
Proof.
  split; [| split].
  - apply (proj1 (createSnapshot_guards Demo.follower (Demo.at_indices 5 5))).
    reflexivity.
  - apply (proj1 (proj2 (createSnapshot_guards Demo.follower
             (mkState (set_snapshoting true (eng (Demo.at_indices 5 2))) 100)))).
    + simpl. lia.
    + reflexivity.
  - apply (proj2 (proj2 (createSnapshot_guards Demo.follower_without_snapshot
             (Demo.at_indices 5 2))) ErrFailedPrecondition).
    + simpl. lia.
    + reflexivity.
    + reflexivity.
Defined.

(** ** Forced snapshots *)

Section ForceSnapshot.

Context {W : Type} (C : Collaborators W).

Lemma MessageType_eqb_eq (a b : MessageType) : MessageType_eqb a b = true <-> a = b.
Proof.
  destruct a, b; simpl; split; intros H; try reflexivity; try discriminate.
  - apply Z.eqb_eq in H. congruence.
  - injection H as H. apply Z.eqb_eq. exact H.
Qed.

Lemma forceSnapshot_set_found (to : uint64) (set : list uint64) (found : bool) :
  forceSnapshot_set to set found = true <-> found = true \/ In to set.
Proof.
  induction set as [| id rest IH]; simpl.
  - tauto.
  - destruct (id =? to) eqn:Hid.
    + apply Z.eqb_eq in Hid. tauto.
    + apply Z.eqb_neq in Hid. rewrite IH. tauto.
Qed.

Lemma forceSnapshot_sets_found (to : uint64) (sets : list (list uint64)) (found : bool) :
  forceSnapshot_sets to sets found = true <-> found = true \/ In to (List.concat sets).
Proof.
  revert found. induction sets as [| set rest IH]; intros found; simpl.
  - tauto.
  - destruct (forceSnapshot_set to set found) eqn:Hset.
    + apply forceSnapshot_set_found in Hset. rewrite in_app_iff. tauto.
    + rewrite IH, in_app_iff.
      assert (Hnot : ~ (found = true \/ In to set)).
      { intros H. apply forceSnapshot_set_found in H. congruence. }
      destruct found; [tauto |]. split; [| tauto].
      intros [H | H]; [discriminate | tauto].
Qed.

(** [createSnapshot] does not write the started flag. *)
Lemma createSnapshot_started (s : state W) :
  started (eng (final (createSnapshot C) s)) = started (eng s).
Proof.
  unfold final, createSnapshot, appliedIndex_Get, snapIndex_Get, snapshoting_True,
    snapshoting_Set, snapshoting_UnSet, fsm_Snapshot, storage_CreateSnapshot,
    pool_Snapshot, go, bind, ret, gets, modify, emit, call.
  simpl.
  destruct (appliedIndex (eng s) =? snapIndex (eng s)); [reflexivity |].
  destruct (snapshoting (eng s)); [reflexivity |]. simpl.
  destruct (sm_Snapshot (co_fsm C) (env s)) as [[r [e |]] w1]; [reflexivity |].
  simpl.
  destruct (sto_CreateSnapshot (co_storage C) (appliedIndex (eng s)) (confState (eng s)) w1)
    as [[snap [e |]] w2]; [reflexivity |].
  simpl.
  destruct (pl_Snapshot (co_pool C) w2) as [members w3]. reflexivity.
Qed.

(** When [createSnapshot] starts its goroutine: the two indices differ,
    no snapshot is in progress, and the state machine and the store both
    give their snapshot.  With equal indices or the flag set it does
    nothing. *)
Lemma createSnapshot_schedules (s : state W) :
  let taken := sm_Snapshot (co_fsm C) (env s) in
  let created :=
    sto_CreateSnapshot (co_storage C) (appliedIndex (eng s)) (confState (eng s))
                       (snd taken) in
  ((exists t, In (EvGo t) (events (createSnapshot C) s)) <->
     appliedIndex (eng s) <> snapIndex (eng s) /\
     snapshoting (eng s) = false /\
     snd (fst taken) = None /\
     snd (fst created) = None) /\
  (appliedIndex (eng s) = snapIndex (eng s) \/ snapshoting (eng s) = true ->
     final (createSnapshot C) s = s /\ events (createSnapshot C) s = []).
Proof.
  cbn zeta.
  unfold events, final, createSnapshot, appliedIndex_Get, snapIndex_Get, snapshoting_True,
    snapshoting_Set, snapshoting_UnSet, fsm_Snapshot, storage_CreateSnapshot,
    pool_Snapshot, go, bind, ret, gets, modify, emit, call.
  simpl.
  destruct (appliedIndex (eng s) =? snapIndex (eng s)) eqn:Heq.
  { apply Z.eqb_eq in Heq. simpl. split; [| intros _; split; reflexivity].
    split; [intros [t []] | intros [Hne _]; congruence]. }
  apply Z.eqb_neq in Heq.
  destruct (snapshoting (eng s)) eqn:Hbusy.
  { simpl. split; [| intros _; split; reflexivity].
    split; [intros [t []] | intros (_ & H & _); discriminate]. }
  simpl.
  destruct (sm_Snapshot (co_fsm C) (env s)) as [[r [e |]] w1]; simpl.
  { split; [| intros [H | H]; [congruence | discriminate]].
    split; [intros [t [H | [H | [H | []]]]]; discriminate
           | intros (_ & _ & H & _); discriminate]. }
  destruct (sto_CreateSnapshot (co_storage C) (appliedIndex (eng s)) (confState (eng s)) w1)
    as [[snap [e |]] w2]; simpl.
  { split; [| intros [H | H]; [congruence | discriminate]].
    split; [intros [t [H | [H | [H | [H | []]]]]]; discriminate
           | intros (_ & _ & _ & H); discriminate]. }
  destruct (pl_Snapshot (co_pool C) w2) as [members w3]. simpl.
  split; [| intros [H | H]; [congruence | discriminate]].
  split; [intros _; repeat split; [exact Heq | reflexivity..] |].
  intros _. eexists. do 4 right. left. reflexivity.
Qed.

(** C8, as the code has it.  [forceSnapshot] returns true exactly for a
    [MsgSnap] whose target [m.To] is in none of [Voters], [Learners] and
    [VotersOutgoing] of the configuration in the message's own snapshot.
    In that case it calls [createSnapshot] and then the engine's
    [ReportSnapshot] with [SnapshotFailure] for [m.To].  [createSnapshot]
    starts the snapshot goroutine only when the applied index differs from
    the snapshot index, no snapshot is in progress and the state machine
    and the store give their snapshot; with equal indices or a snapshot in
    progress it does nothing.  [ReportSnapshot] passes the report to the
    protocol core of a started engine and does nothing on a stopped one.
    In every other case, and so for every message that is not a
    [MsgSnap], [forceSnapshot] returns false, calls nothing and leaves the
    engine as it was. *)
Theorem forceSnapshot_drops (msg : Message) (s : state W) :
  let cs := md_ConfState (snap_Metadata (msg_Snapshot msg)) in
  let known := In (msg_To msg) (cs_Voters cs ++ cs_Learners cs ++ cs_VotersOutgoing cs) in
  let s1 := final (createSnapshot C) s in
  let taken := sm_Snapshot (co_fsm C) (env s) in
  let created :=
    sto_CreateSnapshot (co_storage C) (appliedIndex (eng s)) (confState (eng s))
                       (snd taken) in
  (result (forceSnapshot C msg) s = true <-> msg_Type msg = MsgSnap /\ ~ known)
  /\
  (msg_Type msg = MsgSnap -> ~ known ->
     forceSnapshot C msg s =
       (true,
        final (ReportSnapshot C (msg_To msg) SnapshotFailure) s1,
        events (createSnapshot C) s ++
        events (ReportSnapshot C (msg_To msg) SnapshotFailure) s1) /\
     (started (eng s) = true ->
        events (ReportSnapshot C (msg_To msg) SnapshotFailure) s1 =
          [EvNodeReportSnapshot (msg_To msg) SnapshotFailure]) /\
     (started (eng s) = false ->
        ReportSnapshot C (msg_To msg) SnapshotFailure s1 = (tt, s1, [])) /\
     ((exists t, In (EvGo t) (events (createSnapshot C) s)) <->
        appliedIndex (eng s) <> snapIndex (eng s) /\
        snapshoting (eng s) = false /\
        snd (fst taken) = None /\
        snd (fst created) = None) /\
     (appliedIndex (eng s) = snapIndex (eng s) \/ snapshoting (eng s) = true ->
        s1 = s /\ events (createSnapshot C) s = []))
  /\
  (msg_Type msg <> MsgSnap \/ known -> forceSnapshot C msg s = (false, s, [])).
Proof.
  intros cs known s1 taken created.
  assert (Hfound :
    forceSnapshot_sets (msg_To msg)
      [cs_Voters cs; cs_Learners cs; cs_VotersOutgoing cs] false = true <-> known).
  { rewrite forceSnapshot_sets_found. unfold known. simpl. rewrite app_nil_r.
    split; [intros [H | H]; [discriminate | exact H] | tauto]. }
  assert (Hdrop : msg_Type msg = MsgSnap -> ~ known ->
    forceSnapshot C msg s =
      (true,
       final (ReportSnapshot C (msg_To msg) SnapshotFailure) s1,
       events (createSnapshot C) s ++
       events (ReportSnapshot C (msg_To msg) SnapshotFailure) s1)).
  { intros Htype Hknown. unfold forceSnapshot. rewrite Htype.
    cbn [MessageType_eqb negb]. fold cs.
    destruct (forceSnapshot_sets (msg_To msg)
                [cs_Voters cs; cs_Learners cs; cs_VotersOutgoing cs] false) eqn:Hf.
    - exfalso. apply Hknown. apply Hfound. reflexivity.
    - rewrite bind_run. fold s1. rewrite result_bind, final_bind, events_bind.
      unfold ret at 1 2 3. unfold result at 1, final at 1, events at 3. simpl.
      rewrite app_nil_r. reflexivity. }
  assert (Hkeep : msg_Type msg <> MsgSnap \/ known ->
    forceSnapshot C msg s = (false, s, [])).
  { intros Hother. unfold forceSnapshot.
    destruct (MessageType_eqb (msg_Type msg) MsgSnap) eqn:Htype; [| reflexivity].
    simpl negb. fold cs.
    destruct (forceSnapshot_sets (msg_To msg)
                [cs_Voters cs; cs_Learners cs; cs_VotersOutgoing cs] false) eqn:Hf;
      [reflexivity |].
    exfalso. destruct Hother as [Hne | Hk].
    - apply Hne. apply MessageType_eqb_eq. exact Htype.
    - apply Hfound in Hk. congruence. }
  split; [| split].
  - split.
    + intros Hres.
      destruct (MessageType_eqb (msg_Type msg) MsgSnap) eqn:Htype.
      * apply MessageType_eqb_eq in Htype. split; [exact Htype |].
        intros Hk. unfold result in Hres. rewrite Hkeep in Hres by tauto.
        discriminate.
      * exfalso. unfold result in Hres. rewrite Hkeep in Hres; [discriminate |].
        left. intros Heq. apply MessageType_eqb_eq in Heq. congruence.
    + intros [Htype Hknown]. unfold result. rewrite Hdrop by assumption. reflexivity.
  - intros Htype Hknown. split; [apply Hdrop; assumption |].
    destruct (createSnapshot_schedules s) as [Hsched Hidle].
    split; [| split; [| split; [exact Hsched | exact Hidle]]].
    + intros Hstarted. unfold events, ReportSnapshot, started_False, node_ReportSnapshot,
        bind, gets, ret, call.
      simpl. subst s1. rewrite createSnapshot_started, Hstarted. simpl.
      destruct (nd_ReportSnapshot (co_node C) (msg_To msg) SnapshotFailure
                  (env (final (createSnapshot C) s))) as [u w].
      reflexivity.
    + intros Hstopped. unfold ReportSnapshot, started_False, bind, gets, ret.
      simpl. subst s1. rewrite createSnapshot_started, Hstopped. reflexivity.
  - exact Hkeep.
Qed.

End ForceSnapshot.

Lemma forceSnapshot_drops_witness :
  msg_Type (Demo.snap_message 3) = MsgSnap /\
  ~ In (msg_To (Demo.snap_message 3)) ([1; 2] ++ [] ++ []) /\
  started (eng (Demo.at_indices 5 2)) = true /\
  forceSnapshot Demo.follower (Demo.snap_message 3) (Demo.at_indices 5 2) =
    (true,
     mkState (set_snapshoting true (eng (Demo.at_indices 5 2))) 100,
     [EvStoreBool Snapshoting true; EvFsmSnapshot;
      EvStorageCreateSnapshot 5 None; EvPoolSnapshot;
      EvGo (TaskSnapshot 5 2
              (mkSnapshotFile
                 (mkSnapshot [] (mkSnapshotMetadata Demo.ConfState_zero 5 0)) [] [x01])
              (mkSnapshot [] (mkSnapshotMetadata Demo.ConfState_zero 5 0)));
      EvNodeReportSnapshot 3 SnapshotFailure]) /\
  forceSnapshot Demo.follower (Demo.snap_message 2) (Demo.at_indices 5 2) =
    (false, Demo.at_indices 5 2, []).
Proof.
  assert (Hunknown : ~ In (msg_To (Demo.snap_message 3)) ([1; 2] ++ [] ++ [])).
  { simpl. intros [H | [H | []]]; discriminate. }
  split; [reflexivity |]. split; [exact Hunknown |]. split; [reflexivity |].
  split.
  - apply (proj1 (proj2 (forceSnapshot_drops Demo.follower (Demo.snap_message 3)
                           (Demo.at_indices 5 2)))); [reflexivity | exact Hunknown].
  - apply (proj2 (proj2 (forceSnapshot_drops Demo.follower (Demo.snap_message 2)
                           (Demo.at_indices 5 2)))).
    right. simpl. tauto.
Defined.

(** C8 as stated fails where [createSnapshot] has nothing to do and on a
    stopped engine.  The [MsgSnap] to node 3, which the configuration of
    its snapshot does not know, is dropped in each of the three states
    below.  With the applied index equal to the snapshot index, and with a
    snapshot already in progress, no snapshot is created or scheduled: the
    report is all that happens.  On a stopped engine nothing is reported
    either. *)
Lemma forceSnapshot_drops_without_snapshot :
  msg_Type (Demo.snap_message 3) = MsgSnap /\
  ~ In (msg_To (Demo.snap_message 3)) ([1; 2] ++ [] ++ []) /\
  forceSnapshot Demo.follower (Demo.snap_message 3) (Demo.at_indices 5 5) =
    (true, Demo.at_indices 5 5, [EvNodeReportSnapshot 3 SnapshotFailure]) /\
  forceSnapshot Demo.follower (Demo.snap_message 3)
    (mkState (set_snapshoting true (eng (Demo.at_indices 5 2))) 100) =
    (true, mkState (set_snapshoting true (eng (Demo.at_indices 5 2))) 100,
     [EvNodeReportSnapshot 3 SnapshotFailure]) /\
  started (set_started false (eng (Demo.at_indices 5 5))) = false /\
  forceSnapshot Demo.follower (Demo.snap_message 3)
    (mkState (set_started false (eng (Demo.at_indices 5 5))) 100) =
    (true, mkState (set_started false (eng (Demo.at_indices 5 5))) 100, []).
Proof.
  split; [reflexivity |]. split.
  - simpl. intros [H | [H | []]]; discriminate.
  - repeat split; reflexivity.
Qed.

(** ** The public operations of a stopped engine *)

Section Lifecycle.

Context {W : Type} (C : Collaborators W).

(** C5, as the code has it.  With the started flag false,
    [LinearizableRead], [Push], [TransferLeadership], [Status], [Shutdown],
    [ProposeReplicate], [ProposeConfChange] and [CreateSnapshot] return
    [ErrStopped] at once: no collaborator is called and nothing is written.
    [ForgetLeader] does not test the flag: it calls [ForgetLeader] of the
    protocol core and returns what the core returns. *)
Theorem stopped_engine_operations (s : state W) (rounds : nat) (msg : Message)
  (transferee : uint64) (data : bytes) (m : Member) (cct : ConfChangeType) :
  started (eng s) = false ->
  LinearizableRead C rounds s = (Returned (Some ErrStopped), s, []) /\
  Push msg s = (Some ErrStopped, s, []) /\
  TransferLeadership C rounds transferee s = (Returned (Some ErrStopped), s, []) /\
  EngineStatus C s = ((Status_zero, Some ErrStopped), s, []) /\
  Shutdown C s = (Some ErrStopped, s, []) /\
  ProposeReplicate C data s = (Some ErrStopped, s, []) /\
  ProposeConfChange C m cct s = (Some ErrStopped, s, []) /\
  CreateSnapshot C s = ((Snapshot_zero, Some ErrStopped), s, []) /\
  ForgetLeader C s =
    (fst (nd_ForgetLeader (co_node C) (env s)),
     mkState (eng s) (snd (nd_ForgetLeader (co_node C) (env s))),
     [EvNodeForgetLeader]).
Proof.
  intros Hstopped.
  unfold LinearizableRead, Push, TransferLeadership, EngineStatus, Shutdown,
    ProposeReplicate, ProposeConfChange, CreateSnapshot, ForgetLeader,
    node_ForgetLeader, started_False.
  unfold bind, gets, ret, call. simpl. rewrite Hstopped. simpl.
  repeat (split; [reflexivity |]).
  destruct (nd_ForgetLeader (co_node C) (env s)) as [err w]. reflexivity.
Qed.

End Lifecycle.

(** After [Shutdown] has returned nil the flag is false; [Push] then
    returns [ErrStopped], and [ForgetLeader] still reaches the protocol
    core and returns its result, here nil. *)
Lemma stopped_engine_operations_witness :
  result (Shutdown Demo.follower) Demo.initial = None /\
  started (eng (final (Shutdown Demo.follower) Demo.initial)) = false /\
  Push (Demo.snap_message 2) (final (Shutdown Demo.follower) Demo.initial) =
    (Some ErrStopped, final (Shutdown Demo.follower) Demo.initial, []) /\
  ForgetLeader Demo.follower (final (Shutdown Demo.follower) Demo.initial) =
    (None, final (Shutdown Demo.follower) Demo.initial, [EvNodeForgetLeader]).
Proof.
  destruct (stopped_engine_operations Demo.follower
              (final (Shutdown Demo.follower) Demo.initial)
              1 (Demo.snap_message 2) 2 [x2a] Member_zero ConfChangeAddNode eq_refl)
    as (_ & Hpush & _ & _ & _ & _ & _ & _ & Hforget).
  split; [reflexivity |]. split; [reflexivity |].
  split; [exact Hpush | exact Hforget].
Defined.

(** ** The two indices *)

Section Indices.

Context {W : Type} (C : Collaborators W).

Lemma index_walk_app (p : uint64 * uint64) (a b : list event) :
  index_walk p (a ++ b) = index_walk p a ++ index_walk (index_after p a) b.
Proof.
  revert p. induction a as [| e a IH]; intros p; simpl.
  - reflexivity.
  - destruct (is_index_store e) eqn:He.
    + simpl. rewrite IH. reflexivity.
    + rewrite IH. destruct e; try discriminate; reflexivity.
Qed.

Lemma index_walk_quiet (p : uint64 * uint64) (evs : list event) :
  Forall (fun e => is_index_store e = false) evs ->
  index_walk p evs = [] /\ index_after p evs = p.
Proof.
  intros H. revert p. induction H as [| e evs He _ IH]; intros p; simpl.
  - split; reflexivity.
  - rewrite He. unfold index_after in *. simpl.
    replace (index_store p e) with p by (destruct e; try discriminate; reflexivity).
    apply IH.
Qed.

Lemma keeps_indices_ret {A : Type} (a : A) : keeps_indices (ret (W := W) a).
Proof. intros s. split; [reflexivity | constructor]. Qed.

Lemma keeps_indices_bind {A B : Type} (m : M W A) (f : A -> M W B) :
  keeps_indices m -> (forall a, keeps_indices (f a)) -> keeps_indices (bind m f).
Proof.
  intros Hm Hf s. rewrite final_bind, events_bind.
  destruct (Hm s) as [Hm1 Hm2].
  destruct (Hf (result m s) (final m s)) as [Hf1 Hf2].
  split; [congruence | apply Forall_app; split; assumption].
Qed.

Lemma keeps_indices_gets {A : Type} (f : engine -> A) : keeps_indices (gets (W := W) f).
Proof. intros s. split; [reflexivity | constructor]. Qed.

Lemma keeps_indices_call {A : Type} (f : W -> A * W) (e : event) :
  is_index_store e = false -> keeps_indices (call f e).
Proof.
  intros He s. unfold final, events, call. destruct (f (env s)) as [a w]. simpl.
  split; [reflexivity | repeat constructor; exact He].
Qed.

Lemma keeps_indices_emit (e : event) :
  is_index_store e = false -> keeps_indices (emit (W := W) e).
Proof. intros He s. split; [reflexivity | repeat constructor; exact He]. Qed.

Lemma keeps_indices_modify (f : engine -> engine) :
  (forall e, indices (f e) = indices e) -> keeps_indices (modify (W := W) f).
Proof. intros Hf s. split; [apply Hf | constructor]. Qed.

(** Solves [keeps_indices m] for a computation built from calls, reads
    and writes of other fields. *)
Ltac keeps_indices_tac :=
  repeat first
    [ apply keeps_indices_ret
    | apply keeps_indices_gets
    | apply keeps_indices_call; reflexivity
    | apply keeps_indices_emit; reflexivity
    | apply keeps_indices_modify; intros; reflexivity
    | apply keeps_indices_bind; [| intros]
    | match goal with
      | |- keeps_indices (match ?x with _ => _ end) => destruct x
      | |- keeps_indices (if ?x then _ else _) => destruct x
      | |- keeps_indices (let '(_, _) := ?x in _) => destruct x
      end ].

Lemma publishReplicate_keeps_indices (ent : Entry) :
  keeps_indices (publishReplicate C ent).
Proof.
  unfold publishReplicate, fsm_Apply, msgbus_Broadcast. keeps_indices_tac.
Qed.

Lemma publishConfChange_keeps_indices (ent : Entry) :
  keeps_indices (publishConfChange C ent).
Proof.
  unfold publishConfChange, publishConfChange_switch, pool_Add, pool_Update,
    node_ApplyConfChange, go, msgbus_Broadcast.
  keeps_indices_tac.
Qed.

Lemma createSnapshot_keeps_indices : keeps_indices (createSnapshot C).
Proof.
  unfold createSnapshot, appliedIndex_Get, snapIndex_Get, snapshoting_True,
    snapshoting_Set, snapshoting_UnSet, fsm_Snapshot, storage_CreateSnapshot,
    pool_Snapshot, go.
  keeps_indices_tac.
Qed.

(** [publishSnapshotFile] either leaves the two indices as they were or
    sets both to the index of the snapshot; in the second case the
    snapshot index is stored first. *)
Lemma publishSnapshotFile_indices (sf : SnapshotFile) (s : state W) :
  let index := md_Index (snap_Metadata (sf_Raw sf)) in
  (result (publishSnapshotFile C sf) s <> None /\
   indices (eng (final (publishSnapshotFile C sf) s)) = indices (eng s) /\
   index_walk (indices (eng s)) (events (publishSnapshotFile C sf) s) = [])
  \/
  (result (publishSnapshotFile C sf) s = None /\
   indices (eng (final (publishSnapshotFile C sf) s)) = (index, index) /\
   index_walk (indices (eng s)) (events (publishSnapshotFile C sf) s) =
     [(appliedIndex (eng s), index); (index, index)]).
Proof.
  intros index. subst index.
  unfold result, final, events, publishSnapshotFile, storage_ApplySnapshot,
    pool_Restore, fsm_Restore, snapIndex_Set, appliedIndex_Set,
    bind, ret, modify, emit, call.
  destruct (sto_ApplySnapshot (co_storage C) (sf_Raw sf) (env s)) as [[e1 |] w1];
    simpl; [left; repeat split; discriminate |].
  destruct (pl_Restore (co_pool C) (sf_Members sf) w1) as [u w2]; simpl.
  destruct (sm_Restore (co_fsm C) (sf_Data sf) w2) as [[e3 |] w3];
    simpl; [left; repeat split; discriminate |].
  right. repeat split.
Qed.

Lemma publishSnapshot_indices (snap : Snapshot) (s : state W) :
  indices (eng (final (publishSnapshot C snap) s)) = indices (eng s) \/
  exists index,
    indices (eng (final (publishSnapshot C snap) s)) = (index, index).
Proof.
  unfold final, publishSnapshot, appliedIndex_Get, storage_SaveSnapshot, snapshotter_Read.
  destruct (IsEmptySnap (co_codec C) snap); [left; reflexivity |].
  unfold bind, gets, call, ret. simpl.
  destruct (md_Index (snap_Metadata snap) <=? appliedIndex (eng s));
    [left; reflexivity |].
  destruct (sto_SaveSnapshot (co_storage C) snap (env s)) as [[e1 |] w1];
    [left; reflexivity |].
  simpl.
  destruct (sto_SnapshotterRead (co_storage C) (md_Term (snap_Metadata snap))
              (md_Index (snap_Metadata snap)) w1) as [[file [e2 |]] w2];
    [left; reflexivity |].
  simpl.
  destruct (publishSnapshotFile_indices file (mkState (eng s) w2))
    as [(_ & Hsame & _) | (_ & Hboth & _)]; unfold final in *;
    destruct (publishSnapshotFile C file (mkState (eng s) w2)) as [[r s2] t2];
    simpl in *.
  - left. exact Hsame.
  - right. eexists. exact Hboth.
Qed.

(** The handling of one committed entry stores to the applied index once,
    at its end. *)
Lemma publishCommitted_entry_indices (ent : Entry) (s : state W) :
  exists evs,
    events (publishCommitted_entry C ent) s =
      evs ++ [EvStoreU64 AppliedIndex (ent_Index ent)] /\
    Forall (fun e => is_index_store e = false) evs /\
    indices (eng (final (publishCommitted_entry C ent) s)) =
      (ent_Index ent, snapIndex (eng s)).
Proof.
  unfold publishCommitted_entry.
  set (handle :=
    ((if EntryType_eqb (ent_Type ent) EntryNormal && (0 <? len (ent_Data ent))
      then publishReplicate C ent else ret tt) ;;
     (if EntryType_eqb (ent_Type ent) EntryConfChange
      then publishConfChange C ent else ret tt))).
  assert (Hkeep : keeps_indices handle).
  { unfold handle. apply keeps_indices_bind.
    - destruct (EntryType_eqb (ent_Type ent) EntryNormal && (0 <? len (ent_Data ent)));
        [apply publishReplicate_keeps_indices | apply keeps_indices_ret].
    - intros _. destruct (EntryType_eqb (ent_Type ent) EntryConfChange);
        [apply publishConfChange_keeps_indices | apply keeps_indices_ret]. }
  destruct (Hkeep s) as [Hidx Hquiet].
  exists (events handle s). split; [| split].
  - unfold handle, events, bind, appliedIndex_Set, modify, emit.
    destruct ((if EntryType_eqb (ent_Type ent) EntryNormal && (0 <? len (ent_Data ent))
               then publishReplicate C ent else ret tt) s) as [[u1 s1] t1].
    destruct ((if EntryType_eqb (ent_Type ent) EntryConfChange
               then publishConfChange C ent else ret tt) s1) as [[u2 s2] t2].
    simpl. rewrite app_assoc. reflexivity.
  - exact Hquiet.
  - unfold indices in Hidx. injection Hidx as _ Hsnap. rewrite <- Hsnap.
    unfold handle, final, bind, appliedIndex_Set, modify, emit.
    destruct ((if EntryType_eqb (ent_Type ent) EntryNormal && (0 <? len (ent_Data ent))
               then publishReplicate C ent else ret tt) s) as [[u1 s1] t1].
    destruct ((if EntryType_eqb (ent_Type ent) EntryConfChange
               then publishConfChange C ent else ret tt) s1) as [[u2 s2] t2].
    reflexivity.
Qed.

(** Along [publishCommitted] the applied index takes the indices of the
    entries one after the other; the snapshot index does not move. *)
Lemma publishCommitted_walk (ents : list Entry) :
  forall s : state W,
    index_inv (indices (eng s)) ->
    Forall (fun ent => snapIndex (eng s) <= ent_Index ent) ents ->
    Forall index_inv (index_walk (indices (eng s)) (events (publishCommitted C ents) s)) /\
    index_inv (indices (eng (final (publishCommitted C ents) s))) /\
    snapIndex (eng (final (publishCommitted C ents) s)) = snapIndex (eng s).
Proof.
  induction ents as [| ent rest IH]; intros s Hinv Hents.
  - simpl. repeat split; [constructor | exact Hinv].
  - unfold publishCommitted. simpl for_range.
    rewrite events_bind, final_bind. fold (publishCommitted C rest).
    destruct (publishCommitted_entry_indices ent s) as (evs & Hevs & Hquiet & Hidx).
    inversion Hents as [| ? ? Hent Hrest]; subst.
    set (s1 := final (publishCommitted_entry C ent) s) in *.
    assert (Hinv1 : index_inv (indices (eng s1))).
    { rewrite Hidx. unfold index_inv. simpl. exact Hent. }
    assert (Hsnap1 : snapIndex (eng s1) = snapIndex (eng s)).
    { unfold indices in Hidx. injection Hidx as _ H. exact H. }
    destruct (IH s1 Hinv1) as (Hwalk & Hfinal & Hsnap).
    { rewrite Hsnap1. exact Hrest. }
    split; [| split; [exact Hfinal | congruence]].
    rewrite index_walk_app. rewrite Hevs.
    destruct (index_walk_quiet (indices (eng s)) Hquiet) as [Hw Ha].
    rewrite index_walk_app, Hw, Ha. simpl.
    unfold index_after. rewrite fold_left_app. fold (index_after (indices (eng s)) evs).
    rewrite Ha. simpl.
    replace (ent_Index ent, snapIndex (eng s)) with (indices (eng s1))
      by (rewrite Hidx; reflexivity).
    constructor; [exact Hinv1 | exact Hwalk].
Qed.

(** The goroutine of [createSnapshot] stores to the snapshot index only,
    and only the two values it captured. *)
Lemma snapshotTask_walk (applied0 snap0 : uint64) (ss : SnapshotFile) (snap : Snapshot)
  (s : state W) :
  applied0 <= appliedIndex (eng s) ->
  snap0 <= appliedIndex (eng s) ->
  Forall index_inv
    (index_walk (indices (eng s)) (events (snapshotTask C applied0 snap0 ss snap) s)) /\
  index_inv (indices (eng (final (snapshotTask C applied0 snap0 ss snap) s))).
Proof.
  intros Happlied Hsnap.
  unfold final, events, snapshotTask, snapshotTask_fn, snapshotter_Write,
    storage_SaveSnapshot, storage_Compact, snapIndex_Set, snapshoting_UnSet,
    bind, ret, modify, emit, call, index_inv.
  destruct (sto_SnapshotterWrite (co_storage C) ss (env s)) as [[e1 |] w1]; simpl.
  { split; [repeat constructor |]; simpl; assumption. }
  destruct (sto_SaveSnapshot (co_storage C) snap w1) as [[e2 |] w2]; simpl.
  { split; [repeat constructor |]; simpl; assumption. }
  destruct (applied0 <=? co_SnapInterval C); simpl.
  { split; [repeat constructor |]; simpl; assumption. }
  destruct (sto_Compact (co_storage C) (wrap64 (applied0 - co_SnapInterval C)) w2)
    as [[e3 |] w3]; simpl.
  - split; [repeat constructor |]; simpl; assumption.
  - split; [repeat constructor |]; simpl; assumption.
Qed.

(** C1, as the code has it.  From a state in which the applied index is
    at least the snapshot index, the same holds when [publishSnapshot] or
    [publishSnapshotFile] returns, with or without an error; after every
    store of [publishCommitted] and at its return, provided each entry of
    the batch has an index that is at least the snapshot index; and after
    every store of the goroutine of [createSnapshot] and at its end,
    provided the two indices it captured are at most the applied index.
    [createSnapshot] itself stores to neither index.  Inside a successful
    [publishSnapshotFile] the snapshot index is stored before the applied
    index: between the two stores the pair is the old applied index and
    the index of the snapshot. *)
Theorem index_invariant_at_returns (s : state W) :
  index_inv (indices (eng s)) ->
  (forall snap : Snapshot,
     index_inv (indices (eng (final (publishSnapshot C snap) s))))
  /\
  (forall sf : SnapshotFile,
     index_inv (indices (eng (final (publishSnapshotFile C sf) s))))
  /\
  (forall ents : list Entry,
     Forall (fun ent => snapIndex (eng s) <= ent_Index ent) ents ->
     Forall index_inv
       (index_walk (indices (eng s)) (events (publishCommitted C ents) s)) /\
     index_inv (indices (eng (final (publishCommitted C ents) s))))
  /\
  (forall (applied0 snap0 : uint64) (ss : SnapshotFile) (snap : Snapshot),
     applied0 <= appliedIndex (eng s) ->
     snap0 <= appliedIndex (eng s) ->
     Forall index_inv
       (index_walk (indices (eng s))
          (events (snapshotTask C applied0 snap0 ss snap) s)) /\
     index_inv (indices (eng (final (snapshotTask C applied0 snap0 ss snap) s))))
  /\
  (index_walk (indices (eng s)) (events (createSnapshot C) s) = [] /\
   indices (eng (final (createSnapshot C) s)) = indices (eng s))
  /\
  (forall sf : SnapshotFile,
     result (publishSnapshotFile C sf) s = None ->
     index_walk (indices (eng s)) (events (publishSnapshotFile C sf) s) =
       [(appliedIndex (eng s), md_Index (snap_Metadata (sf_Raw sf)));
        (md_Index (snap_Metadata (sf_Raw sf)), md_Index (snap_Metadata (sf_Raw sf)))]).
Proof.
  intros Hinv. split; [| split; [| split; [| split; [| split]]]].
  - intros snap.
    destruct (publishSnapshot_indices snap s) as [Hsame | [index Hboth]].
    + rewrite Hsame. exact Hinv.
    + rewrite Hboth. unfold index_inv. simpl. lia.
  - intros sf.
    destruct (publishSnapshotFile_indices sf s) as [(_ & Hsame & _) | (_ & Hboth & _)].
    + rewrite Hsame. exact Hinv.
    + rewrite Hboth. unfold index_inv. simpl. lia.
  - intros ents Hents.
    destruct (@publishCommitted_walk ents s Hinv Hents) as (Hwalk & Hfinal & _).
    split; assumption.
  - intros applied0 snap0 ss snap. apply snapshotTask_walk.
  - destruct (createSnapshot_keeps_indices s) as [Hidx Hquiet].
    split; [apply (index_walk_quiet _ Hquiet) | exact Hidx].
  - intros sf Hres.
    destruct (publishSnapshotFile_indices sf s) as [(Herr & _) | (_ & _ & Hwalk)].
    + congruence.
    + exact Hwalk.
Qed.

End Indices.

Lemma index_invariant_at_returns_witness :
  index_inv (indices (eng (Demo.at_indices 5 2))) /\
  Forall (fun ent => snapIndex (eng (Demo.at_indices 5 2)) <= ent_Index ent)
         [Demo.command_entry; Demo.malformed_entry] /\
  Forall index_inv
    (index_walk (indices (eng (Demo.at_indices 5 2)))
       (events (publishCommitted Demo.follower [Demo.command_entry; Demo.malformed_entry])
               (Demo.at_indices 5 2))) /\
  5 <= appliedIndex (eng (Demo.at_indices 5 2)) /\
  2 <= appliedIndex (eng (Demo.at_indices 5 2)) /\
  Forall index_inv
    (index_walk (indices (eng (Demo.at_indices 5 2)))
       (events (snapshotTask Demo.follower 5 2 (Demo.snapshot_file_at 5)
                             (Demo.snapshot_at 5))
               (Demo.at_indices 5 2))).
Proof.
  assert (Hinv : index_inv (indices (eng (Demo.at_indices 5 2)))).
  { unfold index_inv. simpl. lia. }
  assert (Hents : Forall (fun ent => snapIndex (eng (Demo.at_indices 5 2)) <= ent_Index ent)
                         [Demo.command_entry; Demo.malformed_entry]).
  { repeat constructor; simpl; lia. }
  assert (H5 : 5 <= appliedIndex (eng (Demo.at_indices 5 2))) by (simpl; lia).
  assert (H2 : 2 <= appliedIndex (eng (Demo.at_indices 5 2))) by (simpl; lia).
  destruct (index_invariant_at_returns Demo.follower (Demo.at_indices 5 2) Hinv)
    as (_ & _ & Hcommitted & Htask & _).
  split; [exact Hinv |]. split; [exact Hents |].
  split; [exact (proj1 (Hcommitted _ Hents)) |].
  split; [exact H5 |]. split; [exact H2 |].
  exact (proj1 (Htask 5 2 (Demo.snapshot_file_at 5) (Demo.snapshot_at 5) H5 H2)).
Defined.

(** C1 as stated fails inside [publishSnapshotFile].  An engine with
    applied index 5 and snapshot index 2 is handed the snapshot at index 7:
    [publishSnapshot] accepts it and returns nil, and its two stores take
    the pair (applied, snapshot) through (5, 7) before (7, 7). *)
Lemma publishSnapshot_breaks_index_order_between_stores :
  index_inv (indices (eng (Demo.at_indices 5 2))) /\
  result (publishSnapshot Demo.follower (Demo.snapshot_at 7)) (Demo.at_indices 5 2) = None /\
  index_walk (indices (eng (Demo.at_indices 5 2)))
    (events (publishSnapshot Demo.follower (Demo.snapshot_at 7)) (Demo.at_indices 5 2)) =
    [(5, 7); (7, 7)] /\
  ~ index_inv (5, 7).
Proof.
  split; [unfold index_inv; simpl; lia |].
  split; [reflexivity |]. split; [reflexivity |].
  unfold index_inv. simpl. lia.
Qed.

(** ** float64: conversion, product and comparison *)

Unset Implicit Arguments.

(** The constant is the quotient 9/10 rounded to [float64]. *)
Lemma float64_0_9_rounded :
  float64_0_9 =
  SFdiv float64_prec float64_emax (float64_of_uint64 9) (float64_of_uint64 10).
Proof. vm_compute. reflexivity. Qed.

Lemma digits2_pos_bounds (p : positive) :
  2 ^ (Zpos (digits2_pos p) - 1) <= Zpos p < 2 ^ Zpos (digits2_pos p).
Proof.
  induction p as [p IH | p IH |]; simpl digits2_pos.
  - rewrite Pos2Z.inj_succ.
    replace (Z.succ (Zpos (digits2_pos p)) - 1) with (Zpos (digits2_pos p)) by lia.
    rewrite Z.pow_succ_r by lia.
    replace (2 ^ Zpos (digits2_pos p)) with (2 * 2 ^ (Zpos (digits2_pos p) - 1)) in *
      by (rewrite <- Z.pow_succ_r by lia; f_equal; lia).
    lia.
  - rewrite Pos2Z.inj_succ.
    replace (Z.succ (Zpos (digits2_pos p)) - 1) with (Zpos (digits2_pos p)) by lia.
    rewrite Z.pow_succ_r by lia.
    replace (2 ^ Zpos (digits2_pos p)) with (2 * 2 ^ (Zpos (digits2_pos p) - 1)) in *
      by (rewrite <- Z.pow_succ_r by lia; f_equal; lia).
    lia.
  - simpl. lia.
Qed.

Lemma digits2_pos_unique (p : positive) (d : Z) :
  2 ^ (d - 1) <= Zpos p < 2 ^ d -> Zpos (digits2_pos p) = d.
Proof.
  intros [Hlo Hhi].
  pose proof (digits2_pos_bounds p) as [Hlo' Hhi'].
  assert (Hd : 0 < d).
  { destruct (Z_lt_le_dec 0 d) as [H | H]; [exact H |].
    exfalso. destruct (Z.eq_dec d 0) as [-> | Hne].
    - simpl in Hhi. lia.
    - rewrite Z.pow_neg_r in Hhi by lia. lia. }
  destruct (Z.lt_trichotomy (Zpos (digits2_pos p)) d) as [Hlt | [Heq | Hgt]].
  - exfalso.
    assert (2 ^ Zpos (digits2_pos p) <= 2 ^ (d - 1)) by (apply Z.pow_le_mono_r; lia).
    lia.
  - exact Heq.
  - exfalso.
    assert (2 ^ d <= 2 ^ (Zpos (digits2_pos p) - 1)) by (apply Z.pow_le_mono_r; lia).
    lia.
Qed.

Lemma iter_pos_nat {A : Type} (f : A -> A) (p : positive) (x : A) :
  iter_pos f p x = Nat.iter (Pos.to_nat p) f x.
Proof.
  revert x. induction p as [p IH | p IH |]; intros x; simpl iter_pos.
  - rewrite !IH. rewrite Pos2Nat.inj_xI.
    rewrite <- Nat.iter_add. rewrite <- Nat.iter_succ_r. f_equal. lia.
  - rewrite !IH. rewrite Pos2Nat.inj_xO.
    rewrite <- Nat.iter_add. f_equal. lia.
  - reflexivity.
Qed.

Lemma shr_1_nonneg (m : Z) (r s : bool) :
  0 <= m ->
  shr_1 (Build_shr_record m r s) = Build_shr_record (m / 2) (Z.odd m) (r || s).
Proof.
  intros Hm. destruct m as [| p | p]; [reflexivity | | lia].
  destruct p as [p | p |]; simpl shr_1.
  - f_equal. rewrite Pos2Z.inj_xI. symmetry.
    rewrite Z.mul_comm, Z.add_comm. 
    replace (1 + Z.pos p * 2) with (Z.pos p * 2 + 1) by lia.
    rewrite Z.div_add_l by lia. simpl. lia.
  - f_equal. rewrite Pos2Z.inj_xO. symmetry.
    rewrite Z.mul_comm. apply Z.div_mul. lia.
  - reflexivity.
Qed.

Lemma shifted_succ (m k : Z) :
  0 <= m -> 1 <= k ->
  shr_1 (shifted m k) = shifted m (k + 1).
Proof.
  intros Hm Hk. unfold shifted.
  assert (Hpk : 0 < 2 ^ k) by (apply Z.pow_pos_nonneg; lia).
  assert (Hpk1 : 0 < 2 ^ (k - 1)) by (apply Z.pow_pos_nonneg; lia).
  assert (Hsplit : 2 ^ k = 2 ^ (k - 1) * 2).
  { rewrite Z.mul_comm, <- Z.pow_succ_r by lia. f_equal. lia. }
  assert (Hnext : 2 ^ (k + 1) = 2 ^ k * 2).
  { rewrite Z.mul_comm, <- Z.pow_succ_r by lia. reflexivity. }
  rewrite shr_1_nonneg by (apply Z.div_pos; lia).
  replace (k + 1 - 1) with k by lia.
  pose proof (Z.mod_pos_bound m (2 ^ k) Hpk) as Hmk.
  pose proof (Z.mod_pos_bound m (2 ^ (k - 1)) Hpk1) as Hmk1.
  assert (Hrem : m mod 2 ^ (k + 1) = m mod 2 ^ k + 2 ^ k * ((m / 2 ^ k) mod 2)).
  { rewrite Hnext. apply Z.rem_mul_r; lia. }
  assert (Hrem1 : m mod 2 ^ k = m mod 2 ^ (k - 1) + 2 ^ (k - 1) * ((m / 2 ^ (k - 1)) mod 2)).
  { rewrite Hsplit at 1. apply Z.rem_mul_r; lia. }
  pose proof (Z.mod_pos_bound (m / 2 ^ k) 2 ltac:(lia)) as Hq2.
  pose proof (Z.mod_pos_bound (m / 2 ^ (k - 1)) 2 ltac:(lia)) as Hq21.
  f_equal.
  - rewrite Hnext. rewrite Z.div_div by lia. reflexivity.
  - rewrite Hrem. rewrite Zodd_mod.
    destruct (Z.eqb_spec ((m / 2 ^ k) mod 2) 1) as [H1 | H1].
    + rewrite H1. symmetry. apply Z.leb_le. lia.
    + assert ((m / 2 ^ k) mod 2 = 0) as -> by lia.
      symmetry. apply Z.leb_gt. lia.
  - destruct (Z.leb_spec (2 ^ (k - 1)) (m mod 2 ^ k)) as [Hr | Hr];
      destruct (Z.eqb_spec (m mod 2 ^ (k - 1)) 0) as [Hs | Hs];
      destruct (Z.eqb_spec (m mod 2 ^ k) 0) as [Hz | Hz]; simpl; try reflexivity;
      exfalso; try lia.
    assert ((m / 2 ^ (k - 1)) mod 2 = 0 \/ (m / 2 ^ (k - 1)) mod 2 = 1) as [H | H] by lia;
      rewrite H in Hrem1; lia.
Qed.

Lemma iter_shr_1 (k : nat) (m : Z) :
  0 <= m ->
  Nat.iter (S k) shr_1 (Build_shr_record m false false) = shifted m (Z.of_nat (S k)).
Proof.
  intros Hm. induction k as [| k IH].
  - change (Nat.iter 1 shr_1 (Build_shr_record m false false))
      with (shr_1 (Build_shr_record m false false)).
    rewrite shr_1_nonneg by lia. unfold shifted. simpl Z.of_nat.
    change (2 ^ 1) with 2. change (2 ^ (1 - 1)) with 1.
    rewrite Z.mod_1_r. simpl. f_equal.
    rewrite Zodd_mod.
    pose proof (Z.mod_pos_bound m 2 ltac:(lia)).
    destruct (Z.eqb_spec (m mod 2) 1); [symmetry; apply Z.leb_le; lia |].
    symmetry. apply Z.leb_gt. lia.
  - rewrite Nat.iter_succ, IH. rewrite shifted_succ by lia.
    f_equal. lia.
Qed.

Lemma shr_shifted (m e : Z) (p : positive) :
  0 <= m ->
  shr (Build_shr_record m false false) e (Zpos p) = (shifted m (Zpos p), e + Zpos p).
Proof.
  intros Hm. unfold shr. rewrite iter_pos_nat.
  destruct (Pos2Nat.is_succ p) as [k Hk]. rewrite Hk.
  rewrite iter_shr_1 by exact Hm. rewrite <- Hk. rewrite positive_nat_Z. reflexivity.
Qed.

(** Rounding to nearest even after the shift is within half a unit. *)
Lemma round_shifted_bounds (m k : Z) :
  0 <= m -> 1 <= k ->
  let R := round_nearest_even (shr_m (shifted m k)) (loc_of_shr_record (shifted m k)) in
  2 * (R * 2 ^ k) <= 2 * m + 2 ^ k /\ 2 * m <= 2 * (R * 2 ^ k) + 2 ^ k /\
  m / 2 ^ k <= R <= m / 2 ^ k + 1.
Proof.
  intros Hm Hk R. subst R. unfold shifted. cbn [shr_m].
  assert (Hpk : 0 < 2 ^ k) by (apply Z.pow_pos_nonneg; lia).
  assert (Hpk1 : 0 < 2 ^ (k - 1)) by (apply Z.pow_pos_nonneg; lia).
  assert (Hsplit : 2 ^ k = 2 ^ (k - 1) * 2).
  { rewrite Z.mul_comm, <- Z.pow_succ_r by lia. f_equal. lia. }
  pose proof (Z.mod_pos_bound m (2 ^ k) Hpk) as Hmk.
  pose proof (Z.mod_pos_bound m (2 ^ (k - 1)) Hpk1) as Hmk1.
  pose proof (Z.div_mod m (2 ^ k) ltac:(lia)) as Hdm.
  assert (Hrem1 : m mod 2 ^ k = m mod 2 ^ (k - 1) + 2 ^ (k - 1) * ((m / 2 ^ (k - 1)) mod 2)).
  { rewrite Hsplit at 1. apply Z.rem_mul_r; lia. }
  pose proof (Z.mod_pos_bound (m / 2 ^ (k - 1)) 2 ltac:(lia)) as Hq21.
  set (q := m / 2 ^ k) in *. set (rem := m mod 2 ^ k) in *.
  unfold loc_of_shr_record, round_nearest_even.
  destruct (Z.leb_spec (2 ^ (k - 1)) rem) as [Hr | Hr];
    destruct (Z.eqb_spec (m mod 2 ^ (k - 1)) 0) as [Hs | Hs]; cbn [negb]; cbv iota.
  - (* tie *)
    assert (rem = 2 ^ (k - 1)).
    { assert ((m / 2 ^ (k - 1)) mod 2 = 0 \/ (m / 2 ^ (k - 1)) mod 2 = 1) as [H | H] by lia;
        rewrite H in Hrem1; lia. }
    destruct (Z.even q); nia.
  - nia.
  - assert (rem = 0).
    { assert ((m / 2 ^ (k - 1)) mod 2 = 0 \/ (m / 2 ^ (k - 1)) mod 2 = 1) as [H | H] by lia;
        rewrite H in Hrem1; lia. }
    nia.
  - nia.
Qed.

Lemma fexp64 (e : Z) : -1021 <= e -> fexp 53 1024 e = e - 53.
Proof. intros H. unfold fexp, emin. lia. Qed.

Lemma pow2_split (x y : Z) : 0 <= x -> 0 <= y -> 2 ^ (x + y) = 2 ^ x * 2 ^ y.
Proof. intros. apply Z.pow_add_r; assumption. Qed.

(** Rounding a mantissa of more than 53 bits. *)
Lemma binary_round_aux_wide (pm : positive) (E : Z) :
  let D := Zpos (digits2_pos pm) in
  54 <= D ->
  -1021 <= D + E ->
  D + E <= 1023 ->
  exists (mp : positive) (j : Z),
    binary_round_aux 53 1024 false (Zpos pm) E loc_Exact = S754_finite false mp (E + j) /\
    2 ^ 52 <= Zpos mp < 2 ^ 53 /\
    D - 53 <= j <= D - 52 /\
    2 * (Zpos mp * 2 ^ j) <= 2 * Zpos pm + 2 ^ (D - 53) /\
    2 * Zpos pm <= 2 * (Zpos mp * 2 ^ j) + 2 ^ (D - 53).
Proof.
  intros D HD Hlo Hhi.
  pose proof (digits2_pos_bounds pm) as [HMlo HMhi]. fold D in HMlo, HMhi.
  set (M := Zpos pm) in *.
  set (k := D - 53).
  assert (Hk : 1 <= k) by (unfold k; lia).
  assert (HK : 0 < 2 ^ k) by (apply Z.pow_pos_nonneg; lia).
  assert (HD1 : 2 ^ (D - 1) = 2 ^ 52 * 2 ^ k).
  { rewrite <- pow2_split by lia. f_equal. unfold k. lia. }
  assert (HD0 : 2 ^ D = 2 ^ 53 * 2 ^ k).
  { rewrite <- pow2_split by lia. f_equal. unfold k. lia. }
  unfold binary_round_aux.
  unfold shr_fexp at 1. change (Zdigits2 M) with D.
  rewrite fexp64 by lia.
  replace (D + E - 53 - E) with k by (unfold k; lia).
  simpl shr_record_of_loc.
  destruct k as [| pk | pk] eqn:Hkeq; [lia | | lia].
  rewrite shr_shifted by (unfold M; lia). rewrite <- Hkeq in *.
  pose proof (round_shifted_bounds M k ltac:(unfold M; lia) Hk) as (Hup & Hdown & Hq).
  set (R := round_nearest_even (shr_m (shifted M k)) (loc_of_shr_record (shifted M k))) in *.
  assert (HqM : 2 ^ 52 <= M / 2 ^ k < 2 ^ 53).
  { split.
    - apply Z.div_le_lower_bound; lia.
    - apply Z.div_lt_upper_bound; lia. }
  assert (HR : 2 ^ 52 <= R <= 2 ^ 53) by lia.
  destruct R as [| pR | pR] eqn:HReq; [lia | | lia].
  destruct (Z.eq_dec (Zpos pR) (2 ^ 53)) as [Htop | Hnot].
  - (* the mantissa overflows to 2^53: one more shift *)
    assert (HdR : Zpos (digits2_pos pR) = 54).
    { apply digits2_pos_unique. rewrite Htop. simpl. lia. }
    unfold shr_fexp. simpl Zdigits2. rewrite HdR.
    rewrite fexp64 by lia.
    replace (54 + (E + k) - 53 - (E + k)) with 1 by lia.
    simpl shr_record_of_loc.
    rewrite shr_shifted by lia.
    unfold shifted. cbn [shr_m]. rewrite Htop.
    change (2 ^ 53 / 2 ^ 1) with (2 ^ 52).
    change (2 ^ 52) with (Zpos 4503599627370496) at 1.
    cbv iota.
    assert (Hexp : (E + k + 1 <=? 1024 - 53) = true) by (apply Z.leb_le; unfold k in *; lia).
    rewrite Hexp.
    exists 4503599627370496%positive, (k + 1).
    split; [f_equal; lia |].
    split; [simpl; lia |].
    split; [unfold k in *; lia |].
    rewrite Htop in Hup, Hdown.
    rewrite Z.pow_add_r by lia.
    change (Zpos 4503599627370496) with (2 ^ 52).
    change (2 ^ 1) with 2. change (2 ^ 53) with (2 ^ 52 * 2) in Hup, Hdown.
    split; nia.
  - assert (HdR : Zpos (digits2_pos pR) = 53).
    { apply digits2_pos_unique. simpl. lia. }
    unfold shr_fexp. simpl Zdigits2. rewrite HdR.
    rewrite fexp64 by lia.
    replace (53 + (E + k) - 53 - (E + k)) with 0 by lia.
    simpl shr_record_of_loc. unfold shr. cbn [shr_m].
    assert (Hexp : (E + k <=? 1024 - 53) = true) by (apply Z.leb_le; unfold k in *; lia).
    rewrite Hexp.
    exists pR, k.
    split; [reflexivity |].
    split; [lia |].
    split; [unfold k in *; lia |].
    split; lia.
Qed.

Lemma pos_iter_xO (p d : positive) : Zpos (Pos.iter xO p d) = Zpos p * 2 ^ Zpos d.
Proof.
  induction d as [| d IH] using Pos.peano_ind.
  - simpl. lia.
  - rewrite Pos.iter_succ. rewrite Pos2Z.inj_xO, IH, Pos2Z.inj_succ.
    rewrite Z.pow_succ_r by lia. lia.
Qed.

(** A mantissa of exactly 53 bits is left as it is. *)
Lemma binary_round_aux_exact (pm : positive) (E : Z) :
  Zpos (digits2_pos pm) = 53 ->
  -1074 <= E <= 971 ->
  binary_round_aux 53 1024 false (Zpos pm) E loc_Exact = S754_finite false pm E.
Proof.
  intros Hd HE. unfold binary_round_aux, shr_fexp.
  cbn [Zdigits2]. rewrite Hd. rewrite fexp64 by lia.
  replace (53 + E - 53 - E) with 0 by lia.
  cbn [shr shr_record_of_loc shr_m round_nearest_even loc_of_shr_record Zdigits2].
  rewrite Hd. rewrite fexp64 by lia.
  replace (53 + E - 53 - E) with 0 by lia.
  cbn [shr shr_record_of_loc shr_m].
  change (1024 - 53) with 971.
  assert (Hexp : (E <=? 971) = true) by (apply Z.leb_le; lia).
  rewrite Hexp. reflexivity.
Qed.

(** Converting an integer below 2^53 is exact. *)
Lemma float64_of_uint64_exact (p : positive) :
  Zpos p < 2 ^ 53 ->
  exists (ms : positive) (es : Z),
    float64_of_uint64 (Zpos p) = S754_finite false ms es /\
    2 ^ 52 <= Zpos ms < 2 ^ 53 /\
    -52 <= es <= 0 /\
    es = Zpos (digits2_pos p) - 53 /\
    Zpos ms = Zpos p * 2 ^ (- es).
Proof.
  intros Hp.
  pose proof (digits2_pos_bounds p) as [Hlo Hhi].
  set (d := Zpos (digits2_pos p)) in *.
  assert (Hd : 1 <= d <= 53).
  { split; [unfold d; lia |].
    destruct (Z_le_gt_dec d 53) as [H | H]; [exact H |].
    exfalso. assert (2 ^ 53 <= 2 ^ (d - 1)) by (apply Z.pow_le_mono_r; lia). lia. }
  unfold float64_of_uint64, float64_prec, float64_emax, binary_normalize, binary_round.
  fold d.
  rewrite fexp64 by lia. replace (d + 0 - 53) with (d - 53) by lia.
  unfold shl_align. replace (d - 53 - 0) with (d - 53) by lia.
  destruct (d - 53) as [| pd | pd] eqn:Hshift.
  - (* d = 53 *)
    rewrite binary_round_aux_exact by (unfold d in *; lia).
    exists p, 0. replace d with 53 in * by lia.
    split; [reflexivity |]. split; [simpl in *; lia |].
    split; [lia |]. split; [lia |]. simpl. lia.
  - lia.
  - assert (Hm : Zpos (Pos.iter xO p pd) = Zpos p * 2 ^ Zpos pd) by apply pos_iter_xO.
    assert (Hpd : Zpos pd = 53 - d) by lia.
    assert (Hrange : 2 ^ 52 <= Zpos (Pos.iter xO p pd) < 2 ^ 53).
    { rewrite Hm, Hpd.
      assert (H52 : 2 ^ 52 = 2 ^ (d - 1) * 2 ^ (53 - d)).
      { rewrite <- Z.pow_add_r by lia. f_equal. lia. }
      assert (H53 : 2 ^ 53 = 2 ^ d * 2 ^ (53 - d)).
      { rewrite <- Z.pow_add_r by lia. f_equal. lia. }
      assert (0 < 2 ^ (53 - d)) by (apply Z.pow_pos_nonneg; lia).
      rewrite H52, H53. split; nia. }
    rewrite binary_round_aux_exact.
    + exists (Pos.iter xO p pd), (Z.neg pd).
      split; [reflexivity |]. split; [exact Hrange |].
      split; [lia |]. split; [lia |].
      rewrite Hm. f_equal.
    + apply digits2_pos_unique. simpl. exact Hrange.
    + lia.
Qed.

(** Comparing two positive floats with 53-bit mantissas. *)
Lemma SFltb_canonical (m1 m2 : positive) (e1 e2 : Z) :
  2 ^ 52 <= Zpos m1 < 2 ^ 53 ->
  2 ^ 52 <= Zpos m2 < 2 ^ 53 ->
  SFltb (S754_finite false m1 e1) (S754_finite false m2 e2) =
  (e1 <? e2) || ((e1 =? e2) && (Zpos m1 <? Zpos m2)).
Proof.
  intros H1 H2. unfold SFltb, SFcompare.
  destruct (Z.compare_spec e1 e2) as [Heq | Hlt | Hgt].
  - subst e2. rewrite Z.ltb_irrefl, Z.eqb_refl. simpl.
    change (Pos.compare_cont Eq m1 m2) with (Pos.compare m1 m2).
    unfold Z.ltb. simpl. destruct (Pos.compare m1 m2); reflexivity.
  - apply Z.ltb_lt in Hlt. rewrite Hlt. reflexivity.
  - assert (Hn : (e1 <? e2) = false) by (apply Z.ltb_ge; lia).
    assert (Hn2 : (e1 =? e2) = false) by (apply Z.eqb_neq; lia).
    rewrite Hn, Hn2. reflexivity.
Qed.

(** The order of two scaled mantissas of 53 bits is the order of their
    exponents, then of the mantissas. *)
Lemma scaled_order (m1 m2 x y : Z) :
  2 ^ 52 <= m1 < 2 ^ 53 ->
  2 ^ 52 <= m2 < 2 ^ 53 ->
  0 <= x -> 0 <= y ->
  (m1 * 2 ^ x < m2 * 2 ^ y <-> x < y \/ (x = y /\ m1 < m2)).
Proof.
  intros H1 H2 Hx Hy.
  assert (Hpx : 0 < 2 ^ x) by (apply Z.pow_pos_nonneg; lia).
  assert (Hpy : 0 < 2 ^ y) by (apply Z.pow_pos_nonneg; lia).
  destruct (Z.lt_trichotomy x y) as [Hlt | [Heq | Hgt]].
  - assert (Hy' : 2 ^ y = 2 ^ x * 2 ^ (y - x)).
    { rewrite <- Z.pow_add_r by lia. f_equal. lia. }
    assert (2 <= 2 ^ (y - x)).
    { change 2 with (2 ^ 1) at 1. apply Z.pow_le_mono_r; lia. }
    split; [intros _; left; exact Hlt |]. intros _. rewrite Hy'.
    change (2 ^ 53) with (2 ^ 52 * 2) in *. nia.
  - subst y. split.
    + intros Hc. right. split; [reflexivity | nia].
    + intros [Hc | [_ Hc]]; [lia | nia].
  - assert (Hx' : 2 ^ x = 2 ^ y * 2 ^ (x - y)).
    { rewrite <- Z.pow_add_r by lia. f_equal. lia. }
    assert (2 <= 2 ^ (x - y)).
    { change 2 with (2 ^ 1) at 1. apply Z.pow_le_mono_r; lia. }
    split; [| intros [Hc | [Hc _]]; lia].
    intros Hc. exfalso. rewrite Hx' in Hc.
    change (2 ^ 53) with (2 ^ 52 * 2) in *. nia.
Qed.

(** The integer core: [S = s * T] against the rounded product. *)
Lemma nine_tenths_core (n s a T M K J c mp : Z) :
  1 <= n < 2 ^ 50 -> 0 <= s ->
  8 <= a -> T = a * 2 ^ 53 ->
  M = n * a * 8106479329266893 ->
  0 < K -> K * 2 ^ 52 <= M ->
  (J = K \/ J = 2 * K) ->
  1 <= c -> T = c * J ->
  2 ^ 52 <= mp < 2 ^ 53 ->
  2 * (mp * J) <= 2 * M + K ->
  2 * M <= 2 * (mp * J) + K ->
  (s * T < mp * J <-> 10 * s < 9 * n).
Proof.
  intros Hn Hs Ha HT HM HK HKM HJ Hc HcJ Hmp Hup Hdown.
  assert (H10 : 10 * M = 9 * n * T + 2 * n * a).
  { subst M T. change (2 ^ 53) with 9007199254740992. ring. }
  assert (HJpos : 0 < J) by lia.
  assert (HKJ : K <= J) by lia.
  split.
  - (* the member is ahead of the rounded product only if it is ahead of 0.9 n *)
    intros Hlt.
    destruct (Z_lt_ge_dec (10 * s) (9 * n)) as [Hbehind | Hahead]; [exact Hbehind |].
    exfalso.
    assert (Hgrid : s * c + 1 <= mp).
    { assert (s * c * J < mp * J) by (rewrite <- Z.mul_assoc, <- HcJ; exact Hlt).
      assert (s * c < mp) by (apply Z.mul_lt_mono_pos_r with (p := J); assumption).
      lia. }
    assert (Hstep : s * T + J <= mp * J).
    { rewrite HcJ. nia. }
    assert (H1 : 10 * J <= 4 * n * a).
    { assert (2 * (s * T) + J <= 2 * M) by lia.
      assert (18 * n * T <= 20 * (s * T)) by nia.
      lia. }
    assert (H2 : 9 * n * a < 10 * J).
    { assert (mp * J < 2 ^ 53 * J) by (apply Z.mul_lt_mono_pos_r; lia).
      assert (9 * n * T <= 10 * (s * T)) by nia.
      assert (9 * n * (a * 2 ^ 53) < 10 * (2 ^ 53 * J)) by (rewrite <- HT; lia).
      change (2 ^ 53) with 9007199254740992 in *. nia. }
    nia.
  - intros Hbehind.
    assert (Hround : (2 ^ 53 - 1) * M <= 2 ^ 53 * (mp * J)).
    { change (2 ^ 53) with (2 * 2 ^ 52). nia. }
    assert (Hs10 : 10 * (s * T) <= (9 * n - 1) * T) by nia.
    assert (Hkey : 2 ^ 53 * ((9 * n - 1) * T) < (2 ^ 53 - 1) * (10 * M)).
    { rewrite H10. subst T.
      assert (Hid : (2 ^ 53 - 1) * (9 * n * (a * 2 ^ 53) + 2 * n * a) -
                    2 ^ 53 * ((9 * n - 1) * (a * 2 ^ 53)) =
                    a * (2 ^ 106 - 7 * n * 2 ^ 53 - 2 * n)).
      { change (2 ^ 106) with (2 ^ 53 * 2 ^ 53). ring. }
      assert (0 < 2 ^ 106 - 7 * n * 2 ^ 53 - 2 * n).
      { change (2 ^ 106) with 81129638414606681695789005144064.
        change (2 ^ 53) with 9007199254740992.
        change (2 ^ 50) with 1125899906842624 in Hn. lia. }
      assert (0 < a * (2 ^ 106 - 7 * n * 2 ^ 53 - 2 * n)) by (apply Z.mul_pos_pos; lia).
      lia. }
    assert (2 ^ 53 * (10 * (s * T)) < 2 ^ 53 * (10 * (mp * J))).
    { assert (2 ^ 53 * (10 * (s * T)) <= 2 ^ 53 * ((9 * n - 1) * T)).
      { apply Z.mul_le_mono_nonneg_l; [simpl; lia | exact Hs10]. }
      assert ((2 ^ 53 - 1) * (10 * M) <= 2 ^ 53 * (10 * (mp * J))) by lia.
      lia. }
    change (2 ^ 53) with 9007199254740992 in *. lia.
Qed.

(** Below 2^50 the test of [promotions] is the exact comparison with nine
    tenths of the leader's [Match]. *)
Lemma promotions_behind_exact (n s : Z) :
  0 <= n < 2 ^ 50 -> 0 <= s < 2 ^ 53 ->
  promotions_behind n s = (10 * s <? 9 * n).
Proof.
  intros Hn Hs. unfold promotions_behind, float64_lt, float64_mul, float64_prec, float64_emax.
  destruct n as [| pn | pn]; [| | lia].
  - (* the leader has matched nothing *)
    change (float64_of_uint64 0) with (S754_zero false). simpl SFmul.
    destruct s as [| ps | ps]; [reflexivity | | lia].
    destruct (@float64_of_uint64_exact ps ltac:(lia)) as (ms & es & Hfs & _).
    rewrite Hfs. simpl. symmetry. apply Z.ltb_ge. lia.
  - destruct (@float64_of_uint64_exact pn) as (mn & en & Hfn & Hmn & Hen & Hend & Hmna).
    { change (2 ^ 53) with 9007199254740992.
      change (2 ^ 50) with 1125899906842624 in Hn. lia. }
    assert (Hen3 : en <= -3).
    { pose proof (digits2_pos_bounds pn) as [Hlo _].
      destruct (Z_le_gt_dec (Zpos (digits2_pos pn)) 50) as [H | H]; [lia |].
      exfalso.
      assert (2 ^ 50 <= 2 ^ (Zpos (digits2_pos pn) - 1)) by (apply Z.pow_le_mono_r; lia).
      lia. }
    rewrite Hfn. unfold float64_0_9. cbn [SFmul xorb].
    set (pm := (mn * 8106479329266893)%positive).
    set (E := en + -53).
    assert (HM : Zpos pm = Zpos mn * 8106479329266893) by reflexivity.
    pose proof (digits2_pos_bounds pm) as [HDlo HDhi].
    set (D := Zpos (digits2_pos pm)) in *.
    assert (HMrange : 2 ^ 104 <= Zpos pm < 2 ^ 106).
    { rewrite HM. change (2 ^ 104) with (2 ^ 52 * 2 ^ 52).
      change (2 ^ 106) with (2 ^ 53 * 2 ^ 53).
      change (2 ^ 52) with 4503599627370496 in *.
      change (2 ^ 53) with 9007199254740992 in *. nia. }
    assert (HD : 105 <= D <= 106).
    { split.
      - destruct (Z_le_gt_dec 105 D) as [H | H]; [exact H |]. exfalso.
        assert (2 ^ D <= 2 ^ 104) by (apply Z.pow_le_mono_r; lia). lia.
      - destruct (Z_le_gt_dec D 106) as [H | H]; [exact H |]. exfalso.
        assert (2 ^ 106 <= 2 ^ (D - 1)) by (apply Z.pow_le_mono_r; lia). lia. }
    destruct (@binary_round_aux_wide pm E) as (mp & j & Hprod & Hmp & Hj & Hup & Hdown);
      fold D; try (unfold E; lia).
    fold D in Hj, Hup, Hdown.
    rewrite Hprod.
    destruct s as [| ps | ps]; [| | lia].
    + (* the member has matched nothing *)
      change (float64_of_uint64 0) with (S754_zero false). simpl. symmetry. apply Z.ltb_lt. lia.
    + destruct (@float64_of_uint64_exact ps ltac:(lia)) as (ms & es & Hfs & Hms & Hes & _ & Hmsa).
      rewrite Hfs. rewrite SFltb_canonical by assumption.
      set (a := 2 ^ (- en)) in *.
      set (T := a * 2 ^ 53).
      assert (Ha : 8 <= a).
      { unfold a. change 8 with (2 ^ 3). apply Z.pow_le_mono_r; lia. }
      assert (HT : 2 ^ (- E) = T).
      { unfold T, a, E. rewrite <- Z.pow_add_r by lia. f_equal. lia. }
      assert (HsT : Zpos ms * 2 ^ (es - E) = Zpos ps * T).
      { rewrite Hmsa, <- HT, <- Z.mul_assoc, <- Z.pow_add_r by (unfold E; lia).
        f_equal. f_equal. lia. }
      assert (Hcore : Zpos ps * T < Zpos mp * 2 ^ j <-> 10 * Zpos ps < 9 * Zpos pn).
      { apply (@nine_tenths_core (Zpos pn) (Zpos ps) a T (Zpos pm) (2 ^ (D - 53)) (2 ^ j)
                 (2 ^ (- E - j)) (Zpos mp)).
        - lia.
        - lia.
        - exact Ha.
        - reflexivity.
        - rewrite HM, Hmna. fold a. ring.
        - apply Z.pow_pos_nonneg; lia.
        - rewrite <- Z.pow_add_r by lia. replace (D - 53 + 52) with (D - 1) by lia.
          exact HDlo.
        - assert (j = D - 53 \/ j = D - 52) as [-> | ->] by lia; [left; reflexivity |].
          right. replace (D - 52) with (Z.succ (D - 53)) by lia.
          rewrite Z.pow_succ_r by lia. reflexivity.
        - assert (0 < 2 ^ (- E - j)) by (apply Z.pow_pos_nonneg; unfold E; lia). lia.
        - rewrite <- HT, <- Z.pow_add_r by (unfold E; lia). f_equal. lia.
        - exact Hmp.
        - exact Hup.
        - exact Hdown. }
      pose proof (@scaled_order (Zpos ms) (Zpos mp) (es - E) j
                    Hms Hmp ltac:(unfold E; lia) ltac:(lia)) as Horder.
      rewrite HsT in Horder.
      destruct (Z.ltb_spec (10 * Zpos ps) (9 * Zpos pn)) as [Hb | Hb].
      * apply Hcore in Hb. apply Horder in Hb.
        apply orb_true_iff. destruct Hb as [Hb | [Hb1 Hb2]].
        -- left. apply Z.ltb_lt. lia.
        -- right. apply andb_true_iff. split; [apply Z.eqb_eq; lia | apply Z.ltb_lt; lia].
      * apply orb_false_iff. split.
        -- apply Z.ltb_ge.
           destruct (Z_lt_ge_dec es (E + j)) as [Hlt | Hge]; [| lia].
           exfalso. assert (Zpos ps * T < Zpos mp * 2 ^ j) by (apply Horder; left; lia).
           apply Hcore in H. lia.
        -- apply andb_false_iff.
           destruct (Z.eqb_spec es (E + j)) as [Heq | Hne]; [| left; reflexivity].
           right. apply Z.ltb_ge.
           destruct (Z_lt_ge_dec (Zpos ms) (Zpos mp)) as [Hlt | Hge]; [| lia].
           exfalso.
           assert (Zpos ps * T < Zpos mp * 2 ^ j) by (apply Horder; right; lia).
           apply Hcore in H. lia.
Qed.

Set Implicit Arguments.

(** ** Promotions *)

Section Promotions.

Context {W : Type} (C : Collaborators W).

(** The first loop of [promotions] counts the voters and the active
    voters, and collects the staging members that have caught up, in the
    order of the pool. *)
Lemma promotions_visit_fold (rs : Status) (progress : list (uint64 * Progress))
  (membs : list PoolMember) :
  forall v0 : promotions_vars,
    fold_left (promotions_visit rs progress) membs v0 =
    mkPromotionsVars
      (pv_promotions v0 ++ map promoted (filter (selected_for_promotion rs progress) membs))
      (pv_reachables v0 + active_voters membs)
      (pv_voters v0 + voters membs).
Proof.
  induction membs as [| mem rest IH]; intros v0.
  - simpl. unfold active_voters, voters. simpl.
    rewrite app_nil_r, !Z.add_0_r. destruct v0; reflexivity.
  - simpl fold_left. rewrite IH. clear IH.
    unfold promotions_visit, selected_for_promotion, caught_up, promotions_behind,
      is_staging, leader_Match, member_Match, active_voters, voters, is_voter.
    simpl filter.
    destruct (MemberType_eqb (mem_Type (pm_Raw mem)) VoterMember) eqn:Hvoter;
      destruct (pm_IsActive mem) eqn:Hactive;
      destruct (MemberType_eqb (mem_Type (pm_Raw mem)) StagingMember) eqn:Hstaging;
      simpl;
      try destruct (float64_lt _ _) eqn:Hbehind;
      simpl; rewrite ?app_nil_r, <- ?app_assoc; simpl;
      f_equal; lia.
Qed.

(** The second loop of [promotions]: one proposal of type [AddNode] for
    each collected member whose record can be marshalled, and no other. *)
Lemma promotions_proposals (ms : list Member) :
  forall s : state W,
    let run := for_range ms
                 (fun m => _ <- proposeConfChange C m ConfChangeAddNode ;; ret tt) in
    (forall cc,
       In (EvNodeProposeConfChange cc) (events run s) ->
       exists m, In m ms /\ cc_Type cc = ConfChangeAddNode /\ cc_NodeID cc = mem_ID m) /\
    (forall m buf,
       In m ms ->
       Member_Marshal (co_codec C) m = (buf, None) ->
       exists id,
         In (EvNodeProposeConfChange (mkConfChange ConfChangeAddNode (mem_ID m) buf id))
            (events run s)).
Proof.
  induction ms as [| m0 rest IH]; intros s run.
  - split; [intros cc [] | intros m buf []].
  - subst run. simpl for_range.
    set (body := fun m => _ <- proposeConfChange C m ConfChangeAddNode ;; ret tt) in *.
    set (s1 := final (body m0) s).
    destruct (IH s1) as [IHonly IHall]. fold body in IHonly, IHall.
    assert (Hhead : forall cc, In (EvNodeProposeConfChange cc) (events (body m0) s) ->
                      cc_Type cc = ConfChangeAddNode /\ cc_NodeID cc = mem_ID m0).
    { intros cc. unfold body, events, proposeConfChange, idgen_Next, node_ProposeConfChange,
        bind, ret, call.
      destruct (Member_Marshal (co_codec C) m0) as [buf [e |]]; simpl; [tauto |].
      destruct (rt_IdgenNext (co_runtime C) (env s)) as [id w1]. simpl.
      destruct (nd_ProposeConfChange (co_node C)
                  (mkConfChange ConfChangeAddNode (mem_ID m0) buf id) w1) as [err w2].
      simpl. intros [H | [H | []]]; [discriminate |].
      injection H as H. subst cc. split; reflexivity. }
    split.
    + intros cc Hin. rewrite events_bind in Hin. apply in_app_or in Hin.
      destruct Hin as [Hin | Hin].
      * exists m0. destruct (Hhead cc Hin). simpl. tauto.
      * destruct (IHonly cc Hin) as (m & Hm & Ht & Hn). exists m. simpl. tauto.
    + intros m buf [Heq | Hin] Hbuf; rewrite events_bind.
      * subst m0.
        assert (exists id,
          In (EvNodeProposeConfChange (mkConfChange ConfChangeAddNode (mem_ID m) buf id))
             (events (body m) s)) as [id Hid].
        { unfold body, events, proposeConfChange, idgen_Next, node_ProposeConfChange,
            bind, ret, call.
          rewrite Hbuf. simpl.
          destruct (rt_IdgenNext (co_runtime C) (env s)) as [id w1]. simpl.
          destruct (nd_ProposeConfChange (co_node C)
                      (mkConfChange ConfChangeAddNode (mem_ID m) buf id) w1) as [err w2].
          simpl. exists id. right. left. reflexivity. }
        exists id. apply in_or_app. left. exact Hid.
      * destruct (IHall m buf Hin Hbuf) as [id Hid].
        exists id. apply in_or_app. right. exact Hid.
Qed.

Lemma voters_nonneg (membs : list PoolMember) : 0 <= voters membs.
Proof. unfold voters. lia. Qed.

(** C7, with the comparison as the code makes it.  On the leader, where
    the [Progress] of the status is not nil, the first loop of
    [promotions] selects the members of the pool, in order, whose type is
    [StagingMember] and whose [Match], converted to [float64], is not below
    the leader's [Match] converted to [float64] and multiplied by 0.9.
    For a leader's [Match] below 2^50 and a member's [Match] below 2^53
    that test is exact: the member has caught up when ten times its
    [Match] is at least nine times the leader's.  When the number of
    active voters is below [voters/2 + 1], [promotions] calls the protocol
    core for its status and the pool for its members and nothing else: no
    conf change is proposed.  Otherwise the conf changes it proposes are
    of type [AddNode], each for a selected member, and every selected
    member whose record can be marshalled is proposed. *)
Theorem promotions_selection (s : state W) (progress : list (uint64 * Progress)) :
  let rs := fst (nd_Status (co_node C) (env s)) in
  let membs := fst (pl_Members (co_pool C) (snd (nd_Status (co_node C) (env s)))) in
  let vars := fold_left (promotions_visit rs progress) membs (mkPromotionsVars [] 0 0) in
  st_Progress rs = Some progress ->
  pv_promotions vars =
    map promoted (filter (fun mem => is_staging mem && caught_up rs progress mem) membs)
  /\
  pv_voters vars = voters membs
  /\
  pv_reachables vars = active_voters membs
  /\
  (forall mem,
     0 <= leader_Match rs progress < 2 ^ 50 ->
     0 <= member_Match progress mem < 2 ^ 53 ->
     caught_up rs progress mem =
       (9 * leader_Match rs progress <=? 10 * member_Match progress mem))
  /\
  (active_voters membs < voters membs / 2 + 1 ->
     events (promotions C) s = [EvNodeStatus; EvPoolMembers] /\
     forall cc, ~ In (EvNodeProposeConfChange cc) (events (promotions C) s))
  /\
  (voters membs / 2 + 1 <= active_voters membs ->
     (forall cc,
        In (EvNodeProposeConfChange cc) (events (promotions C) s) ->
        exists mem,
          In mem membs /\ is_staging mem = true /\ caught_up rs progress mem = true /\
          cc_Type cc = ConfChangeAddNode /\ cc_NodeID cc = mem_ID (pm_Raw mem)) /\
     (forall mem buf,
        In mem membs -> is_staging mem = true -> caught_up rs progress mem = true ->
        Member_Marshal (co_codec C) (promoted mem) = (buf, None) ->
        exists id,
          In (EvNodeProposeConfChange
                (mkConfChange ConfChangeAddNode (mem_ID (pm_Raw mem)) buf id))
             (events (promotions C) s))).
Proof.
  intros rs membs vars Hleader.
  assert (Hvars : vars =
    mkPromotionsVars
      (map promoted (filter (selected_for_promotion rs progress) membs))
      (active_voters membs) (voters membs)).
  { unfold vars. rewrite promotions_visit_fold. reflexivity. }
  assert (Hquot : Z.quot (voters membs) 2 = voters membs / 2).
  { apply Z.quot_div_nonneg; [apply voters_nonneg | lia]. }
  assert (Hrun : events (promotions C) s =
    [EvNodeStatus; EvPoolMembers] ++
    if active_voters membs <? voters membs / 2 + 1 then []
    else events
           (for_range (pv_promotions vars)
              (fun m => _ <- proposeConfChange C m ConfChangeAddNode ;; ret tt))
           (mkState (eng s)
              (snd (pl_Members (co_pool C) (snd (nd_Status (co_node C) (env s))))))).
  { unfold promotions, events at 1, node_Status, pool_Members.
    unfold bind at 1. unfold call at 1.
    subst rs membs.
    destruct (nd_Status (co_node C) (env s)) as [rs w1] eqn:Hstatus. simpl in *.
    rewrite Hleader.
    unfold bind at 1. unfold call at 1. simpl.
    destruct (pl_Members (co_pool C) w1) as [membs w2] eqn:Hmembers. simpl in *.
    fold vars.
    replace (pv_reachables vars) with (active_voters membs) by (rewrite Hvars; reflexivity).
    replace (pv_voters vars) with (voters membs) by (rewrite Hvars; reflexivity).
    rewrite Hquot.
    destruct (active_voters membs <? voters membs / 2 + 1).
    - reflexivity.
    - unfold events.
      destruct (for_range (pv_promotions vars)
                  (fun m => _ <- proposeConfChange C m ConfChangeAddNode ;; ret tt)
                  (mkState (eng s) w2)) as [[u s3] t3].
      reflexivity. }
  split; [rewrite Hvars; reflexivity |].
  split; [rewrite Hvars; reflexivity |].
  split; [rewrite Hvars; reflexivity |].
  split.
  { intros mem Hl Hm. unfold caught_up.
    change (float64_lt (float64_of_uint64 (member_Match progress mem))
              (float64_mul (float64_of_uint64 (leader_Match rs progress)) float64_0_9))
      with (promotions_behind (leader_Match rs progress) (member_Match progress mem)).
    rewrite promotions_behind_exact by assumption.
    symmetry. apply Z.leb_antisym. }
  split.
  - intros Hlost. apply Z.ltb_lt in Hlost. rewrite Hrun, Hlost. simpl.
    split; [reflexivity |].
    intros cc [H | [H | []]]; discriminate.
  - intros Hquorum.
    assert (Hge : (active_voters membs <? voters membs / 2 + 1) = false)
      by (apply Z.ltb_ge; exact Hquorum).
    rewrite Hrun, Hge.
    destruct (promotions_proposals (pv_promotions vars)
                (mkState (eng s)
                   (snd (pl_Members (co_pool C) (snd (nd_Status (co_node C) (env s)))))))
      as [Honly Hall].
    split.
    + intros cc [H | [H | Hin]]; [discriminate | discriminate |].
      destruct (Honly cc Hin) as (m & Hm & Ht & Hn).
      rewrite Hvars in Hm. simpl in Hm.
      apply in_map_iff in Hm. destruct Hm as (mem & Hpromoted & Hmem).
      apply filter_In in Hmem. destruct Hmem as [Hmem Hsel].
      unfold selected_for_promotion in Hsel. apply andb_true_iff in Hsel.
      exists mem. subst m. simpl in Hn. tauto.
    + intros mem buf Hmem Hstaging Hcaught Hbuf.
      destruct (Hall (promoted mem) buf) as [id Hid].
      * rewrite Hvars. simpl. apply in_map. apply filter_In. split; [exact Hmem |].
        unfold selected_for_promotion. rewrite Hstaging, Hcaught. reflexivity.
      * exact Hbuf.
      * exists id. right. right. exact Hid.
Qed.

End Promotions.

Lemma promotions_selection_witness :
  st_Progress (fst (nd_Status (co_node (Demo.leading true 100 95 80)) (env Demo.initial))) =
    Some (Demo.progress_of 100 95 80) /\
  voters (Demo.pool_of_five true) / 2 + 1 <= active_voters (Demo.pool_of_five true) /\
  events (promotions (Demo.leading true 100 95 80)) Demo.initial =
    [EvNodeStatus; EvPoolMembers; EvIdgenNext;
     EvNodeProposeConfChange (mkConfChange ConfChangeAddNode 3 [x08; x03] 100)] /\
  active_voters (Demo.pool_of_five false) < voters (Demo.pool_of_five false) / 2 + 1 /\
  events (promotions (Demo.leading false 100 95 80)) Demo.initial =
    [EvNodeStatus; EvPoolMembers] /\
  0 <= 100 < 2 ^ 50 /\
  0 <= 80 < 2 ^ 53 /\
  caught_up (mkStatus 1 1 (Some (Demo.progress_of 100 95 80))) (Demo.progress_of 100 95 80)
            (mkPoolMember (mkMember 4 EmptyString StagingMember) true) =
    (9 * 100 <=? 10 * 80).
Proof.
  assert (Hquorum : voters (Demo.pool_of_five true) / 2 + 1 <=
                    active_voters (Demo.pool_of_five true)) by (vm_compute; discriminate).
  assert (Hlost : active_voters (Demo.pool_of_five false) <
                  voters (Demo.pool_of_five false) / 2 + 1) by (vm_compute; reflexivity).
  assert (Hleader : 0 <= 100 < 2 ^ 50) by lia.
  assert (Hmember : 0 <= 80 < 2 ^ 53) by lia.
  split; [reflexivity |]. split; [exact Hquorum |]. split; [vm_compute; reflexivity |].
  split; [exact Hlost |].
  destruct (promotions_selection (Demo.leading false 100 95 80) Demo.initial
              (progress := Demo.progress_of 100 95 80) eq_refl)
    as (_ & _ & _ & Hexact & Hnone & _).
  split; [exact (proj1 (Hnone Hlost)) |].
  split; [exact Hleader |]. split; [exact Hmember |].
  exact (Hexact (mkPoolMember (mkMember 4 EmptyString StagingMember) true) Hleader Hmember).
Defined.

(** C7 in exact arithmetic fails for large indices.  With the leader's
    [Match] at 2^55 and a staging member at 32425917317067571, the member
    is below nine tenths of the leader, yet [promotions] proposes it: both
    sides of the comparison round to the same [float64]. *)
Lemma promotions_selects_below_nine_tenths :
  10 * 32425917317067571 < 9 * 2 ^ 55 /\
  float64_of_uint64 32425917317067571 = float64_mul (float64_of_uint64 (2 ^ 55)) float64_0_9 /\
  events (promotions (Demo.leading true (2 ^ 55) 32425917317067571 0)) Demo.initial =
    [EvNodeStatus; EvPoolMembers; EvIdgenNext;
     EvNodeProposeConfChange (mkConfChange ConfChangeAddNode 3 [x08; x03] 100)].
Proof.
  split; [lia |]. split; vm_compute; reflexivity.
Qed.

(** * The engine beyond the publisher *)

(** ** Runs, step by step *)

Lemma Z_of_byte_of_Z (z : Z) : Z_of_byte (byte_of_Z z) = z mod 256.
Proof.
  unfold Z_of_byte, byte_of_Z.
  pose proof (Z.mod_pos_bound z 256 ltac:(lia)) as Hb.
  destruct (Byte.of_N (Z.to_N (z mod 256))) as [b |] eqn:Hof.
  - apply Byte.to_of_N in Hof. rewrite Hof. lia.
  - apply Byte.of_N_None_iff in Hof. lia.
Qed.

Lemma Uint64_PutUint64 (v : uint64) :
  0 <= v < uint64_modulus -> Uint64 (PutUint64 v) = v.
Proof.
  intros Hv. unfold Uint64, PutUint64, uint64_modulus in *.
  cbn [map firstn fold_left].
  rewrite !Z_of_byte_of_Z, !Z.shiftr_div_pow2 by lia.
  change (8 * 0) with 0. rewrite Z.pow_0_r, Z.div_1_r.
  change (2 ^ (8 * 1)) with 256. change (2 ^ (8 * 2)) with (256 * 256).
  change (2 ^ (8 * 3)) with (256 * 256 * 256).
  change (2 ^ (8 * 4)) with (256 * 256 * 256 * 256).
  change (2 ^ (8 * 5)) with (256 * 256 * 256 * 256 * 256).
  change (2 ^ (8 * 6)) with (256 * 256 * 256 * 256 * 256 * 256).
  change (2 ^ (8 * 7)) with (256 * 256 * 256 * 256 * 256 * 256 * 256).
  rewrite <- !Z.div_div by lia.
  pose proof (Z.div_mod v 256 ltac:(lia)) as H0.
  set (t1 := v / 256) in *.
  pose proof (Z.div_mod t1 256 ltac:(lia)) as H1. set (t2 := t1 / 256) in *.
  pose proof (Z.div_mod t2 256 ltac:(lia)) as H2. set (t3 := t2 / 256) in *.
  pose proof (Z.div_mod t3 256 ltac:(lia)) as H3. set (t4 := t3 / 256) in *.
  pose proof (Z.div_mod t4 256 ltac:(lia)) as H4. set (t5 := t4 / 256) in *.
  pose proof (Z.div_mod t5 256 ltac:(lia)) as H5. set (t6 := t5 / 256) in *.
  pose proof (Z.div_mod t6 256 ltac:(lia)) as H6. set (t7 := t6 / 256) in *.
  pose proof (Z.div_mod t7 256 ltac:(lia)) as H7.
  assert (Ht8 : t7 / 256 = 0).
  { apply Z.div_small. unfold t7, t6, t5, t4, t3, t2, t1.
    rewrite !Z.div_div by lia. split.
    - apply Z.div_pos; lia.
    - apply Z.div_lt_upper_bound; [lia |]. change (2 ^ 64) with 18446744073709551616 in Hv. lia. }
  rewrite Ht8 in H7.
  rewrite (Z.mod_small (t7)) by (pose proof (Z.mod_pos_bound t7 256 ltac:(lia)); lia).
  lia.
Qed.

Section Obeys.

Context {W F : Type} (P : event -> Prop) (f : engine -> F).

Lemma obeys_ret {A : Type} (a : A) : obeys P f (ret (W := W) a).
Proof. intros s. split; [constructor | reflexivity]. Qed.

Lemma obeys_bind {A B : Type} (m : M W A) (k : A -> M W B) :
  obeys P f m -> (forall a, obeys P f (k a)) -> obeys P f (bind m k).
Proof.
  intros Hm Hk s. rewrite final_bind, events_bind.
  destruct (Hm s) as [Hm1 Hm2].
  destruct (Hk (result m s) (final m s)) as [Hk1 Hk2].
  split; [apply Forall_app; split; assumption | congruence].
Qed.

Lemma obeys_gets {A : Type} (g : engine -> A) : obeys P f (gets (W := W) g).
Proof. intros s. split; [constructor | reflexivity]. Qed.

Lemma obeys_call {A : Type} (g : W -> A * W) (e : event) :
  P e -> obeys P f (call g e).
Proof.
  intros He s. unfold final, events, call. destruct (g (env s)) as [a w]. simpl.
  split; [repeat constructor; exact He | reflexivity].
Qed.

Lemma obeys_select {A : Type} (g : W -> A * W) : obeys P f (select g).
Proof.
  intros s. unfold final, events, select. destruct (g (env s)) as [a w]. simpl.
  split; [constructor | reflexivity].
Qed.

Lemma obeys_emit (e : event) : P e -> obeys P f (emit (W := W) e).
Proof. intros He s. split; [repeat constructor; exact He | reflexivity]. Qed.

Lemma obeys_modify (g : engine -> engine) :
  (forall e, f (g e) = f e) -> obeys P f (modify (W := W) g).
Proof. intros Hg s. split; [constructor | apply Hg]. Qed.

Lemma obeys_for_range {A : Type} (body : A -> M W unit) (xs : list A) :
  (forall x, In x xs -> obeys P f (body x)) -> obeys P f (for_range xs body).
Proof.
  induction xs as [| x xs IH]; intros Hbody; simpl.
  - apply obeys_ret.
  - apply obeys_bind.
    + apply Hbody. left. reflexivity.
    + intros _. apply IH. intros y Hy. apply Hbody. right. exact Hy.
Qed.

End Obeys.

Lemma obeys_weaken {W A F : Type} (P Q : event -> Prop) (f : engine -> F) (m : M W A) :
  (forall e, P e -> Q e) -> obeys P f m -> obeys Q f m.
Proof.
  intros HPQ Hm s. destruct (Hm s) as [H1 H2].
  split; [eapply Forall_impl; eauto | exact H2].
Qed.

(** Takes [obeys P f m] apart along the structure of [m]; what is left are
    the events to check against [P], the writes to check against [f], and
    the calls of other methods. *)
Ltac obeys_step :=
  first
    [ apply obeys_ret
    | apply obeys_gets
    | apply obeys_select
    | apply obeys_call
    | apply obeys_emit
    | apply obeys_modify; intros; try reflexivity
    | apply obeys_bind; [| intros]
    | match goal with
      | |- obeys _ _ (match ?x with _ => _ end) => destruct x
      | |- obeys _ _ (if ?x then _ else _) => destruct x
      | |- obeys _ _ (let '(_, _) := ?x in _) => destruct x
      end ].

Ltac obeys_tac := repeat obeys_step.

Section Stepping.

Context {W A B : Type}.

Lemma bind_assoc_run {X : Type} (m : M W X) (f : X -> M W A) (g : A -> M W B) (s : state W) :
  bind (bind m f) g s = bind m (fun x => bind (f x) g) s.
Proof.
  unfold bind. destruct (m s) as [[x s1] t1].
  destruct (f x s1) as [[a s2] t2]. destruct (g a s2) as [[b s3] t3].
  rewrite app_assoc. reflexivity.
Qed.

Lemma bind_ret_run (a : A) (k : A -> M W B) (s : state W) :
  bind (ret a) k s = k a s.
Proof. unfold bind, ret. destruct (k a s) as [[b s2] t2]. reflexivity. Qed.

Lemma bind_gets_run (g : engine -> A) (k : A -> M W B) (s : state W) :
  bind (gets g) k s = k (g (eng s)) s.
Proof. unfold bind, gets. destruct (k (g (eng s)) s) as [[b s2] t2]. reflexivity. Qed.

Lemma bind_modify_run (g : engine -> engine) (k : unit -> M W B) (s : state W) :
  bind (modify g) k s = k tt (mkState (g (eng s)) (env s)).
Proof.
  unfold bind, modify.
  destruct (k tt (mkState (g (eng s)) (env s))) as [[b s2] t2]. reflexivity.
Qed.

Lemma bind_select_run (g : W -> A * W) (k : A -> M W B) (s : state W) :
  bind (select g) k s = k (fst (g (env s))) (mkState (eng s) (snd (g (env s)))).
Proof.
  unfold bind, select. destruct (g (env s)) as [a w]. simpl.
  destruct (k a (mkState (eng s) w)) as [[b s2] t2]. reflexivity.
Qed.

Lemma bind_emit_run (e : event) (k : unit -> M W B) (s : state W) :
  bind (emit e) k s = (result (k tt) s, final (k tt) s, e :: events (k tt) s).
Proof.
  unfold bind, emit, result, final, events.
  destruct (k tt s) as [[b s2] t2]. reflexivity.
Qed.

Lemma bind_call_run (g : W -> A * W) (e : event) (k : A -> M W B) (s : state W) :
  bind (call g e) k s =
    (result (k (fst (g (env s)))) (mkState (eng s) (snd (g (env s)))),
     final (k (fst (g (env s)))) (mkState (eng s) (snd (g (env s)))),
     e :: events (k (fst (g (env s)))) (mkState (eng s) (snd (g (env s))))).
Proof.
  unfold bind, call, result, final, events. destruct (g (env s)) as [a w]. simpl.
  destruct (k a (mkState (eng s) w)) as [[b s2] t2]. reflexivity.
Qed.

End Stepping.

Section Projections.

Context {W A B : Type}.

Lemma result_ret_bind (a : A) (k : A -> M W B) (s : state W) :
  result (bind (ret a) k) s = result (k a) s.
Proof. unfold result at 1. rewrite bind_ret_run. reflexivity. Qed.

Lemma final_ret_bind (a : A) (k : A -> M W B) (s : state W) :
  final (bind (ret a) k) s = final (k a) s.
Proof. unfold final at 1. rewrite bind_ret_run. reflexivity. Qed.

Lemma events_ret_bind (a : A) (k : A -> M W B) (s : state W) :
  events (bind (ret a) k) s = events (k a) s.
Proof. unfold events at 1. rewrite bind_ret_run. reflexivity. Qed.

Lemma result_gets_bind (g : engine -> A) (k : A -> M W B) (s : state W) :
  result (bind (gets g) k) s = result (k (g (eng s))) s.
Proof. unfold result at 1. rewrite bind_gets_run. reflexivity. Qed.

Lemma final_gets_bind (g : engine -> A) (k : A -> M W B) (s : state W) :
  final (bind (gets g) k) s = final (k (g (eng s))) s.
Proof. unfold final at 1. rewrite bind_gets_run. reflexivity. Qed.

Lemma events_gets_bind (g : engine -> A) (k : A -> M W B) (s : state W) :
  events (bind (gets g) k) s = events (k (g (eng s))) s.
Proof. unfold events at 1. rewrite bind_gets_run. reflexivity. Qed.

Lemma result_modify_bind (g : engine -> engine) (k : unit -> M W B) (s : state W) :
  result (bind (modify g) k) s = result (k tt) (mkState (g (eng s)) (env s)).
Proof. unfold result at 1. rewrite bind_modify_run. reflexivity. Qed.

Lemma final_modify_bind (g : engine -> engine) (k : unit -> M W B) (s : state W) :
  final (bind (modify g) k) s = final (k tt) (mkState (g (eng s)) (env s)).
Proof. unfold final at 1. rewrite bind_modify_run. reflexivity. Qed.

Lemma events_modify_bind (g : engine -> engine) (k : unit -> M W B) (s : state W) :
  events (bind (modify g) k) s = events (k tt) (mkState (g (eng s)) (env s)).
Proof. unfold events at 1. rewrite bind_modify_run. reflexivity. Qed.

Lemma result_select_bind (g : W -> A * W) (k : A -> M W B) (s : state W) :
  result (bind (select g) k) s = result (k (fst (g (env s)))) (mkState (eng s) (snd (g (env s)))).
Proof. unfold result at 1. rewrite bind_select_run. reflexivity. Qed.

Lemma final_select_bind (g : W -> A * W) (k : A -> M W B) (s : state W) :
  final (bind (select g) k) s = final (k (fst (g (env s)))) (mkState (eng s) (snd (g (env s)))).
Proof. unfold final at 1. rewrite bind_select_run. reflexivity. Qed.

Lemma events_select_bind (g : W -> A * W) (k : A -> M W B) (s : state W) :
  events (bind (select g) k) s = events (k (fst (g (env s)))) (mkState (eng s) (snd (g (env s)))).
Proof. unfold events at 1. rewrite bind_select_run. reflexivity. Qed.

Lemma result_emit_bind (e : event) (k : unit -> M W B) (s : state W) :
  result (bind (emit e) k) s = result (k tt) s.
Proof. unfold result at 1. rewrite bind_emit_run. reflexivity. Qed.

Lemma final_emit_bind (e : event) (k : unit -> M W B) (s : state W) :
  final (bind (emit e) k) s = final (k tt) s.
Proof. unfold final at 1. rewrite bind_emit_run. reflexivity. Qed.

Lemma events_emit_bind (e : event) (k : unit -> M W B) (s : state W) :
  events (bind (emit e) k) s = e :: events (k tt) s.
Proof. unfold events at 1. rewrite bind_emit_run. reflexivity. Qed.

Lemma result_call_bind (g : W -> A * W) (e : event) (k : A -> M W B) (s : state W) :
  result (bind (call g e) k) s = result (k (fst (g (env s)))) (mkState (eng s) (snd (g (env s)))).
Proof. unfold result at 1. rewrite bind_call_run. reflexivity. Qed.

Lemma final_call_bind (g : W -> A * W) (e : event) (k : A -> M W B) (s : state W) :
  final (bind (call g e) k) s = final (k (fst (g (env s)))) (mkState (eng s) (snd (g (env s)))).
Proof. unfold final at 1. rewrite bind_call_run. reflexivity. Qed.

Lemma events_call_bind (g : W -> A * W) (e : event) (k : A -> M W B) (s : state W) :
  events (bind (call g e) k) s = e :: events (k (fst (g (env s)))) (mkState (eng s) (snd (g (env s)))).
Proof. unfold events at 1. rewrite bind_call_run. reflexivity. Qed.

Lemma result_assoc_bind {X : Type} (m : M W X) (f : X -> M W A) (g : A -> M W B)
  (s : state W) :
  result (bind (bind m f) g) s = result (bind m (fun x => bind (f x) g)) s.
Proof. unfold result. rewrite bind_assoc_run. reflexivity. Qed.

Lemma final_assoc_bind {X : Type} (m : M W X) (f : X -> M W A) (g : A -> M W B)
  (s : state W) :
  final (bind (bind m f) g) s = final (bind m (fun x => bind (f x) g)) s.
Proof. unfold final. rewrite bind_assoc_run. reflexivity. Qed.

Lemma events_assoc_bind {X : Type} (m : M W X) (f : X -> M W A) (g : A -> M W B)
  (s : state W) :
  events (bind (bind m f) g) s = events (bind m (fun x => bind (f x) g)) s.
Proof. unfold events. rewrite bind_assoc_run. reflexivity. Qed.

Lemma result_ret (a : A) (s : state W) : result (ret a) s = a.
Proof. reflexivity. Qed.

Lemma final_ret (a : A) (s : state W) : final (ret a) s = s.
Proof. reflexivity. Qed.

Lemma events_ret (a : A) (s : state W) : events (ret a) s = [].
Proof. reflexivity. Qed.

Lemma events_emit (e : event) (s : state W) : events (emit e) s = [e].
Proof. reflexivity. Qed.

Lemma final_emit (e : event) (s : state W) : final (emit e) s = s.
Proof. reflexivity. Qed.

Lemma events_call (g : W -> A * W) (e : event) (s : state W) : events (call g e) s = [e].
Proof. unfold events, call. destruct (g (env s)). reflexivity. Qed.

Lemma result_call (g : W -> A * W) (e : event) (s : state W) :
  result (call g e) s = fst (g (env s)).
Proof. unfold result, call. destruct (g (env s)). reflexivity. Qed.

Lemma final_call (g : W -> A * W) (e : event) (s : state W) :
  final (call g e) s = mkState (eng s) (snd (g (env s))).
Proof. unfold final, call. destruct (g (env s)). reflexivity. Qed.

End Projections.

Create Rewrite HintDb run.

#[export] Hint Rewrite
  @result_assoc_bind @final_assoc_bind @events_assoc_bind
  @result_ret_bind @final_ret_bind @events_ret_bind
  @result_gets_bind @final_gets_bind @events_gets_bind
  @result_modify_bind @final_modify_bind @events_modify_bind
  @result_select_bind @final_select_bind @events_select_bind
  @result_emit_bind @final_emit_bind @events_emit_bind
  @result_call_bind @final_call_bind @events_call_bind
  @result_ret @final_ret @events_ret @events_emit @final_emit
  @events_call @result_call @final_call : run.

(** Steps through the primitives at the head of a run. *)
Ltac run_simpl := repeat (autorewrite with run; cbn [fst snd eng env]).

(** ** Linearizable reads *)

Section ReadIndex.

Context {W : Type} (C : Collaborators W).

Lemma LinearizableRead_loop_obeys (id : uint64) (buf : bytes) (rounds : nat) :
  obeys (fun e => e = EvNodeReadIndex buf) (fun e => e)
        (LinearizableRead_loop C rounds id buf).
Proof.
  induction rounds as [| rounds IH]; simpl LinearizableRead_loop.
  - apply obeys_ret.
  - unfold node_ReadIndex. obeys_tac; try reflexivity. exact IH.
Qed.

Lemma wait_obeys (id : uint64) :
  obeys (fun e => e = EvSubscribeOnce id \/ e = EvUnsubscribe id) (fun e => e)
        (wait C id).
Proof.
  unfold wait, msgbus_SubscribeOnce, msgbus_Unsubscribe. obeys_tac; auto.
Qed.

(** X1.  The read index travels as eight bytes and comes back as the same id:
    a [LinearizableRead] subscribes on the id it took from the generator
    and passes [ReadIndex] the big-endian bytes of that id and nothing
    else; [publishReadState] decodes those bytes to the same id and
    broadcasts the read index under it. *)
Theorem read_index_round_trip (rounds : nat) (index : uint64) (s s' : state W) :
  let id := fst (rt_IdgenNext (co_runtime C) (env s)) in
  started (eng s) = true ->
  0 <= id < uint64_modulus ->
  Uint64 (PutUint64 id) = id /\
  (exists evs,
     events (LinearizableRead C rounds) s = EvIdgenNext :: EvSubscribeOnce id :: evs /\
     forall rctx, In (EvNodeReadIndex rctx) evs -> rctx = PutUint64 id) /\
  publishReadState [mkReadState index (PutUint64 id)] s' =
    (tt, s', [EvBroadcast id (BusIndex index)]).
Proof.
  intros id Hstarted Hid.
  pose proof (Uint64_PutUint64 Hid) as Hround.
  split; [exact Hround |]. split.
  - assert (Hrest : forall id0, obeys
      (fun e => e = EvNodeReadIndex (PutUint64 id0) \/
                (forall r, e <> EvNodeReadIndex r)) (fun e => e)
      (r <- LinearizableRead_loop C rounds id0 (PutUint64 id0) ;;
       msgbus_Unsubscribe id0 ;;
       match r with
       | Blocked => ret Blocked
       | Returned (_, Some e) => ret (Returned (Some e))
       | Returned (index0, None) =>
           applied <- appliedIndex_Get ;;
           if index0 <=? applied then ret (Returned None)
           else err <- wait C index0 ;; ret (Returned err)
       end)).
    { intros id0. apply obeys_bind.
      - eapply obeys_weaken; [| apply LinearizableRead_loop_obeys]. intros e He. left. exact He.
      - intros r. unfold msgbus_Unsubscribe, appliedIndex_Get.
        obeys_tac; right; intros r0; discriminate. }
    unfold events, LinearizableRead, started_False, idgen_Next, msgbus_SubscribeOnce.
    rewrite bind_gets_run, Hstarted. cbn [negb].
    rewrite bind_call_run. cbn [snd]. fold id.
    unfold events. rewrite bind_emit_run. cbn [snd].
    eexists. split; [reflexivity |].
    intros rctx Hin.
    destruct (Hrest id (mkState (eng s) (snd (rt_IdgenNext (co_runtime C) (env s)))))
      as [Hall _].
    rewrite Forall_forall in Hall. destruct (Hall _ Hin) as [He | He].
    + injection He as He. exact He.
    + exfalso. apply (He rctx). reflexivity.
  - unfold publishReadState, msgbus_Broadcast. simpl for_range.
    unfold bind, emit, ret. simpl. rewrite Hround. reflexivity.
Qed.

End ReadIndex.

Lemma read_index_round_trip_witness :
  started (eng Demo.initial) = true /\
  0 <= 100 < uint64_modulus /\
  PutUint64 100 = [x00; x00; x00; x00; x00; x00; x00; x64] /\
  publishReadState [mkReadState 7 (PutUint64 100)] Demo.initial =
    (tt, Demo.initial, [EvBroadcast 100 (BusIndex 7)]).
Proof.
  assert (Hid : 0 <= 100 < uint64_modulus) by (unfold uint64_modulus; lia).
  split; [reflexivity |]. split; [exact Hid |]. split; [reflexivity |].
  exact (proj2 (proj2 (read_index_round_trip Demo.follower 1 7 Demo.initial Demo.initial
                         eq_refl Hid))).
Defined.

(** ** The snapshot goroutine *)

Section SnapshotTask.

Context {W : Type} (C : Collaborators W).

(** Unfolds [createSnapshot] and its goroutine down to the calls on the
    collaborators. *)
Ltac unfold_snapshot :=
  unfold result, final, events, createSnapshot, snapshotTask, snapshotTask_fn,
    appliedIndex_Get, snapIndex_Get, snapshoting_True, snapshoting_Set,
    snapshoting_UnSet, snapIndex_Set, fsm_Snapshot, storage_CreateSnapshot,
    storage_SaveSnapshot, storage_Compact, snapshotter_Write, pool_Snapshot, go,
    bind, ret, gets, modify, emit, call.

(** X2.  The snapshotting flag is released on every path.  [createSnapshot]
    called with the flag clear returns with the flag set only when it has
    started its goroutine, which captures the two indices read at entry;
    and that goroutine clears the flag whether the snapshot is written,
    saved and compacted or one of the three steps fails. *)
Theorem snapshot_flag_released (s : state W) :
  snapshoting (eng s) = false ->
  (forall t, In (EvGo t) (events (createSnapshot C) s) ->
     exists ss snap,
       t = TaskSnapshot (appliedIndex (eng s)) (snapIndex (eng s)) ss snap) /\
  (snapshoting (eng (final (createSnapshot C) s)) = true <->
     exists t, In (EvGo t) (events (createSnapshot C) s)) /\
  (forall (a b : uint64) (ss : SnapshotFile) (snap : Snapshot) (s2 : state W),
     snapshoting (eng (final (snapshotTask C a b ss snap) s2)) = false /\
     In (EvStoreBool Snapshoting false) (events (snapshotTask C a b ss snap) s2)).
Proof.
  intros Hfree. split; [| split].
  - intros t. unfold_snapshot.
    destruct (appliedIndex (eng s) =? snapIndex (eng s)); simpl; [tauto |].
    rewrite Hfree. simpl.
    destruct (sm_Snapshot (co_fsm C) (env s)) as [[r [e |]] w1]; simpl.
    { intros [H | [H | [H | []]]]; discriminate. }
    destruct (sto_CreateSnapshot (co_storage C) (appliedIndex (eng s))
                (confState (eng s)) w1) as [[snap [e |]] w2]; simpl.
    { intros [H | [H | [H | [H | []]]]]; discriminate. }
    destruct (pl_Snapshot (co_pool C) w2) as [members w3]; simpl.
    intros [H | [H | [H | [H | [H | []]]]]]; try discriminate.
    injection H as H. subst t. eauto.
  - unfold_snapshot.
    destruct (appliedIndex (eng s) =? snapIndex (eng s)); simpl.
    { rewrite Hfree. split; [discriminate | intros [t []]]. }
    rewrite Hfree. simpl.
    destruct (sm_Snapshot (co_fsm C) (env s)) as [[r [e |]] w1]; simpl.
    { split; [discriminate |]. intros [t [H | [H | [H | []]]]]; discriminate. }
    destruct (sto_CreateSnapshot (co_storage C) (appliedIndex (eng s))
                (confState (eng s)) w1) as [[snap [e |]] w2]; simpl.
    { split; [discriminate |]. intros [t [H | [H | [H | [H | []]]]]]; discriminate. }
    destruct (pl_Snapshot (co_pool C) w2) as [members w3]; simpl.
    split; [| reflexivity]. intros _. eexists. do 4 right. left. reflexivity.
  - intros a b ss snap s2. unfold_snapshot.
    destruct (sto_SnapshotterWrite (co_storage C) ss (env s2)) as [[e1 |] w1]; simpl.
    { split; [reflexivity | tauto]. }
    destruct (sto_SaveSnapshot (co_storage C) snap w1) as [[e2 |] w2]; simpl.
    { split; [reflexivity | tauto]. }
    destruct (a <=? co_SnapInterval C); simpl.
    { split; [reflexivity | tauto]. }
    destruct (sto_Compact (co_storage C) (wrap64 (a - co_SnapInterval C)) w2)
      as [[e3 |] w3]; simpl; (split; [reflexivity | tauto]).
Qed.

(** X3.  What the goroutine of [createSnapshot] does, by the step that fails.
    It writes the snapshot file, saves the snapshot, stores the captured
    applied index as the snapshot index and, when that index is above the
    snapshot interval, compacts the log at the index less the interval.
    The first step that fails ends it: the steps after it are not taken,
    the flag is cleared and the snapshot index is set back to the captured
    snapshot index, also when the step that fails is the compaction, after
    the index was stored.  When no step fails the snapshot index stays at
    the captured applied index.  The applied index is never written. *)
Theorem snapshotTask_outcome (a b : uint64) (ss : SnapshotFile) (snap : Snapshot)
  (s : state W) :
  0 <= co_SnapInterval C ->
  0 <= a < uint64_modulus ->
  let written := sto_SnapshotterWrite (co_storage C) ss (env s) in
  let saved := sto_SaveSnapshot (co_storage C) snap (snd written) in
  let compacted := sto_Compact (co_storage C) (a - co_SnapInterval C) (snd saved) in
  let failed := set_snapIndex b (set_snapshoting false (eng s)) in
  let done := set_snapshoting false (set_snapIndex a (eng s)) in
  (forall e, fst written = Some e ->
     snapshotTask C a b ss snap s =
       (tt, mkState failed (snd written),
        [EvSnapshotterWrite ss; EvStoreBool Snapshoting false; EvStoreU64 SnapIndex b])) /\
  (forall e, fst written = None -> fst saved = Some e ->
     snapshotTask C a b ss snap s =
       (tt, mkState failed (snd saved),
        [EvSnapshotterWrite ss; EvStorageSaveSnapshot snap;
         EvStoreBool Snapshoting false; EvStoreU64 SnapIndex b])) /\
  (fst written = None -> fst saved = None -> a <= co_SnapInterval C ->
     snapshotTask C a b ss snap s =
       (tt, mkState done (snd saved),
        [EvSnapshotterWrite ss; EvStorageSaveSnapshot snap; EvStoreU64 SnapIndex a;
         EvStoreBool Snapshoting false])) /\
  (forall e, fst written = None -> fst saved = None -> co_SnapInterval C < a ->
     fst compacted = Some e ->
     snapshotTask C a b ss snap s =
       (tt, mkState (set_snapIndex b done) (snd compacted),
        [EvSnapshotterWrite ss; EvStorageSaveSnapshot snap; EvStoreU64 SnapIndex a;
         EvStorageCompact (a - co_SnapInterval C);
         EvStoreBool Snapshoting false; EvStoreU64 SnapIndex b])) /\
  (fst written = None -> fst saved = None -> co_SnapInterval C < a ->
     fst compacted = None ->
     snapshotTask C a b ss snap s =
       (tt, mkState done (snd compacted),
        [EvSnapshotterWrite ss; EvStorageSaveSnapshot snap; EvStoreU64 SnapIndex a;
         EvStorageCompact (a - co_SnapInterval C); EvStoreBool Snapshoting false])) /\
  snapIndex failed = b /\ snapIndex (set_snapIndex b done) = b /\ snapIndex done = a /\
  appliedIndex (eng (final (snapshotTask C a b ss snap) s)) = appliedIndex (eng s).
Proof.
  intros Hinterval Ha written saved compacted failed done.
  subst written saved compacted failed done.
  assert (Hwrap : co_SnapInterval C < a ->
                  wrap64 (a - co_SnapInterval C) = a - co_SnapInterval C).
  { intros Hlt. unfold wrap64. apply Z.mod_small. lia. }
  unfold_snapshot.
  destruct (sto_SnapshotterWrite (co_storage C) ss (env s)) as [[e1 |] w1]; simpl.
  { repeat split; try reflexivity; intros; try discriminate; reflexivity. }
  destruct (sto_SaveSnapshot (co_storage C) snap w1) as [[e2 |] w2]; simpl.
  { repeat split; try reflexivity; intros; try discriminate; reflexivity. }
  destruct (a <=? co_SnapInterval C) eqn:Hle; simpl.
  { apply Z.leb_le in Hle.
    repeat split; try reflexivity; intros; try discriminate; try lia; reflexivity. }
  apply Z.leb_gt in Hle. rewrite (Hwrap Hle).
  destruct (sto_Compact (co_storage C) (a - co_SnapInterval C) w2) as [[e3 |] w3];
    simpl;
    repeat split; try reflexivity; intros; try discriminate; try lia; reflexivity.
Qed.

Lemma publishSnapshotFile_error_eng (file : SnapshotFile) (s0 : state W) :
  result (publishSnapshotFile C file) s0 <> None ->
  eng (final (publishSnapshotFile C file) s0) = eng s0 /\
  Forall (fun e => is_index_store e = false) (events (publishSnapshotFile C file) s0).
Proof.
  unfold result, final, events, publishSnapshotFile, storage_ApplySnapshot,
    pool_Restore, fsm_Restore, snapIndex_Set, appliedIndex_Set,
    bind, ret, modify, emit, call.
  destruct (sto_ApplySnapshot (co_storage C) (sf_Raw file) (env s0)) as [[e1 |] w1];
    simpl; [intros _; split; [reflexivity | repeat constructor] |].
  destruct (pl_Restore (co_pool C) (sf_Members file) w1) as [u w2]; simpl.
  destruct (sm_Restore (co_fsm C) (sf_Data file) w2) as [[e3 |] w3];
    simpl; [intros _; split; [reflexivity | repeat constructor] | congruence].
Qed.

Lemma publishSnapshot_error_eng (snap : Snapshot) (s : state W) :
  result (publishSnapshot C snap) s <> None ->
  eng (final (publishSnapshot C snap) s) = eng s /\
  Forall (fun e => is_index_store e = false) (events (publishSnapshot C snap) s).
Proof.
  unfold publishSnapshot, appliedIndex_Get, storage_SaveSnapshot, snapshotter_Read.
  destruct (IsEmptySnap (co_codec C) snap); [unfold result, ret; simpl; congruence |].
  unfold result, final, events. rewrite bind_gets_run.
  destruct (md_Index (snap_Metadata snap) <=? appliedIndex (eng s));
    [intros _; split; [reflexivity | constructor] |].
  rewrite bind_call_run. cbn [fst snd eng env].
  destruct (sto_SaveSnapshot (co_storage C) snap (env s)) as [[e1 |] w1];
    cbn [fst snd eng env].
  { intros _. split; [reflexivity | repeat constructor]. }
  unfold result, final, events. rewrite bind_call_run. cbn [fst snd eng env].
  destruct (sto_SnapshotterRead (co_storage C) (md_Term (snap_Metadata snap))
              (md_Index (snap_Metadata snap)) w1) as [[file [e2 |]] w2];
    cbn [fst snd eng env].
  { intros _. split; [reflexivity | repeat constructor]. }
  intros Herr.
  destruct (@publishSnapshotFile_error_eng file (mkState (eng s) w2) Herr) as [Heng Hev].
  split; [exact Heng | repeat constructor; exact Hev].
Qed.

(** X4.  An error of [publishSnapshot] or of [publishSnapshotFile] leaves the
    engine's own fields as they were: the two indices and [conf_state] are
    written only after the store, the pool and the state machine have
    taken the snapshot. *)
Theorem publishSnapshot_error_keeps_engine (snap : Snapshot) (sf : SnapshotFile)
  (s : state W) :
  (result (publishSnapshot C snap) s <> None ->
     eng (final (publishSnapshot C snap) s) = eng s /\
     Forall (fun e => is_index_store e = false) (events (publishSnapshot C snap) s)) /\
  (result (publishSnapshotFile C sf) s <> None ->
     eng (final (publishSnapshotFile C sf) s) = eng s /\
     Forall (fun e => is_index_store e = false) (events (publishSnapshotFile C sf) s)).
Proof.
  split; [apply publishSnapshot_error_eng | apply publishSnapshotFile_error_eng].
Qed.

End SnapshotTask.

Lemma snapshot_flag_released_witness :
  snapshoting (eng (Demo.at_indices 12 0)) = false /\
  (forall t, In (EvGo t) (events (createSnapshot Demo.follower) (Demo.at_indices 12 0)) ->
     exists ss snap, t = TaskSnapshot 12 0 ss snap) /\
  snapshoting (eng (final (createSnapshot Demo.follower) (Demo.at_indices 12 0))) = true /\
  snapshoting
    (eng (final (snapshotTask Demo.follower 12 0 (Demo.snapshot_file_at 12)
                   (Demo.snapshot_at 12))
                (final (createSnapshot Demo.follower) (Demo.at_indices 12 0)))) = false.
Proof.
  destruct (snapshot_flag_released Demo.follower (Demo.at_indices 12 0) eq_refl)
    as (Hgo & _ & Htask).
  split; [reflexivity |]. split; [exact Hgo |]. split; [reflexivity |].
  exact (proj1 (Htask 12 0 (Demo.snapshot_file_at 12) (Demo.snapshot_at 12) _)).
Defined.

Lemma snapshotTask_outcome_witness :
  0 <= co_SnapInterval Demo.follower /\
  0 <= 12 < uint64_modulus /\
  snapshotTask Demo.follower 12 0 (Demo.snapshot_file_at 12) (Demo.snapshot_at 12)
               (Demo.at_indices 12 0) =
    (tt, Demo.at_indices 12 12,
     [EvSnapshotterWrite (Demo.snapshot_file_at 12);
      EvStorageSaveSnapshot (Demo.snapshot_at 12);
      EvStoreU64 SnapIndex 12; EvStorageCompact 2; EvStoreBool Snapshoting false]) /\
  fst (sto_Compact (co_storage DemoFaults.follower) 2 100) = Some DemoFaults.no_space /\
  snapshotTask DemoFaults.follower 12 0 (Demo.snapshot_file_at 12) (Demo.snapshot_at 12)
               (Demo.at_indices 12 0) =
    (tt, Demo.at_indices 12 0,
     [EvSnapshotterWrite (Demo.snapshot_file_at 12);
      EvStorageSaveSnapshot (Demo.snapshot_at 12);
      EvStoreU64 SnapIndex 12; EvStorageCompact 2;
      EvStoreBool Snapshoting false; EvStoreU64 SnapIndex 0]).
Proof.
  assert (Hinterval : 0 <= 10) by lia.
  assert (Ha : 0 <= 12 < uint64_modulus) by (unfold uint64_modulus; lia).
  assert (Habove : 10 < 12) by lia.
  split; [exact Hinterval |]. split; [exact Ha |]. split; [| split; [reflexivity |]].
  - destruct (snapshotTask_outcome Demo.follower 0 (Demo.snapshot_file_at 12)
                (Demo.snapshot_at 12) (Demo.at_indices 12 0) Hinterval Ha)
      as (_ & _ & _ & _ & Hdone & _).
    exact (Hdone eq_refl eq_refl Habove eq_refl).
  - destruct (snapshotTask_outcome DemoFaults.follower 0 (Demo.snapshot_file_at 12)
                (Demo.snapshot_at 12) (Demo.at_indices 12 0) Hinterval Ha)
      as (_ & _ & _ & Hfail & _).
    exact (Hfail DemoFaults.no_space eq_refl eq_refl Habove eq_refl).
Defined.

Lemma publishSnapshot_error_keeps_engine_witness :
  result (publishSnapshot Demo.follower (Demo.snapshot_at 5)) (Demo.at_indices 12 0) =
    Some (ErrSnapshotIndex 5 12) /\
  eng (final (publishSnapshot Demo.follower (Demo.snapshot_at 5)) (Demo.at_indices 12 0)) =
    eng (Demo.at_indices 12 0).
Proof.
  assert (Herr : result (publishSnapshot Demo.follower (Demo.snapshot_at 5))
                        (Demo.at_indices 12 0) <> None) by discriminate.
  split; [reflexivity |].
  exact (proj1 (proj1 (publishSnapshot_error_keeps_engine Demo.follower (Demo.snapshot_at 5)
                         (Demo.snapshot_file_at 5) (Demo.at_indices 12 0)) Herr)).
Defined.

(** ** Sending *)

Section Send.

Context {W : Type} (C : Collaborators W).

(** [createSnapshot] calls the state machine, the store and the pool, sets
    and clears its flag and starts its goroutine: it writes no other field
    and neither sends nor steps a message. *)
Lemma createSnapshot_obeys {F : Type} (P : event -> Prop) (f : engine -> F) :
  (forall b e, f (set_snapshoting b e) = f e) ->
  (forall b, P (EvStoreBool Snapshoting b)) ->
  P EvFsmSnapshot ->
  (forall i cs, P (EvStorageCreateSnapshot i cs)) ->
  P EvPoolSnapshot ->
  (forall a b ss snap, P (EvGo (TaskSnapshot a b ss snap))) ->
  obeys P f (createSnapshot C).
Proof.
  intros Hf Hflag Hfsm Hcreate Hpool Hgo.
  unfold createSnapshot, appliedIndex_Get, snapIndex_Get, snapshoting_True,
    snapshoting_Set, snapshoting_UnSet, fsm_Snapshot, storage_CreateSnapshot,
    pool_Snapshot, go.
  obeys_tac; auto.
Qed.

Lemma forceSnapshot_obeys {F : Type} (P : event -> Prop) (f : engine -> F) (msg : Message) :
  (forall b e, f (set_snapshoting b e) = f e) ->
  (forall b, P (EvStoreBool Snapshoting b)) ->
  P EvFsmSnapshot ->
  (forall i cs, P (EvStorageCreateSnapshot i cs)) ->
  P EvPoolSnapshot ->
  (forall a b ss snap, P (EvGo (TaskSnapshot a b ss snap))) ->
  (forall id st, P (EvNodeReportSnapshot id st)) ->
  obeys P f (forceSnapshot C msg).
Proof.
  intros Hf Hflag Hfsm Hcreate Hpool Hgo Hreport.
  unfold forceSnapshot.
  destruct (negb (MessageType_eqb (msg_Type msg) MsgSnap)); [apply obeys_ret |].
  destruct (forceSnapshot_sets _ _ _); [apply obeys_ret |].
  apply obeys_bind; [apply createSnapshot_obeys; assumption | intros _].
  unfold ReportSnapshot, started_False, node_ReportSnapshot.
  obeys_tac; auto.
Qed.

(** A message that [forceSnapshot] lets through is not a [MsgSnap], or its
    target is a member of the configuration in its snapshot. *)
Lemma forceSnapshot_passes (msg : Message) (s : state W) :
  result (forceSnapshot C msg) s = false ->
  msg_Type msg = MsgSnap -> In (msg_To msg) (snapshot_members msg).
Proof.
  unfold forceSnapshot, snapshot_members. intros Hres Htype. rewrite Htype in Hres.
  cbn [MessageType_eqb negb] in Hres.
  destruct (forceSnapshot_sets (msg_To msg) _ false) eqn:Hfound.
  - apply forceSnapshot_sets_found in Hfound. simpl in Hfound.
    rewrite app_nil_r in Hfound. destruct Hfound as [H | H]; [discriminate | exact H].
  - rewrite result_bind, result_bind in Hres. unfold result, ret in Hres.
    simpl in Hres. discriminate.
Qed.

(** A message that [forceSnapshot] lets through leaves no trace. *)
Lemma forceSnapshot_false (msg : Message) (s : state W) :
  result (forceSnapshot C msg) s = false -> forceSnapshot C msg s = (false, s, []).
Proof.
  unfold forceSnapshot. intros Hres.
  destruct (negb (MessageType_eqb (msg_Type msg) MsgSnap)); [reflexivity |].
  destruct (forceSnapshot_sets (msg_To msg) _ false); [reflexivity |].
  rewrite result_bind, result_bind in Hres. unfold result, ret in Hres.
  simpl in Hres. discriminate.
Qed.

(** [send] takes the messages one by one. *)
Lemma send_cons (m : Message) (rest : list Message) (s : state W) :
  send C (m :: rest) s =
    (tt, final (send C rest) (final (send C [m]) s),
     events (send C [m]) s ++ events (send C rest) (final (send C [m]) s)).
Proof.
  change (m :: rest) with ([m] ++ rest). unfold send at 1. rewrite for_range_app.
  fold (send C [m]). fold (send C rest). rewrite bind_run.
  destruct (result (send C rest) (final (send C [m]) s)). reflexivity.
Qed.

Lemma send_one (m : Message) (s : state W) : send C [m] s = send_message C m s.
Proof.
  unfold send. simpl for_range. rewrite (run_eta (send_message C m) s), bind_run.
  unfold ret, result, final, events. cbn [fst snd]. rewrite app_nil_r.
  destruct (send_message C m s) as [[[] s1] t1]. reflexivity.
Qed.

(** X5.  What [send] does with a message, by where it goes.  A message to the
    local node is stepped into the protocol core and the pool is not
    asked.  For a message to another node the pool is asked for the
    target: when the pool does not know it, nothing else happens; when
    [forceSnapshot] drops the message, it is not transmitted; otherwise it
    is transmitted, and then a [MsgSnap] goes to a member of the
    configuration in its own snapshot.  The messages of a list are taken
    one by one, each whatever happened to the ones before it, and nothing
    happens for an empty list. *)
Theorem send_routing (m : Message) (rest : list Message) (s : state W) :
  let known := pl_Get (co_pool C) (msg_To m) (env s) in
  let s1 := mkState (eng s) (snd known) in
  send C [] s = (tt, s, []) /\
  send C (m :: rest) s =
    (tt, final (send C rest) (final (send C [m]) s),
     events (send C [m]) s ++ events (send C rest) (final (send C [m]) s)) /\
  (msg_To m = local_ID (eng s) ->
     send C [m] s =
       (tt, mkState (eng s) (snd (nd_Step (co_node C) m (env s))), [EvNodeStep m])) /\
  (msg_To m <> local_ID (eng s) -> fst known = false ->
     send C [m] s = (tt, s1, [EvPoolGet (msg_To m)])) /\
  (msg_To m <> local_ID (eng s) -> fst known = true ->
   result (forceSnapshot C m) s1 = true ->
     send C [m] s =
       (tt, final (forceSnapshot C m) s1,
        EvPoolGet (msg_To m) :: events (forceSnapshot C m) s1) /\
     ~ In (EvMemberSend m) (events (send C [m]) s)) /\
  (msg_To m <> local_ID (eng s) -> fst known = true ->
   result (forceSnapshot C m) s1 = false ->
     send C [m] s =
       (tt, mkState (eng s) (snd (pl_Send (co_pool C) m (snd known))),
        [EvPoolGet (msg_To m); EvMemberSend m]) /\
     (msg_Type m = MsgSnap -> In (msg_To m) (snapshot_members m))).
Proof.
  intros known s1. subst known s1.
  split; [reflexivity |]. split; [apply send_cons |].
  assert (Hone : events (send C [m]) s = events (send_message C m) s)
    by (unfold events; rewrite send_one; reflexivity).
  rewrite Hone, send_one. clear Hone.
  rewrite (run_eta (send_message C m) s).
  unfold send_message. rewrite result_gets_bind, final_gets_bind, events_gets_bind.
  destruct (msg_To m =? local_ID (eng s)) eqn:Hlocal.
  - apply Z.eqb_eq in Hlocal. unfold node_Step.
    rewrite result_call_bind, final_call_bind, events_call_bind.
    unfold ret, result, final, events. cbn [fst snd eng env].
    split; [intros _; reflexivity |].
    repeat split; intros; congruence.
  - apply Z.eqb_neq in Hlocal. unfold pool_Get.
    rewrite result_call_bind, final_call_bind, events_call_bind.
    cbn [fst snd eng env].
    destruct (pl_Get (co_pool C) (msg_To m) (env s)) as [[|] w1]; cbn [fst snd negb].
    + split; [congruence |]. split; [discriminate |].
      rewrite result_bind, final_bind, events_bind.
      destruct (result (forceSnapshot C m) (mkState (eng s) w1)) eqn:Hdrop.
      * unfold ret, result, final, events. cbn [fst snd]. rewrite app_nil_r.
        split; [| discriminate].
        intros _ _ _. split; [reflexivity |].
        destruct (@forceSnapshot_obeys unit
                    (fun e => forall m', e <> EvMemberSend m') (fun _ => tt) m)
          with (s := mkState (eng s) w1) as [Hev _];
          try reflexivity; try (intros; discriminate).
        intros [H | H]; [discriminate |].
        rewrite Forall_forall in Hev. apply (Hev _ H m). reflexivity.
      * split; [discriminate |]. intros _ _ _.
        pose proof (forceSnapshot_false m (mkState (eng s) w1) Hdrop) as Hrun.
        pose proof (@forceSnapshot_passes m (mkState (eng s) w1) Hdrop) as Hpass.
        split; [| exact Hpass].
        unfold member_Send.
        rewrite result_call_bind, final_call_bind, events_call_bind.
        unfold final, events. rewrite Hrun.
        unfold ret, result, final, events. cbn [fst snd eng env app].
        reflexivity.
    + unfold ret, result, final, events. cbn [fst snd eng env].
      split; [congruence |]. split; [intros _ _; reflexivity |].
      split; intros; discriminate.
Qed.

End Send.

Lemma send_routing_witness :
  local_ID (eng Demo.initial) = 0 /\
  send Demo.follower [mkMessage MsgProp 0 2 (Demo.snapshot_at 0)] Demo.initial =
    (tt, Demo.initial, [EvNodeStep (mkMessage MsgProp 0 2 (Demo.snapshot_at 0))]) /\
  fst (pl_Get (co_pool Demo.follower) 2 100) = false /\
  send Demo.follower [Demo.snap_message 2] Demo.initial =
    (tt, Demo.initial, [EvPoolGet 2]) /\
  fst (pl_Get (co_pool (Demo.leading true 5 5 5)) 2 100) = true /\
  send (Demo.leading true 5 5 5) [Demo.snap_message 2] Demo.initial =
    (tt, Demo.initial, [EvPoolGet 2; EvMemberSend (Demo.snap_message 2)]).
Proof.
  assert (Hremote : msg_To (Demo.snap_message 2) <> local_ID (eng Demo.initial))
    by discriminate.
  split; [reflexivity |]. split; [| split; [reflexivity |]].
  - destruct (send_routing Demo.follower (mkMessage MsgProp 0 2 (Demo.snapshot_at 0)) []
                Demo.initial) as (_ & _ & Hlocal & _).
    exact (Hlocal eq_refl).
  - split; [| split; [reflexivity |]].
    + destruct (send_routing Demo.follower (Demo.snap_message 2) [] Demo.initial)
        as (_ & _ & _ & Hunknown & _).
      exact (Hunknown Hremote eq_refl).
    + destruct (send_routing (Demo.leading true 5 5 5) (Demo.snap_message 2) []
                  Demo.initial) as (_ & _ & _ & _ & _ & Hsent).
      exact (proj1 (Hsent Hremote eq_refl eq_refl)).
Defined.

(** ** The Ready cycle *)

Section Do.

Context {W : Type} (C : Collaborators W).

Lemma do_run (rd : Ready) (s : state W) :
  let s1 := match rd_SoftState rd with Some _ => do_saving rd s | None => s end in
  let hs := rd_HardState rd in
  let es := rd_Entries rd in
  let saved := sto_SaveEntries (co_storage C) hs es (env s) in
  let s2 := mkState (eng s1) (snd saved) in
  let pre := soft_events rd ++
             (if leads_after rd (eng s) then [EvGo (TaskSend (rd_Messages rd))] else []) ++
             [EvStorageSaveEntries hs es] in
  do C rd s =
    match fst saved with
    | Some e => (Some e, s2, pre)
    | None =>
        match result (publishSnapshot C (rd_Snapshot rd)) s2 with
        | Some e =>
            (Some e, final (publishSnapshot C (rd_Snapshot rd)) s2,
             pre ++ events (publishSnapshot C (rd_Snapshot rd)) s2)
        | None =>
            let s3 := final (publishSnapshot C (rd_Snapshot rd)) s2 in
            (result (do_publish C rd (appliedIndex (eng s))) s3,
             final (do_publish C rd (appliedIndex (eng s))) s3,
             pre ++ events (publishSnapshot C (rd_Snapshot rd)) s2 ++
             events (do_publish C rd (appliedIndex (eng s))) s3)
        end
    end.
Proof.
  intros s1 hs es saved s2 pre.
  rewrite (run_eta (do C rd) s).
  unfold do, appliedIndex_Get, msgbus_BroadcastToAll, go, saveEntries, storage_SaveEntries.
  subst pre s2 saved s1. unfold do_saving. unfold soft_events, leads_after.
  destruct (rd_SoftState rd) as [soft |].
  - run_simpl.
    destruct (ss_Lead soft =? raft_None); run_simpl;
      destruct (StateType_eqb (ss_RaftState soft) StateLeader);
      cbn [leader set_leader]; run_simpl.
    all: fold hs es; destruct (sto_SaveEntries (co_storage C) hs es (env s)) as [[e |] w];
      cbn [fst snd]; run_simpl; [reflexivity |].
    all: rewrite result_bind, final_bind, events_bind;
      destruct (result (publishSnapshot C (rd_Snapshot rd)) _) as [e |];
      run_simpl; cbn [app]; rewrite ?app_nil_r; reflexivity.
  - run_simpl. destruct (leader (eng s)); run_simpl.
    all: fold hs es; destruct (sto_SaveEntries (co_storage C) hs es (env s)) as [[e |] w];
      cbn [fst snd]; run_simpl; [destruct s; reflexivity |].
    all: rewrite result_bind, final_bind, events_bind;
      destruct (result (publishSnapshot C (rd_Snapshot rd)) _) as [e |];
      run_simpl; cbn [app]; rewrite ?app_nil_r; reflexivity.
Qed.

End Do.

Section DoTheorems.

Context {W : Type} (C : Collaborators W).

(** The loop of [publishAppliedIndices] only broadcasts nil. *)
Lemma publishAppliedIndices_loop_obeys {F : Type} (P : event -> Prop) (f : engine -> F)
  (curr : uint64) :
  (forall i, P (EvBroadcast i BusNil)) ->
  forall (n : nat) (i : uint64) (s : state W),
    Z.to_nat (wrap64 (curr + 1) - i) = n ->
    Forall P (events (publishAppliedIndices_loop curr i) s) /\
    final (publishAppliedIndices_loop curr i) s = s.
Proof.
  intros HP. induction n as [n IH] using lt_wf_ind. intros i s Hn.
  unfold events, final. rewrite publishAppliedIndices_loop_equation_1.
  destruct (Z_lt_dec i (wrap64 (curr + 1))) as [Hlt | Hge].
  - simpl publishAppliedIndices_loop_unfold_clause_1.
    unfold msgbus_Broadcast. rewrite bind_emit_run. cbn [fst snd].
    assert (Hi : 0 <= i -> wrap64 (i + 1) = i + 1).
    { intros Hi. unfold wrap64, uint64_modulus in *.
      pose proof (Z.mod_pos_bound (curr + 1) (2 ^ 64) ltac:(lia)).
      apply Z.mod_small. lia. }
    destruct (IH (Z.to_nat (wrap64 (curr + 1) - wrap64 (i + 1)))
                 ltac:(destruct (Z_lt_dec i 0) as [Hneg | Hpos];
                       [ unfold wrap64, uint64_modulus in *;
                         pose proof (Z.mod_pos_bound (i + 1) (2 ^ 64) ltac:(lia));
                         pose proof (Z.mod_pos_bound (curr + 1) (2 ^ 64) ltac:(lia)); lia
                       | rewrite Hi by lia; lia ])
                 (wrap64 (i + 1)) s eq_refl) as [Hev Hst].
    split; [constructor; [apply HP | exact Hev] | exact Hst].
  - split; [constructor | reflexivity].
Qed.

Lemma publishAppliedIndices_obeys {F : Type} (P : event -> Prop) (f : engine -> F)
  (prev curr : uint64) :
  (forall i, P (EvBroadcast i BusNil)) ->
  obeys P f (publishAppliedIndices (W := W) prev curr).
Proof.
  intros HP s. unfold publishAppliedIndices.
  destruct (@publishAppliedIndices_loop_obeys F P f curr HP _ (wrap64 (prev + 1)) s eq_refl)
    as [Hev Hst].
  split; [exact Hev | rewrite Hst; reflexivity].
Qed.

Lemma publishReadState_obeys {F : Type} (P : event -> Prop) (f : engine -> F)
  (rss : list ReadState) :
  (forall id i, P (EvBroadcast id (BusIndex i))) ->
  obeys P f (publishReadState (W := W) rss).
Proof.
  intros HP. unfold publishReadState. apply obeys_for_range. intros rs _.
  unfold msgbus_Broadcast. apply obeys_emit. apply HP.
Qed.

Lemma proposeConfChange_obeys {F : Type} (P : event -> Prop) (f : engine -> F)
  (m : Member) (t : ConfChangeType) :
  P EvIdgenNext -> (forall cc, P (EvNodeProposeConfChange cc)) ->
  obeys P f (proposeConfChange C m t).
Proof.
  intros Hgen Hprop. unfold proposeConfChange, idgen_Next, node_ProposeConfChange.
  obeys_tac; auto.
Qed.

Lemma promotions_obeys {F : Type} (P : event -> Prop) (f : engine -> F) :
  P EvNodeStatus -> P EvPoolMembers -> P EvIdgenNext ->
  (forall cc, P (EvNodeProposeConfChange cc)) ->
  obeys P f (promotions C).
Proof.
  intros Hst Hmem Hgen Hprop. unfold promotions, node_Status, pool_Members.
  apply obeys_bind; [apply obeys_call; exact Hst | intros rs].
  destruct (st_Progress rs) as [progress |]; [| apply obeys_ret].
  apply obeys_bind; [apply obeys_call; exact Hmem | intros membs].
  destruct (_ <? _); [apply obeys_ret |].
  apply obeys_for_range. intros m _.
  apply obeys_bind; [apply proposeConfChange_obeys; assumption | intros; apply obeys_ret].
Qed.

Lemma maybeCreateSnapshot_obeys {F : Type} (P : event -> Prop) (f : engine -> F) :
  (forall b e, f (set_snapshoting b e) = f e) ->
  (forall b, P (EvStoreBool Snapshoting b)) ->
  P EvFsmSnapshot ->
  (forall i cs, P (EvStorageCreateSnapshot i cs)) ->
  P EvPoolSnapshot ->
  (forall a b ss snap, P (EvGo (TaskSnapshot a b ss snap))) ->
  obeys P f (maybeCreateSnapshot C).
Proof.
  intros Hf Hflag Hfsm Hcreate Hpool Hgo.
  unfold maybeCreateSnapshot, appliedIndex_Get, snapIndex_Get, snapshoting_True.
  apply obeys_bind; [apply obeys_gets | intros applied].
  apply obeys_bind; [apply obeys_gets | intros snap].
  destruct (_ <=? _); [apply obeys_ret |].
  apply obeys_bind; [apply obeys_gets | intros busy].
  destruct busy; [apply obeys_ret |].
  apply obeys_bind; [apply createSnapshot_obeys; assumption | intros; apply obeys_ret].
Qed.

Lemma send_obeys {F : Type} (P : event -> Prop) (f : engine -> F) (msgs : list Message) :
  (forall b e, f (set_snapshoting b e) = f e) ->
  (forall b, P (EvStoreBool Snapshoting b)) ->
  P EvFsmSnapshot ->
  (forall i cs, P (EvStorageCreateSnapshot i cs)) ->
  P EvPoolSnapshot ->
  (forall a b ss snap, P (EvGo (TaskSnapshot a b ss snap))) ->
  (forall id st, P (EvNodeReportSnapshot id st)) ->
  (forall m, P (EvNodeStep m)) ->
  (forall id, P (EvPoolGet id)) ->
  (forall m, P (EvMemberSend m)) ->
  obeys P f (send C msgs).
Proof.
  intros Hf Hflag Hfsm Hcreate Hpool Hgo Hreport Hstep Hget Hsend.
  unfold send. apply obeys_for_range. intros m _.
  unfold send_message, node_Step, pool_Get, member_Send.
  apply obeys_bind; [apply obeys_gets | intros local].
  destruct (_ =? _).
  - apply obeys_bind; [apply obeys_call; apply Hstep | intros; apply obeys_ret].
  - apply obeys_bind; [apply obeys_call; apply Hget | intros ok].
    destruct (negb ok); [apply obeys_ret |].
    apply obeys_bind; [apply forceSnapshot_obeys; assumption | intros dropped].
    destruct dropped; [apply obeys_ret |].
    apply obeys_bind; [apply obeys_call; apply Hsend | intros; apply obeys_ret].
Qed.

(** The events of a failing [publishSnapshot]. *)
Lemma publishSnapshot_obeys {F : Type} (P : event -> Prop) (f : engine -> F)
  (snap : Snapshot) :
  (forall v e, f (set_appliedIndex v e) = f e) ->
  (forall v e, f (set_snapIndex v e) = f e) ->
  (forall v e, f (set_confState v e) = f e) ->
  (forall x, P (EvStorageSaveSnapshot x)) ->
  (forall t i, P (EvSnapshotterRead t i)) ->
  (forall x, P (EvStorageApplySnapshot x)) ->
  (forall ms, P (EvPoolRestore ms)) ->
  (forall d, P (EvFsmRestore d)) ->
  (forall a v, P (EvStoreU64 a v)) ->
  obeys P f (publishSnapshot C snap).
Proof.
  intros Hf1 Hf2 Hf3 H1 H2 H3 H4 H5 H6.
  unfold publishSnapshot, publishSnapshotFile, appliedIndex_Get, storage_SaveSnapshot,
    snapshotter_Read, storage_ApplySnapshot, pool_Restore, fsm_Restore,
    snapIndex_Set, appliedIndex_Set.
  obeys_tac; auto.
Qed.

Lemma events_bind_ends {A B : Type} (m : M W A) (k : A -> M W B) (e : event) (s : state W) :
  (forall a s', exists pre, events (k a) s' = pre ++ [e]) ->
  exists pre, events (bind m k) s = pre ++ [e].
Proof.
  intros Hk. rewrite events_bind.
  destruct (Hk (result m s) (final m s)) as [pre Hpre].
  exists (events m s ++ pre). rewrite Hpre, app_assoc. reflexivity.
Qed.

Lemma do_publish_ends (rd : Ready) (prev : uint64) (s : state W) :
  result (do_publish C rd prev) s = None /\
  exists pre, events (do_publish C rd prev) s = pre ++ [EvNodeAdvance].
Proof.
  unfold do_publish. split.
  - rewrite !result_bind. reflexivity.
  - do 8 (apply events_bind_ends; intros).
    exists []. unfold node_Advance. run_simpl. reflexivity.
Qed.

(** X6.  [do] by where it ends.  When the entries cannot be saved it returns
    that error at once; when the snapshot of the Ready cannot be published
    it returns that error, with the engine's fields as they were when the
    entries were saved.  In both cases no committed entry has been
    applied, nothing has been broadcast under an id, the two indices and
    [conf_state] are as they were and the protocol core is not told to
    advance.  What has happened on the bus by then is the
    [BroadcastToAll] of [ErrNoLeader], made before the entries are saved
    whenever the soft state of the Ready names no leader.  When both steps
    succeed, on a Ready whose read states carry a request context of eight
    bytes or more, [do] returns nil and [Advance] is the last thing it
    does. *)
Theorem do_advances_on_success (rd : Ready) (s : state W) :
  let s1 := match rd_SoftState rd with Some _ => do_saving rd s | None => s end in
  let hs := rd_HardState rd in
  let es := rd_Entries rd in
  let saved := sto_SaveEntries (co_storage C) hs es (env s) in
  let s2 := mkState (eng s1) (snd saved) in
  let pre := soft_events rd ++
             (if leads_after rd (eng s) then [EvGo (TaskSend (rd_Messages rd))] else []) ++
             [EvStorageSaveEntries hs es] in
  let snap := publishSnapshot C (rd_Snapshot rd) in
  (forall e, fst saved = Some e -> do C rd s = (Some e, s2, pre)) /\
  (forall e, fst saved = None -> result snap s2 = Some e ->
     do C rd s = (Some e, final snap s2, pre ++ events snap s2) /\
     eng (final snap s2) = eng s2) /\
  (fst saved = None -> result snap s2 = None ->
   Forall (fun rs => 8 <= len (rs_RequestCtx rs)) (rd_ReadStates rd) ->
     result (do C rd) s = None /\
     exists mid, events (do C rd) s = pre ++ events snap s2 ++ mid ++ [EvNodeAdvance]) /\
  (forall e, result (do C rd) s = Some e ->
     (fst saved = Some e \/ fst saved = None /\ result snap s2 = Some e) /\
     ~ In EvNodeAdvance (events (do C rd) s) /\
     (forall data, ~ In (EvFsmApply data) (events (do C rd) s)) /\
     (forall id v, ~ In (EvBroadcast id v) (events (do C rd) s)) /\
     (forall v, In (EvBroadcastToAll v) (events (do C rd) s) ->
        v = BusErr ErrNoLeader /\
        exists soft, rd_SoftState rd = Some soft /\ ss_Lead soft = raft_None) /\
     indices (eng (final (do C rd) s)) = indices (eng s) /\
     confState (eng (final (do C rd) s)) = confState (eng s)) /\
  (forall soft, rd_SoftState rd = Some soft -> ss_Lead soft = raft_None ->
     exists post,
       events (do C rd) s = EvBroadcastToAll (BusErr ErrNoLeader) :: post).
Proof.
  pose proof (do_run C rd s) as Hrun. cbv zeta in Hrun. cbv zeta.
  set (s2 := mkState _ (snd (sto_SaveEntries (co_storage C) (rd_HardState rd)
                               (rd_Entries rd) (env s)))) in *.
  set (pre := soft_events rd ++ _) in *.
  set (quiet := fun e : event =>
         e <> EvNodeAdvance /\ (forall d, e <> EvFsmApply d) /\
         (forall id v, e <> EvBroadcast id v)).
  assert (Hpre : Forall quiet pre).
  { subst pre quiet. unfold soft_events.
    destruct (rd_SoftState rd) as [soft |];
      [destruct (ss_Lead soft =? raft_None) |];
      destruct (leads_after rd (eng s));
      repeat constructor; intros; discriminate. }
  assert (Hall : forall v, In (EvBroadcastToAll v) pre ->
            v = BusErr ErrNoLeader /\
            exists soft, rd_SoftState rd = Some soft /\ ss_Lead soft = raft_None).
  { subst pre. unfold soft_events. intros v Hin.
    destruct (rd_SoftState rd) as [soft |].
    - destruct (ss_Lead soft =? raft_None) eqn:Hlead.
      + apply Z.eqb_eq in Hlead.
        destruct (leads_after rd (eng s)); simpl in Hin;
          repeat (destruct Hin as [Hin | Hin]; try discriminate; try contradiction);
          injection Hin as <-; (split; [reflexivity | exists soft; split; auto]).
      + destruct (leads_after rd (eng s)); simpl in Hin;
          repeat (destruct Hin as [Hin | Hin]; try discriminate; try contradiction).
    - destruct (leads_after rd (eng s)); simpl in Hin;
        repeat (destruct Hin as [Hin | Hin]; try discriminate; try contradiction). }
  assert (Heng2 : indices (eng s2) = indices (eng s) /\ confState (eng s2) = confState (eng s)).
  { subst s2. destruct (rd_SoftState rd); split; reflexivity. }
  assert (Hsnapev : Forall (fun e => quiet e /\ forall v, e <> EvBroadcastToAll v)
                           (events (publishSnapshot C (rd_Snapshot rd)) s2)).
  { destruct (@publishSnapshot_obeys unit
                (fun e => quiet e /\ forall v, e <> EvBroadcastToAll v)
                (fun _ => tt) (rd_Snapshot rd)) with (s := s2) as [Hev _];
      try reflexivity; subst quiet; try (intros; repeat split; intros; discriminate).
    exact Hev. }
  split; [| split; [| split; [| split]]].
  - intros e He. rewrite Hrun, He. reflexivity.
  - intros e Hsaved Hsnap. rewrite Hrun, Hsaved, Hsnap. split; [reflexivity |].
    apply (@publishSnapshot_error_eng _ C (rd_Snapshot rd) s2).
    rewrite Hsnap. discriminate.
  - intros Hsaved Hsnap _. unfold result, events. rewrite Hrun, Hsaved, Hsnap.
    cbn [fst snd].
    destruct (do_publish_ends rd (appliedIndex (eng s))
                (final (publishSnapshot C (rd_Snapshot rd)) s2)) as [Hnone [evs Hevs]].
    split; [exact Hnone |]. exists evs. rewrite Hevs. reflexivity.
  - intros e Hres. unfold result in Hres. unfold events, final. rewrite Hrun in *.
    destruct (fst (sto_SaveEntries _ _ _ _)) as [e0 |].
    + cbn [fst snd] in *. rewrite Forall_forall in Hpre.
      split; [left; exact Hres |].
      split; [| split; [| split; [| split; [exact Hall | exact Heng2]]]].
      * intros Hin. apply (proj1 (Hpre _ Hin)). reflexivity.
      * intros d Hin. apply (proj1 (proj2 (Hpre _ Hin)) d). reflexivity.
      * intros id v Hin. apply (proj2 (proj2 (Hpre _ Hin)) id v). reflexivity.
    + destruct (result (publishSnapshot C (rd_Snapshot rd)) s2) as [e' |] eqn:Hsnap.
      * cbn [fst snd] in *.
        split; [right; split; [reflexivity | exact Hres] |].
        rewrite Forall_forall in Hpre, Hsnapev.
        split; [| split; [| split; [| split]]].
        -- intros Hin. apply in_app_or in Hin. destruct Hin as [Hin | Hin].
           ++ apply (proj1 (Hpre _ Hin)). reflexivity.
           ++ apply (proj1 (proj1 (Hsnapev _ Hin))). reflexivity.
        -- intros d Hin. apply in_app_or in Hin. destruct Hin as [Hin | Hin].
           ++ apply (proj1 (proj2 (Hpre _ Hin)) d). reflexivity.
           ++ apply (proj1 (proj2 (proj1 (Hsnapev _ Hin))) d). reflexivity.
        -- intros id v Hin. apply in_app_or in Hin. destruct Hin as [Hin | Hin].
           ++ apply (proj2 (proj2 (Hpre _ Hin)) id v). reflexivity.
           ++ apply (proj2 (proj2 (proj1 (Hsnapev _ Hin))) id v). reflexivity.
        -- intros v Hin. apply in_app_or in Hin. destruct Hin as [Hin | Hin].
           ++ exact (Hall v Hin).
           ++ exfalso. apply (proj2 (Hsnapev _ Hin) v). reflexivity.
        -- destruct (@publishSnapshot_error_eng _ C (rd_Snapshot rd) s2) as [Heng _];
             [rewrite Hsnap; discriminate |].
           rewrite Heng. exact Heng2.
      * cbn [fst] in Hres.
        destruct (do_publish_ends rd (appliedIndex (eng s))
                    (final (publishSnapshot C (rd_Snapshot rd)) s2)) as [Hnone _].
        rewrite Hnone in Hres. discriminate.
  - intros soft Hsoft Hlead.
    assert (Hhead : exists rest, pre = EvBroadcastToAll (BusErr ErrNoLeader) :: rest).
    { subst pre. unfold soft_events. rewrite Hsoft.
      apply Z.eqb_eq in Hlead. rewrite Hlead. eexists. reflexivity. }
    destruct Hhead as [rest Hhead]. unfold events. rewrite Hrun, Hhead.
    destruct (fst (sto_SaveEntries _ _ _ _)); [eexists; reflexivity |].
    destruct (result (publishSnapshot C (rd_Snapshot rd)) s2);
      eexists; reflexivity.
Qed.

End DoTheorems.

Lemma do_advances_on_success_witness :
  do Demo.follower
     (mkReady (Some (mkSoftState raft_None StateFollower)) (mkHardState 1 2 7) [] []
              (Demo.snapshot_at 5) [Demo.command_entry] [])
     (Demo.at_indices 12 0) =
    (Some (ErrSnapshotIndex 5 12), Demo.at_indices 12 0,
     [EvBroadcastToAll (BusErr ErrNoLeader); EvGo (TaskStateChange StateFollower);
      EvStorageSaveEntries (mkHardState 1 2 7) []]) /\
  result (do Demo.follower (Demo.ready_with [Demo.command_entry])) (Demo.at_indices 5 0) =
    None /\
  (exists mid,
     events (do Demo.follower (Demo.ready_with [Demo.command_entry]))
            (Demo.at_indices 5 0) =
       [EvStorageSaveEntries (mkHardState 1 2 7) []] ++ [] ++ mid ++ [EvNodeAdvance]).
Proof.
  destruct (do_advances_on_success Demo.follower
              (mkReady (Some (mkSoftState raft_None StateFollower)) (mkHardState 1 2 7)
                       [] [] (Demo.snapshot_at 5) [Demo.command_entry] [])
              (Demo.at_indices 12 0)) as (_ & Hfail & _).
  destruct (do_advances_on_success Demo.follower (Demo.ready_with [Demo.command_entry])
              (Demo.at_indices 5 0)) as (_ & _ & Hdone & _).
  split.
  - exact (proj1 (Hfail (ErrSnapshotIndex 5 12) eq_refl eq_refl)).
  - exact (Hdone eq_refl eq_refl (Forall_nil _)).
Defined.

Section DoOrder.

Context {W : Type} (C : Collaborators W).

Lemma publishCommitted_obeys {F : Type} (P : event -> Prop) (f : engine -> F)
  (ents : list Entry) :
  (forall v e, f (set_appliedIndex v e) = f e) ->
  (forall v e, f (set_confState v e) = f e) ->
  (forall d, P (EvFsmApply d)) ->
  (forall id v, P (EvBroadcast id v)) ->
  (forall m, P (EvPoolAdd m)) ->
  (forall m, P (EvPoolUpdate m)) ->
  (forall m, P (EvGo (TaskRemoveMember m))) ->
  (forall cc, P (EvNodeApplyConfChange cc)) ->
  (forall v, P (EvStoreU64 AppliedIndex v)) ->
  obeys P f (publishCommitted C ents).
Proof.
  intros Hf1 Hf2 H1 H2 H3 H4 H5 H6 H7.
  unfold publishCommitted. apply obeys_for_range. intros ent _.
  unfold publishCommitted_entry, publishReplicate, publishConfChange,
    publishConfChange_switch, appliedIndex_Set, fsm_Apply, pool_Add, pool_Update,
    node_ApplyConfChange, msgbus_Broadcast, go.
  obeys_tac; auto.
Qed.

(** The second half of a Ready cycle, piece by piece. *)
Lemma do_publish_shape (rd : Ready) (prev : uint64) (s : state W) :
  let s1 := final (publishCommitted C (rd_CommittedEntries rd)) s in
  let curr := appliedIndex (eng s1) in
  exists (s2 : state W) (mid sent : list event),
    eng s2 = eng s1 /\
    events (do_publish C rd prev) s =
      events (publishCommitted C (rd_CommittedEntries rd)) s ++
      events (publishReadState (rd_ReadStates rd)) s1 ++
      events (publishAppliedIndices prev curr) s2 ++
      mid ++ sent ++ [EvNodeAdvance] /\
    Forall (fun e => is_transmission e = false) mid /\
    (leader (eng s) = true -> sent = [EvWait (TaskSend (rd_Messages rd))]) /\
    appliedIndex (eng (final (do_publish C rd prev) s)) = curr /\
    leader (eng (final (do_publish C rd prev) s)) = leader (eng s).
Proof.
  intros s1 curr.
  pose (f := fun e : engine => (leader e, appliedIndex e)).
  set (s2 := final (publishReadState (rd_ReadStates rd)) s1).
  assert (H2 : eng s2 = eng s1).
  { destruct (@publishReadState_obeys W engine (fun _ => True) (fun e => e)
                (rd_ReadStates rd)) with (s := s1) as [_ H]; [intros; exact I | exact H]. }
  set (s3 := final (publishAppliedIndices prev curr) s2).
  assert (H3 : eng s3 = eng s2).
  { destruct (@publishAppliedIndices_obeys W engine (fun _ => True) (fun e => e)
                prev curr) with (s := s2) as [_ H]; [intros; exact I | exact H]. }
  set (s4 := final (promotions C) s3).
  destruct (@promotions_obeys W C engine (fun e => is_transmission e = false) (fun e => e))
    with (s := s3) as [Hev4 H4]; try (intros; reflexivity).
  fold s4 in H4.
  set (s5 := final (maybeCreateSnapshot C) s4).
  destruct (@maybeCreateSnapshot_obeys W C _ (fun e => is_transmission e = false) f)
    with (s := s4) as [Hev5 H5]; try (intros; reflexivity).
  fold s5 in H5.
  assert (Hlead1 : leader (eng s1) = leader (eng s)).
  { destruct (@publishCommitted_obeys bool (fun _ => True) leader (rd_CommittedEntries rd))
      with (s := s) as [_ H]; try (intros; reflexivity); try (intros; exact I).
    exact H. }
  assert (Hf5 : f (eng s5) = (leader (eng s), curr)).
  { rewrite H5, H4, H3, H2. unfold f, curr. rewrite Hlead1. reflexivity. }
  set (sending := if negb (leader (eng s5)) then send C (rd_Messages rd)
                  else emit (EvWait (TaskSend (rd_Messages rd)))).
  assert (Hsend : f (eng (final sending s5)) = f (eng s5)).
  { subst sending. destruct (negb (leader (eng s5))); [| reflexivity].
    destruct (@send_obeys W C _ (fun _ => True) f (rd_Messages rd))
      with (s := s5) as [_ H]; try (intros; reflexivity); try (intros; exact I).
    exact H. }
  exists s2, (events (promotions C) s3 ++ events (maybeCreateSnapshot C) s4),
         (events sending s5).
  split; [exact H2 |]. split; [| split; [| split; [| split]]].
  - unfold do_publish, appliedIndex_Get.
    rewrite events_bind. fold s1. rewrite events_bind. fold s2.
    rewrite events_gets_bind. rewrite H2. fold curr.
    rewrite events_bind. fold s3. rewrite events_bind. fold s4.
    rewrite events_bind. fold s5. rewrite events_gets_bind. fold sending.
    rewrite events_bind. unfold node_Advance. rewrite events_call_bind.
    rewrite events_ret. rewrite <- !app_assoc. reflexivity.
  - apply Forall_app. split; assumption.
  - intros Hleads. subst sending.
    assert (Hl5 : leader (eng s5) = true).
    { change (fst (f (eng s5)) = true). rewrite Hf5. exact Hleads. }
    rewrite Hl5. reflexivity.
  - unfold do_publish, appliedIndex_Get.
    rewrite final_bind. fold s1. rewrite final_bind. fold s2.
    rewrite final_gets_bind. rewrite H2. fold curr.
    rewrite final_bind. fold s3. rewrite final_bind. fold s4.
    rewrite final_bind. fold s5. rewrite final_gets_bind. fold sending.
    rewrite final_bind. unfold node_Advance. rewrite final_call_bind.
    rewrite final_ret. cbn [eng].
    change (snd (f (eng (final sending s5))) = curr). rewrite Hsend, Hf5. reflexivity.
  - unfold do_publish, appliedIndex_Get.
    rewrite final_bind. fold s1. rewrite final_bind. fold s2.
    rewrite final_gets_bind. rewrite H2. fold curr.
    rewrite final_bind. fold s3. rewrite final_bind. fold s4.
    rewrite final_bind. fold s5. rewrite final_gets_bind. fold sending.
    rewrite final_bind. unfold node_Advance. rewrite final_call_bind.
    rewrite final_ret. cbn [eng].
    change (fst (f (eng (final sending s5))) = leader (eng s)). rewrite Hsend, Hf5.
    reflexivity.
Qed.

End DoOrder.

Section DoCycle.

Context {W : Type} (C : Collaborators W).

Lemma publishAppliedIndices_run (prev curr : uint64) (s : state W) :
  0 <= prev < uint64_max ->
  0 <= curr < uint64_max ->
  publishAppliedIndices prev curr s =
    (tt, s, map (fun i => EvBroadcast i BusNil) (applied_range prev curr)).
Proof.
  intros Hprev Hcurr.
  assert (Hstart : wrap64 (prev + 1) = prev + 1).
  { unfold wrap64, uint64_max, uint64_modulus in *. apply Z.mod_small. lia. }
  unfold publishAppliedIndices. rewrite Hstart.
  destruct (Z_le_gt_dec (prev + 1) (curr + 1)) as [Hle | Hgt].
  - rewrite (publishAppliedIndices_loop_events (n := Z.to_nat (curr - prev)) Hcurr)
      by lia.
    reflexivity.
  - rewrite publishAppliedIndices_loop_equation_1.
    assert (Hbound : wrap64 (curr + 1) = curr + 1).
    { unfold wrap64, uint64_max, uint64_modulus in *. apply Z.mod_small. lia. }
    destruct (Z_lt_dec (prev + 1) (wrap64 (curr + 1))) as [Hlt | Hge]; [lia |].
    unfold applied_range. replace (Z.to_nat (curr - prev)) with 0%nat by lia.
    reflexivity.
Qed.

Lemma publishCommitted_last (es : list Entry) (ent : Entry) (s : state W) :
  appliedIndex (eng (final (publishCommitted C (es ++ [ent])) s)) = ent_Index ent.
Proof.
  unfold publishCommitted.
  replace (final (for_range (es ++ [ent]) (publishCommitted_entry C)) s)
    with (final (for_range es (publishCommitted_entry C) ;;
                 for_range [ent] (publishCommitted_entry C)) s)
    by (unfold final; rewrite for_range_app; reflexivity).
  rewrite final_bind. simpl for_range. rewrite final_bind.
  unfold final at 1, ret. simpl.
  destruct (publishCommitted_entry_store C ent
              (final (for_range es (publishCommitted_entry C)) s)) as [evs [_ Hidx]].
  exact Hidx.
Qed.

(** The state in which [do] saves the entries leads as [leads_after] says
    and has the indices of the state [do] started from. *)
Lemma do_saving_fields (rd : Ready) (s : state W) :
  let s1 := match rd_SoftState rd with Some _ => do_saving rd s | None => s end in
  leader (eng s1) = leads_after rd (eng s) /\ appliedIndex (eng s1) = appliedIndex (eng s).
Proof.
  unfold do_saving, leads_after. destruct (rd_SoftState rd); split; reflexivity.
Qed.

(** X7.  A follower transmits nothing before the entries of the Ready are
    saved.  A leader starts the goroutine that sends the messages before it
    saves the entries; the cycle itself then transmits nothing, and when it
    succeeds it waits for that goroutine as the last thing before
    [Advance]. *)
Theorem do_saves_before_sending (rd : Ready) (s : state W) :
  let hs := rd_HardState rd in
  let es := rd_Entries rd in
  let msgs := rd_Messages rd in
  (leads_after rd (eng s) = false ->
     exists pre post,
       events (do C rd) s = pre ++ EvStorageSaveEntries hs es :: post /\
       Forall (fun e => is_transmission e = false) pre) /\
  (leads_after rd (eng s) = true ->
     exists pre post,
       events (do C rd) s =
         pre ++ EvGo (TaskSend msgs) :: EvStorageSaveEntries hs es :: post /\
       Forall (fun e => is_transmission e = false) pre /\
       Forall (fun e => is_transmission e = false) post /\
       (result (do C rd) s = None ->
          exists mid, post = mid ++ [EvWait (TaskSend msgs); EvNodeAdvance])).
Proof.
  intros hs es msgs.
  pose proof (do_run C rd s) as Hrun. cbv zeta in Hrun. fold hs es msgs in Hrun.
  destruct (do_saving_fields rd s) as [Hlead1 _]. cbv zeta in Hlead1.
  set (s1 := match rd_SoftState rd with Some _ => do_saving rd s | None => s end) in *.
  set (s2 := mkState (eng s1) (snd (sto_SaveEntries (co_storage C) hs es (env s)))) in *.
  assert (Hsoft : Forall (fun e => is_transmission e = false) (soft_events rd)).
  { unfold soft_events. destruct (rd_SoftState rd) as [soft |];
      [destruct (ss_Lead soft =? raft_None) |]; repeat constructor. }
  split.
  - intros Hfollows. rewrite Hfollows in Hrun. cbn [app] in Hrun.
    exists (soft_events rd). unfold events. rewrite Hrun.
    destruct (fst (sto_SaveEntries _ _ _ _)).
    { exists []. split; [reflexivity | exact Hsoft]. }
    destruct (result (publishSnapshot C (rd_Snapshot rd)) s2); cbn [snd];
      eexists; (split; [rewrite <- app_assoc; reflexivity | exact Hsoft]).
  - intros Hleads. rewrite Hleads in Hrun. cbn [app] in Hrun.
    exists (soft_events rd).
    destruct (@publishSnapshot_obeys W C _ (fun e => is_transmission e = false) leader
                (rd_Snapshot rd)) with (s := s2) as [Hevsnap Hleadsnap];
      try (intros; reflexivity).
    unfold events, result. rewrite Hrun.
    destruct (fst (sto_SaveEntries _ _ _ _)).
    { exists []. split; [reflexivity |]. split; [exact Hsoft |].
      split; [constructor | discriminate]. }
    destruct (result (publishSnapshot C (rd_Snapshot rd)) s2); cbn [fst snd].
    { eexists. split; [rewrite <- app_assoc; reflexivity |].
      split; [exact Hsoft |]. split; [exact Hevsnap | discriminate]. }
    set (s3 := final (publishSnapshot C (rd_Snapshot rd)) s2) in *.
    destruct (do_publish_shape C rd (appliedIndex (eng s)) s3)
      as (s4 & mid & sent & Heng4 & Hev & Hmid & Hsent & _ & _).
    cbv zeta in Hev, Heng4.
    assert (Hl3 : leader (eng s3) = true).
    { rewrite Hleadsnap. unfold s2. cbn [eng]. rewrite Hlead1. exact Hleads. }
    specialize (Hsent Hl3). subst sent.
    destruct (@publishCommitted_obeys W C unit (fun e => is_transmission e = false)
                (fun _ => tt) (rd_CommittedEntries rd)) with (s := s3) as [Hevc _];
      try (intros; reflexivity).
    destruct (@publishReadState_obeys W unit (fun e => is_transmission e = false)
                (fun _ => tt) (rd_ReadStates rd))
      with (s := final (publishCommitted C (rd_CommittedEntries rd)) s3) as [Hevr _];
      try (intros; reflexivity).
    destruct (@publishAppliedIndices_obeys W unit (fun e => is_transmission e = false)
                (fun _ => tt) (appliedIndex (eng s))
                (appliedIndex (eng (final (publishCommitted C (rd_CommittedEntries rd)) s3))))
      with (s := s4) as [Heva _]; try (intros; reflexivity).
    eexists. split; [rewrite Hev, <- app_assoc; reflexivity |].
    split; [exact Hsoft |]. split.
    + repeat (apply Forall_app; split); try assumption; repeat constructor.
    + intros _. eexists. rewrite !app_assoc. rewrite <- app_assoc. reflexivity.
Qed.

Lemma do_success (rd : Ready) (s : state W) :
  let s1 := match rd_SoftState rd with Some _ => do_saving rd s | None => s end in
  let s2 := mkState (eng s1)
              (snd (sto_SaveEntries (co_storage C) (rd_HardState rd) (rd_Entries rd) (env s))) in
  let s3 := final (publishSnapshot C (rd_Snapshot rd)) s2 in
  result (do C rd) s = None ->
  final (do C rd) s = final (do_publish C rd (appliedIndex (eng s))) s3 /\
  exists pre,
    events (do C rd) s = pre ++ events (do_publish C rd (appliedIndex (eng s))) s3.
Proof.
  intros s1 s2 s3.
  pose proof (do_run C rd s) as Hrun. cbv zeta in Hrun. fold s1 s2 s3 in Hrun.
  unfold result at 1, final at 1, events at 1. rewrite Hrun.
  destruct (fst (sto_SaveEntries _ _ _ _)); [discriminate |].
  destruct (result (publishSnapshot C (rd_Snapshot rd)) s2); [discriminate |].
  cbn [fst snd]. intros _. split; [reflexivity |].
  eexists. rewrite app_assoc. reflexivity.
Qed.

(** X8.  A Ready cycle that succeeds wakes every waiter of an index it has
    applied: nil is broadcast under each index above the applied index
    read at the start of the cycle and up to the applied index at its end,
    and that last one is the index of the last committed entry of the
    Ready when it has one. *)
Theorem do_wakes_index_waiters (rd : Ready) (s : state W) :
  let prev := appliedIndex (eng s) in
  let curr := appliedIndex (eng (final (do C rd) s)) in
  result (do C rd) s = None ->
  0 <= prev < uint64_max ->
  0 <= curr < uint64_max ->
  (forall i, prev < i <= curr -> In (EvBroadcast i BusNil) (events (do C rd) s)) /\
  (forall es ent, rd_CommittedEntries rd = es ++ [ent] -> curr = ent_Index ent).
Proof.
  intros prev curr Hres Hprev Hcurr. subst curr.
  destruct (do_success rd s Hres) as [Hfinal [pre Hevents]].
  set (s3 := final (publishSnapshot C (rd_Snapshot rd)) _) in *.
  destruct (do_publish_shape C rd (appliedIndex (eng s)) s3)
    as (s4 & mid & sent & Heng4 & Hev & _ & _ & Happlied & _).
  cbv zeta in Hev, Happlied. fold prev in Hev.
  rewrite Hfinal, Happlied in *.
  set (curr := appliedIndex (eng (final (publishCommitted C (rd_CommittedEntries rd)) s3))) in *.
  split.
  - intros i Hi. rewrite Hevents. fold prev. rewrite Hev.
    apply in_or_app. right. apply in_or_app. right. apply in_or_app. right.
    apply in_or_app. left.
    unfold events. rewrite (publishAppliedIndices_run s4 Hprev Hcurr). cbn [snd].
    apply (in_map (fun j => EvBroadcast j BusNil)). apply applied_range_In. exact Hi.
  - intros es ent Hents. subst curr. rewrite Hents. apply publishCommitted_last.
Qed.

End DoCycle.

Lemma do_saves_before_sending_witness :
  leads_after (Demo.ready_with [Demo.command_entry]) (eng (Demo.at_indices 5 0)) = false /\
  (exists pre post,
     events (do Demo.follower (Demo.ready_with [Demo.command_entry]))
            (Demo.at_indices 5 0) =
       pre ++ EvStorageSaveEntries (mkHardState 1 2 7) [] :: post /\
     Forall (fun e => is_transmission e = false) pre).
Proof.
  destruct (do_saves_before_sending Demo.follower (Demo.ready_with [Demo.command_entry])
              (Demo.at_indices 5 0)) as (Hfollower & _).
  split; [reflexivity |].
  exact (Hfollower eq_refl).
Defined.

Lemma do_wakes_index_waiters_witness :
  result (do Demo.follower (Demo.ready_with [Demo.command_entry])) (Demo.at_indices 5 0) =
    None /\
  appliedIndex (eng (final (do Demo.follower (Demo.ready_with [Demo.command_entry]))
                           (Demo.at_indices 5 0))) = 6 /\
  In (EvBroadcast 6 BusNil)
     (events (do Demo.follower (Demo.ready_with [Demo.command_entry]))
             (Demo.at_indices 5 0)).
Proof.
  assert (Hprev : 0 <= 5 < uint64_max) by (unfold uint64_max, uint64_modulus; lia).
  assert (Hcurr : 0 <= 6 < uint64_max) by (unfold uint64_max, uint64_modulus; lia).
  split; [reflexivity |]. split; [reflexivity |].
  destruct (do_wakes_index_waiters Demo.follower (Demo.ready_with [Demo.command_entry])
              (Demo.at_indices 5 0) eq_refl Hprev Hcurr) as [Hwake _].
  apply (Hwake 6). split; [reflexivity | vm_compute; intros H; discriminate H].
Defined.

(** ** Shutdown and leadership transfer *)

Section Lifecycle2.

Context {W : Type} (C : Collaborators W).

Lemma Shutdown_run (s : state W) :
  started (eng s) = true ->
  let closed := rt_BusClose (co_runtime C) (snd (nd_Stop (co_node C) (env s))) in
  let down := pl_TearDown (co_pool C) (snd closed) in
  let e' := set_ctx_err (Some context_Canceled) (set_started false (eng s)) in
  Shutdown C s =
    match fst closed with
    | Some e =>
        (Some e, mkState e' (snd closed),
         [EvStoreBool Started false; EvNodeStop; EvBusClose])
    | None =>
        (fst down, mkState e' (snd down),
         [EvStoreBool Started false; EvNodeStop; EvBusClose; EvPoolTearDown])
    end.
Proof.
  intros Hstarted closed down e'. subst closed down e'.
  rewrite (run_eta (Shutdown C) s).
  unfold Shutdown, started_False, started_UnSet, node_Stop, msgbus_Close, pool_TearDown.
  run_simpl. rewrite Hstarted. cbn [negb]. run_simpl.
  destruct (rt_BusClose (co_runtime C) (snd (nd_Stop (co_node C) (env s))))
    as [[e |] w2]; cbn [fst snd]; run_simpl; reflexivity.
Qed.

(** X9.  [Shutdown] clears the started flag before it tears anything down, so
    whatever the teardown returns the engine is stopped afterwards and a
    second [Shutdown] returns [ErrStopped] and does nothing.  The teardown
    stops the protocol core, closes the bus and then tears the pool down;
    an error of the bus is returned at once and leaves the pool as it
    is. *)
Theorem Shutdown_once (s : state W) :
  started (eng s) = true ->
  let s' := final (Shutdown C) s in
  let closed := rt_BusClose (co_runtime C) (snd (nd_Stop (co_node C) (env s))) in
  started (eng s') = false /\
  Shutdown C s' = (Some ErrStopped, s', []) /\
  (forall e, fst closed = Some e ->
     result (Shutdown C) s = Some e /\
     events (Shutdown C) s = [EvStoreBool Started false; EvNodeStop; EvBusClose]) /\
  (fst closed = None ->
     result (Shutdown C) s = fst (pl_TearDown (co_pool C) (snd closed)) /\
     events (Shutdown C) s =
       [EvStoreBool Started false; EvNodeStop; EvBusClose; EvPoolTearDown]).
Proof.
  intros Hstarted s' closed.
  assert (Hstop : forall s0 : state W, started (eng s0) = false ->
                    Shutdown C s0 = (Some ErrStopped, s0, [])).
  { intros s0 H0. unfold Shutdown, started_False. rewrite bind_gets_run, H0. reflexivity. }
  pose proof (Shutdown_run s Hstarted) as Hrun. cbv zeta in Hrun. fold closed in Hrun.
  assert (Hs' : started (eng s') = false).
  { subst s'. unfold final. rewrite Hrun. destruct (fst closed); reflexivity. }
  split; [exact Hs' |]. split; [apply Hstop; exact Hs' |].
  unfold result, events. rewrite Hrun. split.
  - intros e He. rewrite He. split; reflexivity.
  - intros Hnone. rewrite Hnone. split; reflexivity.
Qed.

Lemma TransferLeadership_loop_success (rounds : nat) (transferee : uint64) :
  forall s : state W,
    result (TransferLeadership_loop C rounds transferee) s = Returned None ->
    transferee <> raft_None /\
    exists w, st_Lead (fst (nd_Status (co_node C) w)) = transferee.
Proof.
  induction rounds as [| rounds IH]; intros s.
  - simpl. unfold result, ret. simpl. discriminate.
  - simpl TransferLeadership_loop. unfold node_Status. rewrite result_call_bind.
    destruct (negb (st_Lead (fst (nd_Status (co_node C) (env s))) =? raft_None) &&
              (st_Lead (fst (nd_Status (co_node C) (env s))) =? transferee)) eqn:Hdone.
    + intros _. apply andb_true_iff in Hdone. destruct Hdone as [Hnone Heq].
      apply negb_true_iff in Hnone. apply Z.eqb_neq in Hnone. apply Z.eqb_eq in Heq.
      split; [congruence | eauto].
    + rewrite result_select_bind.
      destruct (fst (rt_SelectTransfer (co_runtime C) _)); run_simpl;
        try discriminate.
      apply IH.
Qed.

(** X10.  [TransferLeadership] returns nil only once the protocol core has
    reported the transferee as leader, and never for the transferee
    [raft.None]: the loop leaves on [leader != None && leader ==
    transferee] only. *)
Theorem TransferLeadership_success (rounds : nat) (transferee : uint64) (s : state W) :
  result (TransferLeadership C rounds transferee) s = Returned None ->
  started (eng s) = true /\
  transferee <> raft_None /\
  exists w, st_Lead (fst (nd_Status (co_node C) w)) = transferee.
Proof.
  unfold TransferLeadership, started_False. rewrite result_gets_bind.
  destruct (started (eng s)); cbn [negb]; [| run_simpl; discriminate].
  unfold node_Status, node_TransferLeadership.
  rewrite !result_call_bind. intros Hres.
  split; [reflexivity |]. eapply TransferLeadership_loop_success. exact Hres.
Qed.

End Lifecycle2.

Lemma Shutdown_once_witness :
  started (eng Demo.initial) = true /\
  started (eng (final (Shutdown Demo.follower) Demo.initial)) = false /\
  Shutdown Demo.follower (final (Shutdown Demo.follower) Demo.initial) =
    (Some ErrStopped, final (Shutdown Demo.follower) Demo.initial, []).
Proof.
  destruct (Shutdown_once Demo.follower Demo.initial eq_refl) as (Hoff & Hagain & _).
  split; [reflexivity |]. split; [exact Hoff | exact Hagain].
Defined.

Lemma TransferLeadership_success_witness :
  result (TransferLeadership Demo.follower 3 2) Demo.initial = Returned None /\
  started (eng Demo.initial) = true /\
  2 <> raft_None.
Proof.
  destruct (TransferLeadership_success Demo.follower 3 2 Demo.initial eq_refl)
    as (Hon & Hsome & _).
  split; [reflexivity |]. split; [exact Hon | exact Hsome].
Defined.

(** ** Proposals *)

Section Proposals.

Context {W : Type} (C : Collaborators W).

Lemma wait_run (id : uint64) (s : state W) :
  wait C id s =
    (wait_result (fst (rt_SelectWait (co_runtime C) id (env s))),
     mkState (eng s) (snd (rt_SelectWait (co_runtime C) id (env s))),
     [EvSubscribeOnce id; EvUnsubscribe id]).
Proof.
  rewrite (run_eta (wait C id) s).
  unfold wait, msgbus_SubscribeOnce, msgbus_Unsubscribe. run_simpl.
  destruct (fst (rt_SelectWait (co_runtime C) id (env s))); reflexivity.
Qed.

(** X11.  A proposal and its publication meet on one id.  [ProposeReplicate]
    takes an id from the generator, proposes the encoding of the record
    that carries it, and waits on that id, returning what the subscription
    is handed.  When the committed entry that carries this encoding is
    published, the data is applied and the result of [Apply] is broadcast
    under the same id. *)
Theorem ProposeReplicate_publish_agree (data buf : bytes) (term index : uint64)
  (s s' : state W) :
  let cid := fst (rt_IdgenNext (co_runtime C) (env s)) in
  let w1 := snd (rt_IdgenNext (co_runtime C) (env s)) in
  let w2 := snd (nd_Propose (co_node C) buf w1) in
  started (eng s) = true ->
  Replicate_Marshal (co_codec C) (mkReplicate cid data) = (buf, None) ->
  Replicate_Unmarshal (co_codec C) buf Replicate_zero = (mkReplicate cid data, None) ->
  (forall e, fst (nd_Propose (co_node C) buf w1) = Some e ->
     ProposeReplicate C data s =
       (Some e, mkState (eng s) w2, [EvIdgenNext; EvNodePropose buf])) /\
  (fst (nd_Propose (co_node C) buf w1) = None ->
     ProposeReplicate C data s =
       (wait_result (fst (rt_SelectWait (co_runtime C) cid w2)),
        mkState (eng s) (snd (rt_SelectWait (co_runtime C) cid w2)),
        [EvIdgenNext; EvNodePropose buf; EvSubscribeOnce cid; EvUnsubscribe cid])) /\
  publishReplicate C (mkEntry term index EntryNormal buf) s' =
    (tt, mkState (eng s') (snd (sm_Apply (co_fsm C) data (env s'))),
     [EvFsmApply data;
      EvBroadcast cid (busval_of_error (fst (sm_Apply (co_fsm C) data (env s'))))]).
Proof.
  intros cid w1 w2 Hstarted Hmarshal Hunmarshal.
  assert (Hrun : ProposeReplicate C data s =
    match fst (nd_Propose (co_node C) buf w1) with
    | Some e => (Some e, mkState (eng s) w2, [EvIdgenNext; EvNodePropose buf])
    | None =>
        (wait_result (fst (rt_SelectWait (co_runtime C) cid w2)),
         mkState (eng s) (snd (rt_SelectWait (co_runtime C) cid w2)),
         [EvIdgenNext; EvNodePropose buf; EvSubscribeOnce cid; EvUnsubscribe cid])
    end).
  { rewrite (run_eta (ProposeReplicate C data) s).
    unfold ProposeReplicate, started_False, idgen_Next, node_Propose.
    run_simpl. rewrite Hstarted. cbn [negb]. run_simpl.
    fold cid w1. rewrite Hmarshal. run_simpl. fold w2.
    destruct (fst (nd_Propose (co_node C) buf w1)); run_simpl; [reflexivity |].
    cbn [rep_CID]. unfold result, final, events. rewrite wait_run. reflexivity. }
  split; [| split].
  - intros e He. rewrite Hrun, He. reflexivity.
  - intros Hnone. rewrite Hrun, Hnone. reflexivity.
  - rewrite (publishReplicate_decoded C (mkEntry term index EntryNormal buf)
               (r := mkReplicate cid data) s' Hunmarshal).
    reflexivity.
Qed.


(** X13.  Committed entries that carry nothing for this engine are only counted:
    for a batch of [EntryNormal] entries without data and of
    [EntryConfChangeV2] entries, [publishCommitted] stores each index in the
    applied index and does nothing else.  No such entry reaches the state
    machine, the pool, the protocol core or the bus. *)
Theorem publishCommitted_counts_only (ents : list Entry) (s : state W) :
  Forall (fun ent => is_counted_only ent = true) ents ->
  publishCommitted C ents s =
    (tt,
     mkState (fold_left (fun e ent => set_appliedIndex (ent_Index ent) e) ents (eng s))
             (env s),
     map (fun ent => EvStoreU64 AppliedIndex (ent_Index ent)) ents).
Proof.
  intros Hall. revert s. induction Hall as [| ent rest Hent _ IH]; intros s.
  - destruct s. reflexivity.
  - unfold publishCommitted in *. simpl for_range.
    assert (Hone : publishCommitted_entry C ent s =
      (tt, mkState (set_appliedIndex (ent_Index ent) (eng s)) (env s),
       [EvStoreU64 AppliedIndex (ent_Index ent)])).
    { unfold publishCommitted_entry, is_counted_only, appliedIndex_Set in *.
      destruct (ent_Type ent); try discriminate.
      - apply Z.eqb_eq in Hent. cbn [EntryType_eqb].
        replace (0 <? len (ent_Data ent)) with false by (symmetry; apply Z.ltb_ge; lia).
        cbn [andb]. rewrite (run_eta _ s). run_simpl. reflexivity.
      - cbn [EntryType_eqb andb]. rewrite (run_eta _ s). run_simpl. reflexivity. }
    unfold bind. rewrite Hone. rewrite IH. reflexivity.
Qed.

(** X14.  [CreateSnapshot] creates no snapshot.  On a started engine it returns
    what the store's [Snapshot] returns; when the two indices differ it
    first asks the event loop, which answers nil without calling
    [createSnapshot].  The state machine is not asked for a snapshot, the
    store is not asked to create one, and the engine's fields are not
    written. *)
Theorem CreateSnapshot_reads_only (s : state W) :
  started (eng s) = true ->
  CreateSnapshot C s =
    (fst (sto_Snapshot (co_storage C) (env s)),
     mkState (eng s) (snd (sto_Snapshot (co_storage C) (env s))),
     if appliedIndex (eng s) =? snapIndex (eng s)
     then [EvStorageSnapshot]
     else [EvSnapshotRequest; EvStorageSnapshot]) /\
  Forall (fun e => starts_snapshot e = false) (events (CreateSnapshot C) s).
Proof.
  intros Hstarted.
  assert (Hrun : CreateSnapshot C s =
    (fst (sto_Snapshot (co_storage C) (env s)),
     mkState (eng s) (snd (sto_Snapshot (co_storage C) (env s))),
     if appliedIndex (eng s) =? snapIndex (eng s)
     then [EvStorageSnapshot]
     else [EvSnapshotRequest; EvStorageSnapshot])).
  { rewrite (run_eta (CreateSnapshot C) s).
    unfold CreateSnapshot, started_False, appliedIndex_Get, snapIndex_Get, storage_Snapshot.
    run_simpl. rewrite Hstarted. cbn [negb]. run_simpl.
    destruct (appliedIndex (eng s) =? snapIndex (eng s)); run_simpl; reflexivity. }
  split; [exact Hrun |].
  unfold events. rewrite Hrun. cbn [snd].
  destruct (appliedIndex (eng s) =? snapIndex (eng s)); repeat constructor.
Qed.

End Proposals.

Lemma ProposeReplicate_publish_agree_witness :
  started (eng Demo.initial) = true /\
  Replicate_Marshal Demo.codec (mkReplicate 100 [x2a]) =
    ([x08; x64; x12; x01; x2a], None) /\
  Replicate_Unmarshal Demo.codec [x08; x64; x12; x01; x2a] Replicate_zero =
    (mkReplicate 100 [x2a], None) /\
  events (ProposeReplicate Demo.follower [x2a]) Demo.initial =
    [EvIdgenNext; EvNodePropose [x08; x64; x12; x01; x2a];
     EvSubscribeOnce 100; EvUnsubscribe 100] /\
  events (publishReplicate Demo.follower
            (mkEntry 1 6 EntryNormal [x08; x64; x12; x01; x2a])) Demo.initial =
    [EvFsmApply [x2a]; EvBroadcast 100 BusNil].
Proof.
  destruct (ProposeReplicate_publish_agree Demo.follower
              (data := [x2a]) (buf := [x08; x64; x12; x01; x2a])
              1 6 Demo.initial Demo.initial eq_refl eq_refl eq_refl)
    as (_ & Hwait & Hpublish).
  split; [reflexivity |]. split; [reflexivity |]. split; [reflexivity |].
  split.
  - unfold events. rewrite (Hwait eq_refl). reflexivity.
  - unfold events. rewrite Hpublish. reflexivity.
Defined.


Lemma publishCommitted_counts_only_witness :
  Forall (fun ent => is_counted_only ent = true)
         [mkEntry 1 6 EntryNormal []; mkEntry 1 7 EntryConfChangeV2 [x01]] /\
  publishCommitted Demo.follower
    [mkEntry 1 6 EntryNormal []; mkEntry 1 7 EntryConfChangeV2 [x01]]
    (Demo.at_indices 5 0) =
    (tt, Demo.at_indices 7 0, [EvStoreU64 AppliedIndex 6; EvStoreU64 AppliedIndex 7]).
Proof.
  assert (Hcounted : Forall (fun ent => is_counted_only ent = true)
                            [mkEntry 1 6 EntryNormal [];
                             mkEntry 1 7 EntryConfChangeV2 [x01]])
    by (repeat constructor).
  split; [exact Hcounted |].
  rewrite (publishCommitted_counts_only Demo.follower (Demo.at_indices 5 0) Hcounted).
  reflexivity.
Defined.

Lemma CreateSnapshot_reads_only_witness :
  started (eng (Demo.at_indices 12 0)) = true /\
  events (CreateSnapshot Demo.follower) (Demo.at_indices 12 0) =
    [EvSnapshotRequest; EvStorageSnapshot] /\
  eng (final (CreateSnapshot Demo.follower) (Demo.at_indices 12 0)) =
    eng (Demo.at_indices 12 0).
Proof.
  destruct (CreateSnapshot_reads_only Demo.follower (Demo.at_indices 12 0) eq_refl)
    as [Hrun _].
  split; [reflexivity |].
  unfold events, final. rewrite Hrun. split; reflexivity.
Defined.

(** ** A snapshot in progress *)

Section Maintains.

Context {W : Type} (I : engine -> Prop) (P : event -> Prop).

Lemma maintains_ret {A : Type} (a : A) : maintains I P (ret (W := W) a).
Proof. intros s Hs. split; [constructor | exact Hs]. Qed.

Lemma maintains_bind {A B : Type} (m : M W A) (k : A -> M W B) :
  maintains I P m -> (forall a, maintains I P (k a)) -> maintains I P (bind m k).
Proof.
  intros Hm Hk s Hs. rewrite final_bind, events_bind.
  destruct (Hm s Hs) as [Hm1 Hm2].
  destruct (Hk (result m s) (final m s) Hm2) as [Hk1 Hk2].
  split; [apply Forall_app; split; assumption | exact Hk2].
Qed.

Lemma maintains_for_range {A : Type} (body : A -> M W unit) (xs : list A) :
  (forall x, maintains I P (body x)) -> maintains I P (for_range xs body).
Proof.
  intros Hbody. induction xs as [| x xs IH]; simpl.
  - apply maintains_ret.
  - apply maintains_bind; [apply Hbody | intros _; exact IH].
Qed.

End Maintains.

Lemma maintains_of_obeys {W A F : Type} (P : event -> Prop) (f : engine -> F) (v : F)
  (m : M W A) :
  obeys P f m -> maintains (fun e => f e = v) P m.
Proof.
  intros Hm s Hs. destruct (Hm s) as [H1 H2]. split; [exact H1 | congruence].
Qed.

Section SnapshotInProgress.

Context {W : Type} (C : Collaborators W).

Local Abbreviation busy := (fun e : engine => snapshoting e = true).

Local Abbreviation calm := (fun e : event => starts_snapshot e = false).

Lemma createSnapshot_busy (s : state W) :
  snapshoting (eng s) = true ->
  events (createSnapshot C) s = [] /\ final (createSnapshot C) s = s.
Proof.
  intros Hbusy. unfold createSnapshot, appliedIndex_Get, snapIndex_Get, snapshoting_True.
  run_simpl. destruct (appliedIndex (eng s) =? snapIndex (eng s)); run_simpl.
  - split; reflexivity.
  - rewrite Hbusy. split; reflexivity.
Qed.

Lemma createSnapshot_maintains : maintains busy calm (createSnapshot C).
Proof.
  intros s Hbusy. destruct (createSnapshot_busy s Hbusy) as [-> ->].
  split; [constructor | exact Hbusy].
Qed.

Lemma maybeCreateSnapshot_maintains : maintains busy calm (maybeCreateSnapshot C).
Proof.
  intros s Hbusy.
  unfold maybeCreateSnapshot, appliedIndex_Get, snapIndex_Get, snapshoting_True.
  run_simpl. destruct (_ <=? _); run_simpl; [split; [constructor | exact Hbusy] |].
  rewrite Hbusy. run_simpl. split; [constructor | exact Hbusy].
Qed.

Lemma forceSnapshot_maintains (msg : Message) : maintains busy calm (forceSnapshot C msg).
Proof.
  unfold forceSnapshot.
  destruct (negb (MessageType_eqb (msg_Type msg) MsgSnap)); [apply maintains_ret |].
  destruct (forceSnapshot_sets _ _ _); [apply maintains_ret |].
  apply maintains_bind; [apply createSnapshot_maintains | intros _].
  apply maintains_bind; [| intros; apply maintains_ret].
  apply maintains_of_obeys with (f := snapshoting).
  unfold ReportSnapshot, started_False, node_ReportSnapshot. obeys_tac; reflexivity.
Qed.

Lemma send_maintains (msgs : list Message) : maintains busy calm (send C msgs).
Proof.
  unfold send. apply maintains_for_range. intros m.
  unfold send_message, node_Step, pool_Get, member_Send.
  apply maintains_bind;
    [apply maintains_of_obeys with (f := snapshoting); apply obeys_gets | intros local].
  destruct (_ =? _).
  - apply maintains_of_obeys with (f := snapshoting). obeys_tac; reflexivity.
  - apply maintains_bind;
      [apply maintains_of_obeys with (f := snapshoting); apply obeys_call; reflexivity
      | intros ok].
    destruct (negb ok); [apply maintains_ret |].
    apply maintains_bind; [apply forceSnapshot_maintains | intros dropped].
    destruct dropped; [apply maintains_ret |].
    apply maintains_of_obeys with (f := snapshoting). obeys_tac; reflexivity.
Qed.

Lemma do_publish_maintains (rd : Ready) (prev : uint64) :
  maintains busy calm (do_publish C rd prev).
Proof.
  unfold do_publish, appliedIndex_Get.
  apply maintains_bind; [| intros _].
  { apply maintains_of_obeys with (f := snapshoting).
    apply publishCommitted_obeys; intros; reflexivity. }
  apply maintains_bind; [| intros _].
  { apply maintains_of_obeys with (f := snapshoting).
    apply publishReadState_obeys; intros; reflexivity. }
  apply maintains_bind;
    [apply maintains_of_obeys with (f := snapshoting); apply obeys_gets | intros applied].
  apply maintains_bind; [| intros _].
  { apply maintains_of_obeys with (f := snapshoting).
    apply publishAppliedIndices_obeys; intros; reflexivity. }
  apply maintains_bind; [| intros _].
  { apply maintains_of_obeys with (f := snapshoting).
    apply promotions_obeys; intros; reflexivity. }
  apply maintains_bind; [apply maybeCreateSnapshot_maintains | intros _].
  apply maintains_bind;
    [apply maintains_of_obeys with (f := snapshoting); apply obeys_gets | intros leads].
  apply maintains_bind; [| intros _].
  { destruct (negb leads); [apply send_maintains |].
    apply maintains_of_obeys with (f := snapshoting). apply obeys_emit. reflexivity. }
  apply maintains_of_obeys with (f := snapshoting).
  unfold node_Advance. obeys_tac; reflexivity.
Qed.

(** X15.  While a snapshot is in progress no second one is started.  With the
    snapshotting flag set, a whole Ready cycle, the sending of a list of
    messages and a forced snapshot never call the state machine's
    [Snapshot], never ask the store to create a snapshot, never start the
    snapshot goroutine and never write the flag, which is still set when
    they return. *)
Theorem snapshot_in_progress_excludes (rd : Ready) (msgs : list Message) (msg : Message)
  (s : state W) :
  snapshoting (eng s) = true ->
  (Forall (fun e => starts_snapshot e = false) (events (do C rd) s) /\
   snapshoting (eng (final (do C rd) s)) = true) /\
  (Forall (fun e => starts_snapshot e = false) (events (send C msgs) s) /\
   snapshoting (eng (final (send C msgs) s)) = true) /\
  (Forall (fun e => starts_snapshot e = false) (events (forceSnapshot C msg) s) /\
   snapshoting (eng (final (forceSnapshot C msg) s)) = true) /\
  (Forall (fun e => starts_snapshot e = false) (events (maybeCreateSnapshot C) s) /\
   snapshoting (eng (final (maybeCreateSnapshot C) s)) = true).
Proof.
  intros Hbusy.
  split; [| split; [apply send_maintains; exact Hbusy |
            split; [apply forceSnapshot_maintains; exact Hbusy |
                    apply maybeCreateSnapshot_maintains; exact Hbusy]]].
  pose proof (do_run C rd s) as Hrun. cbv zeta in Hrun.
  set (s1 := match rd_SoftState rd with Some _ => do_saving rd s | None => s end) in *.
  set (s2 := mkState (eng s1) _) in *.
  set (pre := soft_events rd ++ _) in *.
  assert (Hpre : Forall (fun e => starts_snapshot e = false) pre).
  { subst pre. unfold soft_events.
    destruct (rd_SoftState rd) as [soft |];
      [destruct (ss_Lead soft =? raft_None) |];
      destruct (leads_after rd (eng s)); repeat constructor. }
  assert (Hbusy2 : snapshoting (eng s2) = true).
  { subst s2 s1. cbn [eng]. destruct (rd_SoftState rd); exact Hbusy. }
  destruct (@publishSnapshot_obeys W C _ (fun e => starts_snapshot e = false) snapshoting
              (rd_Snapshot rd)) with (s := s2) as [Hevsnap Hsnap];
    try (intros; reflexivity).
  unfold events, final. rewrite Hrun.
  destruct (fst (sto_SaveEntries _ _ _ _)); cbn [fst snd].
  { split; [exact Hpre | exact Hbusy2]. }
  destruct (result (publishSnapshot C (rd_Snapshot rd)) s2); cbn [fst snd].
  { split; [apply Forall_app; split; assumption | congruence]. }
  destruct (@do_publish_maintains rd (appliedIndex (eng s))
              (final (publishSnapshot C (rd_Snapshot rd)) s2)) as [Hev Hfin];
    [congruence |].
  split; [| exact Hfin].
  apply Forall_app. split; [exact Hpre |]. apply Forall_app. split; assumption.
Qed.

End SnapshotInProgress.

Lemma snapshot_in_progress_excludes_witness :
  snapshoting (eng (mkState (set_snapshoting true (eng (Demo.at_indices 25 0))) 100)) =
    true /\
  Forall (fun e => starts_snapshot e = false)
         (events (do Demo.follower (Demo.ready_with [Demo.command_entry]))
                 (mkState (set_snapshoting true (eng (Demo.at_indices 25 0))) 100)) /\
  Forall (fun e => starts_snapshot e = false)
         (events (forceSnapshot Demo.follower (Demo.snap_message 2))
                 (mkState (set_snapshoting true (eng (Demo.at_indices 25 0))) 100)).
Proof.
  destruct (snapshot_in_progress_excludes Demo.follower
              (Demo.ready_with [Demo.command_entry]) [] (Demo.snap_message 2)
              (mkState (set_snapshoting true (eng (Demo.at_indices 25 0))) 100) eq_refl)
    as ((Hdo & _) & _ & (Hforce & _) & _).
  split; [reflexivity |]. split; [exact Hdo | exact Hforce].
Defined.

(** * The store on disk (package raftwal) *)

Section DiskStorageProperties.

Import raftwal.

Local Open Scope wal_scope.

Context {W : Type} (F : Files W).

(** Unfolds the monad of the store and the calls on the two files. *)
Ltac unfold_store :=
  unfold ending_of, store_after, trace, with_lock, Lock, Unlock, AssertTrue, slice_from,
    firstIndex, lastIndex, sync, Uint,
    w_wal_firstIndex, w_wal_LastIndex, w_wal_allEntries, w_wal_Term, w_wal_AddEntries,
    w_wal_seekEntry, w_wal_deleteBefore, w_wal_truncateEntriesUntil, w_wal_reset,
    w_wal_current_Sync, w_meta_Uint, w_meta_HardState, w_meta_StoreHardState,
    w_meta_snapshot, w_meta_StoreSnapshot, w_meta_Sync,
    bind, ret, call.

(** [firstIndex] returns, and does not touch the mutex. *)
Lemma firstIndex_run (s : store W) :
  let si := meta_Uint (fs_meta F) SnapshotIndex (files s) in
  firstIndex F s =
    if 0 <? fst si
    then (Returns (wrap64 (fst si + 1)), mkStore (locked s) (snd si),
          [EvMetaUint SnapshotIndex])
    else (Returns (fst (wal_firstIndex (fs_wal F) (snd si))),
          mkStore (locked s) (snd (wal_firstIndex (fs_wal F) (snd si))),
          [EvMetaUint SnapshotIndex; EvWalFirstIndex]).
Proof.
  unfold_store. destruct (meta_Uint (fs_meta F) SnapshotIndex (files s)) as [si w1].
  simpl. destruct (0 <? si); [reflexivity |].
  simpl. destruct (wal_firstIndex (fs_wal F) w1) as [first w2]. reflexivity.
Qed.

Lemma FirstIndex_held (s : store W) :
  locked s = true -> FirstIndex F s = (Blocks, s, []).
Proof. intros Hheld. unfold FirstIndex, with_lock, Lock. rewrite Hheld. reflexivity. Qed.

(** X16.  [ApplySnapshot] never returns.  It takes the mutex and, still holding
    it, calls [addEntries] with one entry; [addEntries] calls [FirstIndex],
    which waits for the same mutex.  What has happened by then is the
    truncation of the log up to the index of the snapshot: no entry is
    added and the snapshot is not stored. *)
Theorem DiskStorage_ApplySnapshot_blocks (snap : raftpb_Snapshot) (s : store W) :
  locked s = false ->
  let index := md_Index (snap_Metadata snap) in
  ApplySnapshot F snap s =
    (Blocks,
     mkStore true (snd (wal_truncateEntriesUntil (fs_wal F) index (files s))),
     [EvWalTruncateEntriesUntil index]).
Proof.
  intros Hfree index.
  unfold ApplySnapshot, TruncateEntriesUntil, addEntries, with_lock, Lock.
  rewrite Hfree. fold index.
  unfold bind at 1. unfold w_wal_truncateEntriesUntil, call. cbn [files locked].
  destruct (wal_truncateEntriesUntil (fs_wal F) index (files s)) as [u w1]. cbn [snd].
  unfold bind at 1. unfold bind at 1.
  rewrite FirstIndex_held by reflexivity. reflexivity.
Qed.

End DiskStorageProperties.

Lemma DiskStorage_ApplySnapshot_blocks_witness :
  raftwal.locked DemoWal.free = false /\
  raftwal.ApplySnapshot (DemoWal.files_at 0 1 0) (Demo.snapshot_at 5) DemoWal.free =
    (raftwal.Blocks, raftwal.mkStore true [], [raftwal.EvWalTruncateEntriesUntil 5]).
Proof.
  split; [reflexivity |].
  exact (DiskStorage_ApplySnapshot_blocks (DemoWal.files_at 0 1 0) (Demo.snapshot_at 5) DemoWal.free
                              eq_refl).
Defined.

Section DiskStorageProperties2.

Import raftwal.

Local Open Scope wal_scope.

Context {W : Type} (F : Files W).

Ltac unfold_store :=
  unfold ending_of, store_after, trace, with_lock, Lock, Unlock, AssertTrue, slice_from,
    firstIndex, lastIndex, sync, Uint,
    w_wal_firstIndex, w_wal_LastIndex, w_wal_allEntries, w_wal_Term, w_wal_AddEntries,
    w_wal_seekEntry, w_wal_deleteBefore, w_wal_truncateEntriesUntil, w_wal_reset,
    w_wal_current_Sync, w_meta_Uint, w_meta_HardState, w_meta_StoreHardState,
    w_meta_snapshot, w_meta_StoreSnapshot, w_meta_Sync,
    bind, ret, call.

(** The entries of a consecutive list that are at or above an index are
    what is left when the ones below are dropped from the front. *)
Lemma consecutive_skipn (entries : list Entry) :
  forall firste first : uint64,
    consecutive firste entries ->
    skipn (Z.to_nat (first - firste)) entries =
    filter (fun e => first <=? ent_Index e) entries.
Proof.
  induction entries as [| e rest IH]; intros firste first Hcons.
  - rewrite skipn_nil. reflexivity.
  - destruct Hcons as [He Hrest]. simpl filter. rewrite He.
    destruct (first <=? firste) eqn:Hcmp.
    + apply Z.leb_le in Hcmp.
      replace (Z.to_nat (first - firste)) with 0%nat by lia. simpl.
      f_equal. rewrite <- (IH (firste + 1) first Hrest).
      replace (Z.to_nat (first - (firste + 1))) with 0%nat by lia. reflexivity.
    + apply Z.leb_gt in Hcmp.
      replace (Z.to_nat (first - firste)) with (S (Z.to_nat (first - (firste + 1)))) by lia.
      simpl. apply IH. exact Hrest.
Qed.

Lemma FirstIndex_run (s : store W) :
  locked s = false ->
  FirstIndex F s =
    (Returns (match ending_of (firstIndex F) (mkStore true (files s)) with
              | Returns first => first
              | _ => 0
              end, None),
     mkStore false (files (store_after (firstIndex F) (mkStore true (files s)))),
     trace (firstIndex F) (mkStore true (files s))).
Proof.
  intros Hfree. unfold FirstIndex, with_lock, Lock. rewrite Hfree.
  unfold bind at 1. unfold ending_of, store_after, trace.
  rewrite firstIndex_run. cbv zeta. cbn [files locked].
  destruct (0 <? fst (meta_Uint (fs_meta F) SnapshotIndex (files s)));
    unfold ret, Unlock; cbn [fst snd locked files]; rewrite !app_nil_r; reflexivity.
Qed.

(** X17.  [addEntries] keeps what has been compacted out of the log.  For a
    list of entries with consecutive indices it hands the log exactly the
    entries at or above the first index of the store, in order; when all
    of them are below it, or the list is empty, the log is not written at
    all.  It returns the error of the log, wrapped, and it does not panic:
    the number of entries dropped from the front is within the list. *)
Theorem DiskStorage_addEntries_keeps_compacted (entries : list Entry) (firste : uint64) (s : store W) :
  locked s = false ->
  consecutive firste entries ->
  0 <= firste ->
  firste + len entries < uint64_modulus ->
  let s0 := mkStore true (files s) in
  let first := match ending_of (firstIndex F) s0 with Returns f => f | _ => 0 end in
  let w1 := files (store_after (firstIndex F) s0) in
  let kept := filter (fun e => first <=? ent_Index e) entries in
  0 <= first ->
  addEntries F entries s =
    match entries, kept with
    | [], _ => (Returns None, s, [])
    | _ :: _, [] => (Returns None, mkStore false w1, trace (firstIndex F) s0)
    | _ :: _, _ :: _ =>
        (Returns (match fst (wal_AddEntries (fs_wal F) kept w1) with
                  | Some e => Some (Wrapf e "while adding entries")
                  | None => None
                  end),
         mkStore false (snd (wal_AddEntries (fs_wal F) kept w1)),
         trace (firstIndex F) s0 ++ [EvWalAddEntries kept])
    end.
Proof.
  intros Hfree Hcons Hfirste Hbound s0 first w1 kept Hfirst.
  destruct entries as [| e0 rest]; [reflexivity |].
  unfold addEntries. unfold bind at 1. rewrite (FirstIndex_run s Hfree).
  fold s0. fold first. fold w1.
  assert (He0 : ent_Index e0 = firste) by (destruct Hcons; assumption).
  rewrite He0.
  assert (Hlen : 1 <= len (e0 :: rest)) by (unfold len; cbn [List.length]; lia).
  assert (Hlast : wrap64 (wrap64 (firste + len (e0 :: rest)) - 1) =
                  firste + len (e0 :: rest) - 1).
  { unfold wrap64, uint64_modulus in *.
    rewrite (Z.mod_small (firste + len (e0 :: rest))) by lia.
    apply Z.mod_small. lia. }
  rewrite Hlast.
  destruct (firste + len (e0 :: rest) - 1 <? first) eqn:Hall.
  - (* every entry is below the first index *)
    apply Z.ltb_lt in Hall.
    assert (Hkept : kept = []).
    { subst kept. rewrite <- (@consecutive_skipn _ firste first Hcons).
      apply skipn_all2. unfold len in *. lia. }
    rewrite Hkept. unfold ret. cbn [app]. rewrite app_nil_r. reflexivity.
  - apply Z.ltb_ge in Hall.
    assert (Hkept : kept = if firste <? first
                           then skipn (Z.to_nat (first - firste)) (e0 :: rest)
                           else e0 :: rest).
    { subst kept. rewrite <- (@consecutive_skipn _ firste first Hcons).
      destruct (firste <? first) eqn:Hlt; [reflexivity |].
      apply Z.ltb_ge in Hlt.
      replace (Z.to_nat (first - firste)) with 0%nat by lia. reflexivity. }
    assert (Hne : kept <> []).
    { rewrite Hkept. destruct (firste <? first) eqn:Hlt; [| discriminate].
      apply Z.ltb_lt in Hlt. intros Hnil.
      assert (Hl : (List.length (skipn (Z.to_nat (first - firste)) (e0 :: rest)) = 0)%nat)
        by (rewrite Hnil; reflexivity).
      rewrite length_skipn in Hl. unfold len in *. lia. }
    destruct kept as [| k0 krest] eqn:Hk; [congruence |].
    rewrite <- Hk in *. clear Hne.
    unfold bind at 1.
    destruct (firste <? first) eqn:Hlt.
    + apply Z.ltb_lt in Hlt.
      assert (Hdrop : wrap64 (first - firste) = first - firste).
      { unfold wrap64, uint64_modulus in *. apply Z.mod_small. unfold len in *. lia. }
      rewrite Hdrop. unfold slice_from.
      replace (first - firste <=? len (e0 :: rest)) with true
        by (symmetry; apply Z.leb_le; lia).
      rewrite <- Hkept. unfold bind, w_wal_AddEntries, call, ret. cbn [files locked].
      destruct (wal_AddEntries (fs_wal F) kept w1) as [[e |] w2]; cbn [fst snd];
        rewrite ?app_nil_r; reflexivity.
    + rewrite <- Hkept. unfold bind, w_wal_AddEntries, call, ret. cbn [files locked app].
      destruct (wal_AddEntries (fs_wal F) kept w1) as [[e |] w2]; cbn [fst snd];
        rewrite ?app_nil_r; reflexivity.
Qed.

End DiskStorageProperties2.

Lemma DiskStorage_addEntries_keeps_compacted_witness :
  consecutive 5 (map DemoWal.entry_at [5; 6; 7]) /\
  raftwal.ending_of (raftwal.firstIndex (DemoWal.files_at 5 1 0))
                    (raftwal.mkStore true []) = raftwal.Returns 6 /\
  raftwal.addEntries (DemoWal.files_at 5 1 0) (map DemoWal.entry_at [5; 6; 7])
                     DemoWal.free =
    (raftwal.Returns None,
     raftwal.mkStore false (map DemoWal.entry_at [6; 7]),
     [raftwal.EvMetaUint raftwal.SnapshotIndex;
      raftwal.EvWalAddEntries (map DemoWal.entry_at [6; 7])]).
Proof.
  assert (Hcons : consecutive 5 (map DemoWal.entry_at [5; 6; 7]))
    by (cbn; repeat split).
  assert (Hfirste : 0 <= 5) by lia.
  assert (Hlast : 5 + len (map DemoWal.entry_at [5; 6; 7]) < uint64_modulus)
    by (vm_compute; reflexivity).
  split; [exact Hcons |]. split; [reflexivity |].
  rewrite (@DiskStorage_addEntries_keeps_compacted _ (DemoWal.files_at 5 1 0)
             (map DemoWal.entry_at [5; 6; 7]) 5 DemoWal.free eq_refl Hcons Hfirste Hlast);
    [reflexivity | vm_compute; intros H; discriminate H].
Defined.

Section DiskStorageProperties3.

Import raftwal.

Local Open Scope wal_scope.

Context {W : Type} (F : Files W).

Ltac unfold_store :=
  unfold ending_of, store_after, trace, with_lock, Lock, Unlock, AssertTrue, slice_from,
    firstIndex, lastIndex, sync, Uint,
    w_wal_firstIndex, w_wal_LastIndex, w_wal_allEntries, w_wal_Term, w_wal_AddEntries,
    w_wal_seekEntry, w_wal_deleteBefore, w_wal_truncateEntriesUntil, w_wal_reset,
    w_wal_current_Sync, w_meta_Uint, w_meta_HardState, w_meta_StoreHardState,
    w_meta_snapshot, w_meta_StoreSnapshot, w_meta_Sync,
    bind, ret, call.

(** X18.  [Term] at the edge of the log.  Below the index of the snapshot the
    term is gone: the answer is [ErrCompacted] with term 0.  At the index
    of the snapshot it is the term of the snapshot, read from the meta
    file.  Only above it is the log asked, and its answer returned as it
    is.  In each case the mutex is free again on return. *)
Theorem DiskStorage_Term_contract (idx : uint64) (s : store W) :
  locked s = false ->
  let si := meta_Uint (fs_meta F) SnapshotIndex (files s) in
  (idx < fst si ->
     Term F idx s =
       (Returns (0, Some ErrCompacted), mkStore false (snd si),
        [EvMetaUint SnapshotIndex])) /\
  (idx = fst si ->
     Term F idx s =
       (Returns (fst (meta_Uint (fs_meta F) SnapshotTerm (snd si)), None),
        mkStore false (snd (meta_Uint (fs_meta F) SnapshotTerm (snd si))),
        [EvMetaUint SnapshotIndex; EvMetaUint SnapshotTerm])) /\
  (fst si < idx ->
     Term F idx s =
       (Returns (fst (wal_Term (fs_wal F) idx (snd si))),
        mkStore false (snd (wal_Term (fs_wal F) idx (snd si))),
        [EvMetaUint SnapshotIndex; EvWalTerm idx])).
Proof.
  intros Hfree si. subst si. unfold Term. unfold_store. rewrite Hfree. cbn [files locked].
  destruct (meta_Uint (fs_meta F) SnapshotIndex (files s)) as [si w1]. cbn [fst snd].
  split; [| split]; intros Hidx.
  - apply Z.ltb_lt in Hidx. rewrite Hidx. reflexivity.
  - subst idx. rewrite Z.ltb_irrefl, Z.eqb_refl. cbn [files locked].
    destruct (meta_Uint (fs_meta F) SnapshotTerm w1) as [t w2]. reflexivity.
  - replace (idx <? si) with false by (symmetry; apply Z.ltb_ge; lia).
    replace (idx =? si) with false by (symmetry; apply Z.eqb_neq; lia).
    cbn [files locked].
    destruct (wal_Term (fs_wal F) idx w1) as [[term err] w2]. reflexivity.
Qed.

(** X19.  [Entries] checks the range before it reads.  A range that starts
    below the first index of the log is [ErrCompacted]; one that ends
    beyond the index after the last is [ErrUnavailable]; in both cases no
    entry is read.  Otherwise the entries are those the log gives for the
    range and the size limit, with no error. *)
Theorem DiskStorage_Entries_contract (lo hi maxSize : uint64) (s : store W) :
  locked s = false ->
  let first := wal_firstIndex (fs_wal F) (files s) in
  let last := wal_LastIndex (fs_wal F) (snd first) in
  0 <= fst last < uint64_max ->
  (lo < fst first ->
     Entries F lo hi maxSize s =
       (Returns ([], Some ErrCompacted), mkStore false (snd first), [EvWalFirstIndex])) /\
  (fst first <= lo -> fst last + 1 < hi ->
     Entries F lo hi maxSize s =
       (Returns ([], Some ErrUnavailable), mkStore false (snd last),
        [EvWalFirstIndex; EvWalLastIndex])) /\
  (fst first <= lo -> hi <= fst last + 1 ->
     Entries F lo hi maxSize s =
       (Returns (fst (wal_allEntries (fs_wal F) lo hi maxSize (snd last)), None),
        mkStore false (snd (wal_allEntries (fs_wal F) lo hi maxSize (snd last))),
        [EvWalFirstIndex; EvWalLastIndex; EvWalAllEntries lo hi maxSize])).
Proof.
  intros Hfree first last Hlast. subst first last.
  unfold Entries. unfold_store. rewrite Hfree. cbn [files locked].
  destruct (wal_firstIndex (fs_wal F) (files s)) as [first w1]. cbn [fst snd] in *.
  split; [| split].
  - intros Hlo. apply Z.ltb_lt in Hlo. rewrite Hlo. reflexivity.
  - intros Hlo Hhi.
    replace (lo <? first) with false by (symmetry; apply Z.ltb_ge; lia).
    cbn [files locked].
    destruct (wal_LastIndex (fs_wal F) w1) as [last w2]. cbn [fst snd] in *.
    assert (Hwrap : wrap64 (last + 1) = last + 1).
    { unfold wrap64, uint64_max, uint64_modulus in *. apply Z.mod_small. lia. }
    rewrite Hwrap. replace (last + 1 <? hi) with true by (symmetry; apply Z.ltb_lt; lia).
    reflexivity.
  - intros Hlo Hhi.
    replace (lo <? first) with false by (symmetry; apply Z.ltb_ge; lia).
    cbn [files locked].
    destruct (wal_LastIndex (fs_wal F) w1) as [last w2]. cbn [fst snd] in *.
    assert (Hwrap : wrap64 (last + 1) = last + 1).
    { unfold wrap64, uint64_max, uint64_modulus in *. apply Z.mod_small. lia. }
    rewrite Hwrap. replace (last + 1 <? hi) with false by (symmetry; apply Z.ltb_ge; lia).
    cbn [files locked].
    destruct (wal_allEntries (fs_wal F) lo hi maxSize w2) as [ents w3]. reflexivity.
Qed.

Ltac save_cases :=
  repeat split; intros; try discriminate;
  repeat match goal with H : Some _ = Some _ |- _ => injection H as <- end;
  reflexivity.

(** X20.  [SaveEntries] writes in order and stops at the first error.  It
    reads the old hard state, hands the entries to the log, stores the new
    hard state and, when [raft.MustSync] asks for it, syncs the meta file
    and then the log.  The first of these calls that fails ends it: its
    error is returned, as it is for the first three and wrapped for the
    two syncs, and the calls after it are not made.  So the hard state is
    stored only after the log has taken the entries, and the log is synced
    only after the meta file is.  In every case the call returns and the
    mutex is free again. *)
Theorem DiskStorage_SaveEntries_order (h : HardState) (es : list Entry) (s : store W) :
  locked s = false ->
  let old := meta_HardState (fs_meta F) (files s) in
  let added := wal_AddEntries (fs_wal F) es (snd old) in
  let stored := meta_StoreHardState (fs_meta F) h (snd added) in
  let must := raft_MustSync F (fst (fst old)) h (len es) in
  let msync := meta_Sync (fs_meta F) (snd stored) in
  let wsync := wal_current_Sync (fs_wal F) (snd msync) in
  (forall e, snd (fst old) = Some e ->
     SaveEntries F h es s =
       (Returns (Some e), mkStore false (snd old), [EvMetaHardState])) /\
  (forall e, snd (fst old) = None -> fst added = Some e ->
     SaveEntries F h es s =
       (Returns (Some e), mkStore false (snd added),
        [EvMetaHardState; EvWalAddEntries es])) /\
  (forall e, snd (fst old) = None -> fst added = None -> fst stored = Some e ->
     SaveEntries F h es s =
       (Returns (Some e), mkStore false (snd stored),
        [EvMetaHardState; EvWalAddEntries es; EvMetaStoreHardState h])) /\
  (snd (fst old) = None -> fst added = None -> fst stored = None -> must = false ->
     SaveEntries F h es s =
       (Returns None, mkStore false (snd stored),
        [EvMetaHardState; EvWalAddEntries es; EvMetaStoreHardState h])) /\
  (forall e, snd (fst old) = None -> fst added = None -> fst stored = None ->
     must = true -> fst msync = Some e ->
     SaveEntries F h es s =
       (Returns (Some (Wrapf e "while syncing meta")), mkStore false (snd msync),
        [EvMetaHardState; EvWalAddEntries es; EvMetaStoreHardState h; EvMetaSync])) /\
  (forall e, snd (fst old) = None -> fst added = None -> fst stored = None ->
     must = true -> fst msync = None -> fst wsync = Some e ->
     SaveEntries F h es s =
       (Returns (Some (Wrapf e "while syncing current file")), mkStore false (snd wsync),
        [EvMetaHardState; EvWalAddEntries es; EvMetaStoreHardState h;
         EvMetaSync; EvWalSync])) /\
  (snd (fst old) = None -> fst added = None -> fst stored = None ->
     must = true -> fst msync = None -> fst wsync = None ->
     SaveEntries F h es s =
       (Returns None, mkStore false (snd wsync),
        [EvMetaHardState; EvWalAddEntries es; EvMetaStoreHardState h;
         EvMetaSync; EvWalSync])).
Proof.
  intros Hfree old added stored must msync wsync.
  subst old added stored must msync wsync.
  unfold SaveEntries. unfold_store. rewrite Hfree.
  cbn [files locked].
  destruct (meta_HardState (fs_meta F) (files s)) as [[old [e1 |]] w1]; cbn [fst snd].
  { save_cases. }
  cbn [files locked].
  destruct (wal_AddEntries (fs_wal F) es w1) as [[e2 |] w2]; cbn [fst snd].
  { save_cases. }
  cbn [files locked].
  destruct (meta_StoreHardState (fs_meta F) h w2) as [[e3 |] w3]; cbn [fst snd].
  { save_cases. }
  destruct (raft_MustSync F old h (len es)); cbn [files locked fst snd].
  - destruct (meta_Sync (fs_meta F) w3) as [[e4 |] w4]; cbn [fst snd].
    { save_cases. }
    cbn [files locked].
    destruct (wal_current_Sync (fs_wal F) w4) as [[e5 |] w5]; cbn [fst snd];
      save_cases.
  - save_cases.
Qed.

(** X21.  [CreateSnapshot] at an index.  An index below the first index of the
    store is [ErrSnapOutOfDate], and nothing is sought or stored.
    Otherwise the entry at the index is sought; with a nil configuration
    the process then exits in [AssertTrue], holding the mutex and with
    nothing stored.  With a configuration the snapshot stored and returned
    has the index, the term of that entry, the configuration and the data
    given, and the log is cut below the index only after the meta file has
    taken the snapshot. *)
Theorem DiskStorage_CreateSnapshot_contract (i : uint64) (cs : option ConfState) (data : bytes)
  (s : store W) :
  locked s = false ->
  let si := meta_Uint (fs_meta F) SnapshotIndex (files s) in
  let wf := wal_firstIndex (fs_wal F) (snd si) in
  let first := if 0 <? fst si then wrap64 (fst si + 1) else fst wf in
  let w1 := if 0 <? fst si then snd si else snd wf in
  let pre := if 0 <? fst si then [EvMetaUint SnapshotIndex]
             else [EvMetaUint SnapshotIndex; EvWalFirstIndex] in
  let sought := wal_seekEntry (fs_wal F) i w1 in
  (i < first ->
     CreateSnapshot F i cs data s =
       (Returns (Snapshot_empty, Some ErrSnapOutOfDate), mkStore false w1, pre)) /\
  (first <= i -> snd (fst sought) = None -> cs = None ->
     CreateSnapshot F i cs data s =
       (Exits, mkStore true (snd sought), pre ++ [EvWalSeekEntry i])) /\
  (forall conf, first <= i -> snd (fst sought) = None -> cs = Some conf ->
     let snap := mkSnapshot data (mkSnapshotMetadata conf i (fst (fst sought))) in
     let stored := meta_StoreSnapshot (fs_meta F) snap (snd sought) in
     CreateSnapshot F i cs data s =
       match fst stored with
       | Some e =>
           (Returns (Snapshot_empty, Some e), mkStore false (snd stored),
            pre ++ [EvWalSeekEntry i; EvMetaStoreSnapshot snap])
       | None =>
           (Returns (snap, None),
            mkStore false (snd (wal_deleteBefore (fs_wal F) i (snd stored))),
            pre ++ [EvWalSeekEntry i; EvMetaStoreSnapshot snap; EvWalDeleteBefore i])
       end).
Proof.
  intros Hfree si wf first w1 pre sought. subst sought pre w1 first wf si.
  unfold CreateSnapshot. unfold_store. rewrite Hfree. cbn [files locked].
  destruct (meta_Uint (fs_meta F) SnapshotIndex (files s)) as [si w0]. cbn [fst snd].
  destruct (0 <? si); cbn [files locked].
  - split; [| split].
    + intros Hlt. apply Z.ltb_lt in Hlt. rewrite Hlt. reflexivity.
    + intros Hge Hseek Hcs. subst cs.
      replace (i <? wrap64 (si + 1)) with false by (symmetry; apply Z.ltb_ge; lia).
      cbn [files locked].
      destruct (wal_seekEntry (fs_wal F) i w0) as [[term err] w2]. cbn [fst snd] in *.
      subst err. reflexivity.
    + intros conf Hge Hseek Hcs. subst cs.
      replace (i <? wrap64 (si + 1)) with false by (symmetry; apply Z.ltb_ge; lia).
      cbn [files locked].
      destruct (wal_seekEntry (fs_wal F) i w0) as [[term err] w2]. cbn [fst snd] in *.
      subst err. cbn [locked files md_Index snap_Metadata].
      destruct (meta_StoreSnapshot (fs_meta F) _ w2) as [[e |] w3];
        cbn [fst snd locked files].
      * reflexivity.
      * destruct (wal_deleteBefore (fs_wal F) i w3) as [u w4]. reflexivity.
  - destruct (wal_firstIndex (fs_wal F) w0) as [first w1]. cbn [fst snd].
    split; [| split].
    + intros Hlt. apply Z.ltb_lt in Hlt. rewrite Hlt. reflexivity.
    + intros Hge Hseek Hcs. subst cs.
      replace (i <? first) with false by (symmetry; apply Z.ltb_ge; lia).
      cbn [files locked].
      destruct (wal_seekEntry (fs_wal F) i w1) as [[term err] w2]. cbn [fst snd] in *.
      subst err. reflexivity.
    + intros conf Hge Hseek Hcs. subst cs.
      replace (i <? first) with false by (symmetry; apply Z.ltb_ge; lia).
      cbn [files locked].
      destruct (wal_seekEntry (fs_wal F) i w1) as [[term err] w2]. cbn [fst snd] in *.
      subst err. cbn [locked files md_Index snap_Metadata].
      destruct (meta_StoreSnapshot (fs_meta F) _ w2) as [[e |] w3];
        cbn [fst snd locked files].
      * reflexivity.
      * destruct (wal_deleteBefore (fs_wal F) i w3) as [u w4]. reflexivity.
Qed.

End DiskStorageProperties3.

Lemma DiskStorage_Term_contract_witness :
  raftwal.locked DemoWal.free = false /\
  raftwal.Term (DemoWal.files_at 5 1 9) 3 DemoWal.free =
    (raftwal.Returns (0, Some raftwal.ErrCompacted), DemoWal.free,
     [raftwal.EvMetaUint raftwal.SnapshotIndex]) /\
  raftwal.Term (DemoWal.files_at 5 1 9) 5 DemoWal.free =
    (raftwal.Returns (1, None), DemoWal.free,
     [raftwal.EvMetaUint raftwal.SnapshotIndex; raftwal.EvMetaUint raftwal.SnapshotTerm]).
Proof.
  split; [reflexivity |]. split.
  - destruct (DiskStorage_Term_contract (DemoWal.files_at 5 1 9) 3 DemoWal.free eq_refl)
      as (Hbelow & _).
    apply Hbelow. reflexivity.
  - destruct (DiskStorage_Term_contract (DemoWal.files_at 5 1 9) 5 DemoWal.free eq_refl)
      as (_ & Hat & _).
    apply Hat. reflexivity.
Defined.

Lemma DiskStorage_Entries_contract_witness :
  raftwal.locked DemoWal.free = false /\
  0 <= 9 < uint64_max /\
  raftwal.Entries (DemoWal.files_at 0 3 9) 1 5 100 DemoWal.free =
    (raftwal.Returns ([], Some raftwal.ErrCompacted), DemoWal.free,
     [raftwal.EvWalFirstIndex]) /\
  raftwal.Entries (DemoWal.files_at 0 3 9) 4 11 100 DemoWal.free =
    (raftwal.Returns ([], Some raftwal.ErrUnavailable), DemoWal.free,
     [raftwal.EvWalFirstIndex; raftwal.EvWalLastIndex]).
Proof.
  assert (Hlast : 0 <= 9 < uint64_max) by (unfold uint64_max, uint64_modulus; lia).
  split; [reflexivity |]. split; [exact Hlast |]. split.
  - destruct (DiskStorage_Entries_contract (DemoWal.files_at 0 3 9) 1 5 100 DemoWal.free eq_refl Hlast)
      as (Hbelow & _).
    apply Hbelow. reflexivity.
  - destruct (DiskStorage_Entries_contract (DemoWal.files_at 0 3 9) 4 11 100 DemoWal.free eq_refl Hlast)
      as (_ & Hbeyond & _).
    apply Hbeyond; [vm_compute; intros H; discriminate H | reflexivity].
Defined.

Lemma DiskStorage_SaveEntries_order_witness :
  raftwal.locked DemoWal.free = false /\
  raftwal.SaveEntries (DemoWal.files_at 0 1 9) (mkHardState 1 0 0)
                      [DemoWal.entry_at 10] DemoWal.free =
    (raftwal.Returns None, raftwal.mkStore false [DemoWal.entry_at 10],
     [raftwal.EvMetaHardState; raftwal.EvWalAddEntries [DemoWal.entry_at 10];
      raftwal.EvMetaStoreHardState (mkHardState 1 0 0);
      raftwal.EvMetaSync; raftwal.EvWalSync]) /\
  raftwal.SaveEntries (DemoWal.files_full 0 1 9) (mkHardState 1 0 0)
                      [DemoWal.entry_at 10] DemoWal.free =
    (raftwal.Returns (Some (raftwal.ErrFile "log is full")), DemoWal.free,
     [raftwal.EvMetaHardState; raftwal.EvWalAddEntries [DemoWal.entry_at 10]]).
Proof.
  split; [reflexivity |]. split.
  - destruct (DiskStorage_SaveEntries_order (DemoWal.files_at 0 1 9) (mkHardState 1 0 0)
                [DemoWal.entry_at 10] DemoWal.free eq_refl)
      as (_ & _ & _ & _ & _ & _ & Hdone).
    exact (Hdone eq_refl eq_refl eq_refl eq_refl eq_refl eq_refl).
  - destruct (DiskStorage_SaveEntries_order (DemoWal.files_full 0 1 9) (mkHardState 1 0 0)
                [DemoWal.entry_at 10] DemoWal.free eq_refl)
      as (_ & Hfull & _).
    exact (Hfull (raftwal.ErrFile "log is full") eq_refl eq_refl).
Defined.

Lemma DiskStorage_CreateSnapshot_contract_witness :
  raftwal.locked DemoWal.free = false /\
  raftwal.CreateSnapshot (DemoWal.files_at 0 6 9) 5 None [] DemoWal.free =
    (raftwal.Returns (raftwal.Snapshot_empty, Some raftwal.ErrSnapOutOfDate),
     DemoWal.free, [raftwal.EvMetaUint raftwal.SnapshotIndex; raftwal.EvWalFirstIndex]) /\
  raftwal.CreateSnapshot (DemoWal.files_at 0 1 9) 5 None [] DemoWal.free =
    (raftwal.Exits, raftwal.mkStore true [],
     [raftwal.EvMetaUint raftwal.SnapshotIndex; raftwal.EvWalFirstIndex;
      raftwal.EvWalSeekEntry 5]).
Proof.
  split; [reflexivity |]. split.
  - destruct (DiskStorage_CreateSnapshot_contract (DemoWal.files_at 0 6 9) 5 None [] DemoWal.free
                                      eq_refl) as (Hold & _).
    apply Hold. reflexivity.
  - destruct (DiskStorage_CreateSnapshot_contract (DemoWal.files_at 0 1 9) 5 None [] DemoWal.free
                                      eq_refl) as (_ & Hnil & _).
    apply Hnil; [vm_compute; intros H; discriminate H | reflexivity | reflexivity].
Defined.

Section Mutex.

Import raftwal.

Local Open Scope wal_scope.

Context {W : Type} (F : Files W).

Lemma bind_returns {A B : Type} (m : D W A) (k : A -> D W B) (s : store W) (a : A) :
  ending_of m s = Returns a ->
  ending_of (bind m k) s = ending_of (k a) (store_after m s) /\
  store_after (bind m k) s = store_after (k a) (store_after m s).
Proof.
  unfold ending_of, store_after, bind. destruct (m s) as [[r s1] t1]. simpl.
  intros ->. destruct (k a s1) as [[r2 s2] t2]. split; reflexivity.
Qed.

Lemma steady_ret {A : Type} (a : A) : steady (ret (W := W) a).
Proof. intros s. split; [exists a; reflexivity | reflexivity]. Qed.

Lemma steady_call {A : Type} (f : W -> A * W) (e : event) : steady (call f e).
Proof.
  intros s. unfold ending_of, store_after, call. destruct (f (files s)) as [a w].
  split; [exists a; reflexivity | reflexivity].
Qed.

Lemma steady_bind {A B : Type} (m : D W A) (k : A -> D W B) :
  steady m -> (forall a, steady (k a)) -> steady (bind m k).
Proof.
  intros Hm Hk s. destruct (Hm s) as [[a Ha] Hl].
  destruct (bind_returns m k s Ha) as [He Hs]. rewrite He, Hs.
  destruct (Hk a (store_after m s)) as [Hr Hl2]. split; [exact Hr | congruence].
Qed.

Lemma moves_bind {A B : Type} (b b' b'' : bool) (m : D W A) (k : A -> D W B) :
  moves b b' m -> (forall a, moves b' b'' (k a)) -> moves b b'' (bind m k).
Proof.
  intros Hm Hk s Hs. destruct (Hm s Hs) as [[a Ha] Hl].
  destruct (bind_returns m k s Ha) as [He Hst]. rewrite He, Hst.
  apply Hk. exact Hl.
Qed.

Lemma moves_steady {A : Type} (b : bool) (m : D W A) : steady m -> moves b b m.
Proof. intros Hm s Hs. destruct (Hm s) as [Hr Hl]. split; [exact Hr | congruence]. Qed.

Lemma moves_Lock : moves false true (Lock (W := W)).
Proof.
  intros s Hs. unfold ending_of, store_after, Lock. rewrite Hs.
  split; [exists tt; reflexivity | reflexivity].
Qed.

Lemma moves_Unlock : moves true false (Unlock (W := W)).
Proof.
  intros s Hs. unfold ending_of, store_after, Unlock. rewrite Hs.
  split; [exists tt; reflexivity | reflexivity].
Qed.

Lemma with_lock_releases {A : Type} (body : D W A) :
  steady body -> releases (with_lock body).
Proof.
  intros Hbody. split.
  - intros s Hfree.
    destruct (Hbody (mkStore true (files s))) as [[a Ha] Hl].
    unfold ending_of, store_after, with_lock, Lock in *. rewrite Hfree.
    destruct (body (mkStore true (files s))) as [[r s1] t1]. simpl in *. subst r.
    unfold Unlock. rewrite Hl. simpl. split; [exists a; reflexivity | reflexivity].
  - intros s Hheld. unfold with_lock, Lock. rewrite Hheld. reflexivity.
Qed.

(** Solves [steady m] for a computation built from calls on the files. *)
Ltac steady_tac :=
  repeat first
    [ apply steady_ret
    | apply steady_call
    | apply steady_bind; [| intros]
    | match goal with
      | |- steady (match ?x with _ => _ end) => destruct x
      | |- steady (if ?x then _ else _) => destruct x
      | |- steady (let '(_, _) := ?x in _) => destruct x
      end ].

Lemma firstIndex_steady : steady (firstIndex F).
Proof. unfold firstIndex, Uint, w_meta_Uint, w_wal_firstIndex. steady_tac. Qed.

Lemma lastIndex_steady : steady (lastIndex F).
Proof. unfold lastIndex, w_meta_Uint, w_wal_LastIndex. steady_tac. Qed.

Lemma sync_steady : steady (sync F).
Proof. unfold sync, w_meta_Sync, w_wal_current_Sync. steady_tac. Qed.

Lemma Entries_releases (lo hi maxSize : uint64) : releases (Entries F lo hi maxSize).
Proof.
  unfold Entries. apply with_lock_releases.
  unfold w_wal_firstIndex, w_wal_LastIndex, w_wal_allEntries. steady_tac.
Qed.

Lemma Boot_moves (m : bytes) : moves false false (Boot F m).
Proof.
  unfold Boot.
  apply moves_bind with (b' := true); [apply moves_Lock | intros _].
  apply moves_bind with (b' := true);
    [apply moves_steady; apply firstIndex_steady | intros lo0].
  apply moves_bind with (b' := true);
    [apply moves_steady; apply lastIndex_steady | intros hi0].
  apply moves_bind with (b' := false); [apply moves_Unlock | intros _].
  apply moves_bind with (b' := false); [apply Entries_releases | intros [ents err]].
  apply moves_steady. unfold w_meta_HardState. steady_tac.
Qed.

(** X22.  The mutex of the store is given back on every path.  Each method that
    takes it returns with the mutex free when it is called with the mutex
    free, whatever the two files answer and whichever error is returned,
    and waits without touching a file when it is called with the mutex
    held.  [Boot], which locks twice in a row, releases the mutex in
    between and returns as well. *)
Theorem DiskStorage_mutex_released (lo hi maxSize idx i : uint64) (conf : ConfState) (data m : bytes)
  (h : HardState) (es : list Entry) (snap : raftpb_Snapshot) :
  releases (InitialState F) /\
  releases (Entries F lo hi maxSize) /\
  releases (Term F idx) /\
  releases (LastIndex F) /\
  releases (FirstIndex F) /\
  releases (Snapshot F) /\
  releases (CreateSnapshot F i (Some conf) data) /\
  releases (SaveEntries F h es) /\
  releases (SaveSnapshot F snap) /\
  releases (Sync F) /\
  releases (Close F) /\
  moves false false (Boot F m).
Proof.
  assert (Hlock : forall (A : Type) (body : D W A), steady body -> releases (with_lock body))
    by (intros; apply with_lock_releases; assumption).
  split; [| split; [| split; [| split; [| split; [| split; [| split; [| split;
    [| split; [| split; [| split]]]]]]]]]].
  12: apply Boot_moves.
  all: apply Hlock;
    unfold w_meta_HardState, w_meta_snapshot, w_meta_Uint, w_wal_Term,
      w_wal_LastIndex, w_wal_firstIndex, w_wal_allEntries, w_wal_AddEntries,
      w_meta_StoreHardState, w_meta_StoreSnapshot, w_wal_seekEntry, w_wal_deleteBefore,
      AssertTrue;
    repeat first
      [ apply sync_steady
      | apply firstIndex_steady
      | apply steady_ret
      | apply steady_call
      | apply steady_bind; [| intros]
      | match goal with
        | |- steady (match ?x with _ => _ end) => destruct x
        | |- steady (if ?x then _ else _) => destruct x
        | |- steady (let '(_, _) := ?x in _) => destruct x
        end ].
Qed.

End Mutex.

(** * The files of the state directory (package disk) *)

Section DiskProperties.

Import disk.

Local Open Scope disk_scope.

Context {W : Type} (os : OS W) (d : config).

Lemma insert_descending_perm (x : string) (l : list string) :
  Permutation (insert_descending x l) (x :: l).
Proof.
  induction l as [| y rest IH]; simpl.
  - apply Permutation_refl.
  - destruct (String.leb y x); [apply Permutation_refl |].
    eapply perm_trans; [apply perm_skip; exact IH | apply perm_swap].
Qed.

Lemma sort_descending_perm (l : list string) : Permutation (sort_descending l) l.
Proof.
  induction l as [| x rest IH]; simpl.
  - apply perm_nil.
  - eapply perm_trans; [apply insert_descending_perm | apply perm_skip; exact IH].
Qed.

Lemma insert_descending_hd (x : string) (l : list string) (a : string) :
  HdRel descends a l -> descends a x -> HdRel descends a (insert_descending x l).
Proof.
  intros Hl Hx. destruct l as [| y rest]; simpl.
  - constructor. exact Hx.
  - destruct (String.leb y x); constructor; [exact Hx |].
    inversion Hl; assumption.
Qed.

Lemma insert_descending_sorted (x : string) (l : list string) :
  Sorted descends l -> Sorted descends (insert_descending x l).
Proof.
  induction l as [| y rest IH]; intros Hl; simpl.
  - repeat constructor.
  - inversion Hl as [| ? ? Hrest Hhd]; subst.
    destruct (String.leb y x) eqn:Hyx.
    + constructor; [exact Hl | constructor; exact Hyx].
    + constructor; [apply IH; exact Hrest |].
      apply insert_descending_hd; [exact Hhd |].
      unfold descends. destruct (String.leb_total x y) as [H | H]; [exact H | congruence].
Qed.

Lemma sort_descending_sorted (l : list string) : Sorted descends (sort_descending l).
Proof.
  induction l as [| x rest IH]; simpl.
  - constructor.
  - apply insert_descending_sorted. exact IH.
Qed.

(** X23.  [list] gives the names that end in the extension, each as often as
    the directory has it, in descending order, so that the first name is
    the greatest; when the directory cannot be read it gives the error and
    no name. *)
Theorem list_files_descending (path ext : string) (w : W) :
  let read := os_ReadDir os path w in
  (forall e, snd (fst read) = Some e ->
     list_files os path ext w = (Returns ([], Some e), snd read, [EvReadDir path])) /\
  (snd (fst read) = None ->
     exists files,
       list_files os path ext w = (Returns (files, None), snd read, [EvReadDir path]) /\
       Permutation files (filter (fun name => HasSuffix name ext) (fst (fst read))) /\
       (forall name, In name files <->
                     In name (fst (fst read)) /\ HasSuffix name ext = true) /\
       Sorted descends files).
Proof.
  intros read. subst read. unfold list_files, os'ReadDir, bind, call, ret.
  destruct (os_ReadDir os path w) as [[ls [e |]] w1]; cbn [fst snd].
  - split; [| discriminate]. intros e' He'. injection He' as <-. reflexivity.
  - split; [discriminate |]. intros _.
    exists (sort_descending (filter (fun name => HasSuffix name ext) ls)).
    split; [reflexivity |]. split; [apply sort_descending_perm |].
    split; [| apply sort_descending_sorted].
    intros name. rewrite <- (filter_In (fun name => HasSuffix name ext)). split; intros Hin.
    + eapply Permutation_in; [apply sort_descending_perm | exact Hin].
    + eapply Permutation_in; [apply Permutation_sym; apply sort_descending_perm | exact Hin].
Qed.

Lemma last_cons (A : Type) (x : A) (l : list A) (dflt : A) :
  last (x :: l) dflt = last l x.
Proof.
  revert x dflt. induction l as [| y rest IH]; intros x dflt; [reflexivity |].
  change (last (x :: y :: rest) dflt) with (last (y :: rest) dflt).
  rewrite (IH y dflt), (IH y x). reflexivity.
Qed.

(** The first loop from position [i] on. *)
Lemma purge_snapshots_run (current : string) (files : list string) :
  forall (i : Z) (oldest : string) (w : W),
    let n := Z.to_nat (maxsnaps d - i) in
    let doomed := filter (fun f => negb (String.eqb f current)) (skipn n files) in
    let kept := firstn n files ++ filter (fun f => String.eqb f current) (skipn n files) in
    let outcome := remove_in_turn os (snapdir d) doomed w in
    exists o,
      purge_snapshots os d current i files oldest w =
        (Returns (o, fst (fst outcome)), snd (fst outcome), snd outcome) /\
      (fst (fst outcome) = None -> o = last kept oldest).
Proof.
  induction files as [| f rest IH]; intros i oldest w; cbn zeta.
  - rewrite skipn_nil, firstn_nil. cbn. exists oldest. split; reflexivity.
  - cbn [purge_snapshots].
    destruct (maxsnaps d <=? i) eqn:Hi.
    + apply Z.leb_le in Hi.
      replace (Z.to_nat (maxsnaps d - i)) with 0%nat by lia.
      cbn [skipn firstn app filter].
      destruct (String.eqb f current) eqn:Hf; cbn [negb andb].
      * specialize (IH (i + 1) f w). cbn zeta in IH.
        replace (Z.to_nat (maxsnaps d - (i + 1))) with 0%nat in IH by lia.
        cbn [skipn firstn app] in IH.
        destruct IH as (o & Hrun & Hlast). exists o. split; [exact Hrun |].
        intros Hnone. rewrite last_cons. exact (Hlast Hnone).
      * cbn [remove_in_turn].
        unfold bind, os'Remove, call, ret.
        destruct (os_Remove os (filepath_Join os (snapdir d) f) w) as [[e |] w1].
        -- exists oldest. cbn [fst snd app]. split; [reflexivity | discriminate].
        -- specialize (IH (i + 1) oldest w1). cbn zeta in IH.
           replace (Z.to_nat (maxsnaps d - (i + 1))) with 0%nat in IH by lia.
           cbn [skipn firstn app] in IH.
           destruct IH as (o & Hrun & Hlast). exists o. rewrite Hrun.
           destruct (remove_in_turn os (snapdir d)
                       (filter (fun f0 => negb (String.eqb f0 current)) rest) w1)
             as [[r w2] t].
           cbn [fst snd app] in *. split; [reflexivity | exact Hlast].
    + apply Z.leb_gt in Hi. rewrite andb_false_r.
      replace (Z.to_nat (maxsnaps d - i))
        with (S (Z.to_nat (maxsnaps d - (i + 1)))) by lia.
      cbn [skipn firstn app].
      specialize (IH (i + 1) f w). cbn zeta in IH.
      destruct IH as (o & Hrun & Hlast). exists o. split; [exact Hrun |].
      intros Hnone. rewrite last_cons. exact (Hlast Hnone).
Qed.

(** X24.  The first loop of [purge] removes, in the order of the list, the names
    from position [maxsnaps] on that differ from [current], and no other,
    and stops at the first removal that fails: it makes the calls, leaves
    the disk and gives the error of removing those names one after the
    other up to the first failure.  When no removal fails, [oldest] is the
    last name it kept: the last of the first [maxsnaps] names and of the
    names equal to [current]. *)
Theorem purge_snapshots_retention (current : string) (files : list string) (w : W) :
  let n := Z.to_nat (maxsnaps d) in
  let doomed := filter (fun f => negb (String.eqb f current)) (skipn n files) in
  let kept := firstn n files ++ filter (fun f => String.eqb f current) (skipn n files) in
  let outcome := remove_in_turn os (snapdir d) doomed w in
  exists oldest,
    purge_snapshots os d current 0 files EmptyString w =
      (Returns (oldest, fst (fst outcome)), snd (fst outcome), snd outcome) /\
    (fst (fst outcome) = None -> oldest = last kept EmptyString).
Proof.
  cbn zeta.
  pose proof (purge_snapshots_run current files 0 EmptyString w) as H.
  cbn zeta in H. rewrite Z.sub_0_r in H. exact H.
Qed.

Lemma wal_mark_run (si : uint64) (files : list string) :
  forall (i mark0 mark : Z),
    wal_mark os si i files mark0 = (mark, None) ->
    (mark = mark0 /\ forall f, In f files -> reaches os si f = false) \/
    (i <= mark < i + len files /\
     (exists f, nth_error files (Z.to_nat (mark - i)) = Some f /\ reaches os si f = true) /\
     forall k f, nth_error files k = Some f -> mark - i < Z.of_nat k ->
                 reaches os si f = false).
Proof.
  unfold len.
  induction files as [| f rest IH]; intros i mark0 mark Hrun.
  - cbn in Hrun. injection Hrun as <-. left. split; [reflexivity |]. intros f [].
  - cbn [wal_mark] in Hrun.
    assert (Hreach : reaches os si f = (si <=? snd (fst (fmt_Sscanf os f (format ++ walExt)))))
      by reflexivity.
    destruct (fmt_Sscanf os f (format ++ walExt)) as [[ws wi] [e |]]; [discriminate |].
    cbn [fst snd] in Hreach.
    apply IH in Hrun. cbn [List.length].
    destruct Hrun as [[Hm Hnone] | (Hm & (g & Hg & Hgr) & Hlater)].
    + destruct (si <=? wi) eqn:Hwi.
      * right. subst mark. split; [lia |]. split.
        -- exists f. rewrite Z.sub_diag. split; [reflexivity | exact Hreach].
        -- intros k g Hk Hlt. destruct k as [| k]; [lia |].
           apply Hnone. eapply nth_error_In. exact Hk.
      * left. split; [exact Hm |]. intros g [<- | Hin]; [exact Hreach | auto].
    + right. split; [lia |]. split.
      * exists g. replace (Z.to_nat (mark - i)) with (S (Z.to_nat (mark - (i + 1)))) by lia.
        split; assumption.
      * intros k h Hk Hlt. destruct k as [| k]; [lia |].
        apply (Hlater k h Hk). lia.
Qed.

Lemma skipn_nth (A : Type) (l : list A) (dflt : A) :
  forall i : nat, (i < List.length l)%nat -> skipn i l = nth i l dflt :: skipn (S i) l.
Proof.
  induction l as [| x rest IH]; intros i Hi; [cbn in Hi; lia |].
  destruct i as [| i]; [reflexivity |].
  cbn [skipn nth]. apply IH. cbn in Hi. lia.
Qed.

Lemma remove_wals_run (files : list string) :
  forall (n : nat) (i : Z) (w : W),
    0 <= i -> i + Z.of_nat n <= len files ->
    let outcome :=
      prune_in_turn os (waldir d) (firstn n (skipn (Z.to_nat i) (rev files))) w in
    remove_wals os d files n i w =
      (Returns (fst (fst outcome)), snd (fst outcome), snd outcome).
Proof.
  unfold len.
  induction n as [| n IH]; intros i w Hi Hn; cbn zeta.
  - reflexivity.
  - assert (Hlt : (Z.to_nat i < List.length (rev files))%nat)
      by (rewrite length_rev; lia).
    rewrite (skipn_nth (rev files) EmptyString Hlt).
    rewrite rev_nth by lia.
    replace (List.length files - S (Z.to_nat i))%nat
      with (Z.to_nat (Z.of_nat (List.length files) - i - 1)) by lia.
    replace (S (Z.to_nat i)) with (Z.to_nat (i + 1)) by lia.
    cbn [firstn prune_in_turn remove_wals].
    set (f := nth (Z.to_nat (Z.of_nat (List.length files) - i - 1)) files EmptyString).
    unfold bind, index, len.
    replace ((0 <=? Z.of_nat (List.length files) - i - 1) &&
             (Z.of_nat (List.length files) - i - 1 <? Z.of_nat (List.length files)))
      with true by (symmetry; apply andb_true_iff; split;
                    [apply Z.leb_le | apply Z.ltb_lt]; lia).
    fold f. unfold TryLockFile, os'Remove, lock'Close, call, ret.
    destruct (fileutil_TryLockFile os (filepath_Join os (waldir d) f) w) as [[e |] w1];
      cbn [fst snd app]; [reflexivity |].
    destruct (os_Remove os (filepath_Join os (waldir d) f) w1) as [[e |] w2];
      destruct (lock_Close os (filepath_Join os (waldir d) f) w2) as [[] w3];
      cbn [fst snd app]; [reflexivity |].
    rewrite (IH (i + 1) w3) by lia. cbn zeta.
    destruct (prune_in_turn os (waldir d)
                (firstn n (skipn (Z.to_nat (i + 1)) (rev files))) w3) as [[r w4] t].
    reflexivity.
Qed.

Lemma wal_mark_bound (si : uint64) (files : list string) (mark : Z) :
  wal_mark os si 0 files (-1) = (mark, None) ->
  let mark' := if (mark =? 0) && (0 <? len files) then len files - 1 else mark in
  mark' <= len files - 1 /\ (files = [] -> mark' = -1).
Proof.
  intros Hrun. cbn zeta.
  apply wal_mark_run in Hrun.
  destruct ((mark =? 0) && (0 <? len files)) eqn:Hadj.
  - split; [lia |]. intros ->. apply andb_true_iff in Hadj. destruct Hadj as [_ H].
    discriminate H.
  - destruct Hrun as [[-> _] | (Hm & _)].
    + split; [unfold len; lia |]. reflexivity.
    + split; [lia |]. intros ->. unfold len in Hm. cbn in Hm. lia.
Qed.

(** X25.  The log files [purge] removes.  [mark] is the position of the last
    name of the list that starts at or after the index of the oldest
    snapshot kept, or [-1] when there is none; the third loop then takes
    as many names as [mark] says (all but the first when [mark] is [0])
    from the end of the list, the last name first, and for each locks the
    file, removes it and closes the lock.  It stops at the first lock or
    removal that fails and returns that error: it makes the calls, leaves
    the disk and gives the error of pruning those names one after the
    other up to the first failure.  It never takes the first name and
    reads no position outside the list. *)
Theorem purge_wals_from_the_end (si : uint64) (files : list string) (mark : Z) (w : W) :
  wal_mark os si 0 files (-1) = (mark, None) ->
  let mark' := if (mark =? 0) && (0 <? len files) then len files - 1 else mark in
  let doomed := firstn (Z.to_nat mark') (rev files) in
  let outcome := prune_in_turn os (waldir d) doomed w in
  ((mark = -1 /\ forall f, In f files -> reaches os si f = false) \/
   (0 <= mark < len files /\
    (exists f, nth_error files (Z.to_nat mark) = Some f /\ reaches os si f = true) /\
    forall k f, nth_error files k = Some f -> mark < Z.of_nat k ->
                reaches os si f = false)) /\
  (exists kept, rev files = doomed ++ kept /\ (files <> [] -> kept <> [])) /\
  remove_wals os d files (Z.to_nat mark') 0 w =
    (Returns (fst (fst outcome)), snd (fst outcome), snd outcome).
Proof.
  intros Hrun. cbn zeta.
  pose proof (wal_mark_bound si files Hrun) as [Hle Hnil]. cbn zeta in Hle, Hnil.
  set (mark' := if (mark =? 0) && (0 <? len files) then len files - 1 else mark) in *.
  split.
  - apply wal_mark_run in Hrun.
    destruct Hrun as [H | (Hm & (f & Hf & Hr) & Hlater)]; [left; exact H | right].
    rewrite Z.sub_0_r in Hf. split; [lia |]. split; [exists f; split; assumption |].
    intros k g Hk Hlt. apply (Hlater k g Hk). lia.
  - split.
    + exists (skipn (Z.to_nat mark') (rev files)).
      split; [symmetry; apply firstn_skipn |].
      intros Hne Hkept.
      apply (f_equal (@List.length string)) in Hkept.
      rewrite length_skipn, length_rev in Hkept. cbn in Hkept.
      assert (0 < len files) by (unfold len; destruct files; [congruence | cbn; lia]).
      unfold len in *. lia.
    + pose proof (@remove_wals_run files (Z.to_nat mark') 0 w) as Hloop.
      cbn zeta in Hloop. cbn [Z.to_nat skipn] in Hloop.
      apply Hloop; [lia | unfold len in *; lia].
Qed.

Lemma list_files_run (path ext : string) (w : W) :
  exists files err,
    list_files os path ext w = (Returns (files, err), snd (os_ReadDir os path w),
                                [EvReadDir path]) /\
    (err = None ->
     snd (fst (os_ReadDir os path w)) = None /\
     files = sort_descending (filter (fun name => HasSuffix name ext)
                                     (fst (fst (os_ReadDir os path w))))).
Proof.
  unfold list_files, os'ReadDir, bind, call, ret.
  destruct (os_ReadDir os path w) as [[ls [e |]] w1]; cbn [fst snd].
  - exists [], (Some e). split; [reflexivity | discriminate].
  - eexists _, None. split; [reflexivity |]. intros _. split; reflexivity.
Qed.

(** X26.  [purge] never panics: [files[0]] is read of a list that is not empty,
    and the third loop reads [files[len(files)-i-1]] only for [i] below
    [mark], which is below the length of the list. *)
Theorem purge_never_panics (w : W) : ending_of (purge os d) w = Returns tt.
Proof.
  assert (Hfn : exists r, ending_of (purge_fn os d) w = Returns r).
  { unfold ending_of, purge_fn.
    unfold bind at 1.
    destruct (list_files_run (snapdir d) snapExt w) as (snaps & err & Hlist & _).
    rewrite Hlist. clear Hlist.
    set (w1 := snd (os_ReadDir os (snapdir d) w)). clearbody w1.
    destruct err as [e |]; [eexists; reflexivity |].
    destruct ((len snaps <? maxsnaps d) || (len snaps =? 0)) eqn:Hguard;
      [eexists; reflexivity |].
    apply orb_false_iff in Hguard. destruct Hguard as [_ Hlen].
    apply Z.eqb_neq in Hlen.
    unfold bind at 1. unfold index at 1.
    replace ((0 <=? 0) && (0 <? len snaps)) with true
      by (symmetry; apply andb_true_iff; split;
          [reflexivity | apply Z.ltb_lt; unfold len in *; lia]).
    set (current := nth (Z.to_nat 0) snaps EmptyString). clearbody current.
    unfold bind at 1.
    destruct (@purge_snapshots_run current snaps 0 EmptyString w1) as (oldest & Hr & _).
    cbn zeta in Hr. rewrite Hr. clear Hr.
    set (err := fst (fst (remove_in_turn os (snapdir d) _ w1))). clearbody err.
    set (w2 := snd (fst (remove_in_turn os (snapdir d) _ w1))). clearbody w2.
    set (t2 := snd (remove_in_turn os (snapdir d) _ w1)). clearbody t2.
    destruct err as [e |]; [eexists; reflexivity |].
    destruct (fmt_Sscanf os oldest (format ++ snapExt)) as [[st si] [e |]];
      [eexists; reflexivity |].
    unfold bind at 1.
    destruct (list_files_run (waldir d) walExt w2) as (wals & err & Hlist & _).
    rewrite Hlist. clear Hlist.
    set (w3 := snd (os_ReadDir os (waldir d) w2)). clearbody w3.
    destruct err as [e |]; [eexists; reflexivity |].
    destruct (wal_mark os si 0 wals (-1)) as [mark [e |]] eqn:Hmark;
      [eexists; reflexivity |].
    pose proof (wal_mark_bound si wals Hmark) as [Hle _]. cbn zeta in Hle.
    rewrite (@remove_wals_run wals
               (Z.to_nat (if (mark =? 0) && (0 <? len wals) then len wals - 1 else mark))
               0 w3) by (unfold len in *; lia).
    eexists; reflexivity. }
  destruct Hfn as [r Hr]. unfold ending_of, purge, bind, ret in *.
  destruct (purge_fn os d w) as [[r' w'] t]. cbn [fst] in Hr. subst r'. reflexivity.
Qed.

Lemma sort_descending_length (l : list string) :
  List.length (sort_descending l) = List.length l.
Proof. apply Permutation_length, sort_descending_perm. Qed.

(** X27.  [purge] touches nothing when the snapshot directory cannot be read,
    when it holds fewer snapshot files than [maxsnaps], or none: it reads
    that directory and returns, and neither lists the log files nor
    removes a file. *)
Theorem purge_below_limit (w : W) :
  let read := os_ReadDir os (snapdir d) w in
  let snaps := filter (fun name => HasSuffix name snapExt) (fst (fst read)) in
  snd (fst read) <> None \/ len snaps < maxsnaps d \/ snaps = [] ->
  purge os d w = (Returns tt, snd read, [EvReadDir (snapdir d)]).
Proof.
  cbn zeta. intros Hfew.
  unfold purge, purge_fn, list_files, os'ReadDir, bind, call, ret.
  destruct (os_ReadDir os (snapdir d) w) as [[ls [e |]] w1]; cbn [fst snd] in *;
    [reflexivity |].
  replace ((len (sort_descending (filter (fun name => HasSuffix name snapExt) ls))
            <? maxsnaps d) ||
           (len (sort_descending (filter (fun name => HasSuffix name snapExt) ls)) =? 0))
    with true; [reflexivity |].
  symmetry. apply orb_true_iff. unfold len. rewrite sort_descending_length.
  destruct Hfew as [H | [H | H]]; [congruence | left; apply Z.ltb_lt; exact H |].
  right. rewrite H. reflexivity.
Qed.

End DiskProperties.

Lemma list_files_descending_witness :
  disk.list_files DemoDisk.os "snap" disk.snapExt DemoDisk.state_dir =
    (disk.Returns (["0000000000000002-0000000000000030.snap"%string;
                    "0000000000000001-0000000000000020.snap"%string;
                    "0000000000000001-0000000000000010.snap"%string], None),
     DemoDisk.state_dir, [disk.EvReadDir "snap"]) /\
  (exists files,
     disk.list_files DemoDisk.os "snap" disk.snapExt DemoDisk.state_dir =
       (disk.Returns (files, None), DemoDisk.state_dir, [disk.EvReadDir "snap"]) /\
     Sorted disk.descends files).
Proof.
  destruct (list_files_descending DemoDisk.os "snap" disk.snapExt DemoDisk.state_dir)
    as (_ & Hread).
  destruct (Hread eq_refl) as (files & Hrun & _ & _ & Hsorted).
  split; [reflexivity |].
  exists files. split; [exact Hrun | exact Hsorted].
Defined.

Lemma purge_snapshots_retention_witness :
  disk.purge_snapshots DemoDisk.os (DemoDisk.keeping 1)
    "0000000000000002-0000000000000030.snap" 0
    (disk.sort_descending (filter (fun name => disk.HasSuffix name disk.snapExt)
                                   (fst DemoDisk.state_dir))) EmptyString
    DemoDisk.state_dir =
    (disk.Returns ("0000000000000002-0000000000000030.snap"%string, None),
     (["0000000000000002-0000000000000030.snap"%string; "notes.txt"%string],
      snd DemoDisk.state_dir),
     [disk.EvRemove "snap/0000000000000001-0000000000000020.snap";
      disk.EvRemove "snap/0000000000000001-0000000000000010.snap"]) /\
  disk.trace
    (disk.purge_snapshots DemoDisk.os_read_only (DemoDisk.keeping 1)
       "0000000000000002-0000000000000030.snap" 0
       (disk.sort_descending (filter (fun name => disk.HasSuffix name disk.snapExt)
                                      (fst DemoDisk.state_dir))) EmptyString)
    DemoDisk.state_dir =
    [disk.EvRemove "snap/0000000000000001-0000000000000020.snap"].
Proof.
  destruct (purge_snapshots_retention DemoDisk.os (DemoDisk.keeping 1)
              "0000000000000002-0000000000000030.snap"
              (disk.sort_descending (filter (fun name => disk.HasSuffix name disk.snapExt)
                                             (fst DemoDisk.state_dir)))
              DemoDisk.state_dir) as (oldest & Hrun & Hlast).
  destruct (purge_snapshots_retention DemoDisk.os_read_only (DemoDisk.keeping 1)
              "0000000000000002-0000000000000030.snap"
              (disk.sort_descending (filter (fun name => disk.HasSuffix name disk.snapExt)
                                             (fst DemoDisk.state_dir)))
              DemoDisk.state_dir) as (kept & Hstop & _).
  split.
  - rewrite Hrun, (Hlast eq_refl). reflexivity.
  - unfold disk.trace. rewrite Hstop. reflexivity.
Defined.

Lemma purge_wals_from_the_end_witness :
  disk.wal_mark DemoDisk.os 16 0
    (disk.sort_descending (snd DemoDisk.state_dir)) (-1) = (2, None) /\
  disk.trace
    (disk.remove_wals DemoDisk.os (DemoDisk.keeping 3)
       (disk.sort_descending (snd DemoDisk.state_dir)) 2 0) DemoDisk.state_dir =
    [disk.EvTryLockFile "wal/0000000000000000-0000000000000001.wal";
     disk.EvRemove "wal/0000000000000000-0000000000000001.wal";
     disk.EvLockClose "wal/0000000000000000-0000000000000001.wal";
     disk.EvTryLockFile "wal/0000000000000001-0000000000000010.wal";
     disk.EvRemove "wal/0000000000000001-0000000000000010.wal";
     disk.EvLockClose "wal/0000000000000001-0000000000000010.wal"] /\
  disk.reaches DemoDisk.os 16 "0000000000000001-0000000000000010.wal" = true /\
  disk.remove_wals DemoDisk.os_read_only (DemoDisk.keeping 3)
    (disk.sort_descending (snd DemoDisk.state_dir)) 2 0 DemoDisk.state_dir =
    (disk.Returns (Some (disk.ErrOS "read-only file system")), DemoDisk.state_dir,
     [disk.EvTryLockFile "wal/0000000000000000-0000000000000001.wal";
      disk.EvRemove "wal/0000000000000000-0000000000000001.wal";
      disk.EvLockClose "wal/0000000000000000-0000000000000001.wal"]).
Proof.
  destruct (@purge_wals_from_the_end _ DemoDisk.os (DemoDisk.keeping 3) 16
              (disk.sort_descending (snd DemoDisk.state_dir)) 2 DemoDisk.state_dir
              eq_refl) as (_ & _ & Hdone).
  destruct (@purge_wals_from_the_end _ DemoDisk.os_read_only (DemoDisk.keeping 3) 16
              (disk.sort_descending (snd DemoDisk.state_dir)) 2 DemoDisk.state_dir
              eq_refl) as (_ & _ & Hstop).
  split; [reflexivity |]. split; [| split; [reflexivity |]].
  - exact (f_equal snd Hdone).
  - exact Hstop.
Defined.

Lemma purge_below_limit_witness :
  len (filter (fun name => disk.HasSuffix name disk.snapExt) (fst DemoDisk.state_dir)) = 3 /\
  disk.purge DemoDisk.os (DemoDisk.keeping 4) DemoDisk.state_dir =
    (disk.Returns tt, DemoDisk.state_dir, [disk.EvReadDir "snap"]).
Proof.
  split; [reflexivity |].
  apply (purge_below_limit DemoDisk.os (DemoDisk.keeping 4) DemoDisk.state_dir).
  right. left. reflexivity.
Defined.
